(* ===== verification/_CoqProject ===== *)
-Q . S2P
Prelude.v
Layout.v
Hash.v
Pack.v
Node.v
Msgs.v
Leaf.v
Pivot.v
Avl.v
Ranges.v
Blk.v
Alloc.v
Logged.v
Compress.v
Arena.v
Syncq.v
Cache.v
Handles.v
Epoch.v
Tree.v
Upsert.v
Scan.v
Split.v
Flush.v
Check.v
Lost.v
Arenas.v
Conv9p.v
Dead.v
Dlist.v
Reclaim.v
Maptree.v
History.v
