(* ===== verification/Prelude.v ===== *)
(** Plan2001: a verification of gefs, the file system of its kernel, and of the
    9P wire format that requests to it arrive in.

    The repository is a 9front system whose kernel carries gefs, a
    copy-on-write B-epsilon tree (src/sys/src/9/gefs).  This development models
    the data structures of gefs, from the bytes of a block up to lookups,
    updates and scans of a tree, the allocator and its log, the block cache,
    the sync queue, the reclamation of memory and the deadlists of snapshots;
    and libc's conversions of 9P
    messages and stat buffers (src/sys/src/libc/9sys), which gefs reads every
    request with.

    * How the code is read

    C code runs in the monad [res] below: it returns a value, or a fault: a
    failed assertion ([Abort]), broke() ([Broke]), error() ([Error]), an access
    outside of a buffer ([Undef]), or a loop of the model that ran out of fuel
    ([Fuel]).  A loop of the code is a Fixpoint with fuel or over a counter; the
    theorems that say what a function returns say [Ok], so that they include
    that the fuel the definitions give is enough and that no assertion fails.
    Integers are Z, wrapped to their C width where they are stored or where the
    width matters; bytes are Z between 0 and 255.  Definitions keep the names of
    the C functions, and a C function that loops is a Fixpoint of its own.
    Reading a block by its pointer (getblk) is a parameter [fetch] of the tree
    functions, the device a map of block contents; memory allocation succeeds.

    * The files

    The block layer.  [Layout]: gdat.h's constants, records and operations.
    [Hash]: hash.c.  [Pack]: pack.c.  [Blk]: headers, checksums and readblk of
    blk.c.
      Shown: what is packed is unpacked again, by every pair of pack.c and
      through a block on the disk; a block that does not match its pointer is
      an error.

    The tree (tree.c).  [Node]: the slotted blocks of leaves and pivots and
    their searches.  [Msgs]: stablesort, apply, pullmsg.  [Leaf] and [Split]:
    updateleaf and splitleaf.  [Pivot]: updatepiv, splitpiv, merge, rotate,
    rotmerge.  [Tree]: btlookup.  [Upsert]: fastupsert.  [Scan]: btnewscan,
    btenter, btnext, btexit.  [Flush]: btupsert1 when the root's buffer is full:
    the choice of the victim, the descent, and the way back up.  [Check]:
    checktree of check.c.  [Lost]: a tree checktree finds nothing wrong with
    and an upsert of it that loses another key.
      A block is related to the values and messages it holds by [blk_repr], the
      blocks from a root to an abstract tree by [rep], and an abstract tree
      means, by [sem], a value or none for every key: that of its leaf changed
      by the buffered messages, the lowest first.
      Shown: the searches find what they should; rebuilding, splitting,
      merging and rotating blocks keeps every value and message, applies the
      pulled messages in order and frees the data blocks that become unused;
      btlookup finds what the tree means; fastupsert changes the meaning by its
      batch and nothing else; a scan in pieces gives every entry once, in
      order.

    The allocator (blk.c, avl.c).  [Avl]: the balanced trees.  [Ranges]: the
    free ranges of an arena.  [Alloc]: one arena's allocator and its log.
    [Logged]: what its operations do to memory and to the log.  [Compress]: the
    compaction of the log.  [Arena]: an arena as a state machine with
    crashes.  [Arenas]: the choice among arenas.
      Shown: the trees stay balanced search trees; a block handed out was free
      and is handed to nobody else; after a crash the log gives the free space
      back, up to the last barrier the superblock has; compacting the log keeps
      what it says; allocation fails only when the arenas it asked cannot take
      it, and all were asked but for one in a case that is spelled out.

    Memory (cache.c, blk.c).  [Cache]: the hash table, the LRU list and the
    reference counts.  [Handles]: getblk, newblk and newdblk, and the cache
    under any interleaving of processes; cachepluck is two steps, as it lets go
    of the list's lock before it takes its reference.  [Syncq]: the heap of
    writes and fences.  [Epoch]: epoch-based reclamation, every atomic access a
    step, with limbo called from inside and outside of epochs and by closesnap
    from epochclean's own releases.
      Shown: the cache refines a map with a list of the unused, and keeps its
      invariant under the interleavings in which no dropblk puts a buffer back
      on the list between the two steps of its pluck, and there is an
      interleaving with such a dropblk in which a buffer is plucked twice; the
      queue is a priority queue that puts a fence before what comes after it;
      nothing is released while a worker that could have seen it is inside, and
      with no worker inside six calls of epochclean release everything, three
      when no closed snapshot puts its tree back.

    Snapshots (snap.c).  [Dead]: the deadlists, that is the blocks killed by the
    writers of a snapshot, their cache, and what deleting a snapshot does to
    them; a logic for the code's monad, in which a run ends well or finds the
    file system full.  [Dlist]: the deadlists of a file system as a map from
    two generations to blocks, and getdl, putdl, killblk, dlsync, splicedl and
    freedl against it.  [Reclaim]: mergedl, dropdl and reclaimblocks.
    [Maptree]: a snapshot tree that is a map, and newblk.  [History]: a line of
    snapshots and its history of kills and deletions.
      The snapshot tree is the interface [SnapTree], which the trees of tree.c
      are to have: a lookup, an update by messages that means what [mrun]
      says, a scan of a prefix.  [Maptree] shows that the laws can hold.
      Shown: the deadlist of a generation always has exactly the blocks that
      the snapshot before it sees and it does not, whatever the cache has; a
      block is given up when the last snapshot that saw it is deleted; what
      dlsync leaves in the snapshot tree is enough to free every list.

    9P.  [Conv9p]: convS2M, convM2S, convD2M, convM2D, sizeS2M, sizeD2M and
    statcheck.
      Shown: messages and stat buffers round-trip; reading never leaves the
      bytes it was given, whatever they hold.

    * Not modelled

    The file operations of gefs on top of the tree (fs.c, obj.c, user.c), the
    labels of snapshots and the links between them (tagsnap, updatesnap,
    opensnap, and in delsnap the records it rewrites), its consoles, dumps and checks (cons.c, ctl.c, dump.c, check.c but for checktree),
    loading a file system (load.c but for rangecmp), its system interface
    (kern.c but for setting up the cache) and the device itself are not modelled;
    they call what is.
    Of blk.c, the loop of runsync is left out, and of the disposal of the
    objects an epoch releases all but the calls of limbo it makes.  The descent of a flush is modelled with its
    steps' theorems; no theorem here covers a whole flush of several levels.  Locks are
    taken as held where the code holds them; the places where processes
    interleave are modelled in [Handles] and [Epoch].  The rest of the
    repository (kernel ports, drivers, the IP stack, compilers, commands,
    libraries and vendored programs) is not modelled. *)

(** Shared foundations: the result monad in which the C code is read, byte
    strings and their big- and little-endian integers, and the list lemmas the
    component files use. *)

From stdpp Require Export base list numbers strings option sorting sets gmap.
From Stdlib Require Export ZArith Lia.

#[global] Open Scope Z_scope.

(** * Faults

    What a C function can do instead of returning. *)
Inductive fault :=
  | Abort                 (* assert, bassert, abort, fatal: the kernel panics *)
  | Broke (s : string)    (* broke(): the file system turns read-only *)
  | Error (s : string)    (* error(): unwinds to the nearest waserror() *)
  | Undef                 (* the C code reads outside of its buffer *)
  | Fuel.                 (* a bounded loop of the model ran out of fuel *)

Inductive res (A : Type) :=
  | Ok (a : A)
  | Fail (f : fault).
Arguments Ok {_} _.
Arguments Fail {_} _.

#[global] Instance fault_eq_dec : EqDecision fault.
Proof. solve_decision. Defined.

#[global] Instance res_ret : MRet res := fun A a => Ok a.
#[global] Instance res_bind : MBind res :=
  fun A B f m => match m with Ok a => f a | Fail e => Fail e end.

Definition is_Ok {A} (m : res A) : Prop := exists a, m = Ok a.

(** The guard of [assert(b)] and of [bassert(blk, b)]. *)
Definition check (b : bool) : res unit := if b then Ok tt else Fail Abort.

(** The guard of [if(!b) error(s)]. *)
Definition raise_unless (b : bool) (s : string) : res unit :=
  if b then Ok tt else Fail (Error s).

Definition of_option {A} (o : option A) (f : fault) : res A :=
  match o with Some a => Ok a | None => Fail f end.

Lemma bind_Ok {A B} (m : res A) (f : A -> res B) b :
  (m ≫= f) = Ok b <-> exists a, m = Ok a /\ f a = Ok b.
Proof. destruct m; cbn; naive_solver. Qed.

Lemma bind_ok {A B} (a : A) (f : A -> res B) : (Ok a ≫= f) = f a.
Proof. done. Qed.

Lemma check_true (b : bool) : b = true -> check b = Ok tt.
Proof. by intros ->. Qed.

Lemma check_Ok (b : bool) u : check b = Ok u <-> b = true.
Proof. destruct b, u; cbn; naive_solver. Qed.

Lemma Ok_inj {A} (a b : A) : Ok a = Ok b -> a = b.
Proof. congruence. Qed.

(** Breaks [m ≫= f = Ok b] hypotheses into the runs they are made of. *)
Ltac inv_ok :=
  repeat match goal with
  | H : (_ ≫= _) = Ok _ |- _ =>
      apply bind_Ok in H; destruct H as (? & ? & H)
  | H : check _ = Ok _ |- _ => apply check_Ok in H
  | H : Ok _ = Ok _ |- _ => apply Ok_inj in H
  | H : Fail _ = Ok _ |- _ => discriminate H
  end.

(** Discharges one [check] of a run whose guard is an arithmetic fact. *)
Ltac pass_check :=
  match goal with
  | |- context [check ?b] => rewrite (check_true b) by (simpl; lia)
  end; rewrite ?bind_ok.

(** * Filters *)

Lemma filter_all {A} (P : A -> Prop) `{forall x, Decision (P x)} l :
  Forall P l -> filter P l = l.
Proof. induction 1 as [|x l Hx _ IH]; [done|]. rewrite filter_cons_True by done. by f_equal. Qed.

Lemma filter_none {A} (P : A -> Prop) `{forall x, Decision (P x)} l :
  Forall (fun x => ~ P x) l -> filter P l = [].
Proof. induction 1 as [|x l Hx _ IH]; [done|]. by rewrite filter_cons_False by done. Qed.

Lemma sorted_lookup {A} (R : A -> A -> Prop) l i j x y :
  StronglySorted R l -> l !! i = Some x -> l !! j = Some y -> (i < j)%nat -> R x y.
Proof.
  intros H. revert i j. induction H as [|z l _ IH Hz]; intros [|i] [|j] Hi Hj Hij; cbn in *; simplify_eq; try lia.
  - rewrite Forall_forall in Hz. apply Hz, list_elem_of_lookup. eauto.
  - apply (IH i j); [done..|lia].
Qed.

(** * Machine integers *)

Definition u8 (z : Z) : Z := z mod 2 ^ 8.
Definition u16 (z : Z) : Z := z mod 2 ^ 16.
Definition u32 (z : Z) : Z := z mod 2 ^ 32.
Definition u64 (z : Z) : Z := z mod 2 ^ 64.

(** Two's complement: the value a signed w-bit object holds after a store. *)
Definition swrap (w z : Z) : Z := (z + 2 ^ (w - 1)) mod 2 ^ w - 2 ^ (w - 1).
Definition s8 (z : Z) : Z := swrap 8 z.
Definition s16 (z : Z) : Z := swrap 16 z.
Definition s32 (z : Z) : Z := swrap 32 z.
Definition s64 (z : Z) : Z := swrap 64 z.

Lemma swrap_range w z : 0 < w -> - 2 ^ (w - 1) <= swrap w z < 2 ^ (w - 1).
Proof.
  intros Hw. unfold swrap.
  pose proof (Z.mod_pos_bound (z + 2 ^ (w - 1)) (2 ^ w) ltac:(lia)).
  assert (2 ^ w = 2 * 2 ^ (w - 1)) by (rewrite <- Z.pow_succ_r by lia; f_equal; lia).
  lia.
Qed.

Lemma swrap_id w z : 0 < w -> - 2 ^ (w - 1) <= z < 2 ^ (w - 1) -> swrap w z = z.
Proof.
  intros Hw Hz. unfold swrap.
  assert (2 ^ w = 2 * 2 ^ (w - 1)) by (rewrite <- Z.pow_succ_r by lia; f_equal; lia).
  rewrite Z.mod_small by lia. lia.
Qed.

(** Storing the unsigned image of a signed value gives the value back. *)
Lemma swrap_mod w z : 0 < w -> swrap w (z mod 2 ^ w) = swrap w z.
Proof.
  intros Hw. unfold swrap. by rewrite Zplus_mod_idemp_l.
Qed.

Lemma s16_id z : - 32768 <= z < 32768 -> s16 z = z.
Proof. intros. apply swrap_id; lia. Qed.
Lemma s32_id z : - 2147483648 <= z < 2147483648 -> s32 z = z.
Proof. intros. apply swrap_id; lia. Qed.
Lemma s64_id z : - 2 ^ 63 <= z < 2 ^ 63 -> s64 z = z.
Proof. intros. apply swrap_id; lia. Qed.
Lemma u16_id z : 0 <= z < 65536 -> u16 z = z.
Proof. intros. apply Z.mod_small. lia. Qed.
Lemma u32_id z : 0 <= z < 2 ^ 32 -> u32 z = z.
Proof. intros. by apply Z.mod_small. Qed.
Lemma u64_id z : 0 <= z < 2 ^ 64 -> u64 z = z.
Proof. intros. by apply Z.mod_small. Qed.

Lemma u64_range z : 0 <= u64 z < 2 ^ 64.
Proof. apply Z.mod_pos_bound. lia. Qed.

(** * Bytes *)

Definition is_byte (b : Z) : Prop := 0 <= b < 256.
Definition bytes (l : list Z) : Prop := Forall is_byte l.

Definition zlen {A} (l : list A) : Z := Z.of_nat (length l).

Lemma zlen_nonneg {A} (l : list A) : 0 <= zlen l.
Proof. unfold zlen. lia. Qed.
Lemma zlen_app {A} (l k : list A) : zlen (l ++ k) = zlen l + zlen k.
Proof. unfold zlen. rewrite length_app. lia. Qed.
Lemma zlen_cons {A} (x : A) l : zlen (x :: l) = 1 + zlen l.
Proof. unfold zlen. cbn. lia. Qed.
Lemma zlen_nil {A} : zlen (@nil A) = 0.
Proof. done. Qed.

#[global] Instance zlen_perm {A} : Proper (Permutation ==> eq) (@zlen A).
Proof. intros l k H. unfold zlen. by rewrite H. Qed.

Create HintDb gefs.
Create Rewrite HintDb gefs.
#[export] Hint Rewrite @zlen_app @zlen_cons @zlen_nil : gefs.

(** Big-endian: [pack n v] is what PACK8/16/32/64 store for n = 1, 2, 4, 8;
    [unpack] is the disjunction of shifted bytes UNPACK8/16/32/64 compute. *)
Fixpoint pack (n : nat) (v : Z) : list Z :=
  match n with
  | O => []
  | S n' => u8 (Z.shiftr v (8 * Z.of_nat n')) :: pack n' v
  end.

Fixpoint unpack (l : list Z) : Z :=
  match l with
  | [] => 0
  | b :: l' => Z.lor (Z.shiftl b (8 * zlen l')) (unpack l')
  end.

Lemma length_pack n v : length (pack n v) = n.
Proof. induction n; cbn; auto. Qed.

Lemma zlen_pack n v : zlen (pack n v) = Z.of_nat n.
Proof. unfold zlen. by rewrite length_pack. Qed.
#[export] Hint Rewrite length_pack zlen_pack : gefs.

Lemma u8_byte v : is_byte (u8 v).
Proof. unfold u8, is_byte. pose proof (Z.mod_pos_bound v (2^8)). lia. Qed.

Lemma pack_bytes n v : bytes (pack n v).
Proof. induction n; cbn; constructor; auto using u8_byte. Qed.
#[export] Hint Resolve pack_bytes u8_byte : gefs.

Lemma land_shiftl_low b n x :
  0 <= n -> 0 <= x < 2 ^ n -> Z.land (Z.shiftl b n) x = 0.
Proof.
  intros Hn Hx. apply Z.bits_inj'. intros i Hi. rewrite Z.land_spec, Z.bits_0.
  destruct (Z.lt_ge_cases i n).
  - by rewrite Z.shiftl_spec_low by lia.
  - replace x with (x mod 2 ^ n) by (by apply Z.mod_small).
    rewrite Z.mod_pow2_bits_high by lia. by rewrite andb_false_r.
Qed.

Lemma lor_shiftl_low b n x :
  0 <= n -> 0 <= x < 2 ^ n -> Z.lor (Z.shiftl b n) x = b * 2 ^ n + x.
Proof.
  intros Hn Hx. pose proof (Z.add_lor_land (Z.shiftl b n) x) as H.
  rewrite land_shiftl_low, Z.shiftl_mul_pow2 in * by lia. lia.
Qed.

Lemma unpack_range l : bytes l -> 0 <= unpack l < 2 ^ (8 * zlen l).
Proof.
  induction 1 as [|b l Hb _ IH]; cbn [unpack]; [done|].
  rewrite zlen_cons. pose proof (zlen_nonneg l).
  rewrite lor_shiftl_low by lia.
  unfold is_byte in Hb. rewrite Z.mul_add_distr_l, Z.pow_add_r by lia.
  change (2 ^ (8 * 1)) with 256. nia.
Qed.

Lemma unpack_cons b l :
  bytes l -> unpack (b :: l) = b * 2 ^ (8 * zlen l) + unpack l.
Proof.
  intros Hl. cbn [unpack]. apply lor_shiftl_low; [pose proof (zlen_nonneg l); lia|].
  by apply unpack_range.
Qed.

Lemma unpack_app l k :
  bytes l -> bytes k -> unpack (l ++ k) = unpack l * 2 ^ (8 * zlen k) + unpack k.
Proof.
  intros Hl Hk. induction Hl as [|b l Hb Hl IH]; [done|].
  rewrite <- app_comm_cons, !unpack_cons by (try apply Forall_app; auto).
  rewrite IH, zlen_app, Z.mul_add_distr_l, Z.pow_add_r by (unfold zlen; lia). lia.
Qed.

(** Round trips of the packed integers. *)
Lemma unpack_pack n v : unpack (pack n v) = v mod 2 ^ (8 * Z.of_nat n).
Proof.
  induction n as [|n IH]; [by rewrite Z.mod_1_r|].
  cbn [pack]. rewrite unpack_cons, IH, zlen_pack by auto with gefs.
  unfold u8. rewrite Z.shiftr_div_pow2 by lia.
  replace (8 * Z.of_nat (S n)) with (8 * Z.of_nat n + 8) by lia.
  rewrite (Z.pow_add_r 2 (8 * Z.of_nat n)) by lia.
  rewrite Z.rem_mul_r by lia. lia.
Qed.

(** The bytes [pack n] stores depend on the low 8n bits only. *)
Lemma pack_add_high n m a v :
  (n <= m)%nat -> pack n (a * 2 ^ (8 * Z.of_nat m) + v) = pack n v.
Proof.
  induction n as [|n IHn]; intros Hn; [done|].
  cbn [pack]. f_equal; [|apply IHn; lia].
  unfold u8. rewrite !Z.shiftr_div_pow2 by lia.
  replace (8 * Z.of_nat m)
    with ((8 * (Z.of_nat m - Z.of_nat n) - 8) + 8 + 8 * Z.of_nat n) by lia.
  rewrite !Z.pow_add_r by lia. rewrite !Z.mul_assoc, Z.div_add_l by lia.
  rewrite Zplus_mod, Z.mod_mul by lia. by rewrite Z.add_0_l, Z.mod_mod.
Qed.

Lemma pack_mod n v : pack n (v mod 2 ^ (8 * Z.of_nat n)) = pack n v.
Proof.
  rewrite (Z.div_mod v (2 ^ (8 * Z.of_nat n))) at 2 by lia.
  by rewrite (Z.mul_comm (2 ^ _)), pack_add_high.
Qed.

Lemma pack_unpack l : bytes l -> pack (length l) (unpack l) = l.
Proof.
  induction 1 as [|b l Hb Hl IH]; [done|]. unfold is_byte in Hb.
  cbn [pack length]. rewrite unpack_cons by done.
  pose proof (unpack_range l Hl) as Hr. unfold zlen in *. f_equal.
  - unfold u8. rewrite Z.shiftr_div_pow2 by lia.
    rewrite Z.div_add_l by lia. rewrite (Z.div_small (unpack l)) by lia.
    rewrite Z.add_0_r. apply Z.mod_small. lia.
  - by rewrite pack_add_high.
Qed.

(** A signed field survives being packed and read back into its type. *)
Lemma swrap_unpack_pack n v :
  (0 < n)%nat -> swrap (8 * Z.of_nat n) (unpack (pack n v)) = swrap (8 * Z.of_nat n) v.
Proof. intros. rewrite unpack_pack. apply swrap_mod. lia. Qed.

#[global] Arguments pack : simpl never.
#[global] Arguments unpack : simpl never.

(** * Reading a buffer

    A [char*] that is only read is the list of bytes from it to the end of
    its buffer; advancing it is [drop].  A read past the end is [Undef]. *)
Definition UNPACK (n : nat) (p : list Z) : res Z :=
  if decide (n <= length p)%nat then Ok (unpack (take n p)) else Fail Undef.

Definition READ (n : nat) (p : list Z) : res (list Z) :=
  if decide (n <= length p)%nat then Ok (take n p) else Fail Undef.

Lemma UNPACK_pack n v p :
  UNPACK n (pack n v ++ p) = Ok (v mod 2 ^ (8 * Z.of_nat n)).
Proof.
  unfold UNPACK. rewrite length_app, length_pack.
  rewrite decide_True by lia.
  rewrite take_app_length' by (by rewrite length_pack). by rewrite unpack_pack.
Qed.

Lemma UNPACK_pack_end n v : UNPACK n (pack n v) = Ok (v mod 2 ^ (8 * Z.of_nat n)).
Proof. rewrite <- (app_nil_r (pack n v)). apply UNPACK_pack. Qed.

Lemma drop_pack n v p : drop n (pack n v ++ p) = p.
Proof. apply drop_app_length'. by rewrite length_pack. Qed.

Lemma READ_app n l p : length l = n -> READ n (l ++ p) = Ok l.
Proof.
  intros Hn. unfold READ. rewrite decide_True by (rewrite length_app; lia).
  by rewrite take_app_length'.
Qed.

(** * Writing into a buffer at an offset *)
Definition patch (d : list Z) (off : nat) (bs : list Z) : list Z :=
  take off d ++ bs ++ drop (off + length bs) d.

Definition slice (d : list Z) (off n : nat) : list Z := take n (drop off d).

Lemma length_patch d off bs :
  (off + length bs <= length d)%nat -> length (patch d off bs) = length d.
Proof. intros. unfold patch. rewrite !length_app, length_take, length_drop. lia. Qed.

Lemma length_slice d off n :
  (off + n <= length d)%nat -> length (slice d off n) = n.
Proof. intros. unfold slice. rewrite length_take, length_drop. lia. Qed.

Lemma slice_patch_same d off bs :
  (off + length bs <= length d)%nat -> slice (patch d off bs) off (length bs) = bs.
Proof.
  intros. unfold slice, patch.
  rewrite drop_app_length' by (rewrite length_take; lia).
  by rewrite take_app_length.
Qed.

Lemma slice_patch_before d off bs o n :
  (off + length bs <= length d)%nat -> (o + n <= off)%nat ->
  slice (patch d off bs) o n = slice d o n.
Proof.
  intros. unfold slice, patch.
  rewrite drop_app_le by (rewrite length_take; lia).
  rewrite take_app_le by (rewrite length_drop, length_take; lia).
  rewrite !take_drop_commute, take_take. do 2 f_equal. lia.
Qed.

Lemma slice_patch_after d off bs o n :
  (off + length bs <= length d)%nat -> (off + length bs <= o)%nat ->
  slice (patch d off bs) o n = slice d o n.
Proof.
  intros. unfold slice, patch. rewrite app_assoc.
  rewrite drop_app_ge by (rewrite length_app, length_take; lia).
  rewrite drop_drop. do 2 f_equal. rewrite length_app, length_take. lia.
Qed.

Lemma slice_app d off n m :
  slice d off (n + m) = slice d off n ++ slice d (off + n) m.
Proof.
  unfold slice. rewrite <- drop_drop.
  by rewrite <- (take_take_drop (drop off d)).
Qed.

Lemma patch_bytes d off bs : bytes d -> bytes bs -> bytes (patch d off bs).
Proof.
  intros Hd Hb. unfold patch, bytes.
  apply Forall_app; split; [by apply Forall_take|].
  apply Forall_app; split; [done|by apply Forall_drop].
Qed.

Lemma slice_bytes d off n : bytes d -> bytes (slice d off n).
Proof. intros. by apply Forall_take, Forall_drop. Qed.
#[export] Hint Resolve patch_bytes slice_bytes : gefs.

(** Little-endian: PBIT8/16/32/64 and GBIT8/16/32/64 of <fcall.h>, and the
    loads of a little-endian machine. *)
Definition pbit (n : nat) (v : Z) : list Z := reverse (pack n v).
Definition gbit (l : list Z) : Z := unpack (reverse l).

Lemma length_pbit n v : length (pbit n v) = n.
Proof. unfold pbit. by rewrite length_reverse, length_pack. Qed.

Lemma zlen_pbit n v : zlen (pbit n v) = Z.of_nat n.
Proof. unfold zlen. by rewrite length_pbit. Qed.
#[export] Hint Rewrite length_pbit zlen_pbit : gefs.

Lemma bytes_reverse l : bytes l -> bytes (reverse l).
Proof. intros H. by apply Forall_reverse. Qed.

Lemma pbit_bytes n v : bytes (pbit n v).
Proof. apply bytes_reverse, pack_bytes. Qed.
#[export] Hint Resolve pbit_bytes : gefs.

Lemma gbit_pbit n v : gbit (pbit n v) = v mod 2 ^ (8 * Z.of_nat n).
Proof. unfold gbit, pbit. rewrite reverse_involutive. apply unpack_pack. Qed.

Lemma pbit_gbit l : bytes l -> pbit (length l) (gbit l) = l.
Proof.
  intros H. unfold gbit, pbit. rewrite <- (length_reverse l).
  rewrite pack_unpack by (by apply bytes_reverse). apply reverse_involutive.
Qed.

Lemma gbit_range l : bytes l -> 0 <= gbit l < 2 ^ (8 * zlen l).
Proof.
  intros H. unfold gbit. replace (zlen l) with (zlen (reverse l))
    by (unfold zlen; by rewrite length_reverse).
  by apply unpack_range, bytes_reverse.
Qed.

(** GBITn(p), and what is left of the buffer. *)
Definition GBIT (n : nat) (p : list Z) : res Z :=
  if decide (n <= length p)%nat then Ok (gbit (take n p)) else Fail Undef.

Lemma GBIT_pbit n v p : GBIT n (pbit n v ++ p) = Ok (v mod 2 ^ (8 * Z.of_nat n)).
Proof.
  unfold GBIT. rewrite length_app, length_pbit. rewrite decide_True by lia.
  rewrite take_app_length' by (by rewrite length_pbit). by rewrite gbit_pbit.
Qed.

Lemma drop_pbit n v p : drop n (pbit n v ++ p) = p.
Proof. apply drop_app_length'. by rewrite length_pbit. Qed.
