(* ===== verification/Layout.v ===== *)
(** The on-disk vocabulary of gefs (sys/src/9/gefs/gdat.h): the constants of
    the block layout, the key, value, message, operation and log types, and
    the structs that are packed into blocks.

    Integer widths are those of the Plan 9 compilers (sys/src/cmd/cc): char
    8 bits signed, short 16, int and long 32, vlong 64.  Their unsigned
    preserving promotions (cmd/cc/sub.c, arith) make [uchar << 24] a uint,
    so UNPACK32 and UNPACK64 read unsigned values. *)

From S2P Require Import Prelude.

(** * Sizes *)
Definition Lgblk : Z := 14.
Definition Blksz : Z := Z.shiftl 1 Lgblk.
Definition Maxent : Z := 256.
Definition Maxname : Z := Maxent - 1 - 9 - 1.
Definition Keymax : Z := Maxent.
Definition Inlmax : Z := 512.
Definition Ptrsz : Z := 24.
Definition Pptrsz : Z := 26.
Definition Offksz : Z := 17.
Definition Snapsz : Z := 9.
Definition Dlksz : Z := 1 + 8 + 8.
Definition Dlvsz : Z := Ptrsz + Ptrsz.
Definition Dlkvpsz : Z := Dlksz + Dlvsz.
Definition Treesz : Z := 4 + 4 + 4 + 4 + 8 + 8 + 8 + 8 + Ptrsz.
Definition Xdirsz : Z := 8 + 8 + 4 + 1 + 4 + 8 + 8 + 8 + 4 + 4 + 4.
Definition Kvmax : Z := Keymax + Inlmax.
Definition Kpmax : Z := Keymax + Ptrsz.
Definition Arenasz : Z := 8 + 8 + 8 + 8.
Definition Pivhdsz : Z := 10.
Definition Leafhdsz : Z := 6.
Definition Loghdsz : Z := 2 + 2 + 8 + Ptrsz.
Definition Pivsz : Z := Blksz - Pivhdsz.
Definition Bufspc : Z := (Blksz - Pivhdsz) / 2.
Definition Pivspc : Z := Blksz - Pivhdsz - Bufspc.
Definition Logspc : Z := Blksz - Loghdsz.
Definition Logslop : Z := 16 + 16 + 8.
Definition Leafspc : Z := Blksz - Leafhdsz.
Definition Msgmax : Z := 1 + Z.max Kvmax Kpmax.
Definition Nsec : Z := 1000 * 1000 * 1000.

(** * Key types: the first byte of a key *)
Definition Kdat : Z := 0.
Definition Kent : Z := 1.
Definition Kup : Z := 2.
Definition Klabel : Z := 3.
Definition Ksnap : Z := 4.
Definition Kdlist : Z := 5.
Definition Kconf : Z := 6.
Definition Kobj : Z := 7.

(** * Block types *)
Inductive btype := Tdat | Tpivot | Tleaf | Tlog | Tdlist | Tarena | Tsuper.
#[global] Instance btype_eq_dec : EqDecision btype.
Proof. solve_decision. Defined.

Definition btype_code (t : btype) : Z :=
  match t with
  | Tdat => 0 | Tpivot => 1 | Tleaf => 2 | Tlog => 3
  | Tdlist => 4 | Tarena => 5 | Tsuper => 0x6765
  end.

Definition btype_of (z : Z) : option btype :=
  if z =? 0 then Some Tdat else if z =? 1 then Some Tpivot
  else if z =? 2 then Some Tleaf else if z =? 3 then Some Tlog
  else if z =? 4 then Some Tdlist else if z =? 5 then Some Tarena
  else if z =? 0x6765 then Some Tsuper else None.

(** * Message operations: the char op of a Msg *)
Definition Onop : Z := 0.
Definition Oinsert : Z := 1.
Definition Odelete : Z := 2.
Definition Oclearb : Z := 3.
Definition Oclobber : Z := 4.
Definition Owstat : Z := 5.
Definition Orelink : Z := 6.
Definition Oreprev : Z := 7.
Definition Oincref : Z := 8.

(** Wstat flags, in the order of the data that follows them. *)
Definition Owsize : Z := 1.
Definition Owmode : Z := 2.
Definition Owmtime : Z := 4.
Definition Owatime : Z := 8.
Definition Owuid : Z := 16.
Definition Owgid : Z := 32.
Definition Owmuid : Z := 64.
Definition Owqpath : Z := 128.

(** * Allocation log operations *)
Definition LogNop : Z := 0.
Definition LogAlloc1 : Z := 1.
Definition LogFree1 : Z := 2.
Definition LogSync : Z := 3.
Definition LogAlloc : Z := 4.
Definition LogFree : Z := 5.
Definition Log2wide : Z := LogAlloc.

(** * Structs *)
Record Bptr := mkBptr { addr : Z; hash : Z; gen : Z }.
#[global] Instance Bptr_eq_dec : EqDecision Bptr.
Proof. solve_decision. Defined.

(** The (Bptr){-1, -1, -1} of C: hash is a uvlong. *)
Definition Zb : Bptr := mkBptr (-1) (2 ^ 64 - 1) (-1).

Record Kvp := mkKvp { k : list Z; v : list Z }.
#[global] Instance Kvp_eq_dec : EqDecision Kvp.
Proof. solve_decision. Defined.

Record Msg := mkMsg { op : Z; mk : list Z; mv : list Z }.
#[global] Instance Msg_eq_dec : EqDecision Msg.
Proof. solve_decision. Defined.

Definition nk (kv : Kvp) : Z := zlen (k kv).
Definition nv (kv : Kvp) : Z := zlen (v kv).

(** A Msg embeds its Kvp. *)
Definition msg_kvp (m : Msg) : Kvp := mkKvp (mk m) (mv m).

Record Qid := mkQid { path : Z; vers : Z; qtype : Z }.
#[global] Instance Qid_eq_dec : EqDecision Qid.
Proof. solve_decision. Defined.

Record Xdir := mkXdir {
  flag : Z; qid : Qid; mode : Z; atime : Z; mtime : Z; dlength : Z;
  uid : Z; gid : Z; muid : Z; name : list Z
}.
#[global] Instance Xdir_eq_dec : EqDecision Xdir.
Proof. solve_decision. Defined.

(** The on-disk part of struct Tree. *)
Record Tree := mkTree {
  nref : Z; nlbl : Z; ht : Z; tflag : Z;
  tgen : Z; pred : Z; succ : Z; base : Z; tbp : Bptr
}.
#[global] Instance Tree_eq_dec : EqDecision Tree.
Proof. solve_decision. Defined.

Record Dlist := mkDlist { dgen : Z; bgen : Z; hd : Bptr; tl : Bptr }.
#[global] Instance Dlist_eq_dec : EqDecision Dlist.
Proof. solve_decision. Defined.

(** The superblock's part of struct Gefs. *)
Record Gefs := mkGefs {
  blksz : Z; bufspc : Z; narena : Z;
  snap_ht : Z; snap_bp : Bptr; snapdl_hd : Bptr; snapdl_tl : Bptr;
  fflag : Z; nextqid : Z; nextgen : Z; qgen : Z; arenabp : list Bptr
}.

(** The packed part of struct Arena. *)
Record ArenaHd := mkArenaHd { loghd : Bptr; asize : Z; aused : Z }.
#[global] Instance ArenaHd_eq_dec : EqDecision ArenaHd.
Proof. solve_decision. Defined.

Record User := mkUser { user_id : Z; lead : Z; memb : list Z; uname : list Z }.

(** * Well-formed values: each field holds a value of its C type *)
Definition is_u8 (z : Z) : Prop := 0 <= z < 2 ^ 8.
Definition is_u16 (z : Z) : Prop := 0 <= z < 2 ^ 16.
Definition is_u32 (z : Z) : Prop := 0 <= z < 2 ^ 32.
Definition is_u64 (z : Z) : Prop := 0 <= z < 2 ^ 64.
Definition is_s32 (z : Z) : Prop := - 2 ^ 31 <= z < 2 ^ 31.
Definition is_s64 (z : Z) : Prop := - 2 ^ 63 <= z < 2 ^ 63.

Definition bptr_ok (b : Bptr) : Prop :=
  is_s64 (addr b) /\ is_u64 (hash b) /\ is_s64 (gen b).

Definition tree_ok (t : Tree) : Prop :=
  is_s32 (nref t) /\ is_s32 (nlbl t) /\ is_s32 (ht t) /\ is_u32 (tflag t) /\
  is_s64 (tgen t) /\ is_s64 (pred t) /\ is_s64 (succ t) /\ is_s64 (base t) /\
  bptr_ok (tbp t).

(** A C string: bytes, none of them NUL. *)
Definition cstring (s : list Z) : Prop := Forall (fun b => 0 < b < 256) s.

Definition xdir_ok (d : Xdir) : Prop :=
  is_u64 (flag d) /\ is_u64 (path (qid d)) /\ is_u32 (vers (qid d)) /\
  is_u8 (qtype (qid d)) /\ is_u32 (mode d) /\ is_s64 (atime d) /\
  is_s64 (mtime d) /\ is_u64 (dlength d) /\ is_s32 (uid d) /\
  is_s32 (gid d) /\ is_s32 (muid d) /\ cstring (name d).

Lemma cstring_bytes s : cstring s -> bytes s.
Proof. intros H. eapply Forall_impl; [exact H|]. unfold is_byte. cbn. lia. Qed.
#[export] Hint Resolve cstring_bytes : gefs.

(** * Reading the fields' types back *)
Lemma pack64_s64 z : is_s64 z -> s64 (z mod 2 ^ 64) = z.
Proof. intros H. unfold s64. rewrite swrap_mod by lia. by apply s64_id. Qed.
Lemma pack32_s32 z : is_s32 z -> s32 (z mod 2 ^ 32) = z.
Proof. intros H. unfold s32. rewrite swrap_mod by lia. by apply s32_id. Qed.
Lemma pack64_u64 z : is_u64 z -> z mod 2 ^ 64 = z.
Proof. intros. by apply Z.mod_small. Qed.
Lemma pack32_u32 z : is_u32 z -> z mod 2 ^ 32 = z.
Proof. intros. by apply Z.mod_small. Qed.
Lemma pack16_u16 z : is_u16 z -> z mod 2 ^ 16 = z.
Proof. intros. by apply Z.mod_small. Qed.
Lemma pack8_u8 z : is_u8 z -> z mod 2 ^ 8 = z.
Proof. intros. by apply Z.mod_small. Qed.
#[export] Hint Resolve pack64_s64 pack32_s32 pack64_u64 pack32_u32 pack16_u16
  pack8_u8 : gefs.

(** Steps over a sequence of fields that were just packed: each UNPACK meets
    the pack of its own field. *)
Ltac read_fields :=
  repeat first
    [ rewrite UNPACK_pack | rewrite UNPACK_pack_end | rewrite drop_pack
    | rewrite drop_0 | rewrite bind_ok ].

(** Puts the fields of a concatenation one after the other. *)
Ltac flatten := rewrite <- ?app_assoc.

(** Rewrites every stored field to the value it was packed from; its range is
    among the hypotheses. *)
Ltac field_values :=
  change (8 * Z.of_nat 1) with 8 in *; change (8 * Z.of_nat 2) with 16 in *;
  change (8 * Z.of_nat 4) with 32 in *; change (8 * Z.of_nat 8) with 64 in *;
  repeat first
    [ rewrite pack64_s64 by done | rewrite pack32_s32 by done
    | rewrite pack64_u64 by done | rewrite pack32_u32 by done
    | rewrite pack16_u16 by done | rewrite pack8_u8 by done ].
