(* ===== verification/Hash.v ===== *)
(** sys/src/9/gefs/hash.c: the MetroHash64 checksum every block pointer
    carries, and the address hash of the block cache. *)

From S2P Require Import Prelude Layout.

Definition rotate_right (v k : Z) : Z :=
  u64 (Z.lor (Z.shiftr v k) (Z.shiftl v (64 - k))).

Definition k0 : Z := 0xC83A91E1.
Definition k1 : Z := 0x8648DBDB.
Definition k2 : Z := 0x7BDEC03B.
Definition k3 : Z := 0x2F5870A5.

(** Loads through a pointer at the head of the list (little-endian). *)
Definition read_u64 (p : list Z) : Z := gbit (take 8 p).
Definition read_u32 (p : list Z) : Z := gbit (take 4 p).
Definition read_u16 (p : list Z) : Z := gbit (take 2 p).
Definition read_u8 (p : list Z) : Z := gbit (take 1 p).

Definition lanes := (Z * Z * Z * Z)%type.

(** One turn of the do-while over 32 bytes. *)
Definition metro_round (s : lanes) (p : list Z) : lanes :=
  let '(v0, v1, v2, v3) := s in
  let v0 := u64 (v0 + read_u64 p * k0) in
  let v0 := u64 (rotate_right v0 29 + v2) in
  let v1 := u64 (v1 + read_u64 (drop 8 p) * k1) in
  let v1 := u64 (rotate_right v1 29 + v3) in
  let v2 := u64 (v2 + read_u64 (drop 16 p) * k2) in
  let v2 := u64 (rotate_right v2 29 + v0) in
  let v3 := u64 (v3 + read_u64 (drop 24 p) * k3) in
  let v3 := u64 (rotate_right v3 29 + v1) in
  (v0, v1, v2, v3).

(** The do-while loop: entered with at least 32 bytes left, it goes on while
    ptr <= end - 32. *)
Fixpoint metro_bulk (fuel : nat) (s : lanes) (p : list Z) : lanes * list Z :=
  match fuel with
  | O => (s, p)
  | S fuel =>
      let s := metro_round s p in
      let p := drop 32 p in
      if 32 <=? zlen p then metro_bulk fuel s p else (s, p)
  end.

Definition metro_merge (hash : Z) (s : lanes) : Z :=
  let '(v0, v1, v2, v3) := s in
  let t := u64 (u64 (v0 + v3) * k0 + v1) in
  let v2 := Z.lxor v2 (u64 (rotate_right t 33 * k1)) in
  let t := u64 (u64 (v1 + v2) * k1 + v0) in
  let v3 := Z.lxor v3 (u64 (rotate_right t 33 * k0)) in
  let t := u64 (u64 (v0 + v2) * k0 + v3) in
  let v0 := Z.lxor v0 (u64 (rotate_right t 33 * k1)) in
  let t := u64 (u64 (v1 + v3) * k1 + v2) in
  let v1 := Z.lxor v1 (u64 (rotate_right t 33 * k0)) in
  u64 (hash + Z.lxor v0 v1).

Definition metro_tail16 (hash : Z) (p : list Z) : Z * list Z :=
  if 16 <=? zlen p then
    let v0 := u64 (hash + read_u64 p * k0) in
    let v0 := u64 (rotate_right v0 33 * k1) in
    let v1 := u64 (hash + read_u64 (drop 8 p) * k1) in
    let v1 := u64 (rotate_right v1 33 * k2) in
    let t := u64 (v0 * k0) in
    let v0 := Z.lxor v0 (u64 (rotate_right t 35 + v1)) in
    let t := u64 (v1 * k3) in
    let v1 := Z.lxor v1 (u64 (rotate_right t 35 + v0)) in
    (u64 (hash + v1), drop 16 p)
  else (hash, p).

Definition metro_tail (n : nat) (r hash : Z) (p : list Z) : Z * list Z :=
  if Z.of_nat n <=? zlen p then
    let hash := u64 (hash + gbit (take n p) * k3) in
    (Z.lxor hash (u64 (rotate_right hash r * k1)), drop n p)
  else (hash, p).

Definition metrohash64_1 (key : list Z) (seed : Z) : Z :=
  let len := zlen key in
  let hash := u64 (u64 (u64 (seed + k2) * k0) + len) in
  let '(hash, p) :=
    if 32 <=? len then
      let '(s, p) := metro_bulk (length key) (hash, hash, hash, hash) key in
      (metro_merge hash s, p)
    else (hash, key) in
  let '(hash, p) := metro_tail16 hash p in
  let '(hash, p) := metro_tail 8 33 hash p in
  let '(hash, p) := metro_tail 4 15 hash p in
  let '(hash, p) := metro_tail 2 13 hash p in
  let '(hash, p) := metro_tail 1 25 hash p in
  let hash := Z.lxor hash (rotate_right hash 33) in
  let hash := u64 (hash * k0) in
  Z.lxor hash (rotate_right hash 33).

Definition bufhash (src : list Z) : Z := metrohash64_1 src 0x6765.

(** blkhash hashes the whole Blksz buffer of a block. *)
Definition blkhash (buf : list Z) : Z := metrohash64_1 buf 0x6765.

(** The 64-bit mixer of ihash; ihash keeps its low 32 bits. *)
Definition mix64 (x : Z) : Z :=
  let x := u64 (Z.lxor x (Z.shiftr x 30) * 0xbf58476d1ce4e5b9) in
  let x := u64 (Z.lxor x (Z.shiftr x 27) * 0x94d049bb133111eb) in
  Z.lxor x (Z.shiftr x 31).

Definition ihash (x : Z) : Z := u32 (mix64 x).

(** * Range of the hash *)

Lemma lxor_u64 a b : is_u64 a -> is_u64 b -> is_u64 (Z.lxor a b).
Proof.
  unfold is_u64. intros Ha Hb.
  assert (0 <= Z.lxor a b) by (apply Z.lxor_nonneg; lia).
  split; [done|]. destruct (Z.eq_dec (Z.lxor a b) 0) as [->|]; [lia|].
  apply Z.log2_lt_pow2; [lia|].
  eapply Z.le_lt_trans; [apply Z.log2_lxor; lia|].
  apply Z.max_lub_lt.
  - destruct (Z.eq_dec a 0) as [->|]; [done|]. apply Z.log2_lt_pow2; lia.
  - destruct (Z.eq_dec b 0) as [->|]; [done|]. apply Z.log2_lt_pow2; lia.
Qed.

Lemma u64_is z : is_u64 (u64 z).
Proof. apply u64_range. Qed.

Lemma rotate_right_is v k : is_u64 (rotate_right v k).
Proof. apply u64_is. Qed.

Lemma metrohash64_1_u64 key seed : is_u64 (metrohash64_1 key seed).
Proof.
  unfold metrohash64_1.
  repeat match goal with
  | |- is_u64 (let '(_, _) := ?e in _) => destruct e
  end.
  apply lxor_u64; [apply u64_is|apply rotate_right_is].
Qed.

Lemma bufhash_u64 src : is_u64 (bufhash src).
Proof. apply metrohash64_1_u64. Qed.
#[export] Hint Resolve bufhash_u64 : gefs.

(** * Every byte is hashed: the bulk loop stops with under 32 bytes left *)

Lemma metro_bulk_rest fuel s p :
  (0 < fuel)%nat -> zlen p < 32 * Z.of_nat fuel + 32 ->
  zlen (metro_bulk fuel s p).2 < 32.
Proof.
  revert s p. induction fuel as [|fuel IH]; intros s p Hf Hp; [lia|]. cbn.
  assert (zlen (drop 32 p) <= zlen p - 32 \/ zlen (drop 32 p) = 0) as Hd
    by (unfold zlen; rewrite length_drop; lia).
  destruct (Z.leb_spec 32 (zlen (drop 32 p))); cbn; [|lia].
  destruct fuel; [lia|]. apply IH; lia.
Qed.
