(* ===== verification/Pack.v ===== *)
(** sys/src/9/gefs/pack.c: the serialised forms of directory entries, block
    pointers, trees, deadlists, snapshot labels, arena headers and the
    superblock.

    A packer that writes from [p] on and returns the advanced pointer is
    modelled by the bytes it writes ([sz] is the room it was given); an
    unpacker is given the bytes from its pointer to the end of its buffer. *)

From S2P Require Import Prelude Layout Hash.

Definition Efs : string := "internal error".
Definition Efsvers : string := "unknown fs version".
Definition Eperm : string := "permission denied".
Definition Ecorruptsb : string := "corrupt superblock".

(** * Strings *)

(** The C string a pointer denotes: the bytes before the first NUL. *)
Fixpoint cstr (p : list Z) : list Z :=
  match p with
  | [] => []
  | b :: p => if b =? 0 then [] else b :: cstr p
  end.

Definition unpackstr (p : list Z) : res (list Z * list Z) :=
  check (3 <=? zlen p);;
  n ← UNPACK 2 p;
  if (zlen p <? n + 3) || negb (nth (Z.to_nat (n + 2)) p 0 =? 0)
  then Fail (Broke Efs)
  else Ok (cstr (drop 2 p), drop (Z.to_nat (3 + n)) p).

Definition packstr (sz : Z) (s : list Z) : res (list Z) :=
  let n := zlen s in
  check (n + 3 <=? sz);;
  Ok (pack 2 n ++ s ++ [0]).

(** * Directory entries *)

Definition packdkey (sz : Z) (pup : Z) (name : option (list Z)) : res (list Z) :=
  let p := pack 1 Kent ++ pack 8 pup in
  match name with
  | Some name => s ← packstr (sz - zlen p) name; Ok (p ++ s)
  | None => Ok p
  end.

(** unpackdkey returns the name and stores the parent's qid path. *)
Definition unpackdkey (p : list Z) : res (list Z * Z) :=
  check (9 <? zlen p);;
  key ← UNPACK 1 p;
  pup ← UNPACK 8 (drop 1 p);
  check (s8 key =? Kent);;
  '(name, _) ← unpackstr (drop 9 p);
  Ok (name, s64 pup).

Definition packsuper (sz : Z) (pup : Z) : res (list Z) :=
  let p := pack 1 Kup ++ pack 8 pup in
  check (zlen p <=? sz);; Ok p.

Definition packdval (sz : Z) (d : Xdir) : res (list Z) :=
  let p :=
    pack 8 (flag d) ++ pack 8 (path (qid d)) ++ pack 4 (vers (qid d)) ++
    pack 1 (qtype (qid d)) ++ pack 4 (mode d) ++ pack 8 (atime d) ++
    pack 8 (mtime d) ++ pack 8 (dlength d) ++ pack 4 (uid d) ++
    pack 4 (gid d) ++ pack 4 (muid d) in
  check (zlen p <=? sz);; Ok p.

Definition dir2kv (pup : Z) (d : Xdir) (nbuf : Z) : res Kvp :=
  ek ← packdkey nbuf pup (Some (name d));
  ev ← packdval (nbuf - zlen ek) d;
  Ok (mkKvp ek ev).

Definition kv2dir (kv : Kvp) : res Xdir :=
  if (nk kv <? 9) || negb (nv kv =? Xdirsz) then Fail (Broke Efs) else
  '(name, _) ← unpackstr (drop 9 (k kv));
  let p := v kv in
  flag ← UNPACK 8 p;      let p := drop 8 p in
  path ← UNPACK 8 p;      let p := drop 8 p in
  vers ← UNPACK 4 p;      let p := drop 4 p in
  type ← UNPACK 1 p;      let p := drop 1 p in
  mode ← UNPACK 4 p;      let p := drop 4 p in
  atime ← UNPACK 8 p;     let p := drop 8 p in
  mtime ← UNPACK 8 p;     let p := drop 8 p in
  length ← UNPACK 8 p;    let p := drop 8 p in
  uid ← UNPACK 4 p;       let p := drop 4 p in
  gid ← UNPACK 4 p;       let p := drop 4 p in
  muid ← UNPACK 4 p;      let p := drop 4 p in
  check (zlen (v kv) - zlen p =? Xdirsz);;
  Ok (mkXdir flag (mkQid path vers type) mode (s64 atime) (s64 mtime) length
        (s32 uid) (s32 gid) (s32 muid) name).

(** * Stat buffers *)

Definition QIDSZ : Z := 1 + 4 + 8.
Definition STATFIXLEN : Z := 2 + QIDSZ + 5 * 2 + 4 * 4 + 1 * 8.

(** user.c: the user table, searched in order. *)
Fixpoint uid2user (users : list User) (id : Z) : option User :=
  match users with
  | [] => None
  | u :: users => if user_id u =? id then Some u else uid2user users id
  end.

Fixpoint name2user (users : list User) (nm : list Z) : option User :=
  match users with
  | [] => None
  | u :: users => if decide (uname u = nm) then Some u else name2user users nm
  end.

(** uid2user(id), or uid2user(dflt) when id is not in the table. *)
Definition uid2user_or (users : list User) (id dflt : Z) : option User :=
  match uid2user users id with Some u => Some u | None => uid2user users dflt end.

(** [None] is the return value -1: the buffer is too small. *)
Definition dir2statbuf (users : list User) (noneid nogroupid : Z) (d : Xdir)
    (nbuf : Z) : res (option (list Z)) :=
  match uid2user_or users (uid d) noneid, uid2user_or users (gid d) nogroupid,
        uid2user_or users (muid d) noneid with
  | Some u, Some g, Some m =>
      let nn := zlen (name d) in
      let nu := zlen (uname u) in
      let ng := zlen (uname g) in
      let nm := zlen (uname m) in
      let atime := Z.quot (s64 (atime d + Z.quot Nsec 2)) Nsec in
      let mtime := Z.quot (s64 (mtime d + Z.quot Nsec 2)) Nsec in
      let sz := STATFIXLEN + nn + nu + ng + nm in
      if nbuf <? sz then Ok None else
      let p :=
        pbit 2 (sz - 2) ++ pbit 2 (-1) ++ pbit 4 (-1) ++
        pbit 1 (qtype (qid d)) ++ pbit 4 (vers (qid d)) ++ pbit 8 (path (qid d)) ++
        pbit 4 (mode d) ++ pbit 4 atime ++ pbit 4 mtime ++ pbit 8 (dlength d) ++
        pbit 2 nn ++ name d ++ pbit 2 nu ++ uname u ++
        pbit 2 ng ++ uname g ++ pbit 2 nm ++ uname m in
      check (zlen p =? sz);;
      Ok (Some p)
  | _, _, _ => Fail (Error Eperm)
  end.

Definition kv2statbuf (users : list User) (noneid nogroupid : Z) (kv : Kvp)
    (nbuf : Z) : res (option (list Z)) :=
  d ← kv2dir kv;
  dir2statbuf users noneid nogroupid d nbuf.

(** kv2qid reads vers from 64 bits into an ulong; type is not set. *)
Definition kv2qid (kv : Kvp) (q : Qid) : res Qid :=
  path ← UNPACK 8 (v kv);
  vers ← UNPACK 8 (drop 8 (v kv));
  check (16 <=? nv kv);;
  Ok (mkQid path (u32 vers) (qtype q)).

(** * Block pointers *)

Definition packbp (sz : Z) (bp : Bptr) : res (list Z) :=
  check (Ptrsz <=? sz);;
  Ok (pack 8 (addr bp) ++ pack 8 (hash bp) ++ pack 8 (gen bp)).

Definition unpackbp (p : list Z) : res Bptr :=
  check (Ptrsz <=? zlen p);;
  a ← UNPACK 8 p;          let p := drop 8 p in
  h ← UNPACK 8 p;          let p := drop 8 p in
  g ← UNPACK 8 p;
  Ok (mkBptr (s64 a) h (s64 g)).

(** * Deadlists *)

Definition kv2dlist (kv : Kvp) : res Dlist :=
  let p := drop 1 (k kv) in
  g ← UNPACK 8 p;
  b ← UNPACK 8 (drop 8 p);
  hd ← unpackbp (v kv);
  tl ← unpackbp (drop (Z.to_nat Ptrsz) (v kv));
  Ok (mkDlist (s64 g) (s64 b) hd tl).

Definition dlist2kv (dl : Dlist) (nbuf : Z) : res Kvp :=
  check (Dlkvpsz <=? nbuf);;
  let key := [Kdlist] ++ pack 8 (dgen dl) ++ pack 8 (bgen dl) in
  h ← packbp (nbuf - zlen key) (hd dl);
  t ← packbp (nbuf - zlen key - zlen h) (tl dl);
  Ok (mkKvp key (h ++ t)).

(** * Snapshots, labels and trees *)

Definition packlbl (sz : Z) (name : list Z) : res (list Z) :=
  check (zlen name + 1 <=? sz);;
  Ok (Klabel :: name).

Definition packsnap (sz : Z) (id : Z) : res (list Z) :=
  check (Snapsz <=? sz);;
  Ok (Ksnap :: pack 8 id).

Definition packtree (sz : Z) (t : Tree) : res (list Z) :=
  check (Treesz <=? sz);;
  Ok (pack 4 (nref t) ++ pack 4 (nlbl t) ++ pack 4 (ht t) ++ pack 4 (tflag t) ++
      pack 8 (tgen t) ++ pack 8 (pred t) ++ pack 8 (succ t) ++ pack 8 (base t) ++
      pack 8 (addr (tbp t)) ++ pack 8 (hash (tbp t)) ++ pack 8 (gen (tbp t))).

Definition unpacktree (p : list Z) : res Tree :=
  check (Treesz <=? zlen p);;
  nref ← UNPACK 4 p;       let p := drop 4 p in
  nlbl ← UNPACK 4 p;       let p := drop 4 p in
  ht ← UNPACK 4 p;         let p := drop 4 p in
  flag ← UNPACK 4 p;       let p := drop 4 p in
  gen ← UNPACK 8 p;        let p := drop 8 p in
  pred ← UNPACK 8 p;       let p := drop 8 p in
  succ ← UNPACK 8 p;       let p := drop 8 p in
  base ← UNPACK 8 p;       let p := drop 8 p in
  ba ← UNPACK 8 p;         let p := drop 8 p in
  bh ← UNPACK 8 p;         let p := drop 8 p in
  bg ← UNPACK 8 p;
  Ok (mkTree (s32 nref) (s32 nlbl) (s32 ht) flag (s64 gen) (s64 pred) (s64 succ)
        (s64 base) (mkBptr (s64 ba) bh (s64 bg))).

Definition tree2kv (t : Tree) (nbuf : Z) : res Kvp :=
  key ← packsnap nbuf (tgen t);
  val ← packtree (nbuf - zlen key) t;
  Ok (mkKvp key val).

(** The label and reference deltas are stored as single chars. *)
Definition retag2kv (gen link dlbl dref nbuf : Z) : res Kvp :=
  check (negb (gen =? -1));;
  check (8 + 1 + 1 <=? nbuf);;
  key ← packsnap nbuf gen;
  Ok (mkKvp key (pack 8 link ++ [u8 dlbl] ++ [u8 dref])).

Definition lbl2kv (lbl : list Z) (gen flg nbuf : Z) : res Kvp :=
  check (1 + zlen lbl + 1 + 8 + 4 <=? nbuf);;
  Ok (mkKvp (Klabel :: lbl) (Ksnap :: pack 8 gen ++ pack 4 flg)).

(** * Arena headers *)

Definition packarena (sz : Z) (a : ArenaHd) : res (list Z) :=
  check (Arenasz <=? sz);;
  let p := pack 8 (addr (loghd a)) ++ pack 8 (hash (loghd a)) ++
           pack 8 (asize a) ++ pack 8 (aused a) in
  check (zlen p <=? Arenasz);; Ok p.

Definition unpackarena (p : list Z) : res ArenaHd :=
  check (Arenasz <=? zlen p);;
  a ← UNPACK 8 p;          let p := drop 8 p in
  h ← UNPACK 8 p;          let p := drop 8 p in
  size ← UNPACK 8 p;       let p := drop 8 p in
  used ← UNPACK 8 p;
  Ok (mkArenaHd (mkBptr (s64 a) h (-1)) (s64 size) (s64 used)).

(** * The superblock *)

(** "gefs9.00" *)
Definition sbmagic : list Z := [103; 101; 102; 115; 57; 46; 48; 48].

Definition packarenabp (bp : Bptr) : list Z := pack 8 (addr bp) ++ pack 8 (hash bp).

(** The fields of the superblock between its version and its checksum. *)
Definition sbbody (fi : Gefs) : list Z :=
  pack 4 Blksz ++ pack 4 Bufspc ++ pack 4 (narena fi) ++
  pack 4 (snap_ht fi) ++ pack 8 (addr (snap_bp fi)) ++ pack 8 (hash (snap_bp fi)) ++
  pack 8 (addr (snapdl_hd fi)) ++ pack 8 (hash (snapdl_hd fi)) ++
  pack 8 (addr (snapdl_tl fi)) ++ pack 8 (hash (snapdl_tl fi)) ++
  pack 8 (fflag fi) ++ pack 8 (nextqid fi) ++ pack 8 (nextgen fi) ++
  pack 8 (qgen fi) ++
  (take (Z.to_nat (narena fi)) (arenabp fi) ≫= packarenabp).

Definition sbfields (fi : Gefs) : list Z := sbmagic ++ sbbody fi.

Definition packsb (sz : Z) (fi : Gefs) : res (list Z) :=
  check (sz =? Blksz);;
  check (narena fi <? 512);;
  let p := sbfields fi in
  Ok (p ++ pack 8 (bufhash p)).

(** The loop over the arenas' block pointers: n of them from p on. *)
Fixpoint unpackarenabp (n : nat) (p : list Z) : res (list Bptr * list Z) :=
  match n with
  | O => Ok ([], p)
  | S n =>
      a ← UNPACK 8 p;
      h ← UNPACK 8 (drop 8 p);
      '(bps, p) ← unpackarenabp n (drop 16 p);
      Ok (mkBptr (s64 a) h (-1) :: bps, p)
  end.

(** [p0] is the block's buffer, sz bytes long. *)
Definition unpacksb (p0 : list Z) (sz : Z) : res Gefs :=
  check (sz =? Blksz);;
  if negb (bool_decide (take 8 p0 = sbmagic)) then Fail (Error Efsvers) else
  let p := drop 8 p0 in
  blksz ← UNPACK 4 p;      let p := drop 4 p in
  bufspc ← UNPACK 4 p;     let p := drop 4 p in
  narena ← UNPACK 4 p;     let p := drop 4 p in
  ht ← UNPACK 4 p;         let p := drop 4 p in
  ba ← UNPACK 8 p;         let p := drop 8 p in
  bh ← UNPACK 8 p;         let p := drop 8 p in
  ha ← UNPACK 8 p;         let p := drop 8 p in
  hh ← UNPACK 8 p;         let p := drop 8 p in
  ta ← UNPACK 8 p;         let p := drop 8 p in
  th ← UNPACK 8 p;         let p := drop 8 p in
  flag ← UNPACK 8 p;       let p := drop 8 p in
  nextqid ← UNPACK 8 p;    let p := drop 8 p in
  nextgen ← UNPACK 8 p;    let p := drop 8 p in
  qgen ← UNPACK 8 p;       let p := drop 8 p in
  '(bps, p) ← unpackarenabp (Z.to_nat (s32 narena)) p;
  let xh := bufhash (take (length p0 - length p) p0) in
  dh ← UNPACK 8 p;
  raise_unless (dh =? xh) Ecorruptsb;;
  check (s32 narena <? 256);;
  Ok (mkGefs (s32 blksz) (s32 bufspc) (s32 narena) (s32 ht)
        (mkBptr (s64 ba) bh (-1)) (mkBptr (s64 ha) hh (-1)) (mkBptr (s64 ta) th (-1))
        (s64 flag) (s64 nextqid) (s64 nextgen) (s64 qgen) bps).

Definition fillxdir (qid : Z) (name : list Z) (type mode len : Z) : Xdir :=
  mkXdir 0 (mkQid (u64 qid) 0 (u8 type)) (u32 mode) 0 0 (u64 len) (-1) (-1) 0 name.

(** * Round trips *)

Lemma check_leb a b : a <= b -> check (a <=? b) = Ok tt.
Proof. intros. apply check_true. by apply Z.leb_le. Qed.

Lemma unpackbp_pack bp rest :
  bptr_ok bp ->
  unpackbp (pack 8 (addr bp) ++ pack 8 (hash bp) ++ pack 8 (gen bp) ++ rest) = Ok bp.
Proof.
  intros (Ha & Hh & Hg). unfold unpackbp.
  rewrite check_leb by (autorewrite with gefs; pose proof (zlen_nonneg rest); unfold Ptrsz; lia).
  read_fields. field_values. by destruct bp.
Qed.

(** Any block pointer read back from where packbp wrote it is the same. *)
Lemma unpackbp_packbp sz bp bs rest :
  bptr_ok bp -> packbp sz bp = Ok bs -> unpackbp (bs ++ rest) = Ok bp.
Proof.
  intros Hb H. unfold packbp in H. inv_ok. subst bs. flatten. by apply unpackbp_pack.
Qed.

Lemma unpacktree_packtree sz t bs rest :
  tree_ok t -> packtree sz t = Ok bs -> unpacktree (bs ++ rest) = Ok t.
Proof.
  intros Hok Hp. destruct Hok as (? & ? & ? & ? & ? & ? & ? & ? & ? & ? & ?).
  unfold packtree in Hp. inv_ok. subst bs. unfold unpacktree.
  rewrite check_leb
    by (autorewrite with gefs; pose proof (zlen_nonneg rest); unfold Treesz, Ptrsz; lia).
  flatten. read_fields. field_values. by destruct t as [???????? []].
Qed.

Lemma unpackarena_packarena sz a bs rest :
  bptr_ok (loghd a) -> gen (loghd a) = -1 -> is_s64 (asize a) -> is_s64 (aused a) ->
  packarena sz a = Ok bs -> unpackarena (bs ++ rest) = Ok a.
Proof.
  intros (? & ? & ?) Hg ? ? Hp. unfold packarena in Hp. inv_ok. subst bs.
  unfold unpackarena.
  rewrite check_leb
    by (autorewrite with gefs; pose proof (zlen_nonneg rest); unfold Arenasz; lia).
  flatten. read_fields. field_values. destruct a as [[] ??]; cbn in *. by subst.
Qed.

Lemma kv2dlist_dlist2kv nbuf dl kv :
  is_s64 (dgen dl) -> is_s64 (bgen dl) -> bptr_ok (hd dl) -> bptr_ok (tl dl) ->
  dlist2kv dl nbuf = Ok kv -> kv2dlist kv = Ok dl.
Proof.
  intros ? ? ? ? Hp. unfold dlist2kv in Hp. inv_ok. subst kv.
  unfold kv2dlist. cbn [k v drop app]. read_fields.
  unfold packbp in *. inv_ok. subst. flatten.
  rewrite unpackbp_pack by done. rewrite ?bind_ok.
  change (Z.to_nat Ptrsz) with (8 + (8 + 8))%nat.
  rewrite <- !drop_drop, !drop_pack.
  rewrite <- (app_nil_r (pack 8 (gen (tl dl)))), unpackbp_pack by done.
  rewrite bind_ok. field_values. by destruct dl.
Qed.

(** ** Strings and directory entries *)

Lemma cstr_app s rest : cstring s -> cstr (s ++ 0 :: rest) = s.
Proof.
  induction 1 as [|b s Hb _ IH]; [done|]. cbn.
  destruct (Z.eqb_spec b 0); [lia|]. by rewrite IH.
Qed.

Lemma unpackstr_packstr s rest :
  cstring s -> zlen s < 65536 ->
  unpackstr (pack 2 (zlen s) ++ s ++ 0 :: rest) = Ok (s, rest).
Proof.
  intros Hs Hn. unfold unpackstr. pose proof (zlen_nonneg s). pose proof (zlen_nonneg rest).
  rewrite check_leb by (autorewrite with gefs; lia). read_fields. field_values.
  autorewrite with gefs. destruct (Z.ltb_spec (Z.of_nat 2 + (zlen s + (1 + zlen rest))) (zlen s + 3)); [lia|].
  cbn [orb]. rewrite cstr_app by done.
  replace (Z.to_nat (zlen s + 2)) with (2 + length s)%nat by (unfold zlen; lia).
  replace (Z.to_nat (3 + zlen s)) with (2 + (length s + 1))%nat by (unfold zlen; lia).
  rewrite app_nth2; rewrite length_pack; [|lia].
  rewrite app_nth2 by lia. replace (2 + length s - 2 - length s)%nat with 0%nat by lia.
  cbn [nth negb Z.eqb]. rewrite <- drop_drop, drop_pack.
  rewrite <- drop_drop, drop_app_length. done.
Qed.

Lemma zlen_packdval sz d bs : packdval sz d = Ok bs -> zlen bs = Xdirsz.
Proof. intros Hp. unfold packdval in Hp. inv_ok. subst bs. by autorewrite with gefs. Qed.

Lemma packdval_Ok sz d : Xdirsz <= sz -> is_Ok (packdval sz d).
Proof.
  intros. unfold packdval. rewrite check_leb by (autorewrite with gefs; unfold Xdirsz in *; lia).
  by eexists.
Qed.

(** kv2dir reads the fields packdval wrote, whatever the key. *)
Lemma kv2dir_packdval key nm rest sz d bs :
  xdir_ok d -> packdval sz d = Ok bs ->
  9 <= zlen key -> unpackstr (drop 9 key) = Ok (nm, rest) ->
  kv2dir (mkKvp key bs) =
    Ok (mkXdir (flag d) (qid d) (mode d) (atime d) (mtime d) (dlength d)
          (uid d) (gid d) (muid d) nm).
Proof.
  intros Hok Hp Hk Hs. pose proof (zlen_packdval _ _ _ Hp) as Hlen.
  destruct Hok as (? & ? & ? & ? & ? & ? & ? & ? & ? & ? & ? & ?).
  unfold packdval in Hp. inv_ok. subst bs.
  unfold kv2dir, nk, nv. cbn [k v]. rewrite Hlen, Z.eqb_refl.
  destruct (Z.ltb_spec (zlen key) 9); [lia|]. cbn [orb negb]. rewrite Hs, bind_ok.
  read_fields. rewrite drop_ge by (by rewrite length_pack).
  rewrite zlen_nil, Z.sub_0_r, Z.eqb_refl. cbn [check]. rewrite bind_ok.
  field_values. by destruct d as [? []].
Qed.

(** The key of a directory entry gives its parent and its name back. *)
Lemma unpackdkey_packdkey sz pup nm bs :
  is_s64 pup -> cstring nm -> zlen nm < 65536 ->
  packdkey sz pup (Some nm) = Ok bs -> unpackdkey bs = Ok (nm, pup).
Proof.
  intros ? ? ? Hp. unfold packdkey, packstr in Hp. inv_ok. subst. flatten.
  pose proof (zlen_nonneg nm). unfold unpackdkey.
  rewrite check_true by (apply Z.ltb_lt; autorewrite with gefs; lia).
  read_fields. field_values. change (s8 Kent =? Kent) with true.
  cbn [check]. rewrite bind_ok.
  change 9%nat with (1 + 8)%nat. rewrite <- drop_drop, !drop_pack.
  by rewrite unpackstr_packstr.
Qed.

Lemma dir2kv_Ok pup d nbuf :
  9 + zlen (name d) + 3 + Xdirsz <= nbuf -> is_Ok (dir2kv pup d nbuf).
Proof.
  intros Hn. unfold dir2kv, packdkey, packstr.
  rewrite check_leb by (autorewrite with gefs; unfold Xdirsz in *; lia). rewrite !bind_ok.
  match goal with |- context [packdval ?s d] => destruct (packdval_Ok s d) as [bs Hbs] end.
  { autorewrite with gefs. lia. }
  rewrite Hbs. by eexists.
Qed.

Lemma kv2dir_dir2kv pup d nbuf kv :
  xdir_ok d -> zlen (name d) < 65536 -> is_s64 pup ->
  dir2kv pup d nbuf = Ok kv ->
  kv2dir kv = Ok d /\ unpackdkey (k kv) = Ok (name d, pup).
Proof.
  intros Hok Hn Hpup Hp. unfold dir2kv in Hp. apply bind_Ok in Hp as (ek & Hk & Hp).
  apply bind_Ok in Hp as (ev & Hv & Hp). apply Ok_inj in Hp. subst kv. cbn [k].
  assert (cstring (name d)) as Hc by apply Hok.
  split; [|by eapply unpackdkey_packdkey].
  pose proof (zlen_nonneg (name d)).
  unfold packdkey, packstr in Hk. inv_ok. subst.
  rewrite (kv2dir_packdval _ (name d) [] _ d _ Hok Hv); [by destruct d| |].
  - autorewrite with gefs. lia.
  - flatten. change 9%nat with (1 + 8)%nat. rewrite <- drop_drop, !drop_pack.
    by apply unpackstr_packstr.
Qed.

(** ** The superblock *)

Lemma unpackarenabp_pack n bps rest :
  length bps = n -> Forall (fun b => bptr_ok b /\ gen b = -1) bps ->
  unpackarenabp n ((bps ≫= packarenabp) ++ rest) = Ok (bps, rest).
Proof.
  intros Hn Hb. revert n Hn. induction Hb as [|b bps [(? & ? & ?) Hg] _ IH]; intros n Hn.
  - by subst n.
  - cbn in Hn. subst n. cbn [unpackarenabp].
    rewrite bind_cons. set (tlb := bps ≫= packarenabp). unfold packarenabp.
    flatten. read_fields.
    change 16%nat with (8 + 8)%nat. rewrite <- drop_drop, !drop_pack. unfold tlb.
    rewrite IH by done.
    rewrite bind_ok. field_values. destruct b; cbn in *. by subst.
Qed.

Definition super_ok (fi : Gefs) : Prop :=
  blksz fi = Blksz /\ bufspc fi = Bufspc /\
  0 <= narena fi /\ narena fi = zlen (arenabp fi) /\
  is_s32 (snap_ht fi) /\ bptr_ok (snap_bp fi) /\ gen (snap_bp fi) = -1 /\
  bptr_ok (snapdl_hd fi) /\ gen (snapdl_hd fi) = -1 /\
  bptr_ok (snapdl_tl fi) /\ gen (snapdl_tl fi) = -1 /\
  is_s64 (fflag fi) /\ is_s64 (nextqid fi) /\ is_s64 (nextgen fi) /\
  is_s64 (qgen fi) /\ Forall (fun b => bptr_ok b /\ gen b = -1) (arenabp fi).

(** * Properties *)

(** What unpacksb does once it has read the fields packsb wrote. *)
Lemma unpacksb_fields fi h rest :
  super_ok fi -> narena fi < 2 ^ 31 -> 0 <= h < 2 ^ 64 ->
  unpacksb (sbfields fi ++ pack 8 h ++ rest) Blksz =
    (raise_unless (h =? bufhash (sbfields fi)) Ecorruptsb;;
     check (narena fi <? 256);; Ok fi).
Proof.
  intros Hok Hn Hh.
  destruct Hok as (Hb1 & Hb2 & Hn0 & Hna & ? & (?&?&?) & Hg1 & (?&?&?) & Hg2 &
    (?&?&?) & Hg3 & ? & ? & ? & ? & Hbps).
  unfold unpacksb. rewrite Z.eqb_refl. cbn [check]. rewrite bind_ok.
  assert (take (length (sbfields fi ++ pack 8 h ++ rest) - length (pack 8 h ++ rest))
    (sbfields fi ++ pack 8 h ++ rest) = sbfields fi) as Hpre.
  { rewrite length_app, Nat.add_sub. apply take_app_length. }
  remember (bufhash (sbfields fi)) as xh eqn:Hxh.
  set (p0 := sbfields fi ++ pack 8 h ++ rest) in *.
  assert (p0 = sbmagic ++ sbbody fi ++ pack 8 h ++ rest) as Hp0
    by (unfold p0, sbfields; by rewrite <- !app_assoc).
  assert (take 8 p0 = sbmagic) as Hmagic by (by rewrite Hp0).
  rewrite bool_decide_true by done. cbn [negb].
  assert (drop 8 p0 = sbbody fi ++ pack 8 h ++ rest) as -> by (by rewrite Hp0).
  clearbody p0. unfold sbbody. flatten.
  read_fields. field_values.
  rewrite (pack32_s32 (narena fi)) by (unfold is_s32; lia).
  rewrite take_ge by (unfold zlen in *; lia).
  rewrite unpackarenabp_pack; [|unfold zlen in *; lia|done].
  rewrite bind_ok, Hpre. read_fields. rewrite <- Hxh. field_values.
  destruct (h =? xh); [|done]. cbn [raise_unless]. rewrite !bind_ok.
  destruct (narena fi <? 256); [|done]. cbn [check]. rewrite !bind_ok.
  destruct fi as [??? ? [] [] [] ?????]; cbn in *. by subst.
Qed.

Lemma packsb_Ok fi : narena fi < 512 ->
  packsb Blksz fi = Ok (sbfields fi ++ pack 8 (bufhash (sbfields fi))).
Proof.
  intros. unfold packsb. rewrite Z.eqb_refl. cbn [check]. rewrite bind_ok.
  by rewrite check_true by lia.
Qed.

(** The superblock round trip.  For every superblock of fewer than 256
    arenas whose fields fit their types, packsb succeeds, and unpacksb on a
    block that starts with what packsb wrote returns the same superblock. *)
Theorem superblock_roundtrip fi rest :
  super_ok fi -> narena fi < 256 ->
  exists bs, packsb Blksz fi = Ok bs /\ unpacksb (bs ++ rest) Blksz = Ok fi.
Proof.
  intros Hok Hn. eexists. split; [apply packsb_Ok; lia|].
  rewrite <- app_assoc, unpacksb_fields by (done || lia || apply bufhash_u64).
  rewrite Z.eqb_refl. cbn [raise_unless]. rewrite bind_ok. by rewrite check_true by lia.
Qed.

(** A superblock is never accepted on a wrong checksum.  When the hash
    stored after the fields is not the hash of the fields, unpacksb raises
    the corruption error instead of returning a superblock. *)
Theorem superblock_checksum fi h rest :
  super_ok fi -> narena fi < 2 ^ 31 -> 0 <= h < 2 ^ 64 -> h <> bufhash (sbfields fi) ->
  unpacksb (sbfields fi ++ pack 8 h ++ rest) Blksz = Fail (Error Ecorruptsb).
Proof.
  intros Hok Hn Hh Hne. rewrite unpacksb_fields by done.
  by destruct (Z.eqb_spec h (bufhash (sbfields fi))).
Qed.

(** Packsb and unpacksb disagree on the number of arenas.  A superblock of
    256 to 511 arenas passes packsb's assertion and is written, and the next
    start aborts in unpacksb on the block that was written. *)
Theorem superblock_limits_differ fi rest :
  super_ok fi -> 256 <= narena fi < 512 ->
  exists bs, packsb Blksz fi = Ok bs /\ unpacksb (bs ++ rest) Blksz = Fail Abort.
Proof.
  intros Hok Hn. eexists. split; [apply packsb_Ok; lia|].
  rewrite <- app_assoc, unpacksb_fields by (done || lia || apply bufhash_u64).
  rewrite Z.eqb_refl. cbn [raise_unless]. rewrite bind_ok.
  by destruct (Z.ltb_spec (narena fi) 256); [lia|].
Qed.

(** Directory entries survive their key-value form.  For every entry
    whose fields fit their types and whose name is short enough for the
    buffer, dir2kv succeeds; kv2dir gives the entry back, and the key gives
    the parent's qid and the name back. *)
Theorem direntry_roundtrip pup d nbuf :
  xdir_ok d -> zlen (name d) < 65536 -> is_s64 pup ->
  9 + zlen (name d) + 3 + Xdirsz <= nbuf ->
  exists kv, dir2kv pup d nbuf = Ok kv /\
    kv2dir kv = Ok d /\ unpackdkey (k kv) = Ok (name d, pup).
Proof.
  intros Hok Hn Hp Hb. destruct (dir2kv_Ok pup d nbuf Hb) as [kv Hkv].
  exists kv. split; [done|]. by eapply kv2dir_dir2kv.
Qed.

(** The snapshot tree's records survive their packed form: a tree, a
    deadlist and a block pointer are read back as they were written, and an
    arena header up to the generation it does not store. *)
Theorem snapshot_records_roundtrip t dl p a rest nbuf :
  tree_ok t -> is_s64 (dgen dl) -> is_s64 (bgen dl) -> bptr_ok (hd dl) -> bptr_ok (tl dl) ->
  bptr_ok p -> bptr_ok (loghd a) -> gen (loghd a) = -1 -> is_s64 (asize a) -> is_s64 (aused a) ->
  Dlkvpsz <= nbuf -> Treesz <= nbuf ->
  (exists bs, packtree nbuf t = Ok bs /\ unpacktree (bs ++ rest) = Ok t) /\
  (exists kv, dlist2kv dl nbuf = Ok kv /\ kv2dlist kv = Ok dl) /\
  (exists bs, packbp nbuf p = Ok bs /\ unpackbp (bs ++ rest) = Ok p) /\
  (exists bs, packarena nbuf a = Ok bs /\ unpackarena (bs ++ rest) = Ok a).
Proof.
  intros Ht ? ? ? ? Hp ? ? ? ? Hd Hz. unfold Dlkvpsz, Dlksz, Dlvsz, Treesz, Ptrsz in *.
  split_and!.
  - assert (is_Ok (packtree nbuf t)) as [bs E].
    { unfold packtree. rewrite check_leb by (unfold Treesz, Ptrsz; lia). by eexists. }
    exists bs. split; [done|]. by eapply unpacktree_packtree.
  - assert (is_Ok (dlist2kv dl nbuf)) as [kv E].
    { unfold dlist2kv, packbp.
      repeat (rewrite check_leb, !bind_ok by (autorewrite with gefs; unfold Dlkvpsz, Dlksz, Dlvsz, Ptrsz; lia)).
      by eexists. }
    exists kv. split; [done|]. by eapply kv2dlist_dlist2kv.
  - assert (is_Ok (packbp nbuf p)) as [bs E].
    { unfold packbp. rewrite check_leb by (unfold Ptrsz; lia). by eexists. }
    exists bs. split; [done|]. by eapply unpackbp_packbp.
  - assert (is_Ok (packarena nbuf a)) as [bs E].
    { unfold packarena. rewrite (check_leb Arenasz nbuf) by (unfold Arenasz; lia). rewrite bind_ok.
      rewrite check_leb by (autorewrite with gefs; unfold Arenasz; lia). by eexists. }
    exists bs. split; [done|]. by eapply unpackarena_packarena.
Qed.

(** ** Concrete instances *)

Definition ex_bp (a : Z) : Bptr := mkBptr a 7 (-1).
Definition ex_super (n : Z) : Gefs :=
  mkGefs Blksz Bufspc n 2 (ex_bp 65536) (ex_bp 81920) (ex_bp (-1)) 0 10 11 12
    (replicate (Z.to_nat n) (ex_bp 16384)).

Lemma ex_bp_ok a : is_s64 a -> bptr_ok (ex_bp a) /\ gen (ex_bp a) = -1.
Proof. done. Qed.

Lemma ex_super_ok n : 0 <= n -> super_ok (ex_super n).
Proof.
  intros. unfold super_ok, ex_super, zlen. cbn -[Z.of_nat].
  rewrite length_replicate, Z2Nat.id by done.
  split_and!; try done; try lia. by apply Forall_replicate.
Qed.

Lemma superblock_roundtrip_witness :
  super_ok (ex_super 3) /\
  exists bs, packsb Blksz (ex_super 3) = Ok bs /\ unpacksb (bs ++ [1; 2]) Blksz = Ok (ex_super 3).
Proof.
  split; [by apply ex_super_ok|]. apply superblock_roundtrip; [by apply ex_super_ok|done].
Defined.

Lemma superblock_checksum_witness :
  unpacksb (sbfields (ex_super 1) ++ pack 8 5 ++ [0]) Blksz = Fail (Error Ecorruptsb).
Proof.
  apply superblock_checksum; [by apply ex_super_ok|done|done|].
  vm_compute. discriminate.
Defined.

Lemma superblock_limits_differ_witness :
  exists bs, packsb Blksz (ex_super 300) = Ok bs /\ unpacksb (bs ++ [0]) Blksz = Fail Abort.
Proof. apply superblock_limits_differ; [by apply ex_super_ok|done]. Defined.

Definition ex_dir : Xdir :=
  mkXdir 0 (mkQid 9 1 0) 420 5 6 4096 1 1 1 [97; 98].

Lemma direntry_roundtrip_witness :
  exists kv, dir2kv 3 ex_dir 512 = Ok kv /\
    kv2dir kv = Ok ex_dir /\ unpackdkey (k kv) = Ok ([97; 98], 3).
Proof.
  apply (direntry_roundtrip 3 ex_dir 512); try done.
  unfold xdir_ok. split_and!; try done. by repeat constructor.
Defined.

Definition ex_tree : Tree := mkTree 1 1 2 0 9 8 (-1) 7 (ex_bp 65536).
Definition ex_dlist : Dlist := mkDlist 4 3 (ex_bp 16384) (ex_bp 32768).
Definition ex_arena : ArenaHd := mkArenaHd (ex_bp 16384) 1048576 65536.

Lemma snapshot_records_roundtrip_witness :
  (exists bs, packtree 512 ex_tree = Ok bs /\ unpacktree (bs ++ [5]) = Ok ex_tree) /\
  (exists kv, dlist2kv ex_dlist 512 = Ok kv /\ kv2dlist kv = Ok ex_dlist) /\
  (exists bs, packbp 512 (ex_bp 3) = Ok bs /\ unpackbp (bs ++ [5]) = Ok (ex_bp 3)) /\
  (exists bs, packarena 512 ex_arena = Ok bs /\ unpackarena (bs ++ [5]) = Ok ex_arena).
Proof. apply snapshot_records_roundtrip; done. Defined.
