(* ===== verification/Node.v ===== *)
(** sys/src/9/gefs/tree.c, the node level: key comparison, the slotted layout
    of leaf and pivot blocks (getval, setval, getmsg, setmsg), and the binary
    searches over it.

    A block holds its values in a slot table of 16-bit offsets that grows up
    from the start of its data, and the entries the slots point to grow down
    from the end of the space.  A pivot has a second such area for buffered
    messages.  [blk_repr b kvs msgs] says that the bytes of [b] hold the
    values [kvs] and the messages [msgs]. *)

From S2P Require Import Prelude Layout Pack.

(** * Keys *)

(** libc's memcmp over n bytes. *)
Fixpoint memcmp (a b : list Z) (n : nat) : Z :=
  match n, a, b with
  | S n, x :: a, y :: b => if x =? y then memcmp a b n else if x <? y then -1 else 1
  | _, _, _ => 0
  end.

Definition keycmp (a b : list Z) : Z :=
  let n := Nat.min (length a) (length b) in
  let c := memcmp a b n in
  if negb (c =? 0) then (if c <? 0 then -1 else 1)
  else if zlen a <? zlen b then -1
  else if zlen b <? zlen a then 1
  else 0.

Definition msgsz (m : Msg) : Z := 2 + 1 + 2 + zlen (mk m) + 2 + zlen (mv m).
Definition valsz (kv : Kvp) : Z := 2 + 2 + nk kv + 2 + nv kv.

(** cpkvp copies a key and a value into a buffer of nbuf bytes. *)
Definition cpkvp (src : Kvp) (nbuf : Z) : res Kvp :=
  check (nk src + nv src <=? nbuf);; Ok src.

Definition cpkey (src : list Z) (nbuf : Z) : res (list Z) :=
  check (zlen src <=? nbuf);; Ok src.

(** * Blocks *)

Record Blk := mkBlk {
  btyp : btype; nval : Z; bvalsz : Z; nbuf : Z; bufsz : Z; data : list Z; bp : Bptr
}.

Definition bspc (b : Blk) : Z := if decide (btyp b = Tleaf) then Leafspc else Pivspc.

Definition getval (b : Blk) (i : Z) : res Kvp :=
  check ((0 <=? i) && (i <? nval b));;
  o ← UNPACK 2 (drop (Z.to_nat (2 * i)) (data b));
  let p := drop (Z.to_nat o) (data b) in
  n ← UNPACK 2 p;
  key ← READ (Z.to_nat n) (drop 2 p);
  let p := drop (Z.to_nat n) (drop 2 p) in
  n ← UNPACK 2 p;
  if s16 n <? 0 then Fail Undef else
  val ← READ (Z.to_nat n) (drop 2 p);
  Ok (mkKvp key val).

Definition getptr (kv : Kvp) : res (Bptr * Z) :=
  check (nv kv =? Ptrsz + 2);;
  fill ← UNPACK 2 (drop (Z.to_nat Ptrsz) (v kv));
  bp ← unpackbp (v kv);
  Ok (bp, fill).

Definition enc_kv (kv : Kvp) : list Z := pack 2 (nk kv) ++ k kv ++ pack 2 (nv kv) ++ v kv.

Definition setval (b : Blk) (kv : Kvp) : res Blk :=
  let spc := bspc b in
  let vsz := s16 (bvalsz b + (2 + nk kv + 2 + nv kv)) in
  let off := spc - vsz in
  check (negb (bool_decide (head (k kv) = Some Kent) && (nv kv =? 0)));;
  check (2 * (nval b + 1) + vsz <=? spc);;
  check (2 * (nval b + 1) <=? off);;
  let d := patch (data b) (Z.to_nat (2 * nval b)) (pack 2 off) in
  let d := patch d (Z.to_nat off) (enc_kv kv) in
  Ok (mkBlk (btyp b) (s16 (nval b + 1)) vsz (nbuf b) (bufsz b) d (bp b)).

Definition setptr (b : Blk) (key : list Z) (bp : Bptr) (fill : Z) : res Blk :=
  p ← packbp (Ptrsz + 2) bp;
  setval b (mkKvp key (p ++ pack 2 fill)).

Definition enc_msg (m : Msg) : list Z :=
  [u8 (op m)] ++ pack 2 (zlen (mk m)) ++ mk m ++ pack 2 (zlen (mv m)) ++ mv m.

Definition setmsg (b : Blk) (m : Msg) : res Blk :=
  check (bool_decide (btyp b = Tpivot));;
  let bsz := s16 (bufsz b + (msgsz m - 2)) in
  check (2 * (nbuf b + 1) + bsz <=? Bufspc);;
  let o := Bufspc - bsz in
  let d := patch (data b) (Z.to_nat (Pivspc + 2 * nbuf b)) (pack 2 o) in
  let d := patch d (Z.to_nat (Pivspc + o)) (enc_msg m) in
  Ok (mkBlk (btyp b) (nval b) (bvalsz b) (s16 (nbuf b + 1)) bsz d (bp b)).

Definition getmsg (b : Blk) (i : Z) : res Msg :=
  check (bool_decide (btyp b = Tpivot));;
  check ((0 <=? i) && (i <? nbuf b));;
  o ← UNPACK 2 (drop (Z.to_nat (Pivspc + 2 * i)) (data b));
  let p := drop (Z.to_nat (Pivspc + o)) (data b) in
  op ← UNPACK 1 p;
  let p := drop 1 p in
  n ← UNPACK 2 p;
  key ← READ (Z.to_nat n) (drop 2 p);
  let p := drop (Z.to_nat n) (drop 2 p) in
  n ← UNPACK 2 p;
  if s16 n <? 0 then Fail Undef else
  val ← READ (Z.to_nat n) (drop 2 p);
  Ok (mkMsg (s8 op) key val).

(** ** Searching

    The loop both searches share; [get i] reads the key of entry i.  It
    leaves (ri, lo). *)
Fixpoint bsearch (fuel : nat) (get : Z -> res (list Z)) (key : list Z)
    (ri lo hi : Z) : res (Z * Z) :=
  if hi <? lo then Ok (ri, lo) else
  match fuel with
  | O => Fail Fuel
  | S fuel =>
      let mid := Z.quot (hi + lo) 2 in
      cmp ← get mid;
      let r := keycmp key cmp in
      if r =? -1 then bsearch fuel get key ri lo (mid - 1)
      else if r =? 0 then bsearch fuel get key mid lo (mid - 1)
      else bsearch fuel get key ri (mid + 1) hi
  end.

(** The index found, and whether its key is the one searched for. *)
Definition search_result (rl : Z * Z) : Z * bool :=
  let '(ri, lo) := rl in
  if ri =? -1 then (lo - 1, false) else (ri, true).

Definition bufsearch (b : Blk) (key : list Z) : res (Z * option Msg * bool) :=
  rl ← bsearch (Z.to_nat (nbuf b)) (fun i => m ← getmsg b i; Ok (mk m)) key (-1) 0 (nbuf b - 1);
  let '(ri, same) := search_result rl in
  if 0 <=? ri then m ← getmsg b ri; Ok (ri, Some m, same) else Ok (ri, None, same).

Definition blksearch (b : Blk) (key : list Z) : res (Z * option Kvp * bool) :=
  rl ← bsearch (Z.to_nat (nval b)) (fun i => kv ← getval b i; Ok (k kv)) key (-1) 0 (nval b - 1);
  let '(ri, same) := search_result rl in
  if 0 <=? ri then kv ← getval b ri; Ok (ri, Some kv, same) else Ok (ri, None, same).

(** ** Fill levels *)

Definition blkfill (b : Blk) : res Z :=
  match btyp b with
  | Tpivot => Ok (u16 (2 * nbuf b + bufsz b + 2 * nval b + bvalsz b))
  | Tleaf => Ok (u16 (2 * nval b + bvalsz b))
  | _ => Fail Abort
  end.

Definition buffill (b : Blk) : res Z :=
  check (bool_decide (btyp b = Tpivot));; Ok (2 * nbuf b + bufsz b).

Definition filledbuf (b : Blk) (nmsg needed : Z) : res bool :=
  check (bool_decide (btyp b = Tpivot));;
  Ok (Bufspc <? 2 * (nbuf b + nmsg) + bufsz b + needed).

Definition filledleaf (b : Blk) (needed : Z) : res bool :=
  check (bool_decide (btyp b = Tleaf));;
  Ok (Leafspc <? 2 * (nval b + 1) + bvalsz b + needed).

Definition filledpiv (b : Blk) (reserve : Z) : res bool :=
  check (bool_decide (btyp b = Tpivot));;
  Ok (Pivspc <? 2 * (nval b + 1) + bvalsz b + reserve * (8 + Keymax + Ptrsz)).

(** * Key order *)

Lemma keycmp_nil_l b : keycmp [] b = match b with [] => 0 | _ => -1 end.
Proof. destruct b; [done|]. unfold keycmp. cbn -[zlen]. rewrite zlen_cons, zlen_nil.
  pose proof (zlen_nonneg b). by destruct (Z.ltb_spec 0 (1 + zlen b)); [|lia]. Qed.

Lemma keycmp_nil_r a : keycmp a [] = match a with [] => 0 | _ => 1 end.
Proof. destruct a; [done|]. unfold keycmp. cbn -[zlen]. rewrite zlen_cons, zlen_nil.
  pose proof (zlen_nonneg a). destruct (Z.ltb_spec (1 + zlen a) 0); [lia|].
  by destruct (Z.ltb_spec 0 (1 + zlen a)); [|lia]. Qed.

Lemma keycmp_cons x y a b :
  keycmp (x :: a) (y :: b) =
    if x =? y then keycmp a b else if x <? y then -1 else 1.
Proof.
  unfold keycmp. cbn -[zlen]. rewrite !zlen_cons.
  destruct (x =? y); [|by destruct (x <? y)].
  replace (1 + zlen a <? 1 + zlen b) with (zlen a <? zlen b) by lia.
  by replace (1 + zlen b <? 1 + zlen a) with (zlen b <? zlen a) by lia.
Qed.

Ltac key_cases :=
  rewrite ?keycmp_cons, ?keycmp_nil_l, ?keycmp_nil_r in *;
  repeat match goal with
  | |- context [?x =? ?y] => destruct (Z.eqb_spec x y)
  | |- context [?x <? ?y] => destruct (Z.ltb_spec x y)
  | H : context [?x =? ?y] |- _ => destruct (Z.eqb_spec x y)
  | H : context [?x <? ?y] |- _ => destruct (Z.ltb_spec x y)
  end; subst; try lia; try done.

Lemma keycmp_range a b : keycmp a b = -1 \/ keycmp a b = 0 \/ keycmp a b = 1.
Proof.
  revert b. induction a as [|x a IH]; intros [|y b]; key_cases; auto.
Qed.

Lemma keycmp_eq a b : keycmp a b = 0 <-> a = b.
Proof.
  revert b. induction a as [|x a IH]; intros [|y b]; split; intros H; key_cases.
  - f_equal. by apply IH.
  - apply IH. congruence.
  - congruence.
  - congruence.
Qed.

Lemma keycmp_refl a : keycmp a a = 0.
Proof. by apply keycmp_eq. Qed.

Lemma keycmp_opp a b : keycmp b a = - keycmp a b.
Proof. revert b. induction a as [|x a IH]; intros [|y b]; key_cases; auto. Qed.

Lemma keycmp_trans a b c : keycmp a b <= 0 -> keycmp b c <= 0 -> keycmp a c <= 0.
Proof.
  revert b c. induction a as [|x a IH]; intros [|y b] [|z c] H1 H2; key_cases; eauto.
Qed.

Definition key_le (a b : list Z) : Prop := keycmp a b <= 0.
Definition key_lt (a b : list Z) : Prop := keycmp a b < 0.

#[global] Instance key_le_dec : RelDecision key_le.
Proof. intros a b. unfold key_le, Decision. apply Z_le_dec. Defined.
#[global] Instance key_lt_dec : RelDecision key_lt.
Proof. intros a b. unfold key_lt, Decision. apply Z_lt_dec. Defined.

#[global] Instance key_le_total : TotalOrder key_le.
Proof.
  repeat split.
  - intros a. unfold key_le. rewrite keycmp_refl. lia.
  - intros a b c. apply keycmp_trans.
  - intros a b H1 H2. unfold key_le in *. rewrite keycmp_opp in H2.
    apply keycmp_eq. lia.
  - intros a b. unfold strict, key_le. rewrite (keycmp_opp a b).
    destruct (keycmp_range a b) as [H|[H|H]]; rewrite H.
    + left. lia.
    + right; left. by apply keycmp_eq.
    + right; right. lia.
Qed.

Lemma key_lt_le a b : key_lt a b -> key_le a b.
Proof. unfold key_lt, key_le. lia. Qed.

Lemma key_lt_strict a b : key_lt a b <-> key_le a b /\ a <> b.
Proof.
  unfold key_lt, key_le. rewrite <- keycmp_eq. lia.
Qed.

Lemma key_le_lt_trans a b c : key_le a b -> key_lt b c -> key_lt a c.
Proof.
  rewrite !key_lt_strict. intros H1 [H2 H3]. split; [by etrans|].
  intros ->. apply H3. by apply (anti_symm key_le).
Qed.

Lemma key_lt_le_trans a b c : key_lt a b -> key_le b c -> key_lt a c.
Proof.
  rewrite !key_lt_strict. intros [H2 H3] H1. split; [by etrans|].
  intros ->. apply H3. by apply (anti_symm key_le).
Qed.

#[global] Instance key_lt_trans : Transitive key_lt.
Proof. intros a b c H1 H2. eapply key_le_lt_trans; [|exact H2]. by apply key_lt_le. Qed.

#[global] Instance key_lt_irrefl : Irreflexive key_lt.
Proof. intros a. unfold complement, key_lt. rewrite keycmp_refl. lia. Qed.

(** The outcomes of keycmp as the code's switch has them. *)
Lemma keycmp_cases a b :
  (keycmp a b = -1 /\ key_lt a b) \/ (keycmp a b = 0 /\ a = b) \/
  (keycmp a b = 1 /\ key_lt b a).
Proof.
  destruct (keycmp_range a b) as [H|[H|H]].
  - left. split; [done|]. unfold key_lt. lia.
  - right; left. split; [done|by apply keycmp_eq].
  - right; right. split; [done|]. unfold key_lt. rewrite keycmp_opp. lia.
Qed.

(** Packed unsigned integers sort as the integers do. *)
Lemma keycmp_app_l p a b : keycmp (p ++ a) (p ++ b) = keycmp a b.
Proof. induction p as [|x p IH]; [done|]. cbn. rewrite keycmp_cons, Z.eqb_refl. done. Qed.

Lemma keycmp_bytes a b a' b' :
  bytes a -> bytes b -> length a = length b ->
  keycmp (a ++ a') (b ++ b') =
    if unpack a =? unpack b then keycmp a' b'
    else if unpack a <? unpack b then -1 else 1.
Proof.
  intros Ha. revert b. induction Ha as [|x a Hx Ha IH]; intros [|y b] Hb Hl; try done.
  inversion Hb as [|? ? Hy Hb']; subst. cbn [length app] in *. injection Hl as Hl.
  rewrite keycmp_cons, !unpack_cons by done.
  pose proof (unpack_range a Ha). pose proof (unpack_range b Hb').
  assert (zlen a = zlen b) as E by (unfold zlen; by rewrite Hl). rewrite E in *.
  set (w := 2 ^ (8 * zlen b)) in *.
  destruct (Z.eqb_spec x y) as [->|Hne].
  - rewrite IH by done.
    replace (y * w + unpack a =? y * w + unpack b) with (unpack a =? unpack b) by lia.
    by replace (y * w + unpack a <? y * w + unpack b) with (unpack a <? unpack b) by lia.
  - destruct (Z.ltb_spec x y).
    + destruct (Z.eqb_spec (x * w + unpack a) (y * w + unpack b)); [nia|].
      by destruct (Z.ltb_spec (x * w + unpack a) (y * w + unpack b)); [|nia].
    + destruct (Z.eqb_spec (x * w + unpack a) (y * w + unpack b)); [nia|].
      by destruct (Z.ltb_spec (x * w + unpack a) (y * w + unpack b)); [nia|].
Qed.

(** * What the bytes of a block hold *)

Definition sum_list (l : list Z) : Z := foldr Z.add 0 l.

Lemma sum_list_app l1 l2 : sum_list (l1 ++ l2) = sum_list l1 + sum_list l2.
Proof. unfold sum_list. induction l1; cbn; lia. Qed.

Lemma sum_list_cons x l : sum_list (x :: l) = x + sum_list l.
Proof. done. Qed.

(** Bytes of the entry of a value, and of a message, without their slot. *)
Definition kvsz (kv : Kvp) : Z := 2 + nk kv + 2 + nv kv.
Definition emsz (m : Msg) : Z := msgsz m - 2.

Definition kvs_size (kvs : list Kvp) : Z := sum_list (kvsz <$> kvs).
Definition msgs_size (ms : list Msg) : Z := sum_list (emsz <$> ms).

Lemma kvs_size_app a b : kvs_size (a ++ b) = kvs_size a + kvs_size b.
Proof. unfold kvs_size. by rewrite fmap_app, sum_list_app. Qed.
Lemma kvs_size_cons x l : kvs_size (x :: l) = kvsz x + kvs_size l.
Proof. done. Qed.
Lemma msgs_size_app a b : msgs_size (a ++ b) = msgs_size a + msgs_size b.
Proof. unfold msgs_size. by rewrite fmap_app, sum_list_app. Qed.
Lemma msgs_size_cons x l : msgs_size (x :: l) = emsz x + msgs_size l.
Proof. done. Qed.
#[export] Hint Rewrite kvs_size_app kvs_size_cons msgs_size_app msgs_size_cons : gefs.

#[global] Instance kvs_size_perm : Proper (Permutation ==> eq) kvs_size.
Proof. induction 1; autorewrite with gefs; lia. Qed.
#[global] Instance msgs_size_perm : Proper (Permutation ==> eq) msgs_size.
Proof. induction 1; autorewrite with gefs; lia. Qed.

Lemma kvsz_pos kv : 4 <= kvsz kv.
Proof. unfold kvsz, nk, nv. pose proof (zlen_nonneg (k kv)). pose proof (zlen_nonneg (v kv)). lia. Qed.
Lemma emsz_pos m : 5 <= emsz m.
Proof. unfold emsz, msgsz. pose proof (zlen_nonneg (mk m)). pose proof (zlen_nonneg (mv m)). lia. Qed.
Lemma kvs_size_nonneg l : 0 <= kvs_size l.
Proof. induction l as [|x l IH]; [done|]. rewrite kvs_size_cons. pose proof (kvsz_pos x). lia. Qed.
Lemma msgs_size_nonneg l : 0 <= msgs_size l.
Proof. induction l as [|x l IH]; [done|]. rewrite msgs_size_cons. pose proof (emsz_pos x). lia. Qed.

Lemma zlen_enc_kv kv : zlen (enc_kv kv) = kvsz kv.
Proof. unfold enc_kv. autorewrite with gefs. unfold kvsz, nk, nv. lia. Qed.
Lemma zlen_enc_msg m : zlen (enc_msg m) = emsz m.
Proof. unfold enc_msg. autorewrite with gefs. unfold emsz, msgsz. lia. Qed.

(** Slot i of the area that starts at [base] of [d] points at [e], which lies
    in the last [used] bytes of the area's [spc]. *)
Definition slot_at (d : list Z) (base spc used : Z) (i : nat) (e : list Z) : Prop :=
  exists o, spc - used <= o /\ o + zlen e <= spc /\
    slice d (Z.to_nat (base + 2 * Z.of_nat i)) 2 = pack 2 o /\
    slice d (Z.to_nat (base + o)) (length e) = e.

(** The area holds exactly the entries [es]. *)
Definition area (d : list Z) (base spc used : Z) (es : list (list Z)) : Prop :=
  0 <= used /\ 2 * zlen es + used <= spc /\
  forall i e, es !! i = Some e -> slot_at d base spc used i e.

Definition datasz (t : btype) : Z := if decide (t = Tleaf) then Leafspc else Pivsz.

Record blk_repr (b : Blk) (kvs : list Kvp) (ms : list Msg) : Prop := {
  repr_typ : btyp b = Tleaf \/ btyp b = Tpivot;
  repr_data : zlen (data b) = datasz (btyp b);
  repr_nval : nval b = zlen kvs;
  repr_valsz : bvalsz b = kvs_size kvs;
  repr_nbuf : nbuf b = zlen ms;
  repr_bufsz : bufsz b = msgs_size ms;
  repr_leaf : btyp b = Tleaf -> ms = [];
  repr_ops : Forall (fun m => 0 <= op m < 128) ms;
  repr_vals : area (data b) 0 (bspc b) (bvalsz b) (enc_kv <$> kvs);
  repr_bufs : btyp b = Tpivot -> area (data b) Pivspc Bufspc (bufsz b) (enc_msg <$> ms)
}.

(** The cases of a block's type, with every size made a number. *)
Lemma layout_sizes :
  Leafspc = 16378 /\ Pivspc = 8187 /\ Bufspc = 8187 /\ Pivsz = 16374.
Proof. done. Qed.

(** A write into free space of an area leaves its slots as they are. *)
Lemma slot_at_patch d base spc used i e off bs :
  0 <= base -> slot_at d base spc used i e ->
  0 <= off -> off + zlen bs <= zlen d -> base + spc <= zlen d ->
  (base + 2 * Z.of_nat i + 2 <= off \/ off + zlen bs <= base + 2 * Z.of_nat i) ->
  (base + spc <= off \/ off + zlen bs <= base + spc - used) ->
  0 <= spc - used ->
  slot_at (patch d (Z.to_nat off) bs) base spc used i e.
Proof.
  intros Hb (o & Ho1 & Ho2 & Hs & He) Hoff Hlen Hspc Hslot Hent Hu.
  exists o. unfold zlen in *. repeat split; try done.
  - rewrite <- Hs. destruct Hslot.
    + apply slice_patch_before; lia.
    + apply slice_patch_after; lia.
  - rewrite <- He at 2. destruct Hent.
    + apply slice_patch_before; lia.
    + apply slice_patch_after; lia.
Qed.

Lemma slot_at_weaken d base spc used used' i e :
  used <= used' -> slot_at d base spc used i e -> slot_at d base spc used' i e.
Proof. intros H (o & ? & ? & ? & ?). exists o. repeat split; try done; lia. Qed.

(** Appending an entry below the used part, with the next free slot. *)
Lemma area_append d base spc used es e :
  area d base spc used es ->
  0 <= base -> base + spc <= zlen d -> spc < 65536 ->
  2 * (zlen es + 1) + used + zlen e <= spc ->
  let off := spc - (used + zlen e) in
  let d1 := patch d (Z.to_nat (base + 2 * zlen es)) (pack 2 off) in
  area (patch d1 (Z.to_nat (base + off)) e) base spc (used + zlen e) (es ++ [e]).
Proof.
  intros (Hu & Hfit & Hslots) Hb Hlen Hspc Hroom off d1.
  pose proof (zlen_nonneg es). pose proof (zlen_nonneg e).
  assert (zlen d1 = zlen d) as Hd1.
  { unfold d1, zlen in *. rewrite length_patch; [done|]. rewrite length_pack. lia. }
  split_and!; [lia|rewrite zlen_app, zlen_cons, zlen_nil; lia|].
  intros i x Hx. apply lookup_app_Some in Hx as [Hx|[Hi Hx]].
  - pose proof (lookup_lt_Some _ _ _ Hx) as Hil.
    assert (Z.of_nat i < zlen es) by (unfold zlen; lia).
    apply (slot_at_weaken _ _ _ used); [lia|].
    apply slot_at_patch; rewrite ?Hd1; try lia.
    apply slot_at_patch; rewrite ?zlen_pack; try lia. by apply Hslots.
  - apply list_lookup_singleton_Some in Hx as [Hi' <-].
    assert (i = length es) as -> by lia. exists off.
    split_and!; [lia|lia| |].
    + rewrite slice_patch_before by (unfold zlen in *; lia).
      change (Z.of_nat (length es)) with (zlen es). unfold d1.
      rewrite <- (length_pack 2 off) at 2.
      apply slice_patch_same. rewrite length_pack. unfold zlen in *. lia.
    + apply slice_patch_same. unfold zlen in *. lia.
Qed.

(** Writing outside of an area keeps it. *)
Lemma area_patch_outside d base spc used es off bs :
  area d base spc used es -> 0 <= base -> 0 <= off ->
  off + zlen bs <= zlen d -> base + spc <= zlen d ->
  (off + zlen bs <= base \/ base + spc <= off) ->
  area (patch d (Z.to_nat off) bs) base spc used es.
Proof.
  intros (Hu & Hfit & Hslots) Hb Hoff Hl Hs Hout. pose proof (zlen_nonneg es).
  split_and!; [done|done|]. intros i e He.
  pose proof (lookup_lt_Some _ _ _ He). assert (Z.of_nat i < zlen es) by (unfold zlen; lia).
  apply slot_at_patch; try lia. by apply Hslots.
Qed.

(** Reading a slice as a pointer does. *)
Lemma drop_slice d off n e :
  slice d off n = e -> length e = n -> exists rest, drop off d = e ++ rest.
Proof.
  intros <- _. exists (drop n (drop off d)). unfold slice. by rewrite take_drop.
Qed.

Lemma slot_at_read d base spc used i e :
  0 <= base -> slot_at d base spc used i e -> 0 <= spc - used -> spc < 65536 ->
  exists o rest,
    UNPACK 2 (drop (Z.to_nat (base + 2 * Z.of_nat i)) d) = Ok o /\
    drop (Z.to_nat (base + o)) d = e ++ rest.
Proof.
  intros Hb (o & Ho1 & Ho2 & Hs & He) Hu Hspc. exists o. pose proof (zlen_nonneg e).
  destruct (drop_slice _ _ _ _ Hs) as [r1 Hr1]; [by rewrite length_pack|].
  destruct (drop_slice _ _ _ _ He) as [r2 Hr2]; [done|].
  exists r2. rewrite Hr1, UNPACK_pack, Hr2. split; [|done]. f_equal.
  apply pack16_u16. unfold is_u16. lia.
Qed.

(** * getval and setval *)

Lemma dec_kv kv rest :
  kvsz kv < 32768 ->
  (n ← UNPACK 2 (enc_kv kv ++ rest);
   key ← READ (Z.to_nat n) (drop 2 (enc_kv kv ++ rest));
   let p := drop (Z.to_nat n) (drop 2 (enc_kv kv ++ rest)) in
   n ← UNPACK 2 p;
   if s16 n <? 0 then Fail Undef else
   val ← READ (Z.to_nat n) (drop 2 p);
   Ok (mkKvp key val)) = Ok kv.
Proof.
  intros Hsz. pose proof (zlen_nonneg (k kv)). pose proof (zlen_nonneg (v kv)).
  unfold kvsz, nk, nv in Hsz. unfold enc_kv. flatten. read_fields.
  unfold nk, nv. change (8 * Z.of_nat 2) with 16.
  rewrite !(pack16_u16 (zlen _)) by (unfold is_u16; lia).
  rewrite READ_app by (unfold zlen; lia). rewrite bind_ok. cbn zeta.
  rewrite drop_app_length' by (unfold zlen; lia). read_fields.
  change (8 * Z.of_nat 2) with 16. rewrite pack16_u16 by (unfold is_u16; lia).
  rewrite s16_id by lia. destruct (Z.ltb_spec (zlen (v kv)) 0); [lia|].
  rewrite READ_app by (unfold zlen; lia). rewrite bind_ok. by destruct kv.
Qed.

Lemma kvs_size_lookup kvs i kv : kvs !! i = Some kv -> kvsz kv <= kvs_size kvs.
Proof.
  revert i. induction kvs as [|x l IH]; intros [|i] H; try done; rewrite kvs_size_cons;
    cbn in H; pose proof (kvs_size_nonneg l); pose proof (kvsz_pos x).
  - simplify_eq. lia.
  - apply IH in H. lia.
Qed.

Lemma msgs_size_lookup ms i m : ms !! i = Some m -> emsz m <= msgs_size ms.
Proof.
  revert i. induction ms as [|x l IH]; intros [|i] H; try done; rewrite msgs_size_cons;
    cbn in H; pose proof (msgs_size_nonneg l); pose proof (emsz_pos x).
  - simplify_eq. lia.
  - apply IH in H. lia.
Qed.

Lemma bspc_bound b : 8187 <= bspc b <= 16378.
Proof. unfold bspc. case_decide; done. Qed.

Lemma repr_fill b kvs ms : blk_repr b kvs ms -> 2 * zlen kvs + kvs_size kvs <= bspc b.
Proof.
  intros R. destruct (repr_vals _ _ _ R) as (_ & H & _).
  rewrite (repr_valsz _ _ _ R) in H. unfold zlen in *. by rewrite length_fmap in H.
Qed.

Lemma getval_repr b kvs ms i kv :
  blk_repr b kvs ms -> kvs !! i = Some kv -> getval b (Z.of_nat i) = Ok kv.
Proof.
  intros R Hi. pose proof (lookup_lt_Some _ _ _ Hi). unfold getval.
  pose proof (repr_fill _ _ _ R) as Hfill. pose proof (bspc_bound b).
  pose proof (kvs_size_lookup _ _ _ Hi). pose proof (zlen_nonneg kvs).
  rewrite (repr_nval _ _ _ R).
  rewrite check_true by (unfold zlen; lia). rewrite bind_ok.
  destruct (repr_vals _ _ _ R) as (Hu & Hf & Hs). rewrite (repr_valsz _ _ _ R) in *.
  destruct (slot_at_read (data b) 0 (bspc b) (kvs_size kvs) i (enc_kv kv)) as (o & rest & Ho & He).
  - done.
  - apply Hs. by rewrite list_lookup_fmap, Hi.
  - unfold zlen in *. lia.
  - lia.
  - rewrite !Z.add_0_l in *. rewrite Ho, bind_ok. cbn zeta. rewrite He.
    apply dec_kv. lia.
Qed.

(** setval's own assertion on what it stores: a directory entry has a value. *)
Definition entry_ok (kv : Kvp) : Prop := head (k kv) = Some Kent -> nv kv <> 0.
#[global] Instance entry_ok_dec kv : Decision (entry_ok kv).
Proof. unfold entry_ok. apply _. Defined.

Lemma data_room b kvs ms :
  blk_repr b kvs ms -> bspc b <= zlen (data b) /\
  (btyp b = Tpivot -> bspc b = Pivspc /\ Pivspc + Bufspc <= zlen (data b)).
Proof.
  intros R. rewrite (repr_data _ _ _ R). unfold bspc, datasz.
  destruct (repr_typ _ _ _ R) as [->| ->]; done.
Qed.

Lemma setval_repr b kvs ms kv :
  blk_repr b kvs ms -> entry_ok kv ->
  2 * (zlen kvs + 1) + kvs_size kvs + kvsz kv <= bspc b ->
  exists b', setval b kv = Ok b' /\ blk_repr b' (kvs ++ [kv]) ms /\
    btyp b' = btyp b /\ bp b' = bp b.
Proof.
  intros R He Hroom. destruct (data_room _ _ _ R) as [Hdr Hpiv].
  pose proof (bspc_bound b). pose proof (kvsz_pos kv). pose proof (zlen_nonneg kvs).
  pose proof (kvs_size_nonneg kvs).
  assert (s16 (bvalsz b + (2 + nk kv + 2 + nv kv)) = kvs_size kvs + kvsz kv) as Hv.
  { rewrite (repr_valsz _ _ _ R). unfold kvsz in *. rewrite s16_id; lia. }
  unfold setval. rewrite Hv. rewrite (check_true (negb _)).
  2: { destruct (Z.eqb_spec (nv kv) 0) as [E|]; [|by rewrite andb_false_r].
       rewrite bool_decide_false; [done|]. intros Hh. by apply He in Hh. }
  rewrite !bind_ok, (repr_nval _ _ _ R).
  rewrite !check_true by lia. rewrite !bind_ok.
  eexists. split; [done|]. split; [|done].
  pose proof (area_append _ _ _ _ _ (enc_kv kv) (repr_vals _ _ _ R)) as Ha.
  assert (zlen (enc_kv <$> kvs) = zlen kvs) as Hzl by (unfold zlen; by rewrite length_fmap).
  rewrite Hzl, (repr_valsz _ _ _ R), zlen_enc_kv, !Z.add_0_l in Ha.
  specialize (Ha ltac:(lia) ltac:(lia) ltac:(lia) ltac:(lia)). cbn zeta in Ha.
  assert (zlen (patch (patch (data b) (Z.to_nat (2 * zlen kvs))
    (pack 2 (bspc b - (kvs_size kvs + kvsz kv))))
    (Z.to_nat (bspc b - (kvs_size kvs + kvsz kv))) (enc_kv kv)) = zlen (data b)) as Hlen.
  { pose proof (zlen_enc_kv kv). unfold zlen in *. rewrite !length_patch; [done| |].
    - rewrite length_pack. lia.
    - rewrite length_patch by (rewrite length_pack; lia). lia. }
  destruct R. split; cbn [btyp data nval bvalsz nbuf bufsz]; try done.
  - by rewrite Hlen.
  - rewrite s16_id by lia. by rewrite zlen_app.
  - rewrite kvs_size_app, kvs_size_cons. unfold kvs_size at 3. cbn. lia.
  - rewrite fmap_app. exact Ha.
  - intros Hp. destruct (Hpiv Hp) as [Hsp Hroom2].
    pose proof (zlen_enc_kv kv). destruct layout_sizes as (_ & HP & HB & _).
    apply area_patch_outside; rewrite ?zlen_pack; try lia.
    + apply area_patch_outside; rewrite ?zlen_pack; try lia. by apply repr_bufs0.
    + unfold zlen in *. rewrite length_patch by (rewrite length_pack; lia). lia.
    + unfold zlen in *. rewrite length_patch by (rewrite length_pack; lia). lia.
Qed.

(** * getmsg and setmsg *)

Lemma dec_msg m rest :
  emsz m < 32768 -> 0 <= op m < 128 ->
  (o ← UNPACK 1 (enc_msg m ++ rest);
   let p := drop 1 (enc_msg m ++ rest) in
   n ← UNPACK 2 p;
   key ← READ (Z.to_nat n) (drop 2 p);
   let p := drop (Z.to_nat n) (drop 2 p) in
   n ← UNPACK 2 p;
   if s16 n <? 0 then Fail Undef else
   val ← READ (Z.to_nat n) (drop 2 p);
   Ok (mkMsg (s8 o) key val)) = Ok m.
Proof.
  intros Hsz Ho. unfold enc_msg.
  assert ([u8 (op m)] = pack 1 (op m)) as -> by (unfold pack; cbn; by rewrite Z.shiftr_0_r).
  pose proof (dec_kv (msg_kvp m) rest) as Hd. unfold emsz, msgsz in Hsz.
  unfold kvsz, enc_kv, nk, nv, msg_kvp in Hd. cbn [k v] in Hd.
  specialize (Hd ltac:(lia)). flatten. revert Hd. flatten. intros Hd.
  rewrite UNPACK_pack, bind_ok. cbn zeta. rewrite drop_pack.
  apply bind_Ok in Hd as (n & Hn & Hd). rewrite Hn, bind_ok.
  apply bind_Ok in Hd as (key & Hkey & Hd). rewrite Hkey, bind_ok.
  apply bind_Ok in Hd as (n' & Hn' & Hd). rewrite Hn', bind_ok.
  destruct (s16 n' <? 0); [done|].
  apply bind_Ok in Hd as (val & Hval & Hd). rewrite Hval, bind_ok.
  apply Ok_inj in Hd. injection Hd as -> ->. change (8 * Z.of_nat 1) with 8.
  assert (s8 (op m mod 2 ^ 8) = op m) as ->.
  { unfold s8. rewrite swrap_mod by lia. apply swrap_id; lia. }
  by destruct m.
Qed.

Lemma repr_buffill b kvs ms :
  blk_repr b kvs ms -> btyp b = Tpivot -> 2 * zlen ms + msgs_size ms <= Bufspc.
Proof.
  intros R Ht. destruct (repr_bufs _ _ _ R Ht) as (_ & H & _).
  rewrite (repr_bufsz _ _ _ R) in H. unfold zlen in *. by rewrite length_fmap in H.
Qed.

Lemma getmsg_repr b kvs ms i m :
  blk_repr b kvs ms -> btyp b = Tpivot -> ms !! i = Some m -> getmsg b (Z.of_nat i) = Ok m.
Proof.
  intros R Ht Hi. pose proof (lookup_lt_Some _ _ _ Hi). unfold getmsg.
  rewrite bool_decide_true by done. cbn [check]. rewrite bind_ok.
  pose proof (repr_buffill _ _ _ R Ht) as Hfill. destruct layout_sizes as (_ & HP & HB & _).
  pose proof (msgs_size_lookup _ _ _ Hi). pose proof (zlen_nonneg ms).
  pose proof (msgs_size_nonneg ms).
  rewrite (repr_nbuf _ _ _ R). rewrite check_true by (unfold zlen; lia). rewrite bind_ok.
  destruct (repr_bufs _ _ _ R Ht) as (Hu & Hf & Hs). rewrite (repr_bufsz _ _ _ R) in *.
  destruct (slot_at_read (data b) Pivspc Bufspc (msgs_size ms) i (enc_msg m)) as (o & rest & Ho & He).
  - lia.
  - apply Hs. by rewrite list_lookup_fmap, Hi.
  - lia.
  - lia.
  - rewrite Ho, bind_ok. cbn zeta. rewrite He. apply dec_msg; [lia|].
    pose proof (repr_ops _ _ _ R) as Hops. by apply (Forall_lookup_1 _ _ _ _ Hops Hi).
Qed.

Lemma setmsg_repr b kvs ms m :
  blk_repr b kvs ms -> btyp b = Tpivot -> 0 <= op m < 128 ->
  2 * (zlen ms + 1) + msgs_size ms + emsz m <= Bufspc ->
  exists b', setmsg b m = Ok b' /\ blk_repr b' kvs (ms ++ [m]) /\
    btyp b' = Tpivot /\ bp b' = bp b.
Proof.
  intros R Ht Hop Hroom. destruct (data_room _ _ _ R) as [_ Hpiv].
  destruct (Hpiv Ht) as [Hsp Hdr]. destruct layout_sizes as (_ & HP & HB & _).
  pose proof (emsz_pos m). pose proof (zlen_nonneg ms). pose proof (msgs_size_nonneg ms).
  unfold setmsg. rewrite bool_decide_true by done. cbn [check]. rewrite bind_ok.
  assert (s16 (bufsz b + (msgsz m - 2)) = msgs_size ms + emsz m) as Hv.
  { rewrite (repr_bufsz _ _ _ R). unfold emsz in *. rewrite s16_id; lia. }
  rewrite Hv, (repr_nbuf _ _ _ R). rewrite check_true by lia. rewrite bind_ok.
  eexists. split; [done|]. split; [|done].
  pose proof (area_append _ _ _ _ _ (enc_msg m) (repr_bufs _ _ _ R Ht)) as Ha.
  assert (zlen (enc_msg <$> ms) = zlen ms) as Hzl by (unfold zlen; by rewrite length_fmap).
  rewrite Hzl, (repr_bufsz _ _ _ R), zlen_enc_msg in Ha.
  specialize (Ha ltac:(lia) ltac:(lia) ltac:(lia) ltac:(lia)). cbn zeta in Ha.
  pose proof (zlen_enc_msg m) as Hem.
  set (d1 := patch (data b) (Z.to_nat (Pivspc + 2 * zlen ms))
    (pack 2 (Bufspc - (msgs_size ms + emsz m)))) in *.
  assert (zlen d1 = zlen (data b)) as Hd1.
  { unfold d1, zlen in *. rewrite length_patch; [done|]. rewrite length_pack. lia. }
  destruct R. split; cbn [btyp data nval bvalsz nbuf bufsz]; try done.
  - unfold zlen in *. rewrite length_patch by lia. lia.
  - rewrite s16_id by lia. by rewrite zlen_app.
  - rewrite msgs_size_app, msgs_size_cons. unfold msgs_size at 3. cbn. lia.
  - congruence.
  - apply Forall_app. auto.
  - unfold bspc in *. cbn [btyp].
    apply area_patch_outside; rewrite ?Hd1; try lia; [|unfold bspc in Hsp; lia..].
    apply area_patch_outside; rewrite ?zlen_pack; try lia. exact repr_vals0.
  - intros _. rewrite fmap_app. exact Ha.
Qed.

(** * Searching *)

(** Linear reference: the number of keys below [key]. *)
Definition lowerb (key : list Z) (ks : list (list Z)) : nat :=
  length (filter (fun x => key_lt x key) ks).

Definition search_ref (key : list Z) (ks : list (list Z)) : Z * bool :=
  let n := lowerb key ks in
  if decide (ks !! n = Some key) then (Z.of_nat n, true) else (Z.of_nat n - 1, false).

Definition keys_sorted (ks : list (list Z)) : Prop := StronglySorted key_le ks.

Lemma lowerb_unique key ks n :
  (n <= length ks)%nat ->
  (forall i x, ks !! i = Some x -> (i < n)%nat -> key_lt x key) ->
  (forall i x, ks !! i = Some x -> (n <= i)%nat -> key_le key x) ->
  lowerb key ks = n.
Proof.
  intros Hn Hlt Hge. unfold lowerb. rewrite <- (take_drop n ks), filter_app.
  rewrite filter_all, filter_none, app_nil_r.
  - rewrite length_take. lia.
  - apply Forall_lookup_2. intros i x Hx. rewrite lookup_drop in Hx.
    intros Hc. apply (irreflexivity key_lt x).
    eapply key_lt_le_trans; [exact Hc|]. eapply Hge; [exact Hx|lia].
  - apply Forall_lookup_2. intros i x Hx. apply lookup_take_Some in Hx as [Hx Hi]. eauto.
Qed.

(** What the loop knows: below lo the keys are less, above hi they are not,
    and ri is the first entry above hi when that one is equal. *)
Record bs_inv (ks : list (list Z)) (key : list Z) (ri lo hi : Z) : Prop := {
  bs_lo : 0 <= lo;
  bs_hi : hi < zlen ks;
  bs_le : lo <= hi + 1;
  bs_below : forall i x, ks !! i = Some x -> Z.of_nat i < lo -> key_lt x key;
  bs_above : forall i x, ks !! i = Some x -> hi < Z.of_nat i -> key_le key x;
  bs_ri : (ri = -1 /\ forall i x, ks !! i = Some x -> hi < Z.of_nat i -> key_lt key x)
          \/ (ri = hi + 1 /\ ks !! Z.to_nat ri = Some key)
}.

Lemma sorted_le_lookup ks i j x y :
  keys_sorted ks -> ks !! i = Some x -> ks !! j = Some y -> (i <= j)%nat -> key_le x y.
Proof.
  intros Hs Hx Hy Hij. destruct (decide (i = j)) as [->|]; [simplify_eq; reflexivity|].
  rewrite <- (take_drop_middle ks i x Hx) in Hs.
  eapply (StronglySorted_app_1_elem_of _ (take i ks ++ [x]) (drop (S i) ks)).
  - by rewrite <- app_assoc.
  - apply elem_of_app. right. by apply list_elem_of_singleton.
  - apply list_elem_of_lookup. exists (j - S i)%nat. rewrite lookup_drop.
    by replace (S i + (j - S i))%nat with j by lia.
Qed.

Lemma bsearch_spec fuel get ks key ri lo hi :
  keys_sorted ks ->
  (forall i x, ks !! i = Some x -> get (Z.of_nat i) = Ok x) ->
  bs_inv ks key ri lo hi -> hi + 1 - lo <= Z.of_nat fuel ->
  exists ri' lo', bsearch fuel get key ri lo hi = Ok (ri', lo') /\
    bs_inv ks key ri' lo' (lo' - 1).
Proof.
  intros Hs Hget. revert ri lo hi. induction fuel as [|fuel IH]; intros ri lo hi I Hf.
  - cbn. destruct (Z.ltb_spec hi lo); [|lia]. exists ri, lo. split; [done|].
    destruct I. by replace (lo - 1) with hi by lia.
  - cbn [bsearch]. destruct (Z.ltb_spec hi lo).
    { exists ri, lo. split; [done|]. destruct I. by replace (lo - 1) with hi by lia. }
    pose proof (bs_lo _ _ _ _ _ I). pose proof (bs_hi _ _ _ _ _ I).
    set (mid := Z.quot (hi + lo) 2).
    assert (lo <= mid <= hi) as Hmid.
    { unfold mid. rewrite Z.quot_div_nonneg by lia. split.
      - apply Z.div_le_lower_bound; lia.
      - apply Z.div_le_upper_bound; lia. }
    destruct (lookup_lt_is_Some_2 ks (Z.to_nat mid)) as [x Hx]; [unfold zlen in *; lia|].
    pose proof (Hget _ _ Hx) as Hg. rewrite Z2Nat.id in Hg by lia. rewrite Hg, bind_ok.
    destruct (keycmp_cases key x) as [[-> Hc]|[[-> ->]|[-> Hc]]]; cbn [Z.eqb Pos.eqb].
    + apply IH; [|lia]. destruct I. split; try done; try lia.
      * intros i y Hy Hi. apply key_lt_le. eapply key_lt_le_trans; [exact Hc|].
        eapply sorted_le_lookup; [done|exact Hx|exact Hy|lia].
      * left. destruct bs_ri0 as [[-> _]|[-> Hk]]; (split; [done|]) || idtac.
        -- intros i y Hy Hi. eapply key_lt_le_trans; [exact Hc|].
           eapply sorted_le_lookup; [done|exact Hx|exact Hy|lia].
        -- exfalso. apply (irreflexivity key_lt key). eapply key_lt_le_trans; [exact Hc|].
           eapply sorted_le_lookup; [done|exact Hx|exact Hk|lia].
    + apply IH; [|lia]. destruct I. split; try done; try lia.
      * intros i y Hy Hi. eapply sorted_le_lookup; [done|exact Hx|exact Hy|lia].
      * right. split; [lia|]. by rewrite Hx.
    + apply IH; [|lia]. destruct I. split; try done; try lia.
      intros i y Hy Hi. eapply key_le_lt_trans; [|exact Hc].
      eapply sorted_le_lookup; [done|exact Hy|exact Hx|lia].
Qed.

Lemma bsearch_ref get ks key :
  keys_sorted ks ->
  (forall i x, ks !! i = Some x -> get (Z.of_nat i) = Ok x) ->
  exists rl, bsearch (length ks) get key (-1) 0 (zlen ks - 1) = Ok rl /\
    search_result rl = search_ref key ks.
Proof.
  intros Hs Hget.
  destruct (bsearch_spec (length ks) get ks key (-1) 0 (zlen ks - 1)) as (ri & lo & Hb & I);
    [done|done| |unfold zlen; lia|].
  { split; try lia.
    - pose proof (zlen_nonneg ks). lia.
    - intros i x Hx. apply lookup_lt_Some in Hx. unfold zlen. lia.
    - left. split; [done|]. intros i x Hx. apply lookup_lt_Some in Hx. unfold zlen. lia. }
  eexists. split; [exact Hb|]. destruct I.
  assert (lowerb key ks = Z.to_nat lo) as Hlb.
  { apply lowerb_unique.
    - unfold zlen in *. lia.
    - intros i x Hx Hi. apply (bs_below0 _ _ Hx). lia.
    - intros i x Hx Hi. apply (bs_above0 _ _ Hx). lia. }
  unfold search_ref, search_result. rewrite Hlb.
  destruct bs_ri0 as [[-> Hn]|[-> Hk]].
  - rewrite decide_False; [f_equal; lia|]. intros Hc.
    apply (irreflexivity key_lt key). apply (Hn _ _ Hc). lia.
  - replace (lo - 1 + 1) with lo in * by lia. rewrite decide_True by done.
    destruct (Z.eqb_spec lo (-1)); [lia|]. f_equal. lia.
Qed.

Lemma search_ref_bound key ks i same : search_ref key ks = (i, same) -> -1 <= i < zlen ks.
Proof.
  unfold search_ref. intros E.
  assert (lowerb key ks <= length ks)%nat as Hlb by apply length_filter.
  case_decide as Hd; simplify_eq; [|unfold zlen; lia].
  apply lookup_lt_Some in Hd. unfold zlen. lia.
Qed.

Definition kv_keys (kvs : list Kvp) : list (list Z) := k <$> kvs.
Definition msg_keys (ms : list Msg) : list (list Z) := mk <$> ms.

(** Values as they are kept: by strictly ascending keys. *)
Definition kvs_sorted (kvs : list Kvp) : Prop := StronglySorted key_lt (kv_keys kvs).

Definition kvs_valsz (kvs : list Kvp) : Z := 2 * zlen kvs + kvs_size kvs.

Lemma kvs_valsz_app a b : kvs_valsz (a ++ b) = kvs_valsz a + kvs_valsz b.
Proof. unfold kvs_valsz. rewrite zlen_app, kvs_size_app. lia. Qed.
Lemma kvs_valsz_one kv : kvs_valsz [kv] = valsz kv.
Proof.
  unfold kvs_valsz, valsz. rewrite kvs_size_cons. change (kvs_size []) with 0.
  unfold kvsz, zlen. cbn [length]. lia.
Qed.
Lemma kvs_valsz_nonneg l : 0 <= kvs_valsz l.
Proof. unfold kvs_valsz. pose proof (zlen_nonneg l). pose proof (kvs_size_nonneg l). lia. Qed.

(** blksearch on a sorted block is the linear search. *)
Lemma blksearch_repr b kvs ms key :
  blk_repr b kvs ms -> keys_sorted (kv_keys kvs) ->
  let '(i, same) := search_ref key (kv_keys kvs) in
  blksearch b key = Ok (i, if 0 <=? i then kvs !! Z.to_nat i else None, same).
Proof.
  intros R Hs. destruct (search_ref key (kv_keys kvs)) as [i same] eqn:E.
  unfold blksearch. rewrite (repr_nval _ _ _ R).
  assert (zlen kvs = zlen (kv_keys kvs)) as Hl by (unfold zlen, kv_keys; by rewrite length_fmap).
  destruct (bsearch_ref (fun i => kv ← getval b i; Ok (k kv)) (kv_keys kvs) key) as (rl & Hb & Hr).
  { done. }
  { intros j x Hx. unfold kv_keys in Hx. apply list_lookup_fmap_Some in Hx as (kv & -> & Hx).
    by rewrite (getval_repr _ _ _ _ _ R Hx). }
  rewrite Hl. unfold zlen at 1. rewrite Nat2Z.id, Hb, bind_ok, Hr, E.
  destruct (Z.leb_spec 0 i) as [Hi|]; [|done].
  destruct (kvs !! Z.to_nat i) as [kv|] eqn:Hkv.
  - pose proof (getval_repr _ _ _ _ _ R Hkv) as Hg. rewrite Z2Nat.id in Hg by done.
    by rewrite Hg.
  - exfalso. apply lookup_ge_None in Hkv. apply search_ref_bound in E.
    rewrite <- Hl in E. unfold zlen in E. lia.
Qed.

(** bufsearch on a sorted buffer: the first message for the key, if any. *)
Lemma bufsearch_repr b kvs ms key :
  blk_repr b kvs ms -> btyp b = Tpivot -> keys_sorted (msg_keys ms) ->
  let '(i, same) := search_ref key (msg_keys ms) in
  bufsearch b key = Ok (i, if 0 <=? i then ms !! Z.to_nat i else None, same).
Proof.
  intros R Ht Hs. destruct (search_ref key (msg_keys ms)) as [i same] eqn:E.
  unfold bufsearch. rewrite (repr_nbuf _ _ _ R).
  assert (zlen ms = zlen (msg_keys ms)) as Hl by (unfold zlen, msg_keys; by rewrite length_fmap).
  destruct (bsearch_ref (fun i => m ← getmsg b i; Ok (mk m)) (msg_keys ms) key) as (rl & Hb & Hr).
  { done. }
  { intros j x Hx. unfold msg_keys in Hx. apply list_lookup_fmap_Some in Hx as (m & -> & Hx).
    by rewrite (getmsg_repr _ _ _ _ _ R Ht Hx). }
  rewrite Hl. unfold zlen at 1. rewrite Nat2Z.id, Hb, bind_ok, Hr, E.
  destruct (Z.leb_spec 0 i) as [Hi|]; [|done].
  destruct (ms !! Z.to_nat i) as [m|] eqn:Hm.
  - pose proof (getmsg_repr _ _ _ _ _ R Ht Hm) as Hg. rewrite Z2Nat.id in Hg by done.
    by rewrite Hg.
  - exfalso. apply lookup_ge_None in Hm. apply search_ref_bound in E.
    rewrite <- Hl in E. unfold zlen in E. lia.
Qed.

(** * Filling a block from nothing *)

(** A block as initblk leaves it: no entries, whatever bytes were there. *)
Definition blank (t : btype) (d : list Z) (p : Bptr) : Blk := mkBlk t 0 0 0 0 d p.

Lemma blank_repr t d p :
  t = Tleaf \/ t = Tpivot -> zlen d = datasz t -> blk_repr (blank t d p) [] [].
Proof.
  intros Ht Hd. split; try done.
  unfold area, bspc, datasz in *. cbn in *. case_decide; (split_and!; [done|done|done]).
Qed.

Fixpoint setvals (b : Blk) (kvs : list Kvp) : res Blk :=
  match kvs with [] => Ok b | kv :: kvs => b ← setval b kv; setvals b kvs end.
Fixpoint setmsgs (b : Blk) (ms : list Msg) : res Blk :=
  match ms with [] => Ok b | m :: ms => b ← setmsg b m; setmsgs b ms end.

Lemma setvals_repr kvs' : forall b kvs ms,
  blk_repr b kvs ms -> Forall entry_ok kvs' ->
  2 * zlen (kvs ++ kvs') + kvs_size (kvs ++ kvs') <= bspc b ->
  exists b', setvals b kvs' = Ok b' /\ blk_repr b' (kvs ++ kvs') ms /\ btyp b' = btyp b /\ bp b' = bp b.
Proof.
  induction kvs' as [|kv kvs' IH]; intros b kvs ms R He Hr.
  { exists b. by rewrite app_nil_r. }
  apply Forall_cons in He as [He Hes]. pose proof (zlen_nonneg kvs'). pose proof (kvs_size_nonneg kvs').
  destruct (setval_repr b kvs ms kv R He) as (b1 & E1 & R1 & T1 & P1).
  { autorewrite with gefs in Hr. lia. }
  destruct (IH b1 (kvs ++ [kv]) ms R1 Hes) as (b2 & E2 & R2 & T2 & P2).
  { unfold bspc in *. rewrite T1, <- app_assoc. exact Hr. }
  exists b2. cbn [setvals]. rewrite E1, bind_ok. rewrite <- app_assoc in R2.
  split_and!; [done|done|congruence|congruence].
Qed.

Lemma setmsgs_repr ms' : forall b kvs ms,
  blk_repr b kvs ms -> btyp b = Tpivot -> Forall (fun m => 0 <= op m < 128) ms' ->
  2 * zlen (ms ++ ms') + msgs_size (ms ++ ms') <= Bufspc ->
  exists b', setmsgs b ms' = Ok b' /\ blk_repr b' kvs (ms ++ ms') /\ btyp b' = btyp b /\ bp b' = bp b.
Proof.
  induction ms' as [|m ms' IH]; intros b kvs ms R Ht Ho Hr.
  { exists b. by rewrite app_nil_r. }
  apply Forall_cons in Ho as [Ho Hos]. pose proof (zlen_nonneg ms'). pose proof (msgs_size_nonneg ms').
  destruct (setmsg_repr b kvs ms m R) as (b1 & E1 & R1 & T1 & P1); [done|done| |].
  { autorewrite with gefs in Hr. lia. }
  destruct (IH b1 kvs (ms ++ [m]) R1) as (b2 & E2 & R2 & T2 & P2); [congruence|done| |].
  { by rewrite <- app_assoc. }
  exists b2. cbn [setmsgs]. rewrite E1, bind_ok. rewrite <- app_assoc in R2.
  split_and!; [done|done|congruence|congruence].
Qed.

(** A block with given contents, for examples. *)
Definition build (t : btype) (p : Bptr) (kvs : list Kvp) (ms : list Msg) : Blk :=
  let n := blank t (replicate (Z.to_nat (datasz t)) 0) p in
  match (b ← setvals n kvs; setmsgs b ms) with Ok b => b | Fail _ => n end.

Lemma build_repr t p kvs ms :
  t = Tpivot \/ (t = Tleaf /\ ms = []) ->
  Forall entry_ok kvs -> Forall (fun m => 0 <= op m < 128) ms ->
  kvs_valsz kvs <= (if decide (t = Tleaf) then Leafspc else Pivspc) ->
  2 * zlen ms + msgs_size ms <= Bufspc ->
  blk_repr (build t p kvs ms) kvs ms /\ btyp (build t p kvs ms) = t /\ bp (build t p kvs ms) = p.
Proof.
  intros Ht He Ho Hk Hm. unfold build.
  set (n := blank t (replicate (Z.to_nat (datasz t)) 0) p).
  assert (blk_repr n [] []) as R0.
  { apply blank_repr; [destruct Ht as [->|[-> _]]; auto|]. unfold zlen. rewrite length_replicate.
    unfold datasz. case_decide; done. }
  destruct (setvals_repr kvs n [] [] R0 He) as (b1 & E1 & R1 & T1 & P1).
  { unfold bspc. cbn [btyp n blank app]. exact Hk. }
  rewrite E1, bind_ok. cbn [app] in R1. destruct Ht as [->|[-> ->]].
  - destruct (setmsgs_repr ms b1 kvs [] R1) as (b2 & E2 & R2 & T2 & P2); [done|done|done|].
    rewrite E2. split_and!; [done|by rewrite T2, T1|by rewrite P2, P1].
  - cbn [setmsgs]. done.
Qed.

(** * Properties *)

(** C17: what is stored in a block is what is read from it.  Filling a fresh
    leaf or pivot with values (setval) and then messages (setmsg) that fit its
    two areas never aborts, and every getval and getmsg returns the entry
    stored at its index, whatever bytes the buffer held before. *)
Theorem node_roundtrip t d p kvs ms :
  t = Tpivot \/ (t = Tleaf /\ ms = []) -> zlen d = datasz t ->
  Forall entry_ok kvs -> Forall (fun m => 0 <= op m < 128) ms ->
  2 * zlen kvs + kvs_size kvs <= bspc (blank t d p) ->
  2 * zlen ms + msgs_size ms <= Bufspc ->
  exists b, (b ← setvals (blank t d p) kvs; setmsgs b ms) = Ok b /\
    (forall i kv, kvs !! i = Some kv -> getval b (Z.of_nat i) = Ok kv) /\
    (forall i m, ms !! i = Some m -> getmsg b (Z.of_nat i) = Ok m).
Proof.
  intros Ht Hd He Ho Hk Hm.
  assert (blk_repr (blank t d p) [] []) as R0
    by (apply blank_repr; [destruct Ht as [->|[-> _]]; auto|done]).
  destruct (setvals_repr kvs _ _ _ R0 He Hk) as (b1 & E1 & R1 & T1 & _). cbn [app] in *.
  rewrite E1, bind_ok. destruct Ht as [->|[-> ->]].
  - destruct (setmsgs_repr ms b1 _ _ R1) as (b2 & E2 & R2 & T2 & _); [done|done|done|].
    exists b2. split_and!; [done| |].
    + intros. by eapply getval_repr.
    + intros. eapply getmsg_repr; [exact R2| |done]. rewrite T2. exact T1.
  - exists b1. split_and!; [done| |done]. intros. by eapply getval_repr.
Qed.

(** The keys below a key are those before its lower bound. *)
Lemma lowerb_lookup key ks :
  keys_sorted ks -> forall j x, ks !! j = Some x -> (j < lowerb key ks)%nat <-> key_lt x key.
Proof.
  intros Hs. destruct (bsearch_spec (length ks) (fun i => of_option (ks !! Z.to_nat i) Undef) ks key
    (-1) 0 (zlen ks - 1)) as (ri & lo & _ & I); [done| | |unfold zlen; lia|].
  - intros j x Hx. by rewrite Nat2Z.id, Hx.
  - split; try lia; [pose proof (zlen_nonneg ks); lia| |left; split; [done|]];
      intros j x Hx; apply lookup_lt_Some in Hx; unfold zlen; lia.
  - destruct I. assert (lowerb key ks = Z.to_nat lo) as ->.
    { apply lowerb_unique; [unfold zlen in *; lia| |]; intros j x Hx ?.
      - apply (bs_below0 _ _ Hx). lia.
      - apply (bs_above0 _ _ Hx). lia. }
    intros j x Hx. split; intros Hj; [apply (bs_below0 _ _ Hx); lia|].
    destruct (decide (j < Z.to_nat lo)%nat); [done|]. exfalso.
    apply (irreflexivity key_lt x). eapply key_lt_le_trans; [exact Hj|].
    apply (bs_above0 _ _ Hx). lia.
Qed.

Lemma lowerb_le key ks : (lowerb key ks <= length ks)%nat.
Proof. apply length_filter. Qed.

Lemma lowerb_mono key1 key2 ks :
  keys_sorted ks -> key_le key1 key2 -> (lowerb key1 ks <= lowerb key2 ks)%nat.
Proof.
  intros Hs Hle. destruct (decide (lowerb key1 ks <= lowerb key2 ks)%nat); [done|exfalso].
  pose proof (lowerb_le key1 ks).
  destruct (lookup_lt_is_Some_2 ks (lowerb key2 ks)) as [x Hx]; [lia|].
  assert (key_lt x key1) as H1 by (apply (lowerb_lookup key1 ks Hs _ _ Hx); lia).
  assert (key_lt x key2) as H2 by (eapply key_lt_le_trans; [exact H1|exact Hle]).
  apply (lowerb_lookup key2 ks Hs _ _ Hx) in H2. lia.
Qed.

Lemma search_ref_split key ks i same :
  keys_sorted ks -> search_ref key ks = (i, same) ->
  let n := if same then i else i + 1 in
  (forall j x, ks !! j = Some x -> Z.of_nat j < n <-> key_lt x key) /\
  (same = true <-> key ∈ ks) /\ (same = true -> 0 <= i /\ ks !! Z.to_nat i = Some key).
Proof.
  intros Hs E. cbn zeta.
  pose proof (lowerb_lookup key ks Hs) as Hn.
  unfold search_ref in E. case_decide as Hd; simplify_eq; split_and!.
  - intros j x Hx. rewrite <- (Hn j x Hx). lia.
  - split; [|done]. intros _. by eapply list_elem_of_lookup_2.
  - intros _. rewrite Nat2Z.id. split; [lia|done].
  - intros j x Hx. rewrite <- (Hn j x Hx). lia.
  - split; [done|]. intros Hin. exfalso. apply Hd.
    apply list_elem_of_lookup in Hin as [j Hj].
    destruct (decide (lowerb key ks <= j)%nat) as [Hle|].
    2: { exfalso. apply (irreflexivity key_lt key). apply (Hn _ _ Hj). lia. }
    destruct (lookup_lt_is_Some_2 ks (lowerb key ks)) as [x Hx].
    { apply lookup_lt_Some in Hj. lia. }
    rewrite Hx. f_equal. apply (anti_symm key_le).
    + eapply sorted_le_lookup; [exact Hs|exact Hx|exact Hj|done].
    + destruct (keycmp_cases x key) as [[_ H]|[[_ ->]|[_ H]]]; [|reflexivity|by apply key_lt_le].
      apply (Hn _ _ Hx) in H. lia.
  - done.
Qed.

(** The search in a block of ascending keys. *)
Lemma blksearch_sorted b kvs ms key :
  blk_repr b kvs ms -> StronglySorted key_lt (kv_keys kvs) ->
  exists i ov same, blksearch b key = Ok (i, ov, same) /\
    (same = true <-> key ∈ kv_keys kvs) /\
    (forall j kv, kvs !! j = Some kv -> Z.of_nat j <= i <-> key_le (k kv) key) /\
    ov = (if 0 <=? i then kvs !! Z.to_nat i else None) /\ -1 <= i < zlen kvs.
Proof.
  intros R Hs.
  assert (keys_sorted (kv_keys kvs)) as Hs'.
  { unfold keys_sorted. induction Hs as [|x l Hl IH Hx]; constructor; [done|].
    eapply Forall_impl; [exact Hx|]. apply key_lt_le. }
  pose proof (blksearch_repr b kvs ms key R Hs') as Hb.
  destruct (search_ref key (kv_keys kvs)) as [i same] eqn:E.
  destruct (search_ref_split _ _ _ _ Hs' E) as (Hn & Hin & Hat).
  exists i, (if 0 <=? i then kvs !! Z.to_nat i else None), same. split_and!; try done.
  2, 3: apply search_ref_bound in E; unfold zlen, kv_keys in *; rewrite length_fmap in E; lia.
  intros j kv Hj. assert (kv_keys kvs !! j = Some (k kv)) as Hkj
    by (unfold kv_keys; by rewrite list_lookup_fmap, Hj).
  specialize (Hn j (k kv) Hkj). destruct same.
  - specialize (Hat eq_refl) as [Hi0 Hat]. apply search_ref_bound in E.
    destruct (decide (Z.of_nat j = i)) as [<-|Hne].
    { rewrite Nat2Z.id, Hkj in Hat. simplify_eq. split; [reflexivity|lia]. }
    split; intros H; [apply key_lt_le, Hn; lia|].
    destruct (decide (i < Z.of_nat j)) as [Hlt|]; [exfalso|lia].
    assert (~ key_lt (k kv) key) as Hge by (rewrite <- Hn; lia).
    assert (k kv = key) as Heq.
    { destruct (decide (k kv = key)) as [|Hd]; [done|]. exfalso. apply Hge.
      apply key_lt_strict. done. }
    apply (irreflexivity key_lt key).
    rewrite <- (take_drop_middle (kv_keys kvs) j (k kv) Hkj) in Hs.
    rewrite <- Heq at 2.
    eapply (StronglySorted_app_1_elem_of _ (take j (kv_keys kvs)) (k kv :: drop (S j) (kv_keys kvs))).
    + exact Hs.
    + apply list_elem_of_lookup. exists (Z.to_nat i). apply lookup_take_Some. split; [done|lia].
    + left.
  - assert (key ∉ kv_keys kvs) as Hnot by (intros H; by apply Hin in H).
    assert (k kv <> key) as Hne.
    { intros H. apply Hnot. rewrite <- H. by eapply list_elem_of_lookup_2. }
    split; intros H.
    + apply key_lt_le, Hn. lia.
    + assert (key_lt (k kv) key) as Hl by (by apply key_lt_strict). apply Hn in Hl. lia.
Qed.

(** C16: the search in a block is exact.  On a block whose keys ascend,
    blksearch terminates without an abort; it says the key is there if and
    only if it is, and its index is that of the greatest key that is not above
    the one searched for (-1 when every key is above), with the pair stored
    there. *)
Theorem blksearch_exact b kvs ms key :
  blk_repr b kvs ms -> StronglySorted key_lt (kv_keys kvs) ->
  exists i ov same, blksearch b key = Ok (i, ov, same) /\
    (same = true <-> key ∈ kv_keys kvs) /\
    (forall j kv, kvs !! j = Some kv -> Z.of_nat j <= i <-> key_le (k kv) key) /\
    ov = (if 0 <=? i then kvs !! Z.to_nat i else None) /\ -1 <= i < zlen kvs.
Proof. apply blksearch_sorted. Qed.

(** The search in a message buffer finds the first message for a key.  On
    a buffer sorted by key (several messages may share one), bufsearch
    terminates without an abort; it says there is a message for the key if and
    only if there is, the message it returns then is the oldest one, and
    otherwise its index is that of the last message for a smaller key. *)
Theorem bufsearch_first b kvs ms key :
  blk_repr b kvs ms -> btyp b = Tpivot -> keys_sorted (msg_keys ms) ->
  exists i om same, bufsearch b key = Ok (i, om, same) /\
    (same = true <-> key ∈ msg_keys ms) /\
    (forall j m, ms !! j = Some m ->
       Z.of_nat j < (if same then i else i + 1) <-> key_lt (mk m) key) /\
    (same = true -> exists m, om = Some m /\ ms !! Z.to_nat i = Some m /\ mk m = key) /\
    om = (if 0 <=? i then ms !! Z.to_nat i else None).
Proof.
  intros R Ht Hs. pose proof (bufsearch_repr b kvs ms key R Ht Hs) as Hb.
  destruct (search_ref key (msg_keys ms)) as [i same] eqn:E.
  destruct (search_ref_split _ _ _ _ Hs E) as (Hn & Hin & Hat).
  exists i, (if 0 <=? i then ms !! Z.to_nat i else None), same. split_and!; try done.
  - intros j m Hj. apply Hn. unfold msg_keys. by rewrite list_lookup_fmap, Hj.
  - intros Ht'. destruct (Hat Ht') as [Hi Hk]. unfold msg_keys in Hk.
    apply list_lookup_fmap_Some in Hk as (m & Hmk & Hm). exists m.
    destruct (Z.leb_spec 0 i); [|lia]. done.
Qed.

(** Keys of one kind sort by the numbers in them.  Two keys that start
    with the same tag and hold a 64-bit field next (the qid of a data or
    directory key, the generation of a snapshot) compare as these numbers do,
    and by the rest of the key when they are equal; on the rest of a data key,
    the file offset, the same holds. *)
Theorem keycmp_fields tag q1 q2 r1 r2 :
  0 <= q1 < 2 ^ 64 -> 0 <= q2 < 2 ^ 64 ->
  keycmp (tag :: pack 8 q1 ++ r1) (tag :: pack 8 q2 ++ r2) =
    match q1 ?= q2 with Lt => -1 | Eq => keycmp r1 r2 | Gt => 1 end.
Proof.
  intros H1 H2. rewrite keycmp_cons, Z.eqb_refl.
  rewrite keycmp_bytes by (auto with gefs || by rewrite !length_pack).
  rewrite !unpack_pack. change (8 * Z.of_nat 8) with 64. rewrite !Z.mod_small by done.
  destruct (Z.compare_spec q1 q2) as [->|Hlt|Hgt].
  - by rewrite Z.eqb_refl.
  - destruct (Z.eqb_spec q1 q2); [lia|]. by destruct (Z.ltb_spec q1 q2); [|lia].
  - destruct (Z.eqb_spec q1 q2); [lia|]. by destruct (Z.ltb_spec q1 q2); [lia|].
Qed.

(** ** A small pivot *)

Definition ex_pkvs : list Kvp := [mkKvp [0; 5] [1; 2]; mkKvp [2] []; mkKvp [2; 0] [7]].
Definition ex_pms : list Msg :=
  [mkMsg Oinsert [0; 6] [3]; mkMsg Owstat [2] [1; 1]; mkMsg Odelete [2] []].
Definition ex_pblank : Blk := blank Tpivot (replicate (Z.to_nat Pivsz) 170) (mkBptr 0 0 0).

Lemma node_roundtrip_witness :
  exists b, (b ← setvals ex_pblank ex_pkvs; setmsgs b ex_pms) = Ok b /\
    (forall i kv, ex_pkvs !! i = Some kv -> getval b (Z.of_nat i) = Ok kv) /\
    (forall i m, ex_pms !! i = Some m -> getmsg b (Z.of_nat i) = Ok m).
Proof.
  apply node_roundtrip.
  - by left.
  - unfold zlen. by rewrite length_replicate.
  - repeat constructor; done.
  - repeat constructor; done.
  - done.
  - done.
Defined.

Definition ex_pivot : Blk :=
  match (b ← setvals ex_pblank ex_pkvs; setmsgs b ex_pms) with Ok b => b | Fail _ => ex_pblank end.

Lemma ex_pivot_repr : blk_repr ex_pivot ex_pkvs ex_pms /\ btyp ex_pivot = Tpivot.
Proof.
  destruct (setvals_repr ex_pkvs ex_pblank [] []) as (b1 & E1 & R1 & T1 & _).
  - apply blank_repr; [by right|]. unfold zlen. by rewrite length_replicate.
  - repeat constructor; done.
  - done.
  - destruct (setmsgs_repr ex_pms b1 ex_pkvs []) as (b2 & E2 & R2 & T2 & _); try done.
    + repeat constructor; done.
    + unfold ex_pivot. rewrite E1, bind_ok, E2. split; [done|by rewrite T2, T1].
Qed.

Lemma blksearch_exact_witness :
  exists i ov same, blksearch ex_pivot [2] = Ok (i, ov, same) /\
    (same = true <-> [2] ∈ kv_keys ex_pkvs) /\
    (forall j kv, ex_pkvs !! j = Some kv -> Z.of_nat j <= i <-> key_le (k kv) [2]) /\
    ov = (if 0 <=? i then ex_pkvs !! Z.to_nat i else None) /\ -1 <= i < zlen ex_pkvs.
Proof.
  apply (blksearch_exact _ _ ex_pms); [apply ex_pivot_repr|].
  cbn. repeat constructor; done.
Defined.

Lemma bufsearch_first_witness :
  exists i om same, bufsearch ex_pivot [2] = Ok (i, om, same) /\
    (same = true <-> [2] ∈ msg_keys ex_pms) /\
    (forall j m, ex_pms !! j = Some m ->
       Z.of_nat j < (if same then i else i + 1) <-> key_lt (mk m) [2]) /\
    (same = true -> exists m, om = Some m /\ ex_pms !! Z.to_nat i = Some m /\ mk m = [2]) /\
    om = (if 0 <=? i then ex_pms !! Z.to_nat i else None).
Proof.
  apply (bufsearch_first _ ex_pkvs); [apply ex_pivot_repr|apply ex_pivot_repr|].
  unfold keys_sorted. cbn. repeat constructor; done.
Defined.

Lemma keycmp_fields_witness :
  keycmp (Kdat :: pack 8 7 ++ pack 8 256) (Kdat :: pack 8 7 ++ pack 8 3) =
  keycmp (pack 8 256) (pack 8 3).
Proof. rewrite keycmp_fields; [reflexivity|done|done]. Defined.
