(* ===== verification/Msgs.v ===== *)
(** sys/src/9/gefs/tree.c, messages: sorting a batch of them (stablesort),
    applying one to a key-value pair (statupdate, apply), and the order in
    which a node pulls them from its parent (pullmsg). *)

From S2P Require Import Prelude Layout Pack Node.

(** * stablesort: insertion sort in place *)

(** The inner loop: m[j] sinks while the one before it is greater. *)
Fixpoint sift (j : nat) (m : list Msg) : list Msg :=
  match j with
  | O => m
  | S j' =>
      match m !! j', m !! j with
      | Some a, Some b =>
          if keycmp (mk a) (mk b) <=? 0 then m
          else sift j' (<[j := a]> (<[j' := b]> m))
      | _, _ => m
      end
  end.

Definition stablesort (m : list Msg) : list Msg :=
  fold_left (fun m i => sift i m) (seq 1 (length m - 1)) m.

(** * Applying a message *)

Definition bit (op w : Z) : bool := negb (Z.land op w =? 0).

Definition set_vers (d : Xdir) (x : Z) : Xdir :=
  mkXdir (flag d) (mkQid (path (qid d)) x (qtype (qid d))) (mode d) (atime d)
    (mtime d) (dlength d) (uid d) (gid d) (muid d) (name d).
Definition set_dlength (d : Xdir) (x : Z) : Xdir :=
  mkXdir (flag d) (qid d) (mode d) (atime d) (mtime d) x (uid d) (gid d) (muid d) (name d).
(** d.mode = x; d.qid.type = d.mode>>24 *)
Definition set_mode (d : Xdir) (x : Z) : Xdir :=
  mkXdir (flag d) (mkQid (path (qid d)) (vers (qid d)) (u8 (Z.shiftr x 24))) x (atime d)
    (mtime d) (dlength d) (uid d) (gid d) (muid d) (name d).
Definition set_mtime (d : Xdir) (x : Z) : Xdir :=
  mkXdir (flag d) (qid d) (mode d) (atime d) x (dlength d) (uid d) (gid d) (muid d) (name d).
Definition set_atime (d : Xdir) (x : Z) : Xdir :=
  mkXdir (flag d) (qid d) (mode d) x (mtime d) (dlength d) (uid d) (gid d) (muid d) (name d).
Definition set_uid (d : Xdir) (x : Z) : Xdir :=
  mkXdir (flag d) (qid d) (mode d) (atime d) (mtime d) (dlength d) x (gid d) (muid d) (name d).
Definition set_gid (d : Xdir) (x : Z) : Xdir :=
  mkXdir (flag d) (qid d) (mode d) (atime d) (mtime d) (dlength d) (uid d) x (muid d) (name d).
Definition set_muid (d : Xdir) (x : Z) : Xdir :=
  mkXdir (flag d) (qid d) (mode d) (atime d) (mtime d) (dlength d) (uid d) (gid d) x (name d).

(** One [if(op & w){ d.f = UNPACKn(p); p += n; }] of statupdate. *)
Definition statfield (op w : Z) (n : nat) (set : Xdir -> Z -> Xdir)
    (s : Xdir * list Z) : res (Xdir * list Z) :=
  let '(d, p) := s in
  if bit op w then x ← UNPACK n p; Ok (set d x, drop n p) else Ok (d, p).

Definition statupdate (kv : Kvp) (m : Msg) : res Kvp :=
  check (1 <=? zlen (mv m));;
  op ← UNPACK 1 (mv m);
  let op := s8 op in
  d ← kv2dir kv;
  let d := set_vers d (u32 (vers (qid d) + 1)) in
  s ← statfield op Owsize 8 set_dlength (d, drop 1 (mv m));
  s ← statfield op Owmode 4 set_mode s;
  s ← statfield op Owmtime 8 (fun d x => set_mtime d (s64 x)) s;
  s ← statfield op Owatime 8 (fun d x => set_atime d (s64 x)) s;
  s ← statfield op Owuid 4 (fun d x => set_uid d (s32 x)) s;
  s ← statfield op Owgid 4 (fun d x => set_gid d (s32 x)) s;
  s ← statfield op Owmuid 4 (fun d x => set_muid d (s32 x)) s;
  let '(d, p) := s in
  check (bool_decide (p = []));;
  e ← packdval (nv kv) d;
  check (zlen e =? nv kv);;
  Ok (mkKvp (k kv) e).

Definition set_links (op : Z) (t : Tree) (link dlbl dref : Z) : Tree :=
  mkTree (s32 (nref t + dref)) (s32 (nlbl t + dlbl)) (ht t) (tflag t) (tgen t)
    (if op =? Oreprev then link else pred t)
    (if op =? Orelink then link else succ t)
    (base t) (tbp t).

(** The Orelink, Oreprev and Oincref case: the tree of a snapshot gets a new
    neighbour, and its label and reference counts change by a char each. *)
Definition retag (kv : Kvp) (m : Msg) : res Kvp :=
  t ← unpacktree (v kv);
  link ← UNPACK 8 (mv m);
  dlbl ← UNPACK 1 (drop 8 (mv m));
  dref ← UNPACK 1 (drop 9 (mv m));
  let t := set_links (op m) t (s64 link) (s8 dlbl) (s8 dref) in
  check ((0 <=? nlbl t) && (0 <=? nref t));;
  check (zlen (mv m) =? 10);;
  bs ← packtree (nv kv) t;
  Ok (mkKvp (k kv) (patch (v kv) 0 bs)).

(** The result is apply's return value, and the pair it leaves in *kv. *)
Definition apply (kv : Kvp) (m : Msg) (nbuf : Z) : res (bool * Kvp) :=
  if op m =? Odelete then
    check (keycmp (k kv) (mk m) =? 0);; Ok (false, kv)
  else if (op m =? Oclearb) || (op m =? Oclobber) then Ok (false, kv)
  else if op m =? Oinsert then
    kv ← cpkvp (msg_kvp m) nbuf; Ok (true, kv)
  else if op m =? Owstat then
    check (keycmp (k kv) (mk m) =? 0);;
    kv ← statupdate kv m; Ok (true, kv)
  else if (op m =? Orelink) || (op m =? Oreprev) || (op m =? Oincref) then
    kv ← retag kv m; Ok (true, kv)
  else Fail Abort.

(** * Pulling messages from the parent *)

(** Where an update's messages come from: a batch of its own (the ins of the
    path's first element) or the buffer of the parent's block. *)
Inductive msgsrc := SrcIns (ms : list Msg) | SrcBlk (b : Blk).

Definition srcget (src : msgsrc) (i : Z) : res Msg :=
  match src with
  | SrcIns ms => if i <? 0 then Fail Undef else of_option (ms !! Z.to_nat i) Undef
  | SrcBlk b => getmsg b i
  end.

(** pullmsg's return value, and what it leaves in *m and *full. *)
Definition pullmsg (src : msgsrc) (hi i : Z) (key : option (list Z)) (m : option Msg)
    (full : bool) (spc : Z) : res (Z * option Msg * bool) :=
  if (i <? 0) || (hi <=? i) || full then Ok (-1, m, full) else
  m ← srcget src i;
  if msgsz m <=? spc then
    Ok (match key with None => 0 | Some key => keycmp key (mk m) end, Some m, full)
  else Ok (-1, Some m, true).

(** * stablesort is a stable sort *)

(** Insertion from the right end, on the reversed prefix. *)
Fixpoint sink (rp : list Msg) (x : Msg) : list Msg :=
  match rp with
  | [] => [x]
  | y :: rp' => if keycmp (mk y) (mk x) <=? 0 then x :: rp else y :: sink rp' x
  end.

Lemma sift_sink rp x post :
  sift (length rp) (reverse rp ++ x :: post) = reverse (sink rp x) ++ post.
Proof.
  revert x post. induction rp as [|y rp IH]; intros x post; [done|]. cbn [sift length sink].
  rewrite reverse_cons, <- !app_assoc. cbn [app].
  rewrite (list_lookup_middle (reverse rp) (x :: post) y) by (by rewrite length_reverse).
  replace (reverse rp ++ y :: x :: post) with ((reverse rp ++ [y]) ++ x :: post)
    by (by rewrite <- app_assoc).
  rewrite (list_lookup_middle (reverse rp ++ [y]) post x)
    by (rewrite length_app, length_reverse; cbn; lia).
  destruct (keycmp (mk y) (mk x) <=? 0).
  - by rewrite !reverse_cons, <- !app_assoc.
  - transitivity (sift (length rp) (reverse rp ++ x :: y :: post)).
    + f_equal. rewrite <- app_assoc. cbn [app].
      replace (length rp) with (length (reverse rp) + 0)%nat at 2 by (rewrite length_reverse; lia).
      rewrite insert_app_r. cbn [insert list_insert].
      replace (S (length rp)) with (length (reverse rp) + 1)%nat by (rewrite length_reverse; lia).
      by rewrite insert_app_r.
    + by rewrite IH, reverse_cons, <- app_assoc.
Qed.

Lemma length_sink rp x : length (sink rp x) = S (length rp).
Proof. induction rp as [|y rp IH]; [done|]. cbn. case_match; cbn; auto. Qed.

Lemma stablesort_fold ms c :
  (c < length ms)%nat ->
  fold_left (fun m i => sift i m) (seq 1 c) ms =
    reverse (fold_left sink (take (S c) ms) []) ++ drop (S c) ms.
Proof.
  induction c as [|c IH]; intros Hc.
  - destruct ms as [|x ms]; [cbn in Hc; lia|]. done.
  - rewrite seq_S, fold_left_app. cbn [fold_left]. rewrite IH by lia.
    destruct (lookup_lt_is_Some_2 ms (S c)) as [x Hx]; [done|].
    rewrite (drop_S ms x (S c) Hx), (take_S_r ms (S c) x Hx), fold_left_app. cbn [fold_left].
    set (rp := fold_left sink (take (S c) ms) []).
    assert (length rp = S c) as Hl.
    { unfold rp. assert (forall l acc, length (fold_left sink l acc) = (length l + length acc)%nat) as H.
      { intros l. induction l as [|y l IHl]; intros acc; [done|]. cbn.
        rewrite IHl, length_sink. lia. }
      rewrite H, length_take. cbn [length]. lia. }
    cbn [Nat.add]. rewrite <- Hl. apply sift_sink.
Qed.

Lemma stablesort_sink ms : stablesort ms = reverse (fold_left sink ms []).
Proof.
  unfold stablesort. destruct ms as [|x ms]; [done|].
  rewrite stablesort_fold by (cbn; lia).
  rewrite take_ge, drop_ge by (cbn; lia). by rewrite app_nil_r.
Qed.

Definition msgs_sorted (ms : list Msg) : Prop := keys_sorted (msg_keys ms).

(** The messages for one key, in the order they have. *)
Definition for_key (key : list Z) (ms : list Msg) : list Msg :=
  filter (fun m => mk m = key) ms.

Lemma for_key_app key a b : for_key key (a ++ b) = for_key key a ++ for_key key b.
Proof. apply filter_app. Qed.

Lemma for_key_sink key rp x :
  for_key key (reverse (sink rp x)) = for_key key (reverse rp) ++ for_key key [x].
Proof.
  induction rp as [|y rp IH]; [done|]. cbn [sink].
  destruct (Z.leb_spec (keycmp (mk y) (mk x)) 0).
  - rewrite !reverse_cons, <- !app_assoc. by rewrite !for_key_app, app_assoc.
  - rewrite !reverse_cons, !for_key_app, IH, <- !app_assoc. f_equal.
    unfold for_key. rewrite !filter_cons, !filter_nil.
    repeat case_decide; try done. exfalso. subst key.
    assert (mk y = mk x) as E by done. rewrite E, keycmp_refl in *. lia.
Qed.

Lemma sink_elem rp x y : y ∈ sink rp x <-> y = x \/ y ∈ rp.
Proof.
  induction rp as [|z rp IH]; cbn [sink]; [set_solver|].
  case_match; set_solver.
Qed.

(** The reversed prefix is kept in descending order. *)
Lemma sink_sorted rp x :
  StronglySorted (fun a b => key_le (mk b) (mk a)) rp ->
  StronglySorted (fun a b => key_le (mk b) (mk a)) (sink rp x).
Proof.
  induction 1 as [|y rp Hs IH Hy]; cbn [sink]; [repeat constructor|].
  destruct (Z.leb_spec (keycmp (mk y) (mk x)) 0) as [Hle|Hgt].
  - constructor; [by constructor|]. constructor; [done|].
    eapply Forall_impl; [exact Hy|]. cbn. intros z Hz. etrans; [exact Hz|exact Hle].
  - constructor; [done|]. apply Forall_forall. intros z Hz.
    apply sink_elem in Hz as [->|Hz].
    + unfold key_le. rewrite keycmp_opp. lia.
    + rewrite Forall_forall in Hy. by apply Hy.
Qed.

Lemma sorted_reverse rp :
  StronglySorted (fun a b => key_le (mk b) (mk a)) rp -> msgs_sorted (reverse rp).
Proof.
  unfold msgs_sorted, keys_sorted, msg_keys. induction 1 as [|y rp Hs IH Hy]; [constructor|].
  rewrite reverse_cons, fmap_app. apply StronglySorted_app_2; [|done|repeat constructor].
  cbn. intros a b Ha Hb. apply list_elem_of_singleton in Hb as ->.
  apply list_elem_of_fmap in Ha as (z & -> & Hz). rewrite elem_of_reverse in Hz.
  rewrite Forall_forall in Hy. by apply Hy.
Qed.

Lemma stablesort_sorted ms : msgs_sorted (stablesort ms).
Proof.
  rewrite stablesort_sink. apply sorted_reverse.
  assert (forall acc, StronglySorted (fun a b => key_le (mk b) (mk a)) acc ->
    StronglySorted (fun a b => key_le (mk b) (mk a)) (fold_left sink ms acc)) as H;
    [|apply H; constructor].
  induction ms as [|x ms IH]; intros acc Ha; [done|]. cbn. by apply IH, sink_sorted.
Qed.

Lemma stablesort_stable ms key : for_key key (stablesort ms) = for_key key ms.
Proof.
  rewrite stablesort_sink.
  assert (forall acc, for_key key (reverse (fold_left sink ms acc)) =
    for_key key (reverse acc) ++ for_key key ms) as H.
  { induction ms as [|x ms IH]; intros acc; [by rewrite app_nil_r|].
    cbn [fold_left]. rewrite IH, for_key_sink, <- app_assoc. f_equal.
    rewrite <- for_key_app. done. }
  apply (H []).
Qed.

(** * What a message does to the value of its key

    The specification the nodes are proved against.  A key without a value
    takes an insert, or a clear that finds nothing; anything else is a broken
    entry. *)
Definition mstep (cur : option Kvp) (m : Msg) : res (option Kvp) :=
  match cur with
  | None =>
      if (op m =? Oclearb) || (op m =? Oclobber) then Ok None
      else if op m =? Oinsert then Ok (Some (msg_kvp m))
      else Fail (Broke Efs)
  | Some kv =>
      '(ok, kv) ← apply kv m Msgmax;
      Ok (if ok : bool then Some kv else None)
  end.

Fixpoint mrun (cur : option Kvp) (ms : list Msg) : res (option Kvp) :=
  match ms with
  | [] => Ok cur
  | m :: ms => cur ← mstep cur m; mrun cur ms
  end.

Lemma mrun_app cur a b : mrun cur (a ++ b) = (c ← mrun cur a; mrun c b).
Proof.
  revert cur. induction a as [|m a IH]; intros cur; [done|]. cbn.
  destruct (mstep cur m); cbn; [apply IH|done].
Qed.

(** ** apply keeps the key, and its result fits where its inputs did *)

Lemma statfield_Ok op w n set s s' :
  statfield op w n set s = Ok s' ->
  (bit op w = false /\ s' = s) \/
  (bit op w = true /\ exists x, UNPACK n s.2 = Ok x /\ s' = (set s.1 x, drop n s.2)).
Proof.
  destruct s as [d p]. cbn. destruct (bit op w); intros H; [right|left].
  - apply bind_Ok in H as (x & Hx & H). apply Ok_inj in H. eauto.
  - by apply Ok_inj in H.
Qed.

Lemma statupdate_shape kv m kv' :
  statupdate kv m = Ok kv' -> k kv' = k kv /\ nv kv' = nv kv /\ nv kv = Xdirsz.
Proof.
  intros H. unfold statupdate in H.
  repeat (apply bind_Ok in H as (? & ? & H); cbn zeta in H).
  repeat match goal with x : (Xdir * list Z)%type |- _ => destruct x end.
  repeat (apply bind_Ok in H as (? & ? & H); cbn zeta in H). inv_ok. subst kv'. cbn.
  match goal with E : packdval _ _ = Ok _ |- _ => pose proof (zlen_packdval _ _ _ E) end.
  split_and!; [done| |lia]. unfold nv at 1. cbn [v]. lia.
Qed.

Lemma zlen_packtree sz t bs : packtree sz t = Ok bs -> zlen bs = Treesz /\ Treesz <= sz.
Proof.
  intros H. unfold packtree in H. inv_ok. subst bs. split; [by autorewrite with gefs|]. lia.
Qed.

Lemma retag_shape kv m kv' :
  retag kv m = Ok kv' -> k kv' = k kv /\ nv kv' = nv kv.
Proof.
  intros H. unfold retag in H. inv_ok. subst kv'.
  match goal with E : packtree _ _ = Ok _ |- _ => apply zlen_packtree in E as [? ?] end.
  split; [done|]. unfold nv, zlen in *. cbn [v]. rewrite length_patch; lia.
Qed.

Definition kv_small (kv : Kvp) : Prop := nk kv <= Keymax /\ nv kv <= Inlmax.
Definition msg_small (m : Msg) : Prop := zlen (mk m) <= Keymax /\ zlen (mv m) <= Inlmax.

(** apply's result: nothing, the message's own pair, or the old pair with a
    value of the same size. *)
Lemma apply_shape kv m nbuf ok kv' :
  apply kv m nbuf = Ok (ok, kv') ->
  (ok = false /\ kv' = kv) \/
  (ok = true /\ op m = Oinsert /\ kv' = msg_kvp m) \/
  (ok = true /\ k kv' = k kv /\ nv kv' = nv kv).
Proof.
  unfold apply. intros H.
  repeat match type of H with
  | context [if ?b then _ else _] => destruct b eqn:?
  end; inv_ok; simplify_eq; auto.
  - right; left. unfold cpkvp in *. inv_ok. subst.
    split_and!; [done| |done]. by apply Z.eqb_eq.
  - right; right. match goal with E : statupdate _ _ = Ok _ |- _ =>
      apply statupdate_shape in E as (? & ? & ?) end. done.
  - right; right. match goal with E : retag _ _ = Ok _ |- _ =>
      apply retag_shape in E as (? & ?) end. done.
Qed.

(** A file data key: its value is the pointer of the data block. *)
Definition isdata (kv : Kvp) : bool := bool_decide (head (k kv) = Some Kdat).

(** What the leaf code asks of a stored pair: small enough for its buffers, a
    directory entry has a value, a data key has a block pointer. *)
Definition kv_good (kv : Kvp) : Prop :=
  kv_small kv /\ entry_ok kv /\ (isdata kv = true -> Ptrsz <= nv kv).
Definition msg_good (m : Msg) : Prop :=
  msg_small m /\ 0 <= op m < 128 /\ (op m = Oinsert -> kv_good (msg_kvp m)).

Lemma kv_good_shape kv kv' :
  k kv' = k kv -> nv kv' = nv kv -> kv_good kv -> kv_good kv'.
Proof.
  intros Hk Hn ([? ?] & He & Hd). unfold kv_good, kv_small, entry_ok, isdata, nk in *.
  rewrite Hk, Hn. done.
Qed.

Lemma msg_good_kvp m : msg_good m -> op m = Oinsert -> kv_good (msg_kvp m).
Proof. intros (Hs & _ & He) Ho. by apply He. Qed.

Lemma mstep_good cur m cur' :
  mstep cur m = Ok cur' -> (forall kv, cur = Some kv -> kv_good kv /\ k kv = mk m) ->
  msg_good m -> forall kv, cur' = Some kv -> kv_good kv /\ k kv = mk m.
Proof.
  intros H Hc Hm kv ->. destruct cur as [kv0|]; cbn in H.
  - destruct (Hc kv0 eq_refl) as [Hg Hk].
    apply bind_Ok in H as ([ok kv1] & Ha & H). destruct ok; [|done].
    apply Ok_inj in H. simplify_eq.
    apply apply_shape in Ha as [[? ?]|[(_ & Ho & ->)|(_ & Hk1 & Hn1)]]; [done| |].
    + split; [by apply msg_good_kvp|done].
    + split; [by eapply kv_good_shape|congruence].
  - destruct (_ || _); [done|]. destruct (Z.eqb_spec (op m) Oinsert); [|done].
    apply Ok_inj in H. simplify_eq. split; [by apply msg_good_kvp|done].
Qed.

Definition cur_size (cur : option Kvp) : Z :=
  match cur with Some kv => valsz kv | None => 0 end.

Definition total_msgsz (ms : list Msg) : Z := sum_list (msgsz <$> ms).

Lemma total_msgsz_app a b : total_msgsz (a ++ b) = total_msgsz a + total_msgsz b.
Proof. unfold total_msgsz. by rewrite fmap_app, sum_list_app. Qed.
Lemma total_msgsz_cons x l : total_msgsz (x :: l) = msgsz x + total_msgsz l.
Proof. done. Qed.
Lemma msgsz_pos m : 7 <= msgsz m.
Proof. pose proof (emsz_pos m). unfold emsz in *. lia. Qed.
Lemma total_msgsz_nonneg l : 0 <= total_msgsz l.
Proof. induction l as [|x l IH]; [done|]. rewrite total_msgsz_cons. pose proof (msgsz_pos x). lia. Qed.

Lemma valsz_msg m : valsz (msg_kvp m) = msgsz m - 1.
Proof. unfold valsz, msgsz, nk, nv, msg_kvp. cbn. lia. Qed.
Lemma valsz_pos kv : 6 <= valsz kv.
Proof. pose proof (kvsz_pos kv). unfold kvsz, valsz in *. lia. Qed.

(** A message grows what it is applied to by less than its own size. *)
Lemma mstep_size cur m cur' :
  mstep cur m = Ok cur' -> cur_size cur' <= cur_size cur + msgsz m - 1.
Proof.
  intros H. pose proof (valsz_msg m). pose proof (msgsz_pos m).
  destruct cur as [kv0|]; cbn in H |- *.
  - apply bind_Ok in H as ([ok kv1] & Ha & H). apply Ok_inj in H. subst cur'.
    pose proof (valsz_pos kv0).
    apply apply_shape in Ha as [[-> ->]|[(-> & _ & ->)|(-> & Hk & Hn)]]; cbn; [lia|lia|].
    unfold valsz, nk in *. rewrite Hk, Hn. lia.
  - destruct (_ || _); [simplify_eq; cbn; lia|].
    destruct (op m =? Oinsert); [|done]. apply Ok_inj in H. subst cur'. cbn. lia.
Qed.

(** ** apply on the pair the code holds, which is stale after a delete *)

Definition cur_of (ok : bool) (kv : Kvp) : option Kvp := if ok then Some kv else None.

Lemma msgmax_val : Msgmax = 769.
Proof. done. Qed.

Lemma cpkvp_small kv : kv_small kv -> cpkvp kv Msgmax = Ok kv.
Proof.
  intros [? ?]. unfold cpkvp. rewrite check_true; [done|].
  rewrite msgmax_val. unfold Keymax, Maxent, Inlmax in *. lia.
Qed.

Lemma apply_mstep ok kv m r :
  mstep (cur_of ok kv) m = Ok r -> msg_small m -> mk m = k kv ->
  exists ok' kv', apply kv m Msgmax = Ok (ok', kv') /\ cur_of ok' kv' = r /\ k kv' = k kv.
Proof.
  intros H Hs Hk. destruct ok; cbn in H.
  - apply bind_Ok in H as ([ok' kv'] & Ha & H). apply Ok_inj in H.
    exists ok', kv'. split_and!; [done|by destruct ok'|].
    apply apply_shape in Ha as [[_ ->]|[(_ & _ & ->)|(_ & ? & _)]]; done.
  - unfold apply. destruct (Z.eqb_spec (op m) Oclearb) as [->|]; cbn in *.
    { apply Ok_inj in H. exists false, kv. done. }
    destruct (Z.eqb_spec (op m) Oclobber) as [->|]; cbn in *.
    { apply Ok_inj in H. exists false, kv. done. }
    destruct (Z.eqb_spec (op m) Oinsert) as [->|]; cbn in *; [|done].
    apply Ok_inj in H. exists true, (msg_kvp m).
    by rewrite (cpkvp_small (msg_kvp m)) by exact Hs.
Qed.

(** * Properties *)

Lemma sink_perm rp x : sink rp x ≡ₚ x :: rp.
Proof.
  induction rp as [|y rp IH]; [done|]. cbn [sink]. case_match; [done|].
  rewrite IH. apply Permutation_swap.
Qed.

Lemma stablesort_perm ms : stablesort ms ≡ₚ ms.
Proof.
  rewrite stablesort_sink, reverse_Permutation.
  assert (forall acc, fold_left sink ms acc ≡ₚ ms ++ acc) as H; [|by rewrite H, app_nil_r].
  induction ms as [|x ms IH]; intros acc; [done|]. cbn [fold_left app].
  rewrite IH, sink_perm. by rewrite Permutation_middle.
Qed.

(** The batch of an upsert is sorted stably.  stablesort returns the
    messages it is given, ordered by key, and the messages for one key keep
    the order in which they were issued. *)
Theorem stablesort_correct ms :
  msgs_sorted (stablesort ms) /\ stablesort ms ≡ₚ ms /\
  (forall key, for_key key (stablesort ms) = for_key key ms).
Proof.
  split_and!; [apply stablesort_sorted|apply stablesort_perm|apply stablesort_stable].
Qed.

(** ** Owstat messages *)

(** The changes one Owstat message carries; an absent field is not changed. *)
Record wstat := mkWstat {
  wsize : option Z; wmode : option Z; wmtime : option Z; watime : option Z;
  wuid : option Z; wgid : option Z; wmuid : option Z
}.

Definition oflag (o : option Z) (w : Z) : Z := match o with Some _ => w | None => 0 end.
Definition ofield (n : nat) (o : option Z) : list Z :=
  match o with Some x => pack n x | None => [] end.
Definition oset (set : Xdir -> Z -> Xdir) (o : option Z) (d : Xdir) : Xdir :=
  match o with Some x => set d x | None => d end.

Definition wflags (w : wstat) : Z :=
  oflag (wsize w) Owsize + oflag (wmode w) Owmode + oflag (wmtime w) Owmtime +
  oflag (watime w) Owatime + oflag (wuid w) Owuid + oflag (wgid w) Owgid +
  oflag (wmuid w) Owmuid.

(** The value of the message: the flags, then the fields in flag order. *)
Definition wstat_enc (w : wstat) : list Z :=
  pack 1 (wflags w) ++ ofield 8 (wsize w) ++ ofield 4 (wmode w) ++ ofield 8 (wmtime w) ++
  ofield 8 (watime w) ++ ofield 4 (wuid w) ++ ofield 4 (wgid w) ++ ofield 4 (wmuid w).

Definition wstat_apply (w : wstat) (d : Xdir) : Xdir :=
  oset set_muid (wmuid w) (oset set_gid (wgid w) (oset set_uid (wuid w)
  (oset set_atime (watime w) (oset set_mtime (wmtime w) (oset set_mode (wmode w)
  (oset set_dlength (wsize w) (set_vers d (u32 (vers (qid d) + 1))))))))).

Definition oall (P : Z -> Prop) (o : option Z) : Prop := forall x, o = Some x -> P x.

Definition wstat_ok (w : wstat) : Prop :=
  oall is_u64 (wsize w) /\ oall is_u32 (wmode w) /\ oall is_s64 (wmtime w) /\
  oall is_s64 (watime w) /\ oall is_s32 (wuid w) /\ oall is_s32 (wgid w) /\
  oall is_s32 (wmuid w).

Lemma wflags_bits w :
  let op := s8 (wflags w mod 2 ^ 8) in
  bit op Owsize = bool_decide (is_Some (wsize w)) /\
  bit op Owmode = bool_decide (is_Some (wmode w)) /\
  bit op Owmtime = bool_decide (is_Some (wmtime w)) /\
  bit op Owatime = bool_decide (is_Some (watime w)) /\
  bit op Owuid = bool_decide (is_Some (wuid w)) /\
  bit op Owgid = bool_decide (is_Some (wgid w)) /\
  bit op Owmuid = bool_decide (is_Some (wmuid w)).
Proof. destruct w as [[] [] [] [] [] [] []]; cbv; tauto. Qed.

Lemma statfield_enc op w n set o d p get :
  bit op w = bool_decide (is_Some o) ->
  (forall x, o = Some x -> set d (x mod 2 ^ (8 * Z.of_nat n)) = get d x) ->
  statfield op w n set (d, ofield n o ++ p) = Ok (oset get o d, p).
Proof.
  intros Hb Hs. unfold statfield. rewrite Hb. destruct o as [x|]; cbn [ofield oset]; [|done].
  rewrite bool_decide_true by (by eexists). rewrite UNPACK_pack, bind_ok, drop_pack.
  by rewrite Hs.
Qed.

Lemma kv2dir_Ok kv d :
  kv2dir kv = Ok d ->
  9 <= nk kv /\ nv kv = Xdirsz /\ exists rest, unpackstr (drop 9 (k kv)) = Ok (name d, rest).
Proof.
  unfold kv2dir. destruct (_ || _) eqn:E; [done|]. intros H.
  apply orb_false_iff in E as [E1 E2].
  apply bind_Ok in H as ([nm rest] & Hs & H). inv_ok. subst d. cbn [name].
  split_and!; [lia|lia|by exists rest].
Qed.

Lemma wstat_apply_name w d : name (wstat_apply w d) = name d.
Proof. by destruct w as [[] [] [] [] [] [] []]. Qed.

Lemma wstat_apply_ok w d : wstat_ok w -> xdir_ok d -> xdir_ok (wstat_apply w d).
Proof.
  intros (H1 & H2 & H3 & H4 & H5 & H6 & H7) Hd.
  assert (xdir_ok (set_vers d (u32 (vers (qid d) + 1)))) as H0.
  { unfold xdir_ok in *. cbn. split_and!; try apply Hd; apply Z.mod_pos_bound; lia. }
  unfold wstat_apply. clear Hd. revert H0.
  generalize (set_vers d (u32 (vers (qid d) + 1))). clear d. intros d Hd.
  destruct w as [w1 w2 w3 w4 w5 w6 w7]; cbn [wsize wmode wmtime watime wuid wgid wmuid] in *.
  assert (xdir_ok (oset set_dlength w1 d)) as H.
  { destruct w1 as [x|]; [|done]. specialize (H1 x eq_refl). unfold xdir_ok in *. cbn. tauto. }
  clear Hd H1. revert H. generalize (oset set_dlength w1 d). clear d. intros d Hd.
  assert (xdir_ok (oset set_mode w2 d)) as H.
  { destruct w2 as [x|]; [|done]. specialize (H2 x eq_refl). unfold xdir_ok in *. cbn.
    assert (is_u8 (u8 (Z.shiftr x 24))) by (apply u8_byte). tauto. }
  clear Hd H2. revert H. generalize (oset set_mode w2 d). clear d. intros d Hd.
  unfold oset, oall in *. repeat case_match; unfold xdir_ok in *; cbn in *; naive_solver.
Qed.

Lemma statupdate_fields w d p op :
  wstat_ok w -> op = s8 (wflags w mod 2 ^ 8) ->
  (s ← statfield op Owsize 8 set_dlength (d, ofield 8 (wsize w) ++ ofield 4 (wmode w) ++
        ofield 8 (wmtime w) ++ ofield 8 (watime w) ++ ofield 4 (wuid w) ++ ofield 4 (wgid w) ++
        ofield 4 (wmuid w) ++ p);
   s ← statfield op Owmode 4 set_mode s;
   s ← statfield op Owmtime 8 (fun d x => set_mtime d (s64 x)) s;
   s ← statfield op Owatime 8 (fun d x => set_atime d (s64 x)) s;
   s ← statfield op Owuid 4 (fun d x => set_uid d (s32 x)) s;
   s ← statfield op Owgid 4 (fun d x => set_gid d (s32 x)) s;
   statfield op Owmuid 4 (fun d x => set_muid d (s32 x)) s) =
  Ok (oset set_muid (wmuid w) (oset set_gid (wgid w) (oset set_uid (wuid w)
      (oset set_atime (watime w) (oset set_mtime (wmtime w) (oset set_mode (wmode w)
      (oset set_dlength (wsize w) d)))))), p).
Proof.
  intros (H1 & H2 & H3 & H4 & H5 & H6 & H7) ->.
  destruct (wflags_bits w) as (B1 & B2 & B3 & B4 & B5 & B6 & B7). cbn zeta in *.
  rewrite (statfield_enc _ _ 8 _ _ _ _ set_dlength B1), bind_ok.
  2: { intros x Hx. f_equal. apply pack64_u64. by apply H1. }
  rewrite (statfield_enc _ _ 4 _ _ _ _ set_mode B2), bind_ok.
  2: { intros x Hx. f_equal. apply pack32_u32. by apply H2. }
  rewrite (statfield_enc _ _ 8 _ _ _ _ set_mtime B3), bind_ok.
  2: { intros x Hx. f_equal. apply pack64_s64. by apply H3. }
  rewrite (statfield_enc _ _ 8 _ _ _ _ set_atime B4), bind_ok.
  2: { intros x Hx. f_equal. apply pack64_s64. by apply H4. }
  rewrite (statfield_enc _ _ 4 _ _ _ _ set_uid B5), bind_ok.
  2: { intros x Hx. f_equal. apply pack32_s32. by apply H5. }
  rewrite (statfield_enc _ _ 4 _ _ _ _ set_gid B6), bind_ok.
  2: { intros x Hx. f_equal. apply pack32_s32. by apply H6. }
  apply (statfield_enc _ _ 4 _ _ _ _ set_muid B7).
  intros x Hx. f_equal. apply pack32_s32. by apply H7.
Qed.

(** C24: a wstat message changes exactly the fields it names.  Applied to the
    stored form of a directory entry, the message that carries the changes
    [w] never aborts; it leaves the entry with the named fields set, the
    qid's version bumped and its type taken from a new mode, every other
    field, the name and the key as they were, and the value's size
    unchanged. *)
Theorem wstat_updates kv d w :
  kv2dir kv = Ok d -> xdir_ok d -> wstat_ok w ->
  exists kv', apply kv (mkMsg Owstat (k kv) (wstat_enc w)) Msgmax = Ok (true, kv') /\
    kv2dir kv' = Ok (wstat_apply w d) /\ k kv' = k kv /\ nv kv' = nv kv.
Proof.
  intros Hkv Hd Hw. destruct (kv2dir_Ok _ _ Hkv) as (Hk & Hv & rest & Hn).
  pose proof (wstat_apply_ok w d Hw Hd) as Hd'.
  destruct (packdval_Ok (nv kv) (wstat_apply w d)) as [e He]; [lia|].
  pose proof (zlen_packdval _ _ _ He) as Hle.
  exists (mkKvp (k kv) e). split_and!; [| |done|unfold nv at 1; cbn [v]; lia].
  - unfold apply. cbn -[statupdate keycmp]. rewrite keycmp_refl. cbn [Z.eqb check].
    rewrite bind_ok. unfold statupdate. cbn [mv mk].
    rewrite check_leb by (unfold wstat_enc; autorewrite with gefs; lia || idtac;
      pose proof (zlen_nonneg (ofield 8 (wsize w) ++ ofield 4 (wmode w) ++ ofield 8 (wmtime w) ++
        ofield 8 (watime w) ++ ofield 4 (wuid w) ++ ofield 4 (wgid w) ++ ofield 4 (wmuid w)));
      autorewrite with gefs in *; lia).
    rewrite bind_ok. unfold wstat_enc. rewrite UNPACK_pack, bind_ok, drop_pack, Hkv, bind_ok.
    pose proof (statupdate_fields w (set_vers d (u32 (vers (qid d) + 1))) [] _ Hw eq_refl) as Hf.
    rewrite app_nil_r in Hf. change (8 * Z.of_nat 1) with 8.
    repeat (apply bind_Ok in Hf as ([] & Es & Hf); rewrite Es, bind_ok; clear Es).
    rewrite Hf, bind_ok. fold (wstat_apply w d). rewrite bool_decide_true by done.
    cbn [check]. rewrite bind_ok, He, bind_ok, Hle, Hv, Z.eqb_refl. done.
  - rewrite (kv2dir_packdval _ (name d) rest _ _ _ Hd' He); [|exact Hk|done].
    rewrite <- (wstat_apply_name w d). by destruct (wstat_apply w d).
Qed.

Lemma wstat_updates_witness :
  exists kv, dir2kv 3 ex_dir 512 = Ok kv /\
  let w := mkWstat (Some 77) None (Some 9) None None (Some 4) None in
  exists kv', apply kv (mkMsg Owstat (k kv) (wstat_enc w)) Msgmax = Ok (true, kv') /\
    kv2dir kv' = Ok (wstat_apply w ex_dir) /\ k kv' = k kv /\ nv kv' = nv kv.
Proof.
  eexists. split; [reflexivity|]. apply wstat_updates.
  - reflexivity.
  - unfold xdir_ok. split_and!; try done. by repeat constructor.
  - unfold wstat_ok, oall. cbn. split_and!; intros x [=]; subst; done.
Defined.
