(* ===== verification/Leaf.v ===== *)
(** sys/src/9/gefs/tree.c, leaves: updateleaf and splitleaf rebuild a leaf
    with the messages pulled from its parent applied.

    Both are modelled up to the allocation of the new blocks: they are given
    the blocks newblk returned, and they return the blocks filled, what was
    pulled, and the data blocks handed to freebp.  Flush.v composes them with
    the allocator. *)

From S2P Require Import Prelude Layout Pack Node Msgs.

(** * The code *)

(** Does a message of this type drop the data block of the pair it meets? *)
Definition dropsdata (m : Msg) : bool :=
  (op m =? Oclearb) || (op m =? Oinsert) || (op m =? Odelete).

(** [bp = unpackbp(v.v, v.nv); freebp(t, bp);] under its conditions. *)
Definition dropdata (kv : Kvp) (m : Msg) : res (list Bptr) :=
  if isdata kv && dropsdata m then bp ← unpackbp (v kv); Ok [bp] else Ok [].

Record copy := mkCopy {
  cj : Z; ckv : Kvp; cok : bool; cm : option Msg; cfull : bool;
  cpull : Z; cfrees : list Bptr
}.

(** The Copyloop: every further message for the key of *v, in order. *)
Fixpoint copyloop (fuel : nat) (src : msgsrc) (hi spc : Z) (c : copy) : res copy :=
  if hi <=? cj c then Ok c else
  match fuel with
  | O => Fail Fuel
  | S fuel =>
      '(r, m, full) ← pullmsg src hi (cj c) (Some (k (ckv c))) (cm c) (cfull c) spc;
      if negb (r =? 0)
      then Ok (mkCopy (cj c) (ckv c) (cok c) m full (cpull c) (cfrees c))
      else
        check (negb full);;
        msg ← of_option m Undef;
        f ← (if cok c then dropdata (ckv c) msg else Ok []);
        '(ok, kv) ← apply (ckv c) msg Msgmax;
        copyloop fuel src hi spc
          (mkCopy (cj c + 1) kv ok m full (cpull c + msgsz msg) (cfrees c ++ f))
  end.

Record leafst := mkLeafst {
  li : Z; lj : Z; lfull : bool; lspc : Z; lm : option Msg; ln : Blk;
  lpull : Z; lfrees : list Bptr
}.

(** The comparison at the head of the loop: c, v and what became of m, full. *)
Definition leafcmp (b : Blk) (src : msgsrc) (hi : Z) (s : leafst)
    : res (Z * option Kvp * option Msg * bool) :=
  if nval b <=? li s then Ok (1, None, lm s, lfull s) else
  kv ← getval b (li s);
  if lj s <? hi then
    m ← srcget src (lj s);
    if msgsz m <=? lspc s then Ok (keycmp (k kv) (mk m), Some kv, Some m, lfull s)
    else Ok (-1, Some kv, Some m, true)
  else Ok (-1, Some kv, lm s, lfull s).

(** case 0: the value merges with the message sequence. *)
Definition mergecase (fuel : nat) (src : msgsrc) (hi spc : Z) (j : Z) (kv : Kvp)
    (m : option Msg) (full : bool) (pull : Z) (frees : list Bptr) : res copy :=
  kv ← cpkvp kv Msgmax;
  msg ← of_option m Undef;
  f ← dropdata kv msg;
  '(ok, kv) ← apply kv msg Msgmax;
  copyloop fuel src hi spc (mkCopy (j + 1) kv ok m full pull (frees ++ f)).

(** case 1: the message sequence comes before the value.  Also the room left
    for more messages. *)
Definition insertcase (fuel : nat) (src : msgsrc) (hi spc : Z) (j : Z)
    (m : option Msg) (full : bool) (pull : Z) (frees : list Bptr) : res (copy * Z) :=
  msg ← of_option m Undef;
  kv ← cpkvp (msg_kvp msg) Msgmax;
  if (op msg =? Oclearb) || (op msg =? Oclobber) then
    c ← copyloop fuel src hi spc (mkCopy (j + 1) kv false m full pull frees);
    Ok (c, spc)
  else if negb (op msg =? Oinsert) then Fail (Broke Efs)
  else
    let spc := spc - valsz (msg_kvp msg) in
    c ← copyloop fuel src hi spc
          (mkCopy (j + 1) kv true m full (pull + msgsz msg) frees);
    Ok (c, spc).

Definition copydone (n : Blk) (c : copy) : res Blk :=
  if cok c then setval n (ckv c) else Ok n.

Fixpoint updateleaf_loop (fuel : nat) (b : Blk) (src : msgsrc) (hi : Z) (s : leafst)
    : res leafst :=
  if negb ((li s <? nval b) || (lj s <? hi)) then Ok s else
  match fuel with
  | O => Fail Fuel
  | S fuel' =>
      '(c, ov, m, full) ← leafcmp b src hi s;
      if c =? -1 then
        kv ← of_option ov Undef;
        n ← setval (ln s) kv;
        updateleaf_loop fuel' b src hi
          (mkLeafst (li s + 1) (lj s) full (lspc s) m n (lpull s) (lfrees s))
      else if c =? 0 then
        kv ← of_option ov Undef;
        c ← mergecase fuel src hi (lspc s) (lj s) kv m full (lpull s) (lfrees s);
        n ← copydone (ln s) c;
        updateleaf_loop fuel' b src hi
          (mkLeafst (li s + 1) (cj c) (cfull c) (lspc s) (cm c) n (cpull c) (cfrees c))
      else
        '(c, spc) ← insertcase fuel src hi (lspc s) (lj s) m full (lpull s) (lfrees s);
        n ← copydone (ln s) c;
        updateleaf_loop fuel' b src hi
          (mkLeafst (li s) (cj c) (cfull c) spc (cm c) n (cpull c) (cfrees c))
  end.

(** What an update of a leaf reports: the new block, p->npull, p->pullsz and
    the data blocks freed. *)
Record leafout := mkLeafout {
  lo_blk : Blk; lo_npull : Z; lo_pullsz : Z; lo_frees : list Bptr
}.

(** [n] is the block newblk(t, b->type) returned. *)
Definition updateleaf (b : Blk) (src : msgsrc) (lo hi : Z) (n : Blk) : res leafout :=
  fill ← blkfill b;
  let spc := Leafspc - fill in
  check (0 <=? lo);;
  s ← updateleaf_loop (Z.to_nat (nval b + (hi - lo) + 1)) b src hi
        (mkLeafst 0 lo false spc None n 0 []);
  Ok (mkLeafout (ln s) (lj s - lo) (lpull s) (lfrees s)).

(** ** splitleaf *)

Record splitst := mkSplitst {
  si : Z; sj : Z; sfull : bool; sspc : Z; sleft : bool; scopied : Z;
  sl : Blk; sr : Blk; sm : option Msg; spull : Z; sfrees : list Bptr
}.

Definition split_dst (s : splitst) : Blk := if sleft s then sl s else sr s.
Definition split_set (s : splitst) (i j : Z) (full : bool) (spc copied : Z)
    (n : Blk) (m : option Msg) (pull : Z) (frees : list Bptr) : splitst :=
  if sleft s then mkSplitst i j full spc true copied n (sr s) m pull frees
  else mkSplitst i j full spc false copied (sl s) n m pull frees.

Fixpoint splitleaf_loop (fuel : nat) (b : Blk) (src : msgsrc) (hi halfsz : Z)
    (s : splitst) : res splitst :=
  if nval b <=? si s then Ok s else
  match fuel with
  | O => Fail Fuel
  | S fuel' =>
      let s :=
        if sleft s && ((si s =? nval b - 2) || ((2 <=? si s) && (halfsz <=? scopied s)))
        then mkSplitst (si s) (sj s) (sfull s) (Leafspc - (halfsz + Msgmax)) false
               (scopied s) (sl s) (sr s) (sm s) (spull s) (sfrees s)
        else s in
      kv ← getval b (si s);
      '(c, m, full) ← pullmsg src hi (sj s) (Some (k kv)) (sm s) (sfull s) (sspc s);
      if c =? -1 then
        n ← setval (split_dst s) kv;
        splitleaf_loop fuel' b src hi halfsz
          (split_set s (si s + 1) (sj s) full (sspc s) (scopied s + valsz kv) n m
             (spull s) (sfrees s))
      else if c =? 0 then
        c ← mergecase fuel src hi (sspc s) (sj s) kv m full (spull s) (sfrees s);
        n ← copydone (split_dst s) c;
        splitleaf_loop fuel' b src hi halfsz
          (split_set s (si s + 1) (cj c) (cfull c) (sspc s) (scopied s + valsz kv) n
             (cm c) (cpull c) (cfrees c))
      else
        msg ← of_option m Undef;
        '(c, spc) ← insertcase fuel src hi (sspc s) (sj s) m full (spull s) (sfrees s);
        n ← copydone (split_dst s) c;
        splitleaf_loop fuel' b src hi halfsz
          (split_set s (si s) (cj c) (cfull c) spc (scopied s + valsz (msg_kvp msg)) n
             (cm c) (cpull c) (cfrees c))
  end.

Record splitout := mkSplitout {
  so_l : Blk; so_r : Blk; so_npull : Z; so_pullsz : Z; so_frees : list Bptr
}.

(** [psz] is the size of the messages above (pup->sz); [l] and [r] are the
    blocks newblk returned. *)
Definition splitleaf (b : Blk) (src : msgsrc) (lo hi psz : Z) (l r : Blk) : res splitout :=
  let halfsz := Z.min (Z.quot (2 * nval b + bvalsz b + psz) 2) (Z.quot Leafspc 2) in
  check (4 <=? nval b);;
  s ← splitleaf_loop (Z.to_nat (nval b + (hi - lo) + 1)) b src hi halfsz
        (mkSplitst 0 lo false (Leafspc - (halfsz + Msgmax)) true 0 l r None 0 []);
  Ok (mkSplitout (sl s) (sr s) (sj s - lo) (spull s) (sfrees s)).

(** * Correctness *)

(** The source holds the messages [ms] at lo, lo+1, ... *)
Definition src_repr (src : msgsrc) (lo : Z) (ms : list Msg) : Prop :=
  0 <= lo /\ forall i m, ms !! i = Some m -> srcget src (lo + Z.of_nat i) = Ok m.

Lemma src_repr_ins (pre ms : list Msg) : src_repr (SrcIns (pre ++ ms)) (zlen pre) ms.
Proof.
  split; [apply zlen_nonneg|]. intros i m Hm. cbn. unfold zlen.
  destruct (Z.ltb_spec (Z.of_nat (length pre) + Z.of_nat i) 0); [lia|].
  replace (Z.to_nat (Z.of_nat (length pre) + Z.of_nat i)) with (length pre + i)%nat by lia.
  by rewrite lookup_app_r, Nat.add_comm, Nat.add_sub, Hm by lia.
Qed.

Lemma src_repr_blk b kvs pre ms post :
  blk_repr b kvs (pre ++ ms ++ post) -> btyp b = Tpivot -> src_repr (SrcBlk b) (zlen pre) ms.
Proof.
  intros R Ht. split; [apply zlen_nonneg|]. intros i m Hm. cbn. unfold zlen.
  rewrite <- Nat2Z.inj_add. eapply getmsg_repr; [done|done|].
  rewrite lookup_app_r by lia. replace (length pre + i - length pre)%nat with i by lia.
  by apply lookup_app_l_Some.
Qed.

Lemma src_repr_get src lo a m c :
  src_repr src lo (a ++ m :: c) -> srcget src (lo + zlen a) = Ok m.
Proof. intros [_ H]. apply H. by apply list_lookup_middle. Qed.

Lemma src_repr_len src lo (a b : list Msg) : src_repr src lo (a ++ b) -> 0 <= lo + zlen a.
Proof. intros [H _]. pose proof (zlen_nonneg a). lia. Qed.

(** pullmsg with room for the next message. *)
Lemma pullmsg_room src lo hi a m c key om spc :
  src_repr src lo (a ++ m :: c) -> hi = lo + zlen (a ++ m :: c) -> msgsz m <= spc ->
  pullmsg src hi (lo + zlen a) (Some key) om false spc = Ok (keycmp key (mk m), Some m, false).
Proof.
  intros Hs -> Hm. unfold pullmsg. pose proof (src_repr_len _ _ _ _ Hs).
  pose proof (zlen_nonneg c). rewrite zlen_app, zlen_cons.
  destruct (Z.ltb_spec (lo + zlen a) 0); [lia|].
  destruct (Z.leb_spec (lo + (zlen a + (1 + zlen c))) (lo + zlen a)); [lia|]. cbn [orb].
  rewrite (src_repr_get _ _ _ _ _ Hs), bind_ok.
  by destruct (Z.leb_spec (msgsz m) spc); [|lia].
Qed.

(** The data blocks a run of messages drops for one key. *)
Fixpoint mdrops (cur : option Kvp) (ms : list Msg) : list Bptr :=
  match ms with
  | [] => []
  | m :: ms =>
      (match cur with
       | Some kv => match dropdata kv m with Ok f => f | Fail _ => [] end
       | None => []
       end) ++
      match mstep cur m with Ok cur => mdrops cur ms | Fail _ => [] end
  end.

Lemma dropdata_good kv m : kv_good kv -> is_Ok (dropdata kv m).
Proof.
  intros (_ & _ & Hd). unfold dropdata. destruct (isdata kv); [|by eexists].
  destruct (dropsdata m); [|by eexists]. cbn [andb].
  unfold unpackbp. specialize (Hd eq_refl). unfold nv in Hd.
  rewrite check_leb by done. rewrite bind_ok. unfold UNPACK.
  rewrite !length_drop. assert (24 <= length (v kv))%nat by (unfold zlen, Ptrsz in Hd; lia).
  rewrite !decide_True by lia. by eexists.
Qed.

(** Copyloop applies the whole run [g] of messages for the key of its pair,
    and leaves *m at the message after them. *)
Lemma copyloop_spec fuel src lo hi spc a g c r :
  src_repr src lo (a ++ g ++ c) -> hi = lo + zlen (a ++ g ++ c) ->
  forall kv ok om pull frees,
  mrun (cur_of ok kv) g = Ok r ->
  (forall kv', cur_of ok kv = Some kv' -> kv_good kv') ->
  Forall (fun m => mk m = k kv /\ msg_good m) g ->
  (forall m c', c = m :: c' -> mk m <> k kv) ->
  total_msgsz (g ++ c) <= spc -> (length g < fuel)%nat ->
  exists kv' ok' om',
    copyloop fuel src hi spc (mkCopy (lo + zlen a) kv ok om false pull frees) =
      Ok (mkCopy (lo + zlen (a ++ g)) kv' ok' om' false (pull + total_msgsz g)
            (frees ++ mdrops (cur_of ok kv) g)) /\
    cur_of ok' kv' = r /\ k kv' = k kv /\
    (forall m c', c = m :: c' -> om' = Some m) /\ (c = [] -> g = [] -> om' = om).
Proof.
  intros Hs Hhi. revert a fuel Hs Hhi.
  induction g as [|m g IH]; intros a fuel Hs Hhi kv ok om pull frees Hr Hgood Hg Hc Hspc Hf;
    (destruct fuel as [|fuel]; [cbn in Hf; lia|]).
  - cbn in Hr. apply Ok_inj in Hr. cbn [app mdrops] in *.
    rewrite !app_nil_r. change (total_msgsz []) with 0. rewrite Z.add_0_r.
    cbn [copyloop cj]. destruct c as [|m c].
    + rewrite app_nil_r in Hhi. destruct (Z.leb_spec hi (lo + zlen a)); [|lia].
      exists kv, ok, om. split_and!; done.
    + pose proof (zlen_nonneg c).
      destruct (Z.leb_spec hi (lo + zlen a)); [rewrite Hhi, zlen_app, zlen_cons in *; lia|].
      rewrite total_msgsz_cons in Hspc. pose proof (total_msgsz_nonneg c).
      cbn [ckv cm cfull]. rewrite (pullmsg_room _ _ _ _ _ _ _ _ _ Hs Hhi) by lia.
      rewrite bind_ok. specialize (Hc m c eq_refl).
      destruct (Z.eqb_spec (keycmp (k kv) (mk m)) 0) as [E|].
      { apply keycmp_eq in E. congruence. }
      cbn [negb cok cpull cfrees]. exists kv, ok, (Some m). split_and!; try done. naive_solver.
  - apply Forall_cons in Hg as [[Hk Hm] Hg]. cbn [mrun] in Hr.
    apply bind_Ok in Hr as (cur & Hstep & Hr).
    cbn [app] in *. rewrite total_msgsz_cons in Hspc.
    pose proof (total_msgsz_nonneg (g ++ c)).
    cbn [copyloop cj]. destruct (Z.leb_spec hi (lo + zlen a)).
    { rewrite Hhi, zlen_app, zlen_cons in *. pose proof (zlen_nonneg (g ++ c)). lia. }
    cbn [ckv cm cfull]. rewrite (pullmsg_room _ _ _ _ _ _ _ _ _ Hs Hhi) by lia.
    rewrite bind_ok, Hk, keycmp_refl. cbn [negb Z.eqb check cok of_option]. rewrite !bind_ok.
    destruct (apply_mstep _ _ _ _ Hstep (proj1 Hm) Hk) as (ok' & kv' & Ha & <- & Hk').
    assert (exists f, (if ok then dropdata kv m else Ok []) = Ok f /\
      mdrops (cur_of ok kv) (m :: g) = f ++ mdrops (cur_of ok' kv') g) as (f & Hfr & Hmd).
    { cbn [mdrops]. rewrite Hstep. destruct ok; cbn [cur_of].
      - destruct (dropdata_good kv m) as [f Hf']; [by apply Hgood|]. rewrite Hf'. by exists f.
      - by exists []. }
    rewrite Hfr, bind_ok, Ha, bind_ok. cbn [cpull cfrees].
    replace (lo + zlen a + 1) with (lo + zlen (a ++ [m]))
      by (rewrite zlen_app, zlen_cons, zlen_nil; lia).
    replace (a ++ m :: g ++ c) with ((a ++ [m]) ++ g ++ c) in * by (by rewrite <- app_assoc).
    destruct (IH (a ++ [m]) fuel Hs Hhi kv' ok' (Some m) (pull + msgsz m) (frees ++ f))
      as (kv2 & ok2 & om2 & Hcl & Hr2 & Hk2 & Hom & Hom2).
    + done.
    + intros kv0 E. eapply mstep_good; [exact Hstep| |exact Hm|exact E].
      intros kv1 E1. split; [by apply Hgood|]. destruct ok; [|done]. by simplify_eq/=.
    + eapply Forall_impl; [exact Hg|]. cbn. intros ? [? ?]. by rewrite Hk'.
    + intros m' c' ->. rewrite Hk'. by eapply Hc.
    + pose proof (msgsz_pos m). lia.
    + cbn in Hf. lia.
    + exists kv2, ok2, om2. rewrite Hcl. rewrite Hmd, total_msgsz_cons, !app_assoc.
      rewrite <- (app_assoc a [m] g). cbn [app].
      split_and!; [|done|congruence|done|done]. do 2 f_equal. lia.
Qed.

(** ** The contents of a leaf as a map *)

Definition kvfind (key : list Z) (kvs : list Kvp) : option Kvp :=
  head (filter (fun kv => k kv = key) kvs).

Lemma kvs_valsz_opt (r : option Kvp) : kvs_valsz (option_list r) = cur_size r.
Proof.
  destruct r as [kv|]; [|done]. unfold kvs_valsz, cur_size, valsz. change (option_list (Some kv)) with [kv].
  rewrite zlen_cons, zlen_nil, kvs_size_cons. change (kvs_size []) with 0. unfold kvsz. lia.
Qed.

Lemma kvfind_app_none key a b :
  Forall (fun kv => k kv <> key) a -> kvfind key (a ++ b) = kvfind key b.
Proof. intros H. unfold kvfind. rewrite filter_app. by rewrite (filter_none _ a). Qed.

Lemma kvfind_app_r_none key a b :
  Forall (fun kv => k kv <> key) b -> kvfind key (a ++ b) = kvfind key a.
Proof. intros H. unfold kvfind. rewrite filter_app. by rewrite (filter_none _ b), app_nil_r. Qed.

Lemma kvfind_opt key (r : option Kvp) :
  (forall kv, r = Some kv -> k kv = key) -> kvfind key (option_list r) = r.
Proof.
  destruct r as [kv|]; [|done]. intros H. unfold kvfind. cbn.
  by rewrite decide_True by (by apply H).
Qed.

Lemma kvfind_none key l : Forall (fun kv => k kv <> key) l -> kvfind key l = None.
Proof. intros H. unfold kvfind. by rewrite filter_none. Qed.

Lemma for_key_none key l : Forall (fun m => mk m <> key) l -> for_key key l = [].
Proof. apply filter_none. Qed.
Lemma for_key_all key l : Forall (fun m => mk m = key) l -> for_key key l = l.
Proof. apply filter_all. Qed.

(** Pointers to data blocks, in the values and in the inserts. *)
Definition kv_ptrs (kv : Kvp) : list Bptr :=
  if isdata kv then match unpackbp (v kv) with Ok bp => [bp] | Fail _ => [] end else [].
Definition ins_ptrs (m : Msg) : list Bptr :=
  if op m =? Oinsert then kv_ptrs (msg_kvp m) else [].
Definition kvs_ptrs (kvs : list Kvp) : list Bptr := kvs ≫= kv_ptrs.
Definition msgs_ptrs (ms : list Msg) : list Bptr := ms ≫= ins_ptrs.

(** The messages for a data key insert, clear or delete its block. *)
Definition data_op (m : Msg) : Prop := isdata (msg_kvp m) = true -> dropsdata m = true.

Definition cur_ptrs (cur : option Kvp) : list Bptr :=
  match cur with Some kv => kv_ptrs kv | None => [] end.

Lemma kvs_ptrs_opt cur : kvs_ptrs (option_list cur) = cur_ptrs cur.
Proof. destruct cur; [|done]. cbn. apply app_nil_r. Qed.

Lemma isdata_key kv kv' : k kv = k kv' -> isdata kv = isdata kv'.
Proof. intros E. unfold isdata. by rewrite E. Qed.

Lemma kv_ptrs_nodata kv : isdata kv = false -> kv_ptrs kv = [].
Proof. intros E. unfold kv_ptrs. by rewrite E. Qed.

Lemma ins_ptrs_nodata m : isdata (msg_kvp m) = false -> ins_ptrs m = [].
Proof. intros E. unfold ins_ptrs. rewrite kv_ptrs_nodata by done. by case_match. Qed.

(** What one message drops. *)
Definition mdrop (cur : option Kvp) (m : Msg) : list Bptr :=
  match cur with
  | Some kv => match dropdata kv m with Ok f => f | Fail _ => [] end
  | None => []
  end.

(** A dropping message on a data key exchanges the old block for its own. *)
Lemma mstep_ptrs_data kv m ok kv1 :
  apply kv m Msgmax = Ok (ok, kv1) -> dropsdata m = true ->
  cur_ptrs (cur_of ok kv1) = ins_ptrs m.
Proof.
  unfold apply, dropsdata, ins_ptrs. intros Ha Hd.
  destruct (Z.eqb_spec (op m) Odelete) as [->|]; [inv_ok; by simplify_eq|].
  destruct (Z.eqb_spec (op m) Oclearb) as [->|]; [cbn in Ha; inv_ok; by simplify_eq|].
  destruct (Z.eqb_spec (op m) Oinsert) as [->|]; [|done].
  cbn in Ha. unfold cpkvp in Ha. inv_ok. simplify_eq. done.
Qed.

Lemma mstep_ptrs cur m cur1 :
  mstep cur m = Ok cur1 -> (forall kv, cur = Some kv -> kv_good kv /\ k kv = mk m) ->
  msg_good m -> data_op m ->
  cur_ptrs cur ++ ins_ptrs m ≡ₚ mdrop cur m ++ cur_ptrs cur1.
Proof.
  intros H Hc Hm Hd. pose proof (mstep_good _ _ _ H Hc Hm) as Hc1.
  destruct cur as [kv|]; cbn [mstep cur_ptrs mdrop] in *.
  - destruct (Hc kv eq_refl) as [Hg Hk].
    apply bind_Ok in H as ([ok kv1] & Ha & H). apply Ok_inj in H. subst cur1.
    assert (isdata (msg_kvp m) = isdata kv) as Hi by (by apply isdata_key).
    unfold data_op in Hd. rewrite Hi in Hd. unfold dropdata.
    destruct (isdata kv) eqn:Hdat.
    + rewrite (Hd eq_refl). cbn [andb].
      pose proof (mstep_ptrs_data _ _ _ _ Ha (Hd eq_refl)) as E. unfold cur_of in E. rewrite E.
      unfold kv_ptrs. rewrite Hdat. by destruct (unpackbp (v kv)).
    + cbn [andb app]. rewrite kv_ptrs_nodata, ins_ptrs_nodata by done.
      destruct ok; cbn [cur_ptrs]; [|done].
      destruct (Hc1 kv1 eq_refl) as [_ Hk1].
      rewrite kv_ptrs_nodata; [done|]. rewrite <- Hdat. apply isdata_key. congruence.
  - unfold ins_ptrs. destruct (_ || _) eqn:E.
    + apply Ok_inj in H. subst cur1.
      destruct (Z.eqb_spec (op m) Oinsert) as [Eo|]; [|done]. by rewrite Eo in E.
    + destruct (Z.eqb_spec (op m) Oinsert) as [Eo|]; [|done]. apply Ok_inj in H. by subst cur1.
Qed.

(** No data block is lost or dropped twice along a run for one key. *)
Lemma mdrops_conserve key g : forall cur r,
  (forall kv, cur = Some kv -> kv_good kv /\ k kv = key) ->
  Forall (fun m => mk m = key /\ msg_good m) g -> Forall data_op g ->
  mrun cur g = Ok r ->
  cur_ptrs cur ++ msgs_ptrs g ≡ₚ cur_ptrs r ++ mdrops cur g.
Proof.
  induction g as [|m g IH]; intros cur r Hc Hg Hd Hr.
  { cbn in Hr. apply Ok_inj in Hr. by subst. }
  apply Forall_cons in Hg as [[<- Hm] Hg]. apply Forall_cons in Hd as [Hd Hdg].
  cbn [mrun] in Hr. apply bind_Ok in Hr as (cur1 & Hstep & Hr).
  pose proof (mstep_ptrs _ _ _ Hstep Hc Hm Hd) as Hone.
  specialize (IH cur1 r (mstep_good _ _ _ Hstep Hc Hm) Hg Hdg Hr).
  cbn [mdrops]. rewrite Hstep. fold (mdrop cur m).
  change (msgs_ptrs (m :: g)) with (ins_ptrs m ++ msgs_ptrs g).
  rewrite app_assoc, Hone, <- app_assoc, IH. rewrite !app_assoc.
  f_equiv. apply Permutation_app_comm.
Qed.

(** ** One run of the merge

    [kvs1] and [ms1] have been merged into [out]; [kvs2] and [ms2] are left. *)

Definition keys_of (kvs : list Kvp) (ms : list Msg) : list (list Z) := kv_keys kvs ++ msg_keys ms.

Definition keys_below (a b : list (list Z)) : Prop :=
  forall x y, x ∈ a -> y ∈ b -> key_lt x y.

Record merged (kvs1 kvs2 : list Kvp) (ms1 ms2 : list Msg) (out : list Kvp)
    (frees : list Bptr) (pull : Z) : Prop := {
  mg_sorted : kvs_sorted out;
  mg_keys : forall x, x ∈ kv_keys out -> x ∈ keys_of kvs1 ms1;
  mg_below : keys_below (keys_of kvs1 ms1) (keys_of kvs2 ms2);
  mg_size : kvs_valsz out <= kvs_valsz kvs1 + total_msgsz ms1;
  mg_good : Forall kv_good out;
  mg_map : forall key, mrun (kvfind key kvs1) (for_key key ms1) = Ok (kvfind key out);
  mg_ptrs : Forall data_op ms1 -> kvs_ptrs kvs1 ++ msgs_ptrs ms1 ≡ₚ kvs_ptrs out ++ frees;
  mg_pull : 0 <= pull <= total_msgsz ms1
}.

Lemma merged_start kvs ms : merged [] kvs [] ms [] [] 0.
Proof.
  split; try done; try (cbn; by constructor).
  intros x y Hx. by apply elem_of_nil in Hx.
Qed.

Lemma kvfind_Some key kvs kv : kvfind key kvs = Some kv -> k kv = key /\ kv ∈ kvs.
Proof.
  unfold kvfind. intros H. apply head_Some_elem_of in H. by apply list_elem_of_filter in H.
Qed.

Lemma elem_kv_keys x kvs : x ∈ kv_keys kvs <-> exists kv, x = k kv /\ kv ∈ kvs.
Proof. apply list_elem_of_fmap. Qed.
Lemma elem_msg_keys x ms : x ∈ msg_keys ms <-> exists m, x = mk m /\ m ∈ ms.
Proof. apply list_elem_of_fmap. Qed.

Lemma keys_absent_kv key kvs : (key ∉ kv_keys kvs) -> Forall (fun kv => k kv <> key) kvs.
Proof.
  intros H. apply Forall_forall. intros kv Hkv E. apply H, elem_kv_keys. by exists kv.
Qed.
Lemma keys_absent_msg key ms : (key ∉ msg_keys ms) -> Forall (fun m => mk m <> key) ms.
Proof.
  intros H. apply Forall_forall. intros m Hm E. apply H, elem_msg_keys. by exists m.
Qed.

Lemma keys_below_absent a b x : keys_below a b -> x ∈ b -> x ∉ a.
Proof. intros H Hx Hy. apply (irreflexivity key_lt x). by apply H. Qed.

Lemma keys_of_app a b c d x :
  x ∈ keys_of (a ++ b) (c ++ d) <-> x ∈ keys_of a c \/ x ∈ keys_of b d.
Proof. unfold keys_of, kv_keys, msg_keys. rewrite !fmap_app. set_solver. Qed.

Lemma mrun_key cur g key r :
  (forall kv, cur = Some kv -> kv_good kv /\ k kv = key) ->
  Forall (fun m => mk m = key /\ msg_good m) g -> mrun cur g = Ok r ->
  forall kv, r = Some kv -> kv_good kv /\ k kv = key.
Proof.
  revert cur. induction g as [|m g IH]; intros cur Hc Hg Hr kv ->.
  - cbn in Hr. apply Ok_inj in Hr. subst. by apply Hc.
  - apply Forall_cons in Hg as [[<- Hm] Hg]. apply bind_Ok in Hr as (cur1 & Hs & Hr).
    eapply IH; [|done|exact Hr|done]. by apply (mstep_good _ _ _ Hs).
Qed.

Lemma mrun_size cur g r : mrun cur g = Ok r -> cur_size r <= cur_size cur + total_msgsz g.
Proof.
  revert cur. induction g as [|m g IH]; intros cur Hr.
  - apply Ok_inj in Hr. subst. change (total_msgsz []) with 0. lia.
  - apply bind_Ok in Hr as (cur1 & Hs & Hr). apply IH in Hr. apply mstep_size in Hs.
    rewrite total_msgsz_cons. lia.
Qed.

Lemma sorted_snoc_opt out key (r : option Kvp) :
  kvs_sorted out -> (forall x, x ∈ kv_keys out -> key_lt x key) ->
  (forall kv, r = Some kv -> k kv = key) -> kvs_sorted (out ++ option_list r).
Proof.
  intros Hs Hl Hr. unfold kvs_sorted, kv_keys. rewrite fmap_app.
  apply StronglySorted_app_2; [|done|].
  - intros x y Hx Hy. destruct r as [kv|]; [|by apply elem_of_nil in Hy].
    apply list_elem_of_singleton in Hy as ->. rewrite (Hr kv eq_refl). by apply Hl.
  - destruct r; repeat constructor.
Qed.

Section MergeStep.
  Context (kvs1 kvs2 : list Kvp) (ms1 ms2 g : list Msg) (cur : option Kvp) (kk : list Z).
  Hypothesis Hcur : forall kv, cur = Some kv -> kv_good kv /\ k kv = kk.
  Hypothesis Hg : Forall (fun m => mk m = kk /\ msg_good m) g.
  Hypothesis Hin : kk ∈ keys_of (option_list cur) g.
  Hypothesis Habove : keys_below [kk] (keys_of kvs2 ms2).

Lemma step_keys x : x ∈ keys_of (option_list cur) g <-> x = kk.
Proof using Hcur Hg Hin.
  split; [|by intros ->]. unfold keys_of. rewrite elem_of_app.
  intros [Hx|Hx].
  - apply elem_kv_keys in Hx as (kv & -> & Hkv). destruct cur as [kv0|].
    + apply list_elem_of_singleton in Hkv as ->. by apply Hcur.
    + by apply elem_of_nil in Hkv.
  - apply elem_msg_keys in Hx as (m & -> & Hm). rewrite Forall_forall in Hg. by apply Hg.
Qed.

Lemma step_group_find : kvfind kk (option_list cur) = cur /\ for_key kk g = g.
Proof using Hcur Hg.
  split; [apply kvfind_opt; by apply Hcur|].
  apply for_key_all. eapply Forall_impl; [exact Hg|]. cbn. tauto.
Qed.

(** The group found in the whole input is the group at hand. *)
Lemma step_whole :
  keys_below (keys_of kvs1 ms1) [kk] ->
  kvfind kk (kvs1 ++ option_list cur ++ kvs2) = cur /\
  for_key kk (ms1 ++ g ++ ms2) = g.
Proof using Hcur Hg Habove.
  intros Hb. destruct step_group_find as [E1 E2].
  assert (kk ∉ keys_of kvs1 ms1) as N1.
  { eapply keys_below_absent; [exact Hb|]. by apply list_elem_of_singleton. }
  assert (kk ∉ keys_of kvs2 ms2) as N2.
  { intros H. apply (irreflexivity key_lt kk). apply Habove; [|done]. by apply list_elem_of_singleton. }
  unfold keys_of in N1, N2. rewrite not_elem_of_app in N1, N2. destruct N1, N2. split.
  - rewrite kvfind_app_none by (by apply keys_absent_kv).
    by rewrite kvfind_app_r_none by (by apply keys_absent_kv).
  - rewrite !for_key_app, E2.
    rewrite (for_key_none _ ms1), (for_key_none _ ms2) by (by apply keys_absent_msg).
    by rewrite app_nil_r.
Qed.

Lemma merged_step out frees pull p r :
  merged kvs1 (option_list cur ++ kvs2) ms1 (g ++ ms2) out frees pull ->
  mrun cur g = Ok r -> 0 <= p <= total_msgsz g ->
  merged (kvs1 ++ option_list cur) kvs2 (ms1 ++ g) ms2
    (out ++ option_list r) (frees ++ mdrops cur g) (pull + p).
Proof using Hcur Hg Hin Habove.
  intros [Hs Hk Hb Hz Hgd Hm Hp Hpl] Hr Hpp.
  pose proof (mrun_key _ _ _ _ Hcur Hg Hr) as Hrk.
  assert (forall x, x ∈ keys_of kvs1 ms1 -> key_lt x kk) as Hlt.
  { intros x Hx. apply Hb; [done|]. apply keys_of_app. by left. }
  destruct step_group_find as [E1 E2].
  split.
  - apply sorted_snoc_opt with kk; [done|intros x Hx; by apply Hlt, Hk|by apply Hrk].
  - intros x. unfold kv_keys. rewrite fmap_app, elem_of_app, keys_of_app, step_keys.
    intros [Hx|Hx]; [by left; apply Hk|]. right. apply elem_kv_keys in Hx as (kv & -> & Hx).
    destruct r as [kv0|]; [|by apply elem_of_nil in Hx].
    apply list_elem_of_singleton in Hx as ->. by apply Hrk.
  - intros x y Hx Hy. apply keys_of_app in Hx as [Hx|Hx].
    + apply Hb; [done|]. apply keys_of_app. by right.
    + apply step_keys in Hx as ->. apply Habove; [|done]. by apply list_elem_of_singleton.
  - rewrite !kvs_valsz_app, total_msgsz_app, !kvs_valsz_opt.
    pose proof (mrun_size _ _ _ Hr). lia.
  - apply Forall_app. split; [done|]. destruct r as [kv|]; [|constructor].
    constructor; [by apply Hrk|constructor].
  - intros key. rewrite for_key_app. destruct (decide (key = kk)) as [->|Hne].
    + assert (kk ∉ keys_of kvs1 ms1) as N.
      { intros H. apply (irreflexivity key_lt kk). by apply Hlt. }
      assert (kk ∉ kv_keys out) by (intros H; by apply N, Hk).
      unfold keys_of in N. rewrite not_elem_of_app in N. destruct N.
      rewrite !kvfind_app_none, for_key_none by (first [by apply keys_absent_kv|by apply keys_absent_msg]).
      rewrite E1, E2. cbn [app]. rewrite kvfind_opt by (by apply Hrk). done.
    + rewrite (for_key_none key g), app_nil_r.
      2: { eapply Forall_impl; [exact Hg|]. cbn. intros ? [-> _]. done. }
      rewrite !kvfind_app_r_none; [apply Hm| |].
      * destruct r as [kv|]; [|constructor]. constructor; [|constructor].
        destruct (Hrk kv eq_refl) as [_ ->]. done.
      * destruct cur as [kv|]; [|constructor]. constructor; [|constructor].
        destruct (Hcur kv eq_refl) as [_ ->]. done.
  - intros Hd. apply Forall_app in Hd as [Hd1 Hdg]. specialize (Hp Hd1).
    unfold kvs_ptrs, msgs_ptrs in *. rewrite !bind_app.
    fold (kvs_ptrs (option_list cur)) (kvs_ptrs (option_list r)) (msgs_ptrs g).
    rewrite !kvs_ptrs_opt. pose proof (mdrops_conserve _ _ _ _ Hcur Hg Hdg Hr) as Hc.
    transitivity (((kvs1 ≫= kv_ptrs) ++ (ms1 ≫= ins_ptrs)) ++ cur_ptrs cur ++ msgs_ptrs g).
    { solve_Permutation. }
    rewrite Hp, Hc. solve_Permutation.
  - rewrite total_msgsz_app. lia.
Qed.
End MergeStep.

(** ** The two merging cases *)

Lemma mergecase_spec fuel src lo hi spc a m g c r kv pull frees :
  src_repr src lo (a ++ m :: g ++ c) -> hi = lo + zlen (a ++ m :: g ++ c) ->
  mrun (Some kv) (m :: g) = Ok r -> kv_good kv ->
  Forall (fun m => mk m = k kv /\ msg_good m) (m :: g) ->
  (forall m c', c = m :: c' -> mk m <> k kv) ->
  total_msgsz (g ++ c) <= spc -> (length g < fuel)%nat ->
  exists kv' ok' om',
    mergecase fuel src hi spc (lo + zlen a) kv (Some m) false pull frees =
      Ok (mkCopy (lo + zlen (a ++ m :: g)) kv' ok' om' false (pull + total_msgsz g)
            (frees ++ mdrops (Some kv) (m :: g))) /\
    cur_of ok' kv' = r /\ (forall m c', c = m :: c' -> om' = Some m).
Proof.
  intros Hs Hhi Hr Hgood Hg Hc Hspc Hf.
  apply Forall_cons in Hg as [[Hk Hm] Hg]. cbn [mrun] in Hr.
  apply bind_Ok in Hr as (cur & Hstep & Hr).
  unfold mergecase. rewrite (cpkvp_small kv) by apply Hgood. cbn [of_option]. rewrite !bind_ok.
  destruct (dropdata_good kv m Hgood) as [f Hfr]. rewrite Hfr, bind_ok.
  destruct (apply_mstep true kv m cur Hstep (proj1 Hm) Hk) as (ok' & kv' & Ha & <- & Hk').
  rewrite Ha, bind_ok.
  replace (lo + zlen a + 1) with (lo + zlen (a ++ [m]))
    by (rewrite zlen_app, zlen_cons, zlen_nil; lia).
  replace (a ++ m :: g ++ c) with ((a ++ [m]) ++ g ++ c) in * by (by rewrite <- app_assoc).
  destruct (copyloop_spec fuel src lo hi spc (a ++ [m]) g c r Hs Hhi kv' ok' (Some m) pull
    (frees ++ f)) as (kv2 & ok2 & om2 & Hcl & Hr2 & _ & Hom & _); try done.
  - intros kv0 E. eapply (mstep_good (Some kv)); [exact Hstep| |exact Hm|exact E].
    intros kv1 E1. by simplify_eq.
  - eapply Forall_impl; [exact Hg|]. cbn. intros ? [? ?]. by rewrite Hk'.
  - intros m' c' ->. rewrite Hk'. by eapply Hc.
  - exists kv2, ok2, om2. rewrite Hcl. cbn [mdrops]. rewrite Hfr, Hstep.
    rewrite <- !app_assoc. cbn [app]. split_and!; done.
Qed.

Lemma insertcase_spec fuel src lo hi spc a m g c r pull frees :
  src_repr src lo (a ++ m :: g ++ c) -> hi = lo + zlen (a ++ m :: g ++ c) ->
  mrun None (m :: g) = Ok r -> Forall (fun m' => mk m' = mk m /\ msg_good m') (m :: g) ->
  (forall m' c', c = m' :: c' -> mk m' <> mk m) ->
  total_msgsz (m :: g ++ c) <= spc -> (length g < fuel)%nat ->
  exists kv' ok' om' spc' p,
    insertcase fuel src hi spc (lo + zlen a) (Some m) false pull frees =
      Ok (mkCopy (lo + zlen (a ++ m :: g)) kv' ok' om' false (pull + p)
            (frees ++ mdrops None (m :: g)), spc') /\
    cur_of ok' kv' = r /\ (forall m c', c = m :: c' -> om' = Some m) /\
    total_msgsz (g ++ c) <= spc' <= spc /\ 0 <= p <= total_msgsz (m :: g).
Proof.
  intros Hs Hhi Hr Hg Hc Hspc Hf.
  apply Forall_cons in Hg as [[_ Hm] Hg]. cbn [mrun] in Hr.
  apply bind_Ok in Hr as (cur & Hstep & Hr). rewrite total_msgsz_cons in *.
  unfold insertcase. cbn [of_option]. rewrite bind_ok.
  rewrite (cpkvp_small (msg_kvp m)) by exact (proj1 Hm). rewrite bind_ok.
  replace (lo + zlen a + 1) with (lo + zlen (a ++ [m]))
    by (rewrite zlen_app, zlen_cons, zlen_nil; lia).
  replace (a ++ m :: g ++ c) with ((a ++ [m]) ++ g ++ c) in * by (by rewrite <- app_assoc).
  pose proof (total_msgsz_nonneg (g ++ c)). pose proof (total_msgsz_nonneg g).
  pose proof (msgsz_pos m). pose proof (valsz_msg m) as Hv.
  cbn [mdrops]. rewrite Hstep. cbn [app]. cbn [mstep] in Hstep.
  destruct (_ || _).
  - apply Ok_inj in Hstep. subst cur.
    destruct (copyloop_spec fuel src lo hi spc (a ++ [m]) g c r Hs Hhi (msg_kvp m) false (Some m)
      pull frees) as (kv2 & ok2 & om2 & Hcl & Hr2 & _ & Hom & _); try done; [lia|].
    exists kv2, ok2, om2, spc, (total_msgsz g). rewrite Hcl, bind_ok, <- !app_assoc. cbn [app].
    split_and!; try done; lia.
  - destruct (op m =? Oinsert) eqn:Eo; [|done]. cbn [negb]. apply Ok_inj in Hstep. subst cur.
    destruct (copyloop_spec fuel src lo hi (spc - valsz (msg_kvp m)) (a ++ [m]) g c r Hs Hhi
      (msg_kvp m) true (Some m) (pull + msgsz m) frees)
      as (kv2 & ok2 & om2 & Hcl & Hr2 & _ & Hom & _); try done; [|lia|].
    { intros kv' E. cbn in E. simplify_eq. apply msg_good_kvp; [done|lia]. }
    exists kv2, ok2, om2, (spc - valsz (msg_kvp m)), (msgsz m + total_msgsz g).
    rewrite Hcl, bind_ok, <- !app_assoc, Z.add_assoc. cbn [app].
    split_and!; try done; lia.
Qed.

(** The run of messages for the key at the head of a sorted sequence. *)
Lemma group_split m t :
  msgs_sorted (m :: t) ->
  exists g c, t = g ++ c /\ Forall (fun m' => mk m' = mk m) g /\
    keys_below [mk m] (msg_keys c) /\ msgs_sorted c.
Proof.
  unfold msgs_sorted, keys_sorted, msg_keys. induction t as [|x t IH]; intros Hs.
  { exists [], []. split_and!; try done; [|constructor]. intros y z _ Hz. by apply elem_of_nil in Hz. }
  cbn [fmap list_fmap] in Hs. apply StronglySorted_inv in Hs as [Hs Hall].
  destruct (decide (mk x = mk m)) as [E|Hne].
  - destruct IH as (g & c & -> & Hg & Hb & Hc).
    { cbn. constructor; [by apply StronglySorted_inv in Hs as [? _]|].
      by apply Forall_cons in Hall as [_ ?]. }
    exists (x :: g), c. split_and!; try done. by constructor.
  - exists [], (x :: t). split_and!; [done|constructor| |done].
    intros y z Hy Hz. apply list_elem_of_singleton in Hy as ->.
    apply Forall_cons in Hall as [Hx _]. apply StronglySorted_inv in Hs as [_ Ht].
    assert (key_lt (mk m) (mk x)) as Hlt.
    { apply key_lt_strict. split; [done|congruence]. }
    cbn in Hz. apply elem_of_cons in Hz as [->|Hz]; [done|].
    rewrite Forall_forall in Ht. eapply key_lt_le_trans; [exact Hlt|by apply Ht].
Qed.

(** Keys above a key. *)
Lemma below_of x a b :
  keys_below [x] (kv_keys a) -> keys_below [x] (msg_keys b) -> keys_below [x] (keys_of a b).
Proof. unfold keys_below, keys_of. set_solver. Qed.

Lemma below_nil x : keys_below [x] [].
Proof. intros y z _ Hz. by apply elem_of_nil in Hz. Qed.

Lemma below_kvs_tail kv t : kvs_sorted (kv :: t) -> keys_below [k kv] (kv_keys t).
Proof.
  intros Hs x y Hx Hy. apply list_elem_of_singleton in Hx as ->.
  apply StronglySorted_inv in Hs as [_ Hs]. rewrite Forall_forall in Hs. by apply Hs.
Qed.

Lemma below_kvs x kv t : kvs_sorted (kv :: t) -> key_lt x (k kv) -> keys_below [x] (kv_keys (kv :: t)).
Proof.
  intros Hs Hlt y z Hy Hz. apply list_elem_of_singleton in Hy as ->.
  apply elem_of_cons in Hz as [->|Hz]; [done|]. etrans; [exact Hlt|].
  apply (below_kvs_tail kv t Hs); [by apply list_elem_of_singleton|done].
Qed.

Lemma below_msgs x m t : msgs_sorted (m :: t) -> key_lt x (mk m) -> keys_below [x] (msg_keys (m :: t)).
Proof.
  intros Hs Hlt y z Hy Hz. apply list_elem_of_singleton in Hy as ->.
  apply elem_of_cons in Hz as [->|Hz]; [done|]. eapply key_lt_le_trans; [exact Hlt|].
  apply StronglySorted_inv in Hs as [_ Hs]. rewrite Forall_forall in Hs. by apply Hs.
Qed.

Lemma below_head_ne x c :
  keys_below [x] (msg_keys c) -> forall m c', c = m :: c' -> mk m <> x.
Proof.
  intros H m c' -> E. apply (irreflexivity key_lt x). apply H; [by left|].
  apply elem_msg_keys. exists m. split; [done|left].
Qed.

(** ** updateleaf *)

(** A copy of a stored leaf and the messages for it, as flush hands them on. *)
Record leafinput (b : Blk) (src : msgsrc) (lo hi : Z) (kvs : list Kvp) (ms : list Msg) : Prop := {
  in_repr : blk_repr b kvs [];
  in_leaf : btyp b = Tleaf;
  in_good : Forall kv_good kvs;
  in_sorted : kvs_sorted kvs;
  in_src : src_repr src lo ms;
  in_hi : hi = lo + zlen ms;
  in_mgood : Forall msg_good ms;
  in_msorted : msgs_sorted ms;
  (* every message finds its key in a state it can change *)
  in_runs : forall key, is_Ok (mrun (kvfind key kvs) (for_key key ms))
}.

Section UpdateLeaf.
  Context (b : Blk) (src : msgsrc) (lo hi : Z) (kvs : list Kvp) (ms : list Msg).
  Hypothesis I : leafinput b src lo hi kvs ms.
  Hypothesis Hroom : kvs_valsz kvs + total_msgsz ms <= Leafspc.

Record linv (kvs1 kvs2 : list Kvp) (ms1 ms2 : list Msg) (out : list Kvp) (s : leafst) : Prop := {
  li_kvs : kvs = kvs1 ++ kvs2;
  li_ms : ms = ms1 ++ ms2;
  li_i : li s = zlen kvs1;
  li_j : lj s = lo + zlen ms1;
  li_full : lfull s = false;
  li_spc : total_msgsz ms2 <= lspc s;
  li_m : kvs2 = [] -> forall m t, ms2 = m :: t -> lm s = Some m;
  li_repr : blk_repr (ln s) out [];
  li_leaf : btyp (ln s) = Tleaf;
  li_merged : merged kvs1 kvs2 ms1 ms2 out (lfrees s) (lpull s)
}.

(** Writing out the result of a group. *)
Lemma copydone_repr n out kvs1 kvs2 ms1 ms2 ok kv frees pull c :
  blk_repr n out [] -> btyp n = Tleaf -> cok c = ok -> ckv c = kv ->
  kvs = kvs1 ++ kvs2 -> ms = ms1 ++ ms2 ->
  merged kvs1 kvs2 ms1 ms2 (out ++ option_list (cur_of ok kv)) frees pull ->
  exists n', copydone n c = Ok n' /\ blk_repr n' (out ++ option_list (cur_of ok kv)) [] /\
    btyp n' = Tleaf.
Proof using Hroom I.
  intros R Ht <- <- -> -> M. unfold copydone. destruct (cok c); cbn [cur_of] in *.
  2: { exists n. split_and!; try done. by rewrite app_nil_r. }
  pose proof (mg_size _ _ _ _ _ _ _ M) as Hz.
  pose proof (mg_good _ _ _ _ _ _ _ M) as Hg. apply Forall_app in Hg as [_ Hg].
  apply Forall_cons in Hg as [Hg _].
  rewrite kvs_valsz_app, total_msgsz_app in Hroom. rewrite kvs_valsz_app, kvs_valsz_opt in Hz.
  cbn [cur_size] in Hz. unfold kvs_valsz in *.
  pose proof (kvs_size_nonneg kvs2). pose proof (zlen_nonneg kvs2).
  pose proof (total_msgsz_nonneg ms2).
  destruct (setval_repr n out [] (ckv c)) as (n' & -> & R' & Ht' & _); try done.
  - apply Hg.
  - unfold bspc. rewrite decide_True by done. unfold valsz, kvsz in *. lia.
  - exists n'. split_and!; try done. congruence.
Qed.

Lemma linv_sorted kvs1 kvs2 ms1 ms2 out s :
  linv kvs1 kvs2 ms1 ms2 out s -> kvs_sorted kvs2 /\ msgs_sorted ms2 /\
  Forall kv_good kvs2 /\ Forall msg_good ms2.
Proof using I Hroom.
  intros []. destruct I. subst. split_and!.
  - unfold kvs_sorted, kv_keys in *. rewrite fmap_app in *.
    by eapply StronglySorted_app_1_r.
  - unfold msgs_sorted, keys_sorted, msg_keys in *. rewrite fmap_app in *.
    by eapply StronglySorted_app_1_r.
  - by apply Forall_app in in_good0 as [_ ?].
  - by apply Forall_app in in_mgood0 as [_ ?].
Qed.

(** The group at hand runs, because its messages are all there are for its key. *)
Lemma linv_run kvs1 kvs2 ms1 ms2 out s cur g kk :
  linv kvs1 (option_list cur ++ kvs2) ms1 (g ++ ms2) out s ->
  (forall kv, cur = Some kv -> kv_good kv /\ k kv = kk) ->
  Forall (fun m => mk m = kk /\ msg_good m) g ->
  kk ∈ keys_of (option_list cur) g -> keys_below [kk] (keys_of kvs2 ms2) ->
  exists r, mrun cur g = Ok r.
Proof using I.
  intros L Hc Hg Hin Hab. destruct (in_runs _ _ _ _ _ _ I kk) as [r Hr]. exists r.
  rewrite (li_kvs _ _ _ _ _ _ L), (li_ms _ _ _ _ _ _ L) in Hr.
  destruct (step_whole kvs1 kvs2 ms1 ms2 g cur kk) as [E1 E2]; try done.
  - intros x y Hx Hy. apply list_elem_of_singleton in Hy as ->.
    apply (mg_below _ _ _ _ _ _ _ (li_merged _ _ _ _ _ _ L)); [done|].
    apply keys_of_app. by left.
  - by rewrite E1, E2 in Hr.
Qed.

Lemma linv_get kvs1 kv kvs2 ms1 ms2 out s :
  linv kvs1 (kv :: kvs2) ms1 ms2 out s ->
  li s < nval b /\ getval b (li s) = Ok kv.
Proof using I.
  intros L. rewrite (li_i _ _ _ _ _ _ L). split.
  - rewrite (repr_nval _ _ _ (in_repr _ _ _ _ _ _ I)), (li_kvs _ _ _ _ _ _ L).
    rewrite zlen_app, zlen_cons. pose proof (zlen_nonneg kvs2). lia.
  - eapply getval_repr; [apply I|]. rewrite (li_kvs _ _ _ _ _ _ L). by apply list_lookup_middle.
Qed.

Lemma linv_src kvs1 kvs2 ms1 m ms2 out s :
  linv kvs1 kvs2 ms1 (m :: ms2) out s ->
  lj s < hi /\ srcget src (lj s) = Ok m /\ msgsz m <= lspc s.
Proof using I.
  intros L. rewrite (li_j _ _ _ _ _ _ L). pose proof (zlen_nonneg ms2). split_and!.
  - rewrite (in_hi _ _ _ _ _ _ I), (li_ms _ _ _ _ _ _ L), zlen_app, zlen_cons. lia.
  - apply (src_repr_get src lo ms1 m ms2). rewrite <- (li_ms _ _ _ _ _ _ L). apply I.
  - pose proof (li_spc _ _ _ _ _ _ L) as Hz. rewrite total_msgsz_cons in Hz.
    pose proof (total_msgsz_nonneg ms2). lia.
Qed.

Lemma linv_src_end kvs1 kvs2 ms1 out s : linv kvs1 kvs2 ms1 [] out s -> lj s = hi.
Proof using I.
  intros L. rewrite (li_j _ _ _ _ _ _ L), (in_hi _ _ _ _ _ _ I), (li_ms _ _ _ _ _ _ L).
  by rewrite app_nil_r.
Qed.

(** One turn of the loop, by the comparison it starts with. *)
Definition lsteps (fuel : nat) (kvs2 : list Kvp) (ms2 : list Msg) (s : leafst) : Prop :=
  exists s' kvs1' kvs2' ms1' ms2' out',
    updateleaf_loop (S fuel) b src hi s = updateleaf_loop fuel b src hi s' /\
    linv kvs1' kvs2' ms1' ms2' out' s' /\
    (length kvs2' + length ms2' < length kvs2 + length ms2)%nat.

Lemma step_copy fuel kvs1 kv kvs2 ms1 ms2 out s :
  linv kvs1 (kv :: kvs2) ms1 ms2 out s ->
  (forall m t, ms2 = m :: t -> key_lt (k kv) (mk m)) -> lsteps fuel (kv :: kvs2) ms2 s.
Proof using I Hroom.
  intros L Hlt. destruct (linv_sorted _ _ _ _ _ _ L) as (Sk & Sm & Gk & Gm).
  apply Forall_cons in Gk as [Gk _]. destruct (linv_get _ _ _ _ _ _ _ L) as [Hi Hg].
  assert (merged (kvs1 ++ [kv]) kvs2 (ms1 ++ []) ms2 (out ++ [kv]) (lfrees s ++ []) (lpull s + 0)) as M.
  { apply (merged_step kvs1 kvs2 ms1 ms2 [] (Some kv) (k kv)) with (r := Some kv).
    - intros ? [= <-]. done.
    - constructor.
    - left.
    - apply below_of; [by apply below_kvs_tail|].
      destruct ms2 as [|m t]; [apply below_nil|]. apply below_msgs; [done|by eapply Hlt].
    - apply L.
    - done.
    - done. }
  rewrite app_nil_r, Z.add_0_r, (app_nil_r (lfrees s)) in M.
  destruct (copydone_repr (ln s) out (kvs1 ++ [kv]) kvs2 ms1 ms2 true kv (lfrees s) (lpull s)
    (mkCopy 0 kv true None false 0 [])) as (n' & Hn & R' & T'); try done; try apply L.
  { rewrite <- app_assoc. apply L. }
  cbn in Hn.
  assert (exists m', leafcmp b src hi s = Ok (-1, Some kv, m', false) /\
    (forall m t, ms2 = m :: t -> m' = Some m)) as (m' & Hcmp & Hm').
  { unfold leafcmp. destruct (Z.leb_spec (nval b) (li s)); [lia|]. rewrite Hg, bind_ok.
    rewrite (li_full _ _ _ _ _ _ L). destruct ms2 as [|m t].
    - rewrite (linv_src_end _ _ _ _ _ L), Z.ltb_irrefl. by exists (lm s).
    - destruct (linv_src _ _ _ _ _ _ _ L) as (Hj & Hsrc & Hsz).
      rewrite (proj2 (Z.ltb_lt _ _) Hj), Hsrc, bind_ok, (proj2 (Z.leb_le _ _) Hsz).
      exists (Some m). split; [|by intros ? ? [= -> _]].
      specialize (Hlt m t eq_refl). unfold key_lt in Hlt.
      destruct (keycmp_range (k kv) (mk m)) as [-> |[?|?]]; [done|lia|lia]. }
  exists (mkLeafst (li s + 1) (lj s) false (lspc s) m' n' (lpull s) (lfrees s)),
    (kvs1 ++ [kv]), kvs2, ms1, ms2, (out ++ [kv]). split_and!.
  - cbn [updateleaf_loop]. rewrite (proj2 (Z.ltb_lt _ _) Hi). cbn [orb negb].
    rewrite Hcmp, bind_ok. cbn [of_option]. change (-1 =? -1) with true. cbn iota.
    rewrite bind_ok, Hn, bind_ok. done.
  - split; cbn; try done; try apply L.
    + rewrite <- app_assoc. apply L.
    + rewrite zlen_app, zlen_cons, zlen_nil, (li_i _ _ _ _ _ _ L). lia.
  - cbn. lia.
Qed.

Lemma step_merge fuel kvs1 kv kvs2 ms1 m t out s :
  linv kvs1 (kv :: kvs2) ms1 (m :: t) out s -> mk m = k kv ->
  (length t <= fuel)%nat -> lsteps fuel (kv :: kvs2) (m :: t) s.
Proof using I Hroom.
  intros L Hk Hf. destruct (linv_sorted _ _ _ _ _ _ L) as (Sk & Sm & Gk & Gm).
  apply Forall_cons in Gk as [Gk _]. destruct (linv_get _ _ _ _ _ _ _ L) as [Hi Hg].
  destruct (linv_src _ _ _ _ _ _ _ L) as (Hj & Hsrc & Hsz).
  destruct (group_split m t Sm) as (g & c & -> & Hgk & Hgc & _).
  assert (Forall (fun m' => mk m' = k kv /\ msg_good m') (m :: g)) as Gg.
  { rewrite app_comm_cons in Gm. apply Forall_app in Gm as [Gm _].
    apply Forall_and. split; [|done]. rewrite <- Hk. by constructor. }
  assert (keys_below [k kv] (keys_of kvs2 c)) as Hab.
  { apply below_of; [by apply below_kvs_tail|]. by rewrite <- Hk. }
  destruct (linv_run kvs1 kvs2 ms1 c out s (Some kv) (m :: g) (k kv)) as [r Hr]; try done.
  { intros ? [= <-]. done. } { left. }
  pose proof (li_spc _ _ _ _ _ _ L) as Hspc. rewrite total_msgsz_cons in Hspc.
  pose proof (msgsz_pos m). pose proof (li_ms _ _ _ _ _ _ L) as Hms.
  destruct (mergecase_spec (S fuel) src lo hi (lspc s) ms1 m g c r kv (lpull s) (lfrees s))
    as (kv' & ok' & om' & Hmc & <- & Hom); try done.
  { rewrite <- Hms. apply I. } { rewrite <- Hms. apply I. }
  { apply below_head_ne. by rewrite <- Hk. }
  { lia. } { rewrite length_app in Hf. lia. }
  assert (merged (kvs1 ++ [kv]) kvs2 (ms1 ++ m :: g) c (out ++ option_list (cur_of ok' kv'))
    (lfrees s ++ mdrops (Some kv) (m :: g)) (lpull s + total_msgsz g)) as M.
  { apply (merged_step kvs1 kvs2 ms1 c (m :: g) (Some kv) (k kv)); try done.
    - intros ? [= <-]. done.
    - left.
    - apply L.
    - rewrite total_msgsz_cons. pose proof (total_msgsz_nonneg g). lia. }
  assert (kvs = (kvs1 ++ [kv]) ++ kvs2) as Ek by (rewrite <- app_assoc; apply L).
  assert (ms = (ms1 ++ m :: g) ++ c) as Em by (rewrite <- app_assoc; apply L).
  destruct (copydone_repr (ln s) out (kvs1 ++ [kv]) kvs2 (ms1 ++ m :: g) c ok' kv'
    (lfrees s ++ mdrops (Some kv) (m :: g)) (lpull s + total_msgsz g)
    (mkCopy (lo + zlen (ms1 ++ m :: g)) kv' ok' om' false (lpull s + total_msgsz g)
       (lfrees s ++ mdrops (Some kv) (m :: g)))) as (n' & Hn & R' & T'); try done; try apply L.
  exists (mkLeafst (li s + 1) (lo + zlen (ms1 ++ m :: g)) false (lspc s) om' n'
    (lpull s + total_msgsz g) (lfrees s ++ mdrops (Some kv) (m :: g))),
    (kvs1 ++ [kv]), kvs2, (ms1 ++ m :: g), c, (out ++ option_list (cur_of ok' kv')). split_and!.
  - cbn [updateleaf_loop]. rewrite (proj2 (Z.ltb_lt _ _) Hi). cbn [orb negb].
    unfold leafcmp. destruct (Z.leb_spec (nval b) (li s)); [lia|]. rewrite Hg, bind_ok.
    rewrite (proj2 (Z.ltb_lt _ _) Hj), Hsrc, bind_ok, (proj2 (Z.leb_le _ _) Hsz), Hk, keycmp_refl.
    rewrite (li_full _ _ _ _ _ _ L), bind_ok. cbn [of_option].
    change (0 =? -1) with false. change (0 =? 0) with true. cbn iota. rewrite bind_ok.
    rewrite (li_j _ _ _ _ _ _ L), Hmc, bind_ok, Hn, bind_ok. done.
  - split; cbn [li lj lfull lspc lm ln lpull lfrees]; try done.
    + rewrite zlen_app, zlen_cons, zlen_nil, (li_i _ _ _ _ _ _ L). lia.
    + rewrite total_msgsz_app in Hspc. pose proof (total_msgsz_nonneg g). lia.
  - cbn. rewrite length_app. lia.
Qed.

Lemma leafcmp_insert kvs1 kvs2 ms1 m t out s :
  linv kvs1 kvs2 ms1 (m :: t) out s ->
  (forall kv t', kvs2 = kv :: t' -> key_lt (mk m) (k kv)) ->
  exists ov, leafcmp b src hi s = Ok (1, ov, Some m, false).
Proof using I.
  intros L Hlt. destruct (linv_src _ _ _ _ _ _ _ L) as (Hj & Hsrc & Hsz).
  unfold leafcmp. rewrite (li_full _ _ _ _ _ _ L). destruct kvs2 as [|kv kvs2].
  - rewrite (li_i _ _ _ _ _ _ L), (repr_nval _ _ _ (in_repr _ _ _ _ _ _ I)).
    rewrite (li_kvs _ _ _ _ _ _ L), app_nil_r. rewrite Z.leb_refl.
    rewrite (li_m _ _ _ _ _ _ L eq_refl m t eq_refl). by eexists.
  - destruct (linv_get _ _ _ _ _ _ _ L) as [Hi Hg].
    destruct (Z.leb_spec (nval b) (li s)); [lia|]. rewrite Hg, bind_ok.
    rewrite (proj2 (Z.ltb_lt _ _) Hj), Hsrc, bind_ok, (proj2 (Z.leb_le _ _) Hsz).
    specialize (Hlt kv kvs2 eq_refl). unfold key_lt in Hlt. rewrite keycmp_opp in Hlt.
    destruct (keycmp_range (k kv) (mk m)) as [?|[?| ->]]; [lia|lia|by eexists].
Qed.

Lemma step_insert fuel kvs1 kvs2 ms1 m t out s :
  linv kvs1 kvs2 ms1 (m :: t) out s ->
  (forall kv t', kvs2 = kv :: t' -> key_lt (mk m) (k kv)) ->
  (length t <= fuel)%nat -> lsteps fuel kvs2 (m :: t) s.
Proof using I Hroom.
  intros L Hlt Hf. destruct (linv_sorted _ _ _ _ _ _ L) as (Sk & Sm & _ & Gm).
  destruct (linv_src _ _ _ _ _ _ _ L) as (Hj & _ & _).
  destruct (leafcmp_insert _ _ _ _ _ _ _ L Hlt) as [ov Hcmp].
  destruct (group_split m t Sm) as (g & c & -> & Hgk & Hgc & _).
  assert (Forall (fun m' => mk m' = mk m /\ msg_good m') (m :: g)) as Gg.
  { rewrite app_comm_cons in Gm. apply Forall_app in Gm as [Gm _].
    apply Forall_and. split; [|done]. by constructor. }
  assert (keys_below [mk m] (keys_of kvs2 c)) as Hab.
  { apply below_of; [|done]. destruct kvs2 as [|kv kvs2]; [apply below_nil|].
    apply below_kvs; [done|by eapply Hlt]. }
  destruct (linv_run kvs1 kvs2 ms1 c out s None (m :: g) (mk m)) as [r Hr]; try done. { left. }
  pose proof (li_spc _ _ _ _ _ _ L) as Hspc. pose proof (li_ms _ _ _ _ _ _ L) as Hms.
  destruct (insertcase_spec (S fuel) src lo hi (lspc s) ms1 m g c r (lpull s) (lfrees s))
    as (kv' & ok' & om' & spc' & p & Hic & <- & Hom & Hspc' & Hp); try done.
  { rewrite <- Hms. apply I. } { rewrite <- Hms. apply I. }
  { by apply below_head_ne. } { rewrite length_app in Hf. lia. }
  assert (merged kvs1 kvs2 (ms1 ++ m :: g) c (out ++ option_list (cur_of ok' kv'))
    (lfrees s ++ mdrops None (m :: g)) (lpull s + p)) as M.
  { replace kvs1 with (kvs1 ++ option_list None) by apply app_nil_r.
    apply (merged_step kvs1 kvs2 ms1 c (m :: g) None (mk m)); try done; [left|apply L]. }
  assert (ms = (ms1 ++ m :: g) ++ c) as Em by (rewrite <- app_assoc; apply L).
  destruct (copydone_repr (ln s) out kvs1 kvs2 (ms1 ++ m :: g) c ok' kv'
    (lfrees s ++ mdrops None (m :: g)) (lpull s + p)
    (mkCopy (lo + zlen (ms1 ++ m :: g)) kv' ok' om' false (lpull s + p)
       (lfrees s ++ mdrops None (m :: g)))) as (n' & Hn & R' & T'); try done; try apply L.
  exists (mkLeafst (li s) (lo + zlen (ms1 ++ m :: g)) false spc' om' n'
    (lpull s + p) (lfrees s ++ mdrops None (m :: g))),
    kvs1, kvs2, (ms1 ++ m :: g), c, (out ++ option_list (cur_of ok' kv')). split_and!.
  - cbn [updateleaf_loop]. rewrite (proj2 (Z.ltb_lt _ _) Hj), orb_true_r. cbn [negb].
    rewrite Hcmp, bind_ok. change (1 =? -1) with false. change (1 =? 0) with false. cbn iota.
    rewrite (li_j _ _ _ _ _ _ L), Hic, bind_ok, Hn, bind_ok. done.
  - split; cbn [li lj lfull lspc lm ln lpull lfrees]; try done; try apply L.
    rewrite total_msgsz_app in Hspc'. pose proof (total_msgsz_nonneg g). lia.
  - cbn. rewrite length_app. lia.
Qed.

Lemma updateleaf_loop_spec fuel : forall kvs1 kvs2 ms1 ms2 out s,
  linv kvs1 kvs2 ms1 ms2 out s -> (length kvs2 + length ms2 <= fuel)%nat ->
  exists s' out', updateleaf_loop fuel b src hi s = Ok s' /\ linv kvs [] ms [] out' s'.
Proof using I Hroom.
  induction fuel as [|fuel IH]; intros kvs1 kvs2 ms1 ms2 out s L Hf.
  all: destruct kvs2 as [|kv kvs2], ms2 as [|m t]; cbn in Hf; try lia.
  1, 2: exists s, out; split; [|by rewrite (li_kvs _ _ _ _ _ _ L), (li_ms _ _ _ _ _ _ L), !app_nil_r];
    pose proof (li_i _ _ _ _ _ _ L) as Hi; pose proof (linv_src_end _ _ _ _ _ L) as Hj;
    pose proof (repr_nval _ _ _ (in_repr _ _ _ _ _ _ I)) as Hn;
    rewrite (li_kvs _ _ _ _ _ _ L), app_nil_r in Hn; cbn [updateleaf_loop];
    by rewrite Hi, Hj, Hn, !Z.ltb_irrefl.
  - assert (lsteps fuel [] (m :: t) s) as (s' & k1 & k2 & m1 & m2 & o & -> & L' & Hl)
      by (eapply step_insert; [exact L|done|lia]).
    eapply IH; [exact L'|cbn in Hl; lia].
  - assert (lsteps fuel (kv :: kvs2) [] s) as (s' & k1 & k2 & m1 & m2 & o & -> & L' & Hl)
      by (eapply step_copy; [exact L|done]).
    eapply IH; [exact L'|cbn in Hl; lia].
  - assert (lsteps fuel (kv :: kvs2) (m :: t) s) as (s' & k1 & k2 & m1 & m2 & o & -> & L' & Hl);
      [|eapply IH; [exact L'|cbn in Hl; lia]].
    destruct (keycmp_cases (k kv) (mk m)) as [[_ H]|[[_ H]|[_ H]]].
    + eapply step_copy; [exact L|]. by intros ? ? [= <- _].
    + eapply step_merge; [exact L|done|lia].
    + eapply step_insert; [exact L| |lia]. by intros ? ? [= <- _].
Qed.
End UpdateLeaf.

Lemma blkfill_leaf b kvs ms :
  blk_repr b kvs ms -> btyp b = Tleaf -> blkfill b = Ok (kvs_valsz kvs).
Proof.
  intros R Ht. unfold blkfill. rewrite Ht, (repr_nval _ _ _ R), (repr_valsz _ _ _ R).
  pose proof (repr_fill _ _ _ R). pose proof (bspc_bound b). pose proof (zlen_nonneg kvs).
  pose proof (kvs_size_nonneg kvs). rewrite u16_id by lia. done.
Qed.

Lemma updateleaf_spec b src lo hi kvs ms n :
  leafinput b src lo hi kvs ms -> kvs_valsz kvs + total_msgsz ms <= Leafspc -> kvs <> [] ->
  blk_repr n [] [] -> btyp n = Tleaf ->
  exists o kvs', updateleaf b src lo hi n = Ok o /\ blk_repr (lo_blk o) kvs' [] /\
    btyp (lo_blk o) = Tleaf /\ lo_npull o = zlen ms /\
    merged kvs [] ms [] kvs' (lo_frees o) (lo_pullsz o).
Proof.
  intros I Hroom Hne Rn Tn.
  assert (linv lo kvs ms [] kvs [] ms []
    (mkLeafst 0 lo false (Leafspc - kvs_valsz kvs) None n 0 [])) as L.
  { split; cbn [li lj lfull lspc lm ln lfrees lpull]; try done;
      [by rewrite zlen_nil, Z.add_0_r|lia|apply merged_start]. }
  destruct (updateleaf_loop_spec b src lo hi kvs ms I Hroom
    (Z.to_nat (nval b + (hi - lo) + 1)) _ _ _ _ _ _ L) as (s' & out' & Hl & L').
  { rewrite (repr_nval _ _ _ (in_repr _ _ _ _ _ _ I)), (in_hi _ _ _ _ _ _ I).
    unfold zlen. lia. }
  exists (mkLeafout (ln s') (lj s' - lo) (lpull s') (lfrees s')), out'.
  unfold updateleaf. rewrite (blkfill_leaf _ _ _ (in_repr _ _ _ _ _ _ I)) by apply I.
  rewrite bind_ok, check_true by (destruct (in_src _ _ _ _ _ _ I); lia).
  rewrite bind_ok, Hl, bind_ok. cbn [lo_blk lo_npull lo_pullsz lo_frees].
  split_and!; try done; try apply L'. rewrite (li_j _ _ _ _ _ _ _ _ _ L'). lia.
Qed.

(** * Properties of updateleaf *)

(** C4: updateleaf brings a leaf up to date.  For a well-formed leaf, a sorted
    batch of messages that fits its free space, and messages each of which
    applies to the state its key is in, updateleaf terminates without an
    abort, pulls the whole batch, and the block it fills is a sorted leaf in
    which every key has exactly the value the key's own messages, applied in
    their order, give its old value; what it reports as pulled never exceeds
    the size of the batch. *)
Theorem updateleaf_correct b src lo hi kvs ms n :
  leafinput b src lo hi kvs ms -> kvs_valsz kvs + total_msgsz ms <= Leafspc -> kvs <> [] ->
  blk_repr n [] [] -> btyp n = Tleaf ->
  exists o kvs', updateleaf b src lo hi n = Ok o /\
    blk_repr (lo_blk o) kvs' [] /\ kvs_sorted kvs' /\ Forall kv_good kvs' /\
    (forall key, mrun (kvfind key kvs) (for_key key ms) = Ok (kvfind key kvs')) /\
    lo_npull o = zlen ms /\ 0 <= lo_pullsz o <= total_msgsz ms.
Proof.
  intros I Hr Hne Rn Tn.
  destruct (updateleaf_spec _ _ _ _ _ _ _ I Hr Hne Rn Tn) as (o & kvs' & E & R & _ & Hp & []).
  exists o, kvs'. done.
Qed.

(** C8: updateleaf neither leaks nor doubly frees a data block.  When the
    messages for data keys only insert, clear or delete, the block pointers
    that come in (stored in the leaf, or inserted by the batch) are exactly
    those that are stored in the new leaf or handed to freebp, each as often. *)
Theorem updateleaf_conserves b src lo hi kvs ms n :
  leafinput b src lo hi kvs ms -> kvs_valsz kvs + total_msgsz ms <= Leafspc -> kvs <> [] ->
  blk_repr n [] [] -> btyp n = Tleaf -> Forall data_op ms ->
  exists o kvs', updateleaf b src lo hi n = Ok o /\ blk_repr (lo_blk o) kvs' [] /\
    kvs_ptrs kvs ++ msgs_ptrs ms ≡ₚ kvs_ptrs kvs' ++ lo_frees o.
Proof.
  intros I Hr Hne Rn Tn Hd.
  destruct (updateleaf_spec _ _ _ _ _ _ _ I Hr Hne Rn Tn) as (o & kvs' & E & R & _ & _ & []).
  exists o, kvs'. auto.
Qed.

(** ** A small leaf *)

Definition ex_kvs : list Kvp :=
  [ mkKvp [Kdat; 0; 5] (pack 8 65536 ++ pack 8 2 ++ pack 8 3);
    mkKvp [Kent; 7] [1; 2; 3] ].
Definition ex_ms : list Msg :=
  [ mkMsg Oclearb [Kdat; 0; 5] []; mkMsg Oinsert [Kent; 8] [9]; mkMsg Odelete [Kent; 8] [] ].
Definition ex_blank : Blk :=
  blank Tleaf (replicate (Z.to_nat Leafspc) 0) (mkBptr 0 0 0).
Definition ex_leaf : Blk :=
  match setvals ex_blank ex_kvs with Ok b => b | Fail _ => ex_blank end.

Lemma ex_blank_repr : blk_repr ex_blank [] [].
Proof. apply blank_repr; [by left|]. unfold zlen. by rewrite length_replicate. Qed.

Lemma ex_leaf_repr : blk_repr ex_leaf ex_kvs [] /\ btyp ex_leaf = Tleaf.
Proof.
  destruct (setvals_repr ex_kvs ex_blank [] []) as (b' & E & R & T & _).
  - apply ex_blank_repr.
  - repeat constructor; done.
  - done.
  - unfold ex_leaf. by rewrite E.
Qed.

Lemma ex_input : leafinput ex_leaf (SrcIns ex_ms) 0 3 ex_kvs ex_ms.
Proof.
  destruct ex_leaf_repr. split; try done.
  - repeat constructor; done.
  - unfold kvs_sorted. cbn. repeat constructor; done.
  - apply (src_repr_ins []).
  - repeat constructor; done.
  - unfold msgs_sorted, keys_sorted. cbn. repeat constructor; done.
  - intros key. unfold kvfind, for_key, ex_kvs, ex_ms. rewrite !filter_cons, !filter_nil.
    repeat case_decide; cbn in *; try congruence; by eexists.
Qed.

Lemma updateleaf_correct_witness :
  exists o kvs', updateleaf ex_leaf (SrcIns ex_ms) 0 3 ex_blank = Ok o /\
    blk_repr (lo_blk o) kvs' [] /\ kvs_sorted kvs' /\ Forall kv_good kvs' /\
    (forall key, mrun (kvfind key ex_kvs) (for_key key ex_ms) = Ok (kvfind key kvs')) /\
    lo_npull o = zlen ex_ms /\ 0 <= lo_pullsz o <= total_msgsz ex_ms.
Proof.
  apply updateleaf_correct; [exact ex_input|by vm_compute|done|exact ex_blank_repr|done].
Defined.

Lemma updateleaf_conserves_witness :
  exists o kvs', updateleaf ex_leaf (SrcIns ex_ms) 0 3 ex_blank = Ok o /\
    blk_repr (lo_blk o) kvs' [] /\
    kvs_ptrs ex_kvs ++ msgs_ptrs ex_ms ≡ₚ kvs_ptrs kvs' ++ lo_frees o.
Proof.
  apply updateleaf_conserves; [exact ex_input|by vm_compute|done|exact ex_blank_repr|done|].
  repeat constructor; done.
Defined.
