(* ===== verification/Pivot.v ===== *)
(** sys/src/9/gefs/tree.c, pivots: updatepiv and splitpiv rebuild a pivot
    around the new children a flush made below it; merge, splitidx and rotate
    even out two neighbours.

    As in Leaf.v, the functions are given the blocks newblk returned and
    return them filled; Flush.v composes them with the allocation. *)

From S2P Require Import Prelude Layout Pack Node Msgs Leaf.

(** * The code *)

Inductive pop := POmod | POrot | POsplit | POmerge.
#[global] Instance pop_eq_dec : EqDecision pop.
Proof. solve_decision. Defined.

(** The part of struct Path that flows up from a flushed child. *)
Record kid := mkKid {
  kop : pop; knl : option Blk; knr : option Blk; knpull : Z; kpullsz : Z
}.

(** The pointer to one new child: its least key is that of its first value or
    of its first message, whichever is less. *)
Definition copyup1 (n : Blk) (oc : option Blk) (nbytes : Z) : res (Blk * Z) :=
  match oc with
  | None => Ok (n, nbytes)
  | Some c =>
      kv ← getval c 0;
      kv ← (if 0 <? nbuf c then
              m ← getmsg c 0;
              Ok (if 0 <? keycmp (k kv) (mk m) then mkKvp (mk m) (v kv) else kv)
            else Ok kv);
      fill ← blkfill c;
      n ← setptr n (k kv) (bp c) fill;
      Ok (n, nbytes + valsz kv)
  end.

Definition copyup (n : Blk) (pp : kid) (nbytes : Z) : res (Blk * Z) :=
  '(n, nbytes) ← copyup1 n (knl pp) nbytes;
  copyup1 n (knr pp) nbytes.

(** ** updatepiv *)

(** The loop over the values: the child at midx (and its right neighbour,
    after a merge or a rotation) is replaced. *)
Fixpoint updatepiv_vals (fuel : nat) (b : Blk) (midx : Z) (pp : option kid) (i : Z) (n : Blk)
    : res Blk :=
  if nval b <=? i then Ok n else
  match fuel with
  | O => Fail Fuel
  | S fuel =>
      match pp with
      | Some c =>
          if i =? midx then
            '(n, _) ← copyup n c 0;
            updatepiv_vals fuel b midx pp
              (if bool_decide (kop c = POrot) || bool_decide (kop c = POmerge) then i + 2 else i + 1) n
          else
            kv ← getval b i; n ← setval n kv; updatepiv_vals fuel b midx pp (i + 1) n
      | None => kv ← getval b i; n ← setval n kv; updatepiv_vals fuel b midx pp (i + 1) n
      end
  end.

Record pivst := mkPivst {
  vi : Z; vj : Z; vsz : Z; vfull : bool; vspc : Z; vn : Blk; vpull : Z
}.

(** The inner loop: every message of the parent for one key. *)
Fixpoint pullrun (fuel : nat) (src : msgsrc) (hi : Z) (key : list Z) (s : pivst) : res pivst :=
  match fuel with
  | O => Fail Fuel
  | S fuel =>
      '(r, u, full) ← pullmsg src hi (vj s) (Some key) None (vfull s) (vspc s);
      if r =? 0 then
        u ← of_option u Undef;
        n ← setmsg (vn s) u;
        let sz := msgsz u in
        pullrun fuel src hi key
          (mkPivst (vi s) (vj s + 1) sz full (vspc s - sz) n (vpull s + sz))
      else Ok (mkPivst (vi s) (vj s) (vsz s) full (vspc s) (vn s) (vpull s))
  end.

(** The messages the child pulled, from [plo] on, are passed over. *)
Definition skippulled (plo : Z) (pp : option kid) (i : Z) : res Z :=
  if i =? plo then
    match pp with Some c => Ok (i + knpull c) | None => Fail Undef end
  else Ok i.

Fixpoint updatepiv_msgs (fuel : nat) (b : Blk) (src : msgsrc) (hi plo : Z) (pp : option kid)
    (s : pivst) : res pivst :=
  if nbuf b <=? vi s then Ok s else
  match fuel with
  | O => Fail Fuel
  | S fuel' =>
      i ← skippulled plo pp (vi s);
      if i =? nbuf b then Ok (mkPivst i (vj s) (vsz s) (vfull s) (vspc s) (vn s) (vpull s)) else
      m ← getmsg b i;
      '(r, u, full) ← pullmsg src hi (vj s) (Some (mk m)) None (vfull s) (vspc s - vsz s);
      if r =? 1 then
        u ← of_option u Undef;
        m ← cpkvp (msg_kvp u) Msgmax;
        s ← pullrun fuel src hi (k m) (mkPivst i (vj s) (vsz s) full (vspc s) (vn s) (vpull s));
        updatepiv_msgs fuel' b src hi plo pp s
      else
        n ← setmsg (vn s) m;
        updatepiv_msgs fuel' b src hi plo pp
          (mkPivst (i + 1) (vj s) (vsz s) full (vspc s) n (vpull s))
  end.

(** The messages of the parent behind the last one of the buffer. *)
Fixpoint pullrest (fuel : nat) (src : msgsrc) (hi : Z) (s : pivst) : res pivst :=
  if hi <=? vj s then Ok s else
  match fuel with
  | O => Fail Fuel
  | S fuel =>
      '(r, u, full) ← pullmsg src hi (vj s) None None (vfull s) (vspc s);
      if full : bool then Ok (mkPivst (vi s) (vj s) (vsz s) full (vspc s) (vn s) (vpull s)) else
      u ← of_option u Undef;
      n ← setmsg (vn s) u;
      let sz := msgsz u in
      pullrest fuel src hi (mkPivst (vi s) (vj s + 1) sz full (vspc s - sz) n (vpull s + sz))
  end.

(** The new block, p->npull and p->pullsz ([pull] before the call).  [lo] and
    [hi] are the parent's range; [midx] and [plo] are p->midx and p->lo. *)
Definition updatepiv (b : Blk) (src : msgsrc) (lo hi midx plo pull : Z) (pp : option kid) (n : Blk)
    : res (Blk * Z * Z) :=
  n ← updatepiv_vals (Z.to_nat (nval b)) b midx pp 0 n;
  fill ← buffill b;
  let spc := Bufspc - fill in
  let spc := match pp with Some c => spc + kpullsz c | None => spc end in
  let fuel := Z.to_nat (nbuf b + (hi - lo) + 1) in
  s ← updatepiv_msgs fuel b src hi plo pp (mkPivst 0 lo 0 false spc n pull);
  s ← pullrest fuel src hi s;
  Ok (vn s, vj s - lo, vpull s).

(** ** splitpiv *)

Record pvst := mkPvst { pleft : bool; pl : Blk; pr : Blk; pcopied : Z }.

Definition pdst (s : pvst) : Blk := if pleft s then pl s else pr s.
Definition pset (s : pvst) (d : Blk) (copied : Z) : pvst :=
  if pleft s then mkPvst true d (pr s) copied else mkPvst false (pl s) d copied.

Fixpoint splitpiv_vals (cnt : nat) (b : Blk) (pidx halfsz : Z) (pp : option kid) (i : Z) (s : pvst)
    : res pvst :=
  match cnt with
  | O => Ok s
  | S cnt =>
      let s := if pleft s && ((i =? nval b - 2) || ((2 <=? i) && (halfsz <=? pcopied s)))
               then mkPvst false (pl s) (pr s) (pcopied s) else s in
      s ← (if i =? pidx then
             c ← of_option pp Undef;
             '(d, copied) ← copyup (pdst s) c (pcopied s);
             Ok (pset s d copied)
           else
             tk ← getval b i;
             d ← setval (pdst s) tk;
             Ok (pset s d (pcopied s + valsz tk)));
      splitpiv_vals cnt b pidx halfsz pp (i + 1) s
  end.

Fixpoint splitpiv_msgs (fuel : nat) (b : Blk) (plo : Z) (pp : option kid) (mid : list Z) (i : Z)
    (s : pvst) : res pvst :=
  if nbuf b <=? i then Ok s else
  match fuel with
  | O => Fail Fuel
  | S fuel =>
      i ← skippulled plo pp i;
      if i =? nbuf b then Ok s else
      m ← getmsg b i;
      let s := if pleft s && (0 <=? keycmp (mk m) mid)
               then mkPvst false (pl s) (pr s) (pcopied s) else s in
      d ← setmsg (pdst s) m;
      splitpiv_msgs fuel b plo pp mid (i + 1) (pset s d (pcopied s))
  end.

(** The new left and right blocks; [pidx] and [plo] are p->idx and p->lo. *)
Definition splitpiv (b : Blk) (pidx plo : Z) (pp : option kid) (l r : Blk) : res (Blk * Blk) :=
  let halfsz := Z.quot (2 * nval b + bvalsz b) 2 in
  check (4 <=? nval b);;
  s ← splitpiv_vals (Z.to_nat (nval b)) b pidx halfsz pp 0 (mkPvst true l r 0);
  mid ← getval (pr s) 0;
  s ← splitpiv_msgs (Z.to_nat (nbuf b)) b plo pp (k mid) 0 (mkPvst true (pl s) (pr s) 0);
  Ok (pl s, pr s).

(** ** merge and rotate *)

Fixpoint copyvals (cnt : nat) (b : Blk) (i : Z) (d : Blk) : res Blk :=
  match cnt with
  | O => Ok d
  | S cnt => kv ← getval b i; d ← setval d kv; copyvals cnt b (i + 1) d
  end.

Fixpoint copymsgs (cnt : nat) (b : Blk) (i : Z) (d : Blk) : res Blk :=
  match cnt with
  | O => Ok d
  | S cnt => m ← getmsg b i; d ← setmsg d m; copymsgs cnt b (i + 1) d
  end.

Definition merge (a b d : Blk) : res Blk :=
  d ← copyvals (Z.to_nat (nval a)) a 0 d;
  d ← copyvals (Z.to_nat (nval b)) b 0 d;
  if bool_decide (btyp a = Tpivot) then
    d ← copymsgs (Z.to_nat (nbuf a)) a 0 d;
    copymsgs (Z.to_nat (nbuf b)) b 0 d
  else Ok d.

Definition getmsg2 (l r : Blk) (i : Z) : res Msg :=
  if i <? nbuf l then getmsg l i else getmsg r (i - nbuf l).

Fixpoint splitidx_loop (fuel : nat) (l r : Blk) (key : list Z) (i : Z) : res Z :=
  if nbuf l + nbuf r <=? i then Ok i else
  match fuel with
  | O => Fail Fuel
  | S fuel =>
      n ← getmsg2 l r i;
      if keycmp key (mk n) <=? 0 then Ok i else splitidx_loop fuel l r key (i + 1)
  end.

Definition splitidx (l r : Blk) (key : list Z) (idx : Z) : res Z :=
  if bool_decide (btyp l = Tleaf) then Ok idx
  else splitidx_loop (Z.to_nat (nbuf l + nbuf r)) l r key idx.

Record rotst := mkRotst { rleft : bool; rl : Blk; rr : Blk; rsz : Z; rsp : Z }.

(** One of the two loops over values; [x] is the block they are read from. *)
Fixpoint rotvals (cnt : nat) (a b x : Blk) (halfpiv i : Z) (s : rotst) : res rotst :=
  match cnt with
  | O => Ok s
  | S cnt =>
      m ← getval x i;
      s ← (if rleft s then
             sp ← splitidx a b (k m) (rsp s);
             Ok (mkRotst (negb (halfpiv <=? rsz s)) (rl s) (rr s) (rsz s) sp)
           else Ok s);
      d ← setval (if rleft s then rl s else rr s) m;
      rotvals cnt a b x halfpiv (i + 1)
        (if rleft s then mkRotst true d (rr s) (rsz s + valsz m) (rsp s)
         else mkRotst false (rl s) d (rsz s + valsz m) (rsp s))
  end.

Record rotm := mkRotm { mleft : bool; ml : Blk; mr : Blk; mo : Z }.

Fixpoint rotmsgs (cnt : nat) (x : Blk) (sp i : Z) (s : rotm) : res rotm :=
  match cnt with
  | O => Ok s
  | S cnt =>
      let s := if mo s =? sp then mkRotm false (ml s) (mr s) 0 else s in
      m ← getmsg x i;
      d ← setmsg (if mleft s then ml s else mr s) m;
      rotmsgs cnt x sp (i + 1)
        (if mleft s then mkRotm true d (mr s) (mo s + 1) else mkRotm false (ml s) d (mo s + 1))
  end.

Definition rotate (a b : Blk) (halfpiv : Z) (l r : Blk) : res (Blk * Blk) :=
  s ← rotvals (Z.to_nat (nval a)) a b a halfpiv 0 (mkRotst true l r 0 0);
  s ← rotvals (Z.to_nat (nval b)) a b b halfpiv 0 s;
  if bool_decide (btyp a = Tpivot) then
    m ← rotmsgs (Z.to_nat (nbuf a)) a (rsp s) 0 (mkRotm true (rl s) (rr s) 0);
    m ← rotmsgs (Z.to_nat (nbuf b)) b (rsp s) 0 m;
    Ok (ml m, mr m)
  else Ok (rl s, rr s).

(** What rotmerge decides for two neighbours: merge them, rotate around the
    given size, or leave them. *)
Inductive balance := BalMerge | BalRotate (half : Z) | BalNone.

Definition rotmerge (a b : Blk) : res balance :=
  check (bool_decide (btyp a = btyp b));;
  let na := 2 * nval a + bvalsz a in
  let nb := 2 * nval b + bvalsz b in
  let '(ma, mb) := if bool_decide (btyp a = Tleaf) then (0, 0)
                   else (2 * nbuf a + bufsz a, 2 * nbuf b + bufsz b) in
  let imbalance := Z.abs (na - nb) in
  if (na + nb <? Pivspc - 4 * Msgmax) && (ma + mb <? Bufspc) then Ok BalMerge
  else if 4 * Msgmax <? imbalance then Ok (BalRotate (Z.quot (na + nb) 2))
  else Ok BalNone.

(** * Copying *)

Lemma getval_middle b pre kv suf ms :
  blk_repr b (pre ++ kv :: suf) ms -> getval b (zlen pre) = Ok kv.
Proof. intros R. eapply getval_repr; [exact R|]. by apply list_lookup_middle. Qed.

Lemma getmsg_middle b kvs pre m suf :
  blk_repr b kvs (pre ++ m :: suf) -> btyp b = Tpivot -> getmsg b (zlen pre) = Ok m.
Proof. intros R Ht. eapply getmsg_repr; [exact R|done|]. by apply list_lookup_middle. Qed.

Lemma copyvals_setvals suf : forall pre b ms d,
  blk_repr b (pre ++ suf) ms ->
  copyvals (length suf) b (zlen pre) d = setvals d suf.
Proof.
  induction suf as [|kv suf IH]; intros pre b ms d R; [done|]. cbn [copyvals length setvals].
  rewrite (getval_middle _ _ _ _ _ R), bind_ok. destruct (setval d kv) as [d'|]; [|done]. rewrite !bind_ok.
  replace (zlen pre + 1) with (zlen (pre ++ [kv])) by (autorewrite with gefs; lia).
  eapply IH. by rewrite <- app_assoc.
Qed.

Lemma copymsgs_setmsgs suf : forall pre b kvs d,
  blk_repr b kvs (pre ++ suf) -> btyp b = Tpivot ->
  copymsgs (length suf) b (zlen pre) d = setmsgs d suf.
Proof.
  induction suf as [|m suf IH]; intros pre b kvs d R Ht; [done|].
  cbn [copymsgs length setmsgs]. rewrite (getmsg_middle _ _ _ _ _ R Ht), bind_ok. destruct (setmsg d m) as [d'|]; [|done]. rewrite !bind_ok.
  replace (zlen pre + 1) with (zlen (pre ++ [m])) by (autorewrite with gefs; lia).
  eapply IH; [|done]. by rewrite <- app_assoc.
Qed.

Lemma copyvals_all b kvs ms d :
  blk_repr b kvs ms -> copyvals (Z.to_nat (nval b)) b 0 d = setvals d kvs.
Proof.
  intros R. rewrite (repr_nval _ _ _ R). unfold zlen. rewrite Nat2Z.id.
  by apply (copyvals_setvals kvs [] b ms).
Qed.

Lemma copymsgs_all b kvs ms d :
  blk_repr b kvs ms -> btyp b = Tpivot -> copymsgs (Z.to_nat (nbuf b)) b 0 d = setmsgs d ms.
Proof.
  intros R Ht. rewrite (repr_nbuf _ _ _ R). unfold zlen. rewrite Nat2Z.id.
  by apply (copymsgs_setmsgs ms [] b kvs).
Qed.

Lemma setvals_app d a b : setvals d (a ++ b) = (d ← setvals d a; setvals d b).
Proof.
  revert d. induction a as [|kv a IH]; intros d; [done|]. cbn.
  destruct (setval d kv); cbn; [apply IH|done].
Qed.
Lemma setmsgs_app d a b : setmsgs d (a ++ b) = (d ← setmsgs d a; setmsgs d b).
Proof.
  revert d. induction a as [|kv a IH]; intros d; [done|]. cbn.
  destruct (setmsg d kv); cbn; [apply IH|done].
Qed.

(** ** Two neighbours

    Blocks of one type whose contents fit one block together, as trybalance
    checks before it calls rotmerge. *)
Record neighbours (a b : Blk) (ka kb : list Kvp) (ma mb : list Msg) : Prop := {
  nb_a : blk_repr a ka ma;
  nb_b : blk_repr b kb mb;
  nb_typ : btyp a = btyp b;
  nb_entries : Forall entry_ok (ka ++ kb);
  nb_vals : 2 * zlen (ka ++ kb) + kvs_size (ka ++ kb) <= bspc a;
  nb_msgs : 2 * zlen (ma ++ mb) + msgs_size (ma ++ mb) <= Bufspc
}.

Lemma fresh_repr n t d p : n = blank t d p -> t = Tleaf \/ t = Tpivot -> zlen d = datasz t ->
  blk_repr n [] [] /\ btyp n = t.
Proof. intros -> Ht Hd. split; [by apply blank_repr|done]. Qed.

Lemma neighbours_ops a b ka kb ma mb :
  neighbours a b ka kb ma mb -> Forall (fun m => 0 <= op m < 128) (ma ++ mb).
Proof.
  intros []. apply Forall_app. split; [apply (repr_ops _ _ _ nb_a0)|apply (repr_ops _ _ _ nb_b0)].
Qed.

Lemma neighbours_leaf a b ka kb ma mb :
  neighbours a b ka kb ma mb -> btyp a <> Tpivot -> btyp a = Tleaf /\ ma = [] /\ mb = [].
Proof.
  intros [Ra Rb Ht _ _ _] Hn. destruct (repr_typ _ _ _ Ra) as [E|]; [|done].
  split_and!; [done|by apply (repr_leaf _ _ _ Ra)|]. apply (repr_leaf _ _ _ Rb). congruence.
Qed.

Lemma merge_repr a b d ka kb ma mb :
  neighbours a b ka kb ma mb -> blk_repr d [] [] -> btyp d = btyp a ->
  exists d', merge a b d = Ok d' /\ blk_repr d' (ka ++ kb) (ma ++ mb) /\ btyp d' = btyp a /\ bp d' = bp d.
Proof.
  intros N Rd Td. pose proof (neighbours_ops _ _ _ _ _ _ N) as Hops.
  destruct N as [Ra Rb Ht He Hv Hm] eqn:EN. unfold merge.
  rewrite (copyvals_all _ _ _ _ Ra).
  destruct (setvals_repr (ka ++ kb) d [] [] Rd He) as (d1 & E1 & R1 & T1 & P1).
  { unfold bspc in *. by rewrite Td. }
  rewrite setvals_app in E1. apply bind_Ok in E1 as (d0 & E0 & E1). rewrite E0, bind_ok.
  rewrite (copyvals_all _ _ _ _ Rb), E1, bind_ok.
  destruct (decide (btyp a = Tpivot)) as [Ta|Ta].
  - rewrite bool_decide_true by done.
    rewrite (copymsgs_all _ _ _ _ Ra) by done.
    destruct (setmsgs_repr (ma ++ mb) d1 _ [] R1) as (d2 & E2 & R2 & T2 & P2); [congruence|done|done|].
    rewrite setmsgs_app in E2. apply bind_Ok in E2 as (dm & Em & E2). rewrite Em, bind_ok.
    rewrite (copymsgs_all _ _ _ _ Rb) by congruence. exists d2.
    split_and!; [done|done|congruence|congruence].
  - rewrite bool_decide_false by done. exists d1. clear EN.
    destruct (neighbours_leaf _ _ _ _ _ _ N Ta) as (? & -> & ->).
    split_and!; [done|done|congruence|congruence].
Qed.

(** * rotate *)

Lemma getmsg2_repr l r kl kr ml mr i m :
  blk_repr l kl ml -> blk_repr r kr mr -> btyp l = Tpivot -> btyp r = Tpivot ->
  (ml ++ mr) !! i = Some m -> getmsg2 l r (Z.of_nat i) = Ok m.
Proof.
  intros Rl Rr Tl Tr Hi. unfold getmsg2. rewrite (repr_nbuf _ _ _ Rl). unfold zlen.
  destruct (Z.ltb_spec (Z.of_nat i) (Z.of_nat (length ml))).
  - rewrite lookup_app_l in Hi by lia. by eapply getmsg_repr.
  - rewrite lookup_app_r in Hi by lia. rewrite <- Nat2Z.inj_sub by lia. by eapply getmsg_repr.
Qed.

Lemma splitidx_loop_spec l r kl kr ml mr key :
  blk_repr l kl ml -> blk_repr r kr mr -> btyp l = Tpivot -> btyp r = Tpivot ->
  keys_sorted (msg_keys (ml ++ mr)) ->
  let n := lowerb key (msg_keys (ml ++ mr)) in
  forall fuel i, (i <= n)%nat -> (n - i <= fuel)%nat -> (n < length (ml ++ mr) -> n - i < fuel)%nat ->
  splitidx_loop fuel l r key (Z.of_nat i) = Ok (Z.of_nat n).
Proof.
  intros Rl Rr Tl Tr Hs n. pose proof (lowerb_lookup key _ Hs) as Hlk. fold n in Hlk.
  assert (length (ml ++ mr) = length (msg_keys (ml ++ mr))) as Hlen
    by (unfold msg_keys; by rewrite length_fmap).
  pose proof (lowerb_le key (msg_keys (ml ++ mr))) as Hn. fold n in Hn.
  induction fuel as [|fuel IH]; intros i Hi Hf1 Hf2; cbn [splitidx_loop];
    rewrite (repr_nbuf _ _ _ Rl), (repr_nbuf _ _ _ Rr), <- zlen_app; unfold zlen;
    destruct (Z.leb_spec (Z.of_nat (length (ml ++ mr))) (Z.of_nat i)); try (f_equal; lia).
  destruct (lookup_lt_is_Some_2 (ml ++ mr) i) as [m Hm]; [lia|].
  rewrite (getmsg2_repr _ _ _ _ _ _ _ _ Rl Rr Tl Tr Hm), bind_ok.
  assert (msg_keys (ml ++ mr) !! i = Some (mk m)) as Hk
    by (unfold msg_keys; by rewrite list_lookup_fmap, Hm).
  specialize (Hlk _ _ Hk).
  destruct (Z.leb_spec (keycmp key (mk m)) 0) as [Hle|Hgt].
  - f_equal. destruct (decide (i < n)%nat) as [Hlt|]; [|lia]. exfalso.
    apply Hlk in Hlt. unfold key_lt in Hlt. rewrite keycmp_opp in Hlt. lia.
  - assert (i < n)%nat by (apply Hlk; unfold key_lt; rewrite keycmp_opp; lia).
    replace (Z.of_nat i + 1) with (Z.of_nat (S i)) by lia. apply IH; lia.
Qed.

Lemma splitidx_spec l r kl kr ml mr key i :
  blk_repr l kl ml -> blk_repr r kr mr -> btyp l = Tpivot -> btyp r = Tpivot ->
  keys_sorted (msg_keys (ml ++ mr)) -> (i <= lowerb key (msg_keys (ml ++ mr)))%nat ->
  splitidx l r key (Z.of_nat i) = Ok (Z.of_nat (lowerb key (msg_keys (ml ++ mr)))).
Proof.
  intros Rl Rr Tl Tr Hs Hi. unfold splitidx. rewrite bool_decide_false by (by rewrite Tl).
  rewrite (repr_nbuf _ _ _ Rl), (repr_nbuf _ _ _ Rr), <- zlen_app. unfold zlen.
  rewrite Nat2Z.id. eapply splitidx_loop_spec; try done.
  - pose proof (lowerb_le key (msg_keys (ml ++ mr))) as H. unfold msg_keys in H at 2.
    rewrite length_fmap in H. lia.
  - lia.
Qed.

Section Rotate.
  Context (a b : Blk) (ka kb : list Kvp) (ma mb : list Msg) (half : Z).
  Hypothesis N : neighbours a b ka kb ma mb.
  Hypothesis Hsorted : kvs_sorted (ka ++ kb).
  Hypothesis Hmsorted : keys_sorted (msg_keys (ma ++ mb)).

(** [P] has been dealt out to the left block, up to size [half], and the right. *)
Record rotinv (P : list Kvp) (s : rotst) (P1 P2 : list Kvp) : Prop := {
  ri_split : P = P1 ++ P2;
  ri_l : blk_repr (rl s) P1 [];
  ri_r : blk_repr (rr s) P2 [];
  ri_tl : btyp (rl s) = btyp a;
  ri_tr : btyp (rr s) = btyp a;
  ri_sz : rsz s = kvs_valsz P;
  ri_left : rleft s = true -> P2 = [];
  ri_right : rleft s = false -> P2 <> [] /\ half <= kvs_valsz P1;
  ri_prefix : forall Q kv, P1 = Q ++ [kv] -> kvs_valsz Q < half;
  ri_sp : btyp a = Tpivot ->
    (P = [] /\ rsp s = 0) \/
    exists kv, kv ∈ P /\ rsp s = Z.of_nat (lowerb (k kv) (msg_keys (ma ++ mb))) /\
      (rleft s = false -> head P2 = Some kv)
}.

Lemma rot_entry P kv Q : ka ++ kb = P ++ kv :: Q -> entry_ok kv.
Proof using N.
  intros E. pose proof (nb_entries _ _ _ _ _ _ N) as H. rewrite E in H.
  apply Forall_app in H as [_ H]. by apply Forall_cons in H as [H _].
Qed.

Lemma rot_above P kv Q x : ka ++ kb = P ++ kv :: Q -> x ∈ P -> key_lt (k x) (k kv).
Proof using Hsorted.
  intros E Hx. unfold kvs_sorted, kv_keys in Hsorted. rewrite E, fmap_app in Hsorted.
  eapply StronglySorted_app_1_elem_of; [exact Hsorted| |by left].
  apply list_elem_of_fmap. by exists x.
Qed.

(** Choosing the side for the next value. *)
Lemma rot_choose P Q kv s P1 P2 :
  ka ++ kb = P ++ kv :: Q -> rotinv P s P1 P2 -> rleft s = true ->
  exists sp, splitidx a b (k kv) (rsp s) = Ok sp /\
    (btyp a = Tpivot -> sp = Z.of_nat (lowerb (k kv) (msg_keys (ma ++ mb)))).
Proof using N Hsorted Hmsorted.
  intros E I Hl. destruct (decide (btyp a = Tpivot)) as [Ta|Ta].
  - exists (Z.of_nat (lowerb (k kv) (msg_keys (ma ++ mb)))). split; [|done].
    pose proof (nb_typ _ _ _ _ _ _ N) as Ht.
    destruct (ri_sp _ _ _ _ I Ta) as [[_ ->]|(x & Hx & -> & _)].
    + change 0 with (Z.of_nat 0). eapply splitidx_spec; try done; try apply N; [congruence|lia].
    + eapply splitidx_spec; try done; try apply N; [congruence|].
      apply lowerb_mono; [done|]. apply key_lt_le. by eapply rot_above.
  - exists (rsp s). split; [|done]. unfold splitidx.
    destruct (neighbours_leaf _ _ _ _ _ _ N Ta) as (-> & _). by rewrite bool_decide_true.
Qed.

Lemma rot_room P kv Q : ka ++ kb = P ++ kv :: Q -> kvs_valsz (P ++ [kv]) <= bspc a.
Proof using N.
  intros E. pose proof (nb_vals _ _ _ _ _ _ N) as H. rewrite E in H.
  change (P ++ kv :: Q) with (P ++ [kv] ++ Q) in H. rewrite app_assoc in H.
  fold (kvs_valsz ((P ++ [kv]) ++ Q)) in H. rewrite kvs_valsz_app in H.
  pose proof (kvs_valsz_nonneg Q). lia.
Qed.

Lemma rot_setval n P kv :
  blk_repr n P [] -> btyp n = btyp a -> entry_ok kv -> kvs_valsz (P ++ [kv]) <= bspc a ->
  exists n', setval n kv = Ok n' /\ blk_repr n' (P ++ [kv]) [] /\ btyp n' = btyp a.
Proof.
  intros R T He Hr. rewrite kvs_valsz_app, kvs_valsz_one in Hr.
  destruct (setval_repr n P [] kv R He) as (n' & E & R' & T' & _).
  { unfold bspc in *. rewrite T. unfold kvs_valsz, valsz, kvsz in *. lia. }
  exists n'. split_and!; [done|done|congruence].
Qed.

Lemma kvs_valsz_pre P1 P2 : kvs_valsz P2 <= kvs_valsz (P1 ++ P2).
Proof. rewrite kvs_valsz_app. pose proof (kvs_valsz_nonneg P1). lia. Qed.

(** One value to the left: no value before it has reached [half]. *)
Lemma rot_step_left P Q kv s P1 P2 sp n :
  ka ++ kb = P ++ kv :: Q -> rotinv P s P1 P2 -> rleft s = true -> rsz s < half ->
  (btyp a = Tpivot -> sp = Z.of_nat (lowerb (k kv) (msg_keys (ma ++ mb)))) ->
  blk_repr n (P1 ++ [kv]) [] -> btyp n = btyp a ->
  rotinv (P ++ [kv]) (mkRotst true n (rr s) (rsz s + valsz kv) sp) (P1 ++ [kv]) P2.
Proof.
  intros E [-> Hl Hr Htl Htr Hsz Hleft Hright Hpre Hsp] Hlf Hlt Hsp' Rn Tn.
  rewrite (Hleft Hlf) in *. rewrite app_nil_r in *.
  split; cbn [rleft rl rr rsz rsp]; try done.
  - by rewrite app_nil_r.
  - rewrite Hsz, !kvs_valsz_app, kvs_valsz_one. lia.
  - intros Q' kv' E'. apply app_inj_tail in E' as [-> _]. lia.
  - intros Ta. right. exists kv. split_and!; [|by apply Hsp'|done].
    apply elem_of_app. right. by left.
Qed.

(** The first value to the right. *)
Lemma rot_step_switch P Q kv s P1 P2 sp n :
  ka ++ kb = P ++ kv :: Q -> rotinv P s P1 P2 -> rleft s = true -> half <= rsz s ->
  (btyp a = Tpivot -> sp = Z.of_nat (lowerb (k kv) (msg_keys (ma ++ mb)))) ->
  blk_repr n (P2 ++ [kv]) [] -> btyp n = btyp a ->
  rotinv (P ++ [kv]) (mkRotst false (rl s) n (rsz s + valsz kv) sp) P1 (P2 ++ [kv]).
Proof.
  intros E [-> Hl Hr Htl Htr Hsz Hleft Hright Hpre Hsp] Hlf Hge Hsp' Rn Tn.
  rewrite (Hleft Hlf) in *. rewrite app_nil_r in *. cbn [app] in *.
  split; cbn [rleft rl rr rsz rsp]; try done.
  - rewrite Hsz, !kvs_valsz_app, kvs_valsz_one. lia.
  - intros _. split; [done|lia].
  - intros Ta. right. exists kv. split_and!; [|by apply Hsp'|done].
    apply elem_of_app. right. by left.
Qed.

(** Every later one. *)
Lemma rot_step_right P Q kv s P1 P2 n :
  ka ++ kb = P ++ kv :: Q -> rotinv P s P1 P2 -> rleft s = false ->
  blk_repr n (P2 ++ [kv]) [] -> btyp n = btyp a ->
  rotinv (P ++ [kv]) (mkRotst false (rl s) n (rsz s + valsz kv) (rsp s)) P1 (P2 ++ [kv]).
Proof.
  intros E [-> Hl Hr Htl Htr Hsz Hleft Hright Hpre Hsp] Hlf Rn Tn.
  destruct (Hright Hlf) as [Hne Hh].
  split; cbn [rleft rl rr rsz rsp]; try done.
  - by rewrite app_assoc.
  - rewrite Hsz, !kvs_valsz_app, kvs_valsz_one. lia.
  - intros _. split; [|done]. by destruct P2.
  - intros Ta. right. destruct (Hsp Ta) as [[Hnil _]|(x & Hx & Hs & Hh')].
    + destruct P1, P2; done.
    + exists x. split_and!; [apply elem_of_app; by left|done|].
      intros _. specialize (Hh' Hlf). by destruct P2.
Qed.

Lemma rotvals_spec x kx mx suf : forall pre P s P1 P2,
  blk_repr x kx mx -> kx = pre ++ suf -> (exists Q, ka ++ kb = P ++ suf ++ Q) ->
  rotinv P s P1 P2 ->
  exists s' P1' P2', rotvals (length suf) a b x half (zlen pre) s = Ok s' /\
    rotinv (P ++ suf) s' P1' P2'.
Proof using N Hsorted Hmsorted.
  induction suf as [|kv suf IH]; intros pre P s P1 P2 R -> [Q E] I.
  { exists s, P1, P2. by rewrite app_nil_r. }
  cbn [rotvals length]. rewrite (getval_middle _ _ _ _ _ R), bind_ok.
  assert (ka ++ kb = P ++ kv :: (suf ++ Q)) as E' by done.
  pose proof (rot_entry _ _ _ E') as He. pose proof (rot_room _ _ _ E') as Hroom.
  assert (exists s1 P1' P2',
    (s ← (if rleft s then
            sp ← splitidx a b (k kv) (rsp s);
            Ok (mkRotst (negb (half <=? rsz s)) (rl s) (rr s) (rsz s) sp)
          else Ok s);
     d ← setval (if rleft s then rl s else rr s) kv;
     rotvals (length suf) a b x half (zlen pre + 1)
       (if rleft s then mkRotst true d (rr s) (rsz s + valsz kv) (rsp s)
        else mkRotst false (rl s) d (rsz s + valsz kv) (rsp s))) =
    rotvals (length suf) a b x half (zlen (pre ++ [kv])) s1 /\
    rotinv (P ++ [kv]) s1 P1' P2') as (s1 & P1' & P2' & -> & I').
  { replace (zlen pre + 1) with (zlen (pre ++ [kv])) by (autorewrite with gefs; lia).
    destruct (rleft s) eqn:Hl.
    - destruct (rot_choose _ _ _ _ _ _ E' I Hl) as (sp & -> & Hsp). rewrite !bind_ok.
      cbn [rleft rl rr rsz rsp]. destruct (Z.leb_spec half (rsz s)); cbn [negb].
      + destruct (rot_setval (rr s) P2 kv) as (n & -> & Rn & Tn); [apply I|apply I|done| |].
        { rewrite (ri_split _ _ _ _ I), <- app_assoc in Hroom.
          pose proof (kvs_valsz_pre P1 (P2 ++ [kv])). lia. }
        rewrite bind_ok. eexists _, P1, (P2 ++ [kv]). split; [reflexivity|].
        eapply rot_step_switch; done.
      + destruct (rot_setval (rl s) P1 kv) as (n & -> & Rn & Tn); [apply I|apply I|done| |].
        { rewrite (ri_split _ _ _ _ I), (ri_left _ _ _ _ I Hl), app_nil_r in Hroom. done. }
        rewrite bind_ok. eexists _, (P1 ++ [kv]), P2. split; [reflexivity|].
        eapply rot_step_left; done.
    - rewrite bind_ok, Hl.
      destruct (rot_setval (rr s) P2 kv) as (n & -> & Rn & Tn); [apply I|apply I|done| |].
      { rewrite (ri_split _ _ _ _ I), <- app_assoc in Hroom.
        pose proof (kvs_valsz_pre P1 (P2 ++ [kv])). lia. }
      rewrite bind_ok. eexists _, P1, (P2 ++ [kv]). split; [reflexivity|].
      eapply rot_step_right; done. }
  destruct (IH (pre ++ [kv]) (P ++ [kv]) s1 P1' P2') as (s' & Q1 & Q2 & Es & I''); [done| | |done|].
  - by rewrite <- app_assoc.
  - exists Q. by rewrite <- app_assoc.
  - exists s', Q1, Q2. split; [done|]. by rewrite <- app_assoc in I''.
Qed.
End Rotate.

Section RotateMsgs.
  Context (all : list Msg) (P1 P2 : list Kvp) (sp : nat).
  Hypothesis Hops : Forall (fun m => 0 <= op m < 128) all.
  Hypothesis Hroom : 2 * zlen all + msgs_size all <= Bufspc.

(** The first [sp] messages go left, the others right. *)
Record rotminv (dn : list Msg) (s : rotm) : Prop := {
  rm_l : blk_repr (ml s) P1 (take sp dn);
  rm_r : blk_repr (mr s) P2 (drop sp dn);
  rm_tl : btyp (ml s) = Tpivot;
  rm_tr : btyp (mr s) = Tpivot;
  rm_left : mleft s = true -> mo s = zlen dn /\ (length dn <= sp)%nat;
  rm_right : mleft s = false -> (sp <= length dn)%nat
}.

Lemma rotm_setmsg n P ms dn m Q :
  all = dn ++ m :: Q -> ms ⊆+ dn -> blk_repr n P ms -> btyp n = Tpivot ->
  exists n', setmsg n m = Ok n' /\ blk_repr n' P (ms ++ [m]) /\ btyp n' = Tpivot.
Proof using Hops Hroom.
  intros E Hsub R T. rewrite E in *.
  apply Forall_app in Hops as [_ Hm]. apply Forall_cons in Hm as [Hm _].
  assert (zlen ms <= zlen dn /\ msgs_size ms <= msgs_size dn) as [H1 H2].
  { apply submseteq_Permutation in Hsub as [rest ->]. rewrite zlen_app, msgs_size_app.
    pose proof (zlen_nonneg rest). pose proof (msgs_size_nonneg rest). lia. }
  destruct (setmsg_repr n P ms m R T Hm) as (n' & En & R' & T' & _).
  - autorewrite with gefs in Hroom. pose proof (zlen_nonneg Q). pose proof (msgs_size_nonneg Q). lia.
  - exists n'. done.
Qed.

Lemma rotm_step dn m Q s :
  all = dn ++ m :: Q -> rotminv dn s ->
  exists s', (let s := if mo s =? Z.of_nat sp then mkRotm false (ml s) (mr s) 0 else s in
     d ← setmsg (if mleft s then ml s else mr s) m;
     Ok (if mleft s then mkRotm true d (mr s) (mo s + 1) else mkRotm false (ml s) d (mo s + 1))) = Ok s' /\
    rotminv (dn ++ [m]) s'.
Proof using Hops Hroom.
  intros E [Hl Hr Tl Tr Hlf Hrt].
  assert (mleft s = false \/ mo s = Z.of_nat sp -> (sp <= length dn)%nat ->
    exists s', (d ← setmsg (mr s) m; Ok (mkRotm false (ml s) d
      (mo (if mo s =? Z.of_nat sp then mkRotm false (ml s) (mr s) 0 else s) + 1))) = Ok s' /\
      rotminv (dn ++ [m]) s') as Hright.
  { intros _ Hle. destruct (rotm_setmsg (mr s) P2 (drop sp dn) dn m Q E) as (n & -> & Rn & Tn);
      [by apply sublist_submseteq, sublist_drop|done|done|].
    rewrite bind_ok. eexists. split; [reflexivity|].
    split; cbn [ml mr mleft mo]; try done.
    - by rewrite take_app_le.
    - by rewrite drop_app_le.
    - intros _. rewrite length_app. lia. }
  cbn zeta. destruct (Z.eqb_spec (mo s) (Z.of_nat sp)) as [Eo|Hne]; cbn [mleft ml mr].
  - apply Hright; [by right|]. destruct (mleft s); [|by apply Hrt].
    destruct (Hlf eq_refl) as [H1 H2]. unfold zlen in H1. lia.
  - destruct (mleft s) eqn:El; cbn [mleft ml mr].
    + destruct (Hlf eq_refl) as [H1 H2]. assert (length dn < sp)%nat by (unfold zlen in *; lia).
      rewrite take_ge in Hl by lia. rewrite drop_ge in Hr by lia.
      destruct (rotm_setmsg (ml s) P1 dn dn m Q E) as (n & -> & Rn & Tn); [done|done|done|].
      rewrite bind_ok. eexists. split; [reflexivity|].
      split; cbn [ml mr mleft mo]; try done.
      * rewrite take_ge by (rewrite length_app; cbn; lia). done.
      * rewrite drop_ge by (rewrite length_app; cbn; lia). done.
      * intros _. rewrite zlen_app, length_app. cbn. unfold zlen in *. cbn. lia.
    + apply Hright; [by left|by apply Hrt].
Qed.

Lemma rotmsgs_spec x kx mx suf : forall pre dn s,
  blk_repr x kx mx -> btyp x = Tpivot -> mx = pre ++ suf -> (exists Q, all = dn ++ suf ++ Q) ->
  rotminv dn s ->
  exists s', rotmsgs (length suf) x (Z.of_nat sp) (zlen pre) s = Ok s' /\ rotminv (dn ++ suf) s'.
Proof using Hops Hroom.
  induction suf as [|m suf IH]; intros pre dn s R T -> [Q E] I.
  { exists s. by rewrite app_nil_r. }
  destruct (rotm_step dn m (suf ++ Q) s E I) as (s1 & E1 & I1).
  cbn [rotmsgs length]. rewrite (getmsg_middle _ _ _ _ _ R T), bind_ok. cbn zeta in E1.
  apply bind_Ok in E1 as (d & Ed & E1). rewrite Ed, bind_ok. apply Ok_inj in E1. rewrite E1.
  replace (zlen pre + 1) with (zlen (pre ++ [m])) by (autorewrite with gefs; lia).
  destruct (IH (pre ++ [m]) (dn ++ [m]) s1) as (s' & Es & I'); [done|done| | |done|].
  - by rewrite <- app_assoc.
  - exists Q. by rewrite <- app_assoc.
  - exists s'. split; [done|]. by rewrite <- app_assoc in I'.
Qed.
End RotateMsgs.

Lemma kvs_valsz_nil : kvs_valsz [] = 0.
Proof. done. Qed.

Lemma rotate_repr a b ka kb ma mb half l r Q x :
  neighbours a b ka kb ma mb -> kvs_sorted (ka ++ kb) -> keys_sorted (msg_keys (ma ++ mb)) ->
  blk_repr l [] [] -> blk_repr r [] [] -> btyp l = btyp a -> btyp r = btyp a ->
  0 < half -> ka ++ kb = Q ++ [x] -> half <= kvs_valsz Q ->
  exists l' r' K1 kv K2 M1 M2,
    rotate a b half l r = Ok (l', r') /\ blk_repr l' K1 M1 /\ blk_repr r' (kv :: K2) M2 /\
    btyp l' = btyp a /\ btyp r' = btyp a /\
    ka ++ kb = K1 ++ kv :: K2 /\ ma ++ mb = M1 ++ M2 /\ K1 <> [] /\ half <= kvs_valsz K1 /\
    Forall (fun m => key_lt (mk m) (k kv)) M1 /\ Forall (fun m => key_le (k kv) (mk m)) M2.
Proof.
  intros N Hs Hms Rl Rr Tl Tr Hpos HQ Hhalf.
  assert (rotinv a ma mb half [] (mkRotst true l r 0 0) [] []) as I0.
  { split; cbn; try done; [intros [] ? ?; done|by left]. }
  assert (blk_repr a ka ma) as Ra by apply N. assert (blk_repr b kb mb) as Rb by apply N.
  edestruct (rotvals_spec a b ka kb ma mb half N Hs Hms a ka ma ka [] []) as (s1 & P1 & P2 & E1 & I1);
    [exact Ra|reflexivity|by exists kb|exact I0|].
  edestruct (rotvals_spec a b ka kb ma mb half N Hs Hms b kb mb kb [] ka) as (s2 & Q1 & Q2 & E2 & I2);
    [exact Rb|reflexivity|exists []; by rewrite app_nil_r|exact I1|].
  unfold rotate. rewrite (repr_nval _ _ _ Ra), (repr_nval _ _ _ Rb). unfold zlen at 1 2.
  rewrite !Nat2Z.id. change (zlen []) with 0 in *. cbn [app] in I1. rewrite E1, bind_ok, E2, bind_ok.
  destruct I2 as [Hsp I2l I2r I2tl I2tr I2sz I2left I2right I2pre I2sp].
  assert (rleft s2 = false) as Hlf.
  { destruct (rleft s2); [exfalso|done]. rewrite (I2left eq_refl), app_nil_r in Hsp. subst Q1.
    pose proof (I2pre _ _ HQ). lia. }
  destruct (I2right Hlf) as [Hne Hh]. destruct Q2 as [|kv K2]; [done|].
  assert (Q1 <> []) as Hq1 by (intros ->; rewrite kvs_valsz_nil in Hh; lia).
  destruct (decide (btyp a = Tpivot)) as [Ta|Ta].
  - rewrite bool_decide_true by done.
    destruct (I2sp Ta) as [[Hnil _]|(kv' & _ & Hsp' & Hhd)].
    { rewrite Hsp in Hnil. by destruct Q1. }
    specialize (Hhd Hlf). cbn in Hhd. simplify_eq.
    set (sp := lowerb (k kv') (msg_keys (ma ++ mb))) in *. rewrite Hsp'.
    pose proof (neighbours_ops _ _ _ _ _ _ N) as Hops. pose proof (nb_msgs _ _ _ _ _ _ N) as Hroom.
    assert (btyp b = Tpivot) as Tb by (rewrite <- (nb_typ _ _ _ _ _ _ N); done).
    assert (rotminv Q1 (kv' :: K2) sp [] (mkRotm true (rl s2) (rr s2) 0)) as M0.
    { split; cbn; try done; [by rewrite take_nil|by rewrite drop_nil|congruence|congruence|].
      intros _. split; [done|lia]. }
    edestruct (rotmsgs_spec (ma ++ mb) Q1 (kv' :: K2) sp Hops Hroom a ka ma ma [] []) as (m1 & F1 & M1);
      [exact Ra|exact Ta|reflexivity|by exists mb|exact M0|].
    edestruct (rotmsgs_spec (ma ++ mb) Q1 (kv' :: K2) sp Hops Hroom b kb mb mb [] ma) as (m2 & F2 & M2);
      [exact Rb|exact Tb|reflexivity|exists []; by rewrite app_nil_r|exact M1|].
    rewrite (repr_nbuf _ _ _ Ra), (repr_nbuf _ _ _ Rb). unfold zlen at 1 2. rewrite !Nat2Z.id.
    change (zlen []) with 0 in *. rewrite F1, bind_ok, F2, bind_ok. cbn [app] in M2.
    exists (ml m2), (mr m2), Q1, kv', K2, (take sp (ma ++ mb)), (drop sp (ma ++ mb)).
    pose proof (lowerb_lookup (k kv') _ Hms) as Hlk. fold sp in Hlk.
    split_and!; try done; try apply M2.
    + rewrite Ta. apply M2.
    + rewrite Ta. apply M2.
    + by rewrite take_drop.
    + apply Forall_lookup_2. intros i m Hm. apply lookup_take_Some in Hm as [Hm Hi].
      apply (Hlk i); [|done]. unfold msg_keys. by rewrite list_lookup_fmap, Hm.
    + apply Forall_lookup_2. intros i m Hm. rewrite lookup_drop in Hm.
      destruct (keycmp_cases (mk m) (k kv')) as [[_ H]|[[_ ->]|[_ H]]]; [|reflexivity|by apply key_lt_le].
      exfalso. assert (sp + i < sp)%nat; [|lia]. apply (Hlk _ (mk m)); [|done].
      unfold msg_keys. by rewrite list_lookup_fmap, Hm.
  - rewrite bool_decide_false by done.
    destruct (neighbours_leaf _ _ _ _ _ _ N Ta) as (Tlf & -> & ->).
    exists (rl s2), (rr s2), Q1, kv, K2, [], []. split_and!; try done; congruence.
Qed.

(** ** The pointers to new children *)

Lemma blkfill_repr b kvs ms :
  blk_repr b kvs ms ->
  blkfill b = Ok (kvs_valsz kvs + 2 * zlen ms + msgs_size ms).
Proof.
  intros R. pose proof (repr_fill _ _ _ R). pose proof (bspc_bound b).
  pose proof (kvs_valsz_nonneg kvs). pose proof (zlen_nonneg ms). pose proof (msgs_size_nonneg ms).
  unfold blkfill, kvs_valsz in *. rewrite (repr_nval _ _ _ R), (repr_valsz _ _ _ R).
  destruct (repr_typ _ _ _ R) as [T|T]; rewrite T.
  - rewrite (repr_leaf _ _ _ R T). rewrite u16_id by lia. f_equal.
    change (zlen (@nil Msg)) with 0. change (msgs_size []) with 0. lia.
  - rewrite (repr_nbuf _ _ _ R), (repr_bufsz _ _ _ R).
    pose proof (repr_buffill _ _ _ R T) as Hb. unfold bspc in *. rewrite decide_False in * by (by rewrite T).
    destruct layout_sizes as (? & HP & HB & ?). rewrite u16_id by lia. f_equal. lia.
Qed.

Definition minkey (kc : list Kvp) (mc : list Msg) : list Z :=
  match kc, mc with
  | kv :: _, m :: _ => if 0 <? keycmp (k kv) (mk m) then mk m else k kv
  | kv :: _, [] => k kv
  | [], _ => []
  end.

Definition ptr_kv (key : list Z) (p : Bptr) (fill : Z) : Kvp :=
  mkKvp key ((pack 8 (addr p) ++ pack 8 (hash p) ++ pack 8 (gen p)) ++ pack 2 fill).

(** The entry for a new child, if there is one. *)
Definition kidptr (oc : option Blk) (l : list Kvp) : Prop :=
  match oc with
  | None => l = []
  | Some c => exists kc mc, blk_repr c kc mc /\ kc <> [] /\ zlen (minkey kc mc) <= Keymax /\
      Forall (fun kv => nv kv <= Inlmax) kc /\
      l = [ptr_kv (minkey kc mc) (bp c) (kvs_valsz kc + 2 * zlen mc + msgs_size mc)]
  end.

(** The size copyup counts a new child with: its least key, its first value. *)
Definition kidcount (oc : option Blk) : Z :=
  match oc with
  | None => 0
  | Some c =>
      match getval c 0, (if 0 <? nbuf c then getmsg c 0 else Fail Undef) with
      | Ok kv, Ok m => valsz (if 0 <? keycmp (k kv) (mk m) then mkKvp (mk m) (v kv) else kv)
      | Ok kv, Fail _ => valsz kv
      | Fail _, _ => 0
      end
  end.

Lemma nv_ptr_kv key p fill : nv (ptr_kv key p fill) = 26.
Proof. unfold nv, ptr_kv. cbn [v]. by autorewrite with gefs. Qed.

Lemma valsz_ptr_kv key p fill : zlen key <= Keymax -> valsz (ptr_kv key p fill) <= 288.
Proof.
  intros H. unfold valsz. rewrite nv_ptr_kv. unfold nk, ptr_kv, Keymax, Maxent in *. cbn [k]. lia.
Qed.

Lemma setptr_kv n key p fill : setptr n key p fill = setval n (ptr_kv key p fill).
Proof. unfold setptr, packbp. rewrite check_leb by (unfold Ptrsz; lia). done. Qed.

Lemma setval_room n kn mn kv :
  blk_repr n kn mn -> entry_ok kv -> kvs_valsz (kn ++ [kv]) <= bspc n ->
  exists n', setval n kv = Ok n' /\ blk_repr n' (kn ++ [kv]) mn /\ btyp n' = btyp n /\ bp n' = bp n.
Proof.
  intros R He Hr. rewrite kvs_valsz_app, kvs_valsz_one in Hr. apply setval_repr; [done|done|].
  unfold kvs_valsz, valsz, kvsz in *. lia.
Qed.

Lemma kid_head c kv0 kc mc :
  blk_repr c (kv0 :: kc) mc ->
  getval c 0 = Ok kv0 /\ nbuf c = zlen mc /\
  (forall m t, mc = m :: t -> (0 <? nbuf c) = true /\ getmsg c 0 = Ok m).
Proof.
  intros Rc. split_and!.
  - exact (getval_middle c [] kv0 kc mc Rc).
  - apply Rc.
  - intros m t ->. rewrite (repr_nbuf _ _ _ Rc), zlen_cons. pose proof (zlen_nonneg t).
    split; [apply Z.ltb_lt; lia|]. eapply (getmsg_middle c _ [] m t Rc).
    destruct (repr_typ _ _ _ Rc) as [T|T]; [|done]. by pose proof (repr_leaf _ _ _ Rc T).
Qed.

Lemma kidcount_repr c kv0 kc mc :
  blk_repr c (kv0 :: kc) mc ->
  kidcount (Some c) = valsz (mkKvp (minkey (kv0 :: kc) mc) (v kv0)).
Proof.
  intros Rc. destruct (kid_head _ _ _ _ Rc) as (Hg & Hn & Hm). unfold kidcount. rewrite Hg.
  destruct mc as [|m mc].
  - assert ((0 <? nbuf c) = false) as -> by (by rewrite Hn). by destruct kv0.
  - destruct (Hm m mc eq_refl) as [-> ->]. cbn [minkey].
    destruct (0 <? keycmp (k kv0) (mk m)); [done|by destruct kv0].
Qed.

Lemma kidcount_bound oc l : kidptr oc l -> -26 <= kidcount oc - kvs_valsz l <= 486.
Proof.
  destruct oc as [c|]; cbn [kidptr]; [|intros ->; by vm_compute].
  intros (kc & mc & Rc & Hne & Hk & Hnv & ->). destruct kc as [|kv0 kc]; [done|].
  apply Forall_cons in Hnv as [Hnv _]. rewrite (kidcount_repr _ _ _ _ Rc), kvs_valsz_one.
  unfold valsz. rewrite !nv_ptr_kv. unfold nk, nv, ptr_kv, Inlmax in *. cbn [k v].
  pose proof (zlen_nonneg (v kv0)). lia.
Qed.

Lemma copyup1_repr n kn mn oc l nb :
  kidptr oc l -> blk_repr n kn mn -> kvs_valsz (kn ++ l) <= bspc n ->
  exists n', copyup1 n oc nb = Ok (n', nb + kidcount oc) /\ blk_repr n' (kn ++ l) mn /\
    btyp n' = btyp n /\ bp n' = bp n.
Proof.
  intros Hk Rn Hroom. destruct oc as [c|]; cbn [kidptr copyup1] in *.
  2: { subst l. exists n. rewrite app_nil_r. cbn. rewrite Z.add_0_r. split_and!; done. }
  destruct Hk as (kc & mc & Rc & Hne & Hkey & _ & ->). destruct kc as [|kv0 kc]; [done|].
  rewrite (kidcount_repr _ _ _ _ Rc). destruct (kid_head _ _ _ _ Rc) as (Hg & Hn & Hm).
  rewrite Hg, bind_ok, (blkfill_repr _ _ _ Rc).
  assert ((if 0 <? nbuf c then
             m ← getmsg c 0; Ok (if 0 <? keycmp (k kv0) (mk m) then mkKvp (mk m) (v kv0) else kv0)
           else Ok kv0) = Ok (mkKvp (minkey (kv0 :: kc) mc) (v kv0))) as ->.
  { destruct mc as [|m mc].
    - assert ((0 <? nbuf c) = false) as -> by (by rewrite Hn). by destruct kv0.
    - destruct (Hm m mc eq_refl) as [-> ->]. rewrite bind_ok. cbn [minkey].
      destruct (0 <? keycmp (k kv0) (mk m)); [done|by destruct kv0]. }
  rewrite !bind_ok. cbn [k]. rewrite setptr_kv.
  destruct (setval_room n kn mn (ptr_kv (minkey (kv0 :: kc) mc) (bp c)
    (kvs_valsz (kv0 :: kc) + 2 * zlen mc + msgs_size mc)) Rn) as (n' & -> & R' & T' & P').
  { intros _. by rewrite nv_ptr_kv. }
  { done. }
  rewrite bind_ok. exists n'. done.
Qed.

Lemma copyup_repr n kn mn pp l1 l2 nb :
  kidptr (knl pp) l1 -> kidptr (knr pp) l2 -> blk_repr n kn mn ->
  kvs_valsz (kn ++ l1 ++ l2) <= bspc n ->
  exists n', copyup n pp nb = Ok (n', nb + (kidcount (knl pp) + kidcount (knr pp))) /\
    blk_repr n' (kn ++ l1 ++ l2) mn /\ btyp n' = btyp n /\ bp n' = bp n.
Proof.
  intros H1 H2 Rn Hroom. unfold copyup.
  destruct (copyup1_repr n kn mn (knl pp) l1 nb H1 Rn) as (n1 & -> & R1 & T1 & P1).
  { rewrite app_assoc, kvs_valsz_app in Hroom. pose proof (kvs_valsz_nonneg l2). lia. }
  rewrite bind_ok.
  destruct (copyup1_repr n1 (kn ++ l1) mn (knr pp) l2 (nb + kidcount (knl pp)) H2 R1) as (n2 & -> & R2 & T2 & P2).
  { unfold bspc in *. by rewrite T1, <- app_assoc. }
  exists n2. rewrite <- app_assoc in R2. rewrite Z.add_assoc. split_and!; [done|done|congruence|congruence].
Qed.

(** * updatepiv *)

Lemma total_msgsz_eq ms : total_msgsz ms = 2 * zlen ms + msgs_size ms.
Proof.
  induction ms as [|m ms IH]; [done|]. rewrite total_msgsz_cons, IH, zlen_cons, msgs_size_cons.
  unfold emsz. lia.
Qed.

Lemma pullmsg_eq src lo hi a c key om full spc :
  src_repr src lo (a ++ c) -> hi = lo + zlen (a ++ c) ->
  pullmsg src hi (lo + zlen a) key om full spc =
    match c with
    | [] => Ok (-1, om, full)
    | m :: _ =>
        if full then Ok (-1, om, full)
        else if msgsz m <=? spc
        then Ok (match key with None => 0 | Some key => keycmp key (mk m) end, Some m, false)
        else Ok (-1, Some m, true)
    end.
Proof.
  intros Hs ->. unfold pullmsg. pose proof (src_repr_len _ _ _ _ Hs). rewrite zlen_app.
  destruct (Z.ltb_spec (lo + zlen a) 0); [lia|]. destruct c as [|m c].
  - rewrite zlen_nil. destruct (Z.leb_spec (lo + (zlen a + 0)) (lo + zlen a)); [done|lia].
  - rewrite zlen_cons. pose proof (zlen_nonneg c).
    destruct (Z.leb_spec (lo + (zlen a + (1 + zlen c))) (lo + zlen a)); [lia|]. cbn [orb].
    destruct full; [done|]. by rewrite (src_repr_get _ _ _ _ _ Hs), bind_ok.
Qed.

Section UpdatePiv.
  Context (b : Blk) (kvs : list Kvp) (ms : list Msg) (src : msgsrc) (lo hi : Z) (pms : list Msg).
  Context (plo np : Z) (pp : option kid).
  Hypothesis R : blk_repr b kvs ms.
  Hypothesis Tb : btyp b = Tpivot.
  Hypothesis Hsrc : src_repr src lo pms.
  Hypothesis Hhi : hi = lo + zlen pms.
  Hypothesis Hms : msgs_sorted ms.
  Hypothesis Hpms : msgs_sorted pms.
  Hypothesis Hops : Forall (fun m => 0 <= op m < 128) pms.
  Hypothesis Hsmall : Forall msg_small pms.
  (* the child at plo has pulled np messages, or there is none *)
  Hypothesis Hpp : (pp = None /\ plo = -1 /\ np = 0) \/
    (exists c, pp = Some c /\ knpull c = np /\ 0 <= plo /\ 0 <= np /\ plo + np <= zlen ms).

(** What is left in the buffer from index i on. *)
Definition restfrom (i : Z) : list Msg :=
  if i <=? plo then drop (Z.to_nat i) (take (Z.to_nat plo) ms) ++ drop (Z.to_nat (plo + np)) ms
  else drop (Z.to_nat i) ms.
Definition rest : list Msg := restfrom 0.

Definition validi (i : Z) : Prop := 0 <= i <= plo \/ (plo + np <= i <= zlen ms /\ plo < i).

Lemma skip_next i :
  validi i -> i < zlen ms ->
  exists i', skippulled plo pp i = Ok i' /\
    ((i' = zlen ms /\ restfrom i = []) \/
     exists m, getmsg b i' = Ok m /\ restfrom i = m :: restfrom (i' + 1) /\ validi (i' + 1) /\
       m ∈ ms /\ i' < zlen ms /\ validi i' /\ restfrom i' = restfrom i).
Proof using All.
  intros Hv Hi.
  assert (forall j, 0 <= j < zlen ms -> exists m, getmsg b j = Ok m /\
    drop (Z.to_nat j) ms = m :: drop (Z.to_nat (j + 1)) ms /\ m ∈ ms /\ ms !! Z.to_nat j = Some m) as Hget.
  { intros j Hj. destruct (lookup_lt_is_Some_2 ms (Z.to_nat j)) as [m Hm]; [unfold zlen in *; lia|].
    exists m. split_and!; [| |by eapply list_elem_of_lookup_2|done].
    - rewrite <- (Z2Nat.id j) by lia. by eapply getmsg_repr.
    - rewrite (drop_S _ _ _ Hm). do 2 f_equal. lia. }
  unfold skippulled. destruct (Z.eqb_spec i plo) as [->|Hne].
  - destruct Hpp as [(_ & -> & _)|(c & -> & Hc & H0 & Hn & Hle)].
    { destruct Hv; lia. }
    rewrite Hc. exists (plo + np). split; [done|].
    assert (restfrom plo = drop (Z.to_nat (plo + np)) ms) as Er.
    { unfold restfrom. rewrite Z.leb_refl. rewrite drop_ge by (rewrite length_take; lia). done. }
    rewrite Er. destruct (decide (plo + np = zlen ms)) as [E|].
    + left. split; [done|]. apply drop_ge. unfold zlen in E. lia.
    + right. destruct (Hget (plo + np)) as (m & Hg & Hd & Hin & _); [lia|]. exists m.
      split_and!; try done.
      * rewrite Hd. f_equal. unfold restfrom.
        destruct (Z.leb_spec (plo + np + 1) plo); [lia|done].
      * right. lia.
      * lia.
      * destruct (decide (np = 0)) as [->|]; [left; lia|right; lia].
      * destruct (decide (np = 0)) as [->|]; [by rewrite Z.add_0_r in *|].
        unfold restfrom. destruct (Z.leb_spec (plo + np) plo); [lia|done].
  - exists i. split; [done|]. right.
    assert (0 <= i) as H0.
    { destruct Hv as [|[? ?]]; [lia|]. destruct Hpp as [(_ & -> & ->)|(c & _ & _ & ? & ? & _)]; lia. }
    destruct (Hget i) as (m & Hg & Hd & Hin & Hlk); [lia|]. exists m.
    destruct (Z.leb_spec i plo) as [Hip|Hip].
    + unfold restfrom. destruct (Z.leb_spec i plo); [|lia]. destruct (Z.leb_spec (i + 1) plo); [|lia].
      split_and!; try done; [|left; lia].
      rewrite (drop_S (take (Z.to_nat plo) ms) m (Z.to_nat i)).
      * cbn [app]. do 3 f_equal. lia.
      * apply lookup_take_Some. split; [done|lia].
    + unfold restfrom. destruct (Z.leb_spec i plo); [lia|]. destruct (Z.leb_spec (i + 1) plo); [lia|].
      split_and!; try done. right. destruct Hv as [|[? ?]]; lia.
Qed.

(** [dn] of the buffer's messages and [pl] of the parent's are in [out]. *)
Record pvinv (kn : list Kvp) (dn rs pl pm out : list Msg) (s : pivst) (pull0 : Z) : Prop := {
  pv_rest : rest = dn ++ rs;
  pv_pms : pms = pl ++ pm;
  pv_j : vj s = lo + zlen pl;
  pv_sz : 0 <= vsz s;
  pv_spc : 0 <= vspc s;
  pv_room : total_msgsz out + total_msgsz rs + vspc s <= Bufspc;
  pv_pull : vpull s = pull0 + total_msgsz pl;
  pv_repr : blk_repr (vn s) kn out;
  pv_typ : btyp (vn s) = Tpivot;
  pv_sorted : msgs_sorted out;
  pv_below : forall x y, x ∈ out -> y ∈ rs -> key_le (mk x) (mk y);
  pv_pbelow : vfull s = false -> forall x y, x ∈ out -> y ∈ pm -> key_le (mk x) (mk y);
  pv_strict : forall x y, x ∈ pl -> y ∈ rs -> key_lt (mk x) (mk y);
  pv_map : forall key, for_key key out = for_key key dn ++ for_key key pl
}.

Lemma sorted_snoc out m :
  msgs_sorted out -> (forall x, x ∈ out -> key_le (mk x) (mk m)) -> msgs_sorted (out ++ [m]).
Proof.
  intros Hs Hle. unfold msgs_sorted, keys_sorted, msg_keys. rewrite fmap_app.
  apply StronglySorted_app_2; [|done|repeat constructor].
  intros x y Hx Hy. apply list_elem_of_singleton in Hy as ->.
  apply list_elem_of_fmap in Hx as (z & -> & Hz). by apply Hle.
Qed.

Lemma sorted_head m t : msgs_sorted (m :: t) -> forall y, y ∈ t -> key_le (mk m) (mk y).
Proof.
  intros Hs y Hy. apply StronglySorted_inv in Hs as [_ Hs]. rewrite Forall_forall in Hs.
  apply Hs. apply list_elem_of_fmap. by exists y.
Qed.

Lemma sorted_suffix a c : msgs_sorted (a ++ c) -> msgs_sorted c.
Proof.
  unfold msgs_sorted, keys_sorted, msg_keys. rewrite fmap_app. apply StronglySorted_app_1_r.
Qed.

Lemma pv_setmsg n kn out m spc :
  blk_repr n kn out -> btyp n = Tpivot -> 0 <= op m < 128 -> 0 <= spc ->
  total_msgsz out + msgsz m + spc <= Bufspc ->
  exists n', setmsg n m = Ok n' /\ blk_repr n' kn (out ++ [m]) /\ btyp n' = Tpivot.
Proof.
  intros Rn Tn Ho Hspc Hr. rewrite total_msgsz_eq in Hr.
  destruct (setmsg_repr n kn out m Rn Tn Ho) as (n' & E & R' & T' & _).
  - unfold emsz. lia.
  - by exists n'.
Qed.

(** An old message is copied. *)
Lemma pv_copy kn dn m rs pl pm out s pull0 full i n :
  pvinv kn dn (m :: rs) pl pm out s pull0 -> msgs_sorted (m :: rs) ->
  blk_repr n kn (out ++ [m]) -> btyp n = Tpivot -> (vfull s = true -> full = true) ->
  (full = false -> forall u t, pm = u :: t -> key_le (mk m) (mk u)) ->
  pvinv kn (dn ++ [m]) rs pl pm (out ++ [m])
    (mkPivst i (vj s) (vsz s) full (vspc s) n (vpull s)) pull0.
Proof using Hpms.
  intros [Hre Hpm Hj Hsz Hspc Hroom Hpull Hr Ht Hso Hb Hpb Hst Hmap] Hsr Rn Tn Hfull Hle.
  split; cbn [vj vsz vspc vpull vn vfull]; try done.
  - by rewrite <- app_assoc.
  - rewrite total_msgsz_app, !total_msgsz_cons in *. change (total_msgsz []) with 0. lia.
  - apply sorted_snoc; [done|]. intros x Hx. apply Hb; [done|by left].
  - intros x y Hx Hy. apply elem_of_app in Hx as [Hx|Hx]; [apply Hb; [done|by right]|].
    apply list_elem_of_singleton in Hx as ->. by eapply sorted_head.
  - intros -> x y Hx Hy. apply elem_of_app in Hx as [Hx|Hx].
    + apply Hpb; [|done|done]. destruct (vfull s); [by specialize (Hfull eq_refl)|done].
    + apply list_elem_of_singleton in Hx as ->. destruct pm as [|u t]; [by apply elem_of_nil in Hy|].
      pose proof (Hle eq_refl u t eq_refl) as Hmu. apply elem_of_cons in Hy as [->|Hy]; [done|].
      etrans; [exact Hmu|]. eapply sorted_head; [|exact Hy]. rewrite Hpm in Hpms. by eapply sorted_suffix.
  - intros x y Hx Hy. apply Hst; [done|by right].
  - intros key. rewrite !for_key_app, Hmap, <- !app_assoc. f_equal.
    unfold for_key at 2 3. rewrite filter_cons, filter_nil. case_decide as Hk; [|by rewrite app_nil_r].
    rewrite for_key_none; [done|]. apply Forall_forall. intros x Hx E.
    apply (irreflexivity key_lt key). rewrite <- Hk at 2. rewrite <- E at 1. apply Hst; [done|by left].
Qed.

(** A message of the parent is pulled. *)
Lemma pv_take kn dn rs pl u pm out s pull0 n :
  pvinv kn dn rs pl (u :: pm) out s pull0 -> vfull s = false -> msgsz u <= vspc s ->
  (forall y, y ∈ rs -> key_lt (mk u) (mk y)) ->
  blk_repr n kn (out ++ [u]) -> btyp n = Tpivot ->
  pvinv kn dn rs (pl ++ [u]) pm (out ++ [u])
    (mkPivst (vi s) (vj s + 1) (msgsz u) false (vspc s - msgsz u) n (vpull s + msgsz u)) pull0.
Proof using Hpms.
  intros [Hre Hpm Hj Hsz Hspc Hroom Hpull Hr Ht Hso Hb Hpb Hst Hmap] Hfull Hfit Hlt Rn Tn.
  pose proof (msgsz_pos u).
  split; cbn [vj vsz vspc vpull vn vfull]; try done; try lia.
  - by rewrite <- app_assoc.
  - rewrite zlen_app, zlen_cons, zlen_nil. lia.
  - rewrite total_msgsz_app, total_msgsz_cons. change (total_msgsz []) with 0. lia.
  - rewrite total_msgsz_app, total_msgsz_cons. change (total_msgsz []) with 0. lia.
  - apply sorted_snoc; [done|]. intros x Hx. apply Hpb; [done|done|by left].
  - intros x y Hx Hy. apply elem_of_app in Hx as [Hx|Hx]; [by apply Hb|].
    apply list_elem_of_singleton in Hx as ->. by apply key_lt_le, Hlt.
  - intros _ x y Hx Hy. apply elem_of_app in Hx as [Hx|Hx]; [apply Hpb; [done|done|by right]|].
    apply list_elem_of_singleton in Hx as ->. eapply sorted_head; [|exact Hy].
    rewrite Hpm in Hpms. by eapply sorted_suffix.
  - intros x y Hx Hy. apply elem_of_app in Hx as [Hx|Hx]; [by apply Hst|].
    apply list_elem_of_singleton in Hx as ->. by apply Hlt.
  - intros key. by rewrite !for_key_app, Hmap, <- !app_assoc.
Qed.

(** Only the flag changes. *)
Lemma pv_flag kn dn rs pl pm out s pull0 full i :
  pvinv kn dn rs pl pm out s pull0 -> (full = false -> vfull s = false) ->
  pvinv kn dn rs pl pm out (mkPivst i (vj s) (vsz s) full (vspc s) (vn s) (vpull s)) pull0.
Proof. intros [] Hf. split; cbn; auto. Qed.

Lemma pv_src kn dn rs pl pm out s pull0 key om full spc :
  pvinv kn dn rs pl pm out s pull0 ->
  pullmsg src hi (vj s) key om full spc =
    match pm with
    | [] => Ok (-1, om, full)
    | m :: _ =>
        if full then Ok (-1, om, full)
        else if msgsz m <=? spc
        then Ok (match key with None => 0 | Some key => keycmp key (mk m) end, Some m, false)
        else Ok (-1, Some m, true)
    end.
Proof using Hsrc Hhi.
  intros I. rewrite (pv_j _ _ _ _ _ _ _ _ I). apply pullmsg_eq.
  - by rewrite <- (pv_pms _ _ _ _ _ _ _ _ I).
  - by rewrite <- (pv_pms _ _ _ _ _ _ _ _ I).
Qed.

Lemma pv_op kn dn rs pl u pm out s pull0 :
  pvinv kn dn rs pl (u :: pm) out s pull0 -> 0 <= op u < 128 /\ msg_small u.
Proof using Hops Hsmall.
  intros I. pose proof Hops as H1. pose proof Hsmall as H2.
  rewrite (pv_pms _ _ _ _ _ _ _ _ I) in H1, H2.
  apply Forall_app in H1 as [_ H1]. apply Forall_app in H2 as [_ H2].
  apply Forall_cons in H1 as [H1 _]. by apply Forall_cons in H2 as [H2 _].
Qed.

Lemma pullrun_spec kn dn rs pull0 key fuel : forall pl pm out s,
  pvinv kn dn rs pl pm out s pull0 -> (forall y, y ∈ rs -> key_lt key (mk y)) ->
  (length pm < fuel)%nat ->
  exists s' pl' pm' out', pullrun fuel src hi key s = Ok s' /\
    pvinv kn dn rs pl' pm' out' s' pull0 /\ vi s' = vi s /\ (length pm' <= length pm)%nat /\
    (forall u t, pm = u :: t -> mk u = key -> msgsz u <= vspc s -> vfull s = false ->
       (length pm' < length pm)%nat).
Proof using All.
  induction fuel as [|fuel IH]; intros pl pm out s I Hlt Hf; [lia|].
  cbn [pullrun]. rewrite (pv_src _ _ _ _ _ _ _ _ _ _ _ _ I).
  assert (forall full, (full = false -> vfull s = false) ->
    (forall u t, pm = u :: t -> mk u = key -> msgsz u <= vspc s -> vfull s = false -> False) ->
    exists s' pl' pm' out',
      Ok (mkPivst (vi s) (vj s) (vsz s) full (vspc s) (vn s) (vpull s)) = Ok s' /\
      pvinv kn dn rs pl' pm' out' s' pull0 /\ vi s' = vi s /\ (length pm' <= length pm)%nat /\
      (forall u t, pm = u :: t -> mk u = key -> msgsz u <= vspc s -> vfull s = false ->
         (length pm' < length pm)%nat)) as Hstop.
  { intros full Hfl Hno. eexists _, pl, pm, out. split_and!; [reflexivity|by apply pv_flag|done|done|].
    intros u t -> E1 E2 E3. destruct (Hno u t eq_refl E1 E2 E3). }
  destruct pm as [|u pm]; [by apply Hstop|].
  destruct (vfull s) eqn:Hfull; [by apply Hstop|].
  destruct (Z.leb_spec (msgsz u) (vspc s)) as [Hfit|].
  2: { apply Hstop; [done|]. intros u' t [= -> ->] _ Hx. lia. }
  rewrite bind_ok. destruct (Z.eqb_spec (keycmp key (mk u)) 0) as [E|Hne].
  2: { apply Hstop; [done|]. intros u' t [= -> ->] Hk. rewrite Hk, keycmp_refl in Hne. done. }
  apply keycmp_eq in E. subst key. cbn [of_option]. rewrite bind_ok.
  destruct (pv_op _ _ _ _ _ _ _ _ _ I) as [Ho _].
  destruct (pv_setmsg (vn s) kn out u (vspc s - msgsz u)) as (n & -> & Rn & Tn); try apply I; [done|lia| |].
  { pose proof (pv_room _ _ _ _ _ _ _ _ I). pose proof (total_msgsz_nonneg rs). lia. }
  rewrite bind_ok. pose proof (pv_take _ _ _ _ _ _ _ _ _ _ I Hfull Hfit Hlt Rn Tn) as I'.
  cbn in Hf. destruct (IH _ _ _ _ I' Hlt) as (s' & pl' & pm' & out' & -> & I'' & Hvi & Hl & _); [lia|].
  exists s', pl', pm', out'. split_and!; [done|done|done|cbn; lia|]. intros. cbn. lia.
Qed.

Lemma pullrest_spec kn dn pull0 fuel : forall pl pm out s,
  pvinv kn dn [] pl pm out s pull0 -> (length pm <= fuel)%nat ->
  exists s' pl' pm' out', pullrest fuel src hi s = Ok s' /\ pvinv kn dn [] pl' pm' out' s' pull0.
Proof using All.
  induction fuel as [|fuel IH]; intros pl pm out s I Hf; cbn [pullrest];
    rewrite (pv_j _ _ _ _ _ _ _ _ I), Hhi, (pv_pms _ _ _ _ _ _ _ _ I), zlen_app;
    (destruct pm as [|u pm];
      [rewrite zlen_nil; destruct (Z.leb_spec (lo + (zlen pl + 0)) (lo + zlen pl)); [|lia];
       by exists s, pl, [], out|]).
  { cbn in Hf. lia. }
  rewrite zlen_cons. pose proof (zlen_nonneg pm).
  destruct (Z.leb_spec (lo + (zlen pl + (1 + zlen pm))) (lo + zlen pl)); [lia|].
  replace (lo + (zlen pl + (1 + zlen pm))) with hi
    by (rewrite Hhi, (pv_pms _ _ _ _ _ _ _ _ I), zlen_app, zlen_cons; lia).
  rewrite <- (pv_j _ _ _ _ _ _ _ _ I), (pv_src _ _ _ _ _ _ _ _ _ _ _ _ I).
  destruct (vfull s) eqn:Hfull.
  { eexists _, pl, (u :: pm), out. split; [reflexivity|]. by apply pv_flag. }
  destruct (Z.leb_spec (msgsz u) (vspc s)) as [Hfit|].
  2: { eexists _, pl, (u :: pm), out. split; [reflexivity|]. by apply pv_flag. }
  rewrite bind_ok. cbn [of_option]. rewrite bind_ok.
  destruct (pv_op _ _ _ _ _ _ _ _ _ I) as [Ho _].
  destruct (pv_setmsg (vn s) kn out u (vspc s - msgsz u)) as (n & -> & Rn & Tn); try apply I; [done|lia| |].
  { pose proof (pv_room _ _ _ _ _ _ _ _ I) as Hr. change (total_msgsz []) with 0 in Hr. lia. }
  rewrite bind_ok.
  assert (pvinv kn dn [] (pl ++ [u]) pm (out ++ [u]) (mkPivst (vi s) (vj s + 1) (msgsz u) false
    (vspc s - msgsz u) n (vpull s + msgsz u)) pull0) as I'.
  { apply pv_take; try done. intros y Hy. by apply elem_of_nil in Hy. }
  apply (IH _ _ _ _ I'). cbn in Hf. lia.
Qed.

Lemma rest_sorted i : validi i -> msgs_sorted (restfrom i).
Proof using All.
  intros Hv. unfold restfrom. destruct (Z.leb_spec i plo) as [Hi|].
  - assert (msgs_sorted (take (Z.to_nat plo) ms ++ drop (Z.to_nat (plo + np)) ms)) as Hs.
    { assert (0 <= np) as Hnp by (destruct Hpp as [(_ & _ & ->)|(c & _ & _ & _ & H & _)]; lia).
      assert (0 <= plo) as Hplo by (destruct Hpp as [(_ & -> & _)|(c & _ & _ & H & _)]; destruct Hv; lia).
      replace (Z.to_nat (plo + np)) with (Z.to_nat plo + Z.to_nat np)%nat by lia.
      rewrite <- drop_drop. pose proof Hms as H. rewrite <- (take_drop (Z.to_nat plo) ms) in H.
      rewrite <- (take_drop (Z.to_nat np) (drop (Z.to_nat plo) ms)) in H.
      unfold msgs_sorted, keys_sorted, msg_keys in *. rewrite !fmap_app in *.
      apply StronglySorted_app in H as (H1 & H2 & H3). apply StronglySorted_app in H3 as (_ & _ & H4).
      apply StronglySorted_app. split_and!; [|done|done].
      intros x y Hx Hy. apply H1; [done|]. apply elem_of_app. by right. }
    rewrite <- (take_drop (Z.to_nat i) (take (Z.to_nat plo) ms)) in Hs.
    rewrite <- app_assoc in Hs. by apply sorted_suffix in Hs.
  - pose proof Hms as H0. rewrite <- (take_drop (Z.to_nat i) ms) in H0. by apply sorted_suffix in H0.
Qed.

Lemma updatepiv_msgs_spec kn pull0 fuel : forall dn pl pm out s,
  pvinv kn dn (restfrom (vi s)) pl pm out s pull0 -> validi (vi s) ->
  (length (restfrom (vi s)) + length pm < fuel)%nat ->
  exists s' dn' pl' pm' out', updatepiv_msgs fuel b src hi plo pp s = Ok s' /\
    pvinv kn dn' [] pl' pm' out' s' pull0 /\ (length pm' <= length pm)%nat.
Proof using All.
  induction fuel as [|fuel IH]; intros dn pl pm out s I Hv Hf; [lia|].
  cbn [updatepiv_msgs]. rewrite (repr_nbuf _ _ _ R).
  destruct (Z.leb_spec (zlen ms) (vi s)) as [Hend|Hlt].
  { exists s, dn, pl, pm, out. split_and!; [done| |done].
    assert (restfrom (vi s) = []) as E; [|by rewrite E in I].
    unfold restfrom. destruct (Z.leb_spec (vi s) plo).
    - destruct Hpp as [(_ & -> & _)|(c & _ & _ & ? & ? & ?)]; [destruct Hv; lia|].
      rewrite !drop_ge; [done|unfold zlen in *; lia|rewrite length_take; unfold zlen in *; lia].
    - apply drop_ge. unfold zlen in *. lia. }
  destruct (skip_next (vi s) Hv Hlt) as (i' & -> & Hi'). rewrite bind_ok.
  destruct Hi' as [[-> E]|(m & Hg & E & Hv' & Hin & Hlt' & Hvi' & Er)].
  { rewrite Z.eqb_refl. rewrite E in I. eexists _, dn, pl, pm, out.
    split_and!; [reflexivity|by apply pv_flag|done]. }
  destruct (Z.eqb_spec i' (zlen ms)); [lia|]. rewrite Hg, bind_ok.
  pose proof (rest_sorted _ Hv) as Hsr. rewrite E in Hsr, I, Hf. cbn [length] in Hf.
  assert (0 <= op m < 128) as Hom.
  { pose proof (repr_ops _ _ _ R) as H. rewrite Forall_forall in H. by apply H. }
  (* copying m *)
  assert (forall full, (vfull s = true -> full = true) ->
    (full = false -> forall u t, pm = u :: t -> key_le (mk m) (mk u)) ->
    exists s' dn' pl' pm' out',
      (n ← setmsg (vn s) m;
       updatepiv_msgs fuel b src hi plo pp
         (mkPivst (i' + 1) (vj s) (vsz s) full (vspc s) n (vpull s))) = Ok s' /\
      pvinv kn dn' [] pl' pm' out' s' pull0 /\ (length pm' <= length pm)%nat) as Hcopy.
  { intros full Hfl Hle.
    destruct (pv_setmsg (vn s) kn out m (vspc s)) as (n' & -> & Rn & Tn); try apply I; [done| |].
    { pose proof (pv_room _ _ _ _ _ _ _ _ I) as Hr. rewrite total_msgsz_cons in Hr.
      pose proof (total_msgsz_nonneg (restfrom (i' + 1))). lia. }
    rewrite bind_ok. eapply IH; [|exact Hv'|cbn [vi]; lia]. cbn [vi].
    eapply pv_copy; done. }
  rewrite (pv_src _ _ _ _ _ _ _ _ _ _ _ _ I).
  destruct pm as [|u pm]; [by apply Hcopy|].
  destruct (vfull s) eqn:Hfull; [by apply Hcopy|].
  destruct (Z.leb_spec (msgsz u) (vspc s - vsz s)) as [Hfit|]; [|by apply Hcopy].
  rewrite bind_ok. pose proof (pv_sz _ _ _ _ _ _ _ _ I).
  destruct (Z.eqb_spec (keycmp (mk m) (mk u)) 1) as [E1|Hne].
  2: { apply Hcopy; [done|]. intros _ u' t [= <- <-].
       destruct (keycmp_cases (mk m) (mk u)) as [[_ H1]|[[_ ->]|[H1 _]]]; [by apply key_lt_le|reflexivity|done]. }
  destruct (pv_op _ _ _ _ _ _ _ _ _ I) as [Ho Hsm]. cbn [of_option]. rewrite bind_ok.
  rewrite cpkvp_small by exact Hsm. rewrite bind_ok. cbn [k msg_kvp].
  assert (pvinv kn dn (m :: restfrom (i' + 1)) pl (u :: pm) out
    (mkPivst i' (vj s) (vsz s) false (vspc s) (vn s) (vpull s)) pull0) as I1 by (by apply pv_flag).
  destruct (pullrun_spec _ _ _ _ (mk u) (S fuel) _ _ _ _ I1) as (s' & pl' & pm' & out' & -> & I2 & Hvi & Hl & Hprog).
  { intros y Hy. assert (key_lt (mk u) (mk m)) as Hum
      by (unfold key_lt; rewrite keycmp_opp; lia).
    apply elem_of_cons in Hy as [->|Hy]; [done|]. eapply key_lt_le_trans; [exact Hum|].
    by eapply sorted_head. }
  { lia. }
  rewrite bind_ok. cbn [vi] in Hvi. specialize (Hprog u pm eq_refl eq_refl). cbn [vspc vfull] in Hprog.
  specialize (Hprog ltac:(lia) eq_refl). cbn [length] in Hprog, Hl, Hf.
  rewrite E in Er.
  destruct (IH dn pl' pm' out' s') as (s2 & dn2 & pl2 & pm2 & out2 & -> & I3 & Hl3).
  - rewrite Hvi, Er. exact I2.
  - by rewrite Hvi.
  - rewrite Hvi, Er. cbn [length]. lia.
  - exists s2, dn2, pl2, pm2, out2. split_and!; [done|done|cbn; lia].
Qed.
End UpdatePiv.

(** ** The values of an updated pivot *)

(** A merge or a rotation replaces two entries, anything else one. *)
Definition kwidth (c : kid) : nat :=
  if bool_decide (kop c = POrot) || bool_decide (kop c = POmerge) then 2 else 1.

Definition newvals (kvs : list Kvp) (midx : nat) (c : kid) (l : list Kvp) : list Kvp :=
  take midx kvs ++ l ++ drop (midx + kwidth c) kvs.

Section UpdateVals.
  Context (b : Blk) (kvs : list Kvp) (ms : list Msg).
  Hypothesis R : blk_repr b kvs ms.

Lemma updatepiv_vals_tail midx pp fuel : forall i n,
  (pp = None \/ midx < Z.of_nat i) -> (length (drop i kvs) <= fuel)%nat ->
  updatepiv_vals fuel b midx pp (Z.of_nat i) n = setvals n (drop i kvs).
Proof using R.
  induction fuel as [|fuel IH]; intros i n Hpp Hf; cbn [updatepiv_vals];
    rewrite (repr_nval _ _ _ R); unfold zlen;
    destruct (Z.leb_spec (Z.of_nat (length kvs)) (Z.of_nat i)); rewrite ?length_drop in Hf; try lia;
    try (by rewrite drop_ge by lia).
  destruct (lookup_lt_is_Some_2 kvs i) as [kv Hkv]; [lia|].
  rewrite (drop_S _ _ _ Hkv). cbn [setvals]. rewrite (getval_repr _ _ _ _ _ R Hkv).
  assert ((kv ← Ok kv; n ← setval n kv; updatepiv_vals fuel b midx pp (Z.of_nat i + 1) n) =
    (b0 ← setval n kv; setvals b0 (drop (S i) kvs))) as E.
  { rewrite bind_ok. destruct (setval n kv) as [n'|]; [|done]. rewrite !bind_ok.
    replace (Z.of_nat i + 1) with (Z.of_nat (S i)) by lia. apply IH.
    - destruct Hpp; [by left|right; lia].
    - rewrite length_drop. lia. }
  destruct pp as [c|]; [|exact E]. destruct Hpp as [?|Hm]; [done|].
  destruct (Z.eqb_spec (Z.of_nat i) midx); [lia|exact E].
Qed.

Lemma updatepiv_vals_head midx c fuel : forall i n,
  (i <= midx)%nat -> (midx < length kvs)%nat -> (length kvs - i <= fuel)%nat ->
  updatepiv_vals fuel b (Z.of_nat midx) (Some c) (Z.of_nat i) n =
    (n ← setvals n (drop i (take midx kvs));
     '(n, _) ← copyup n c 0;
     setvals n (drop (midx + kwidth c) kvs)).
Proof using R.
  induction fuel as [|fuel IH]; intros i n Hi Hm Hf; [lia|]. cbn [updatepiv_vals].
  rewrite (repr_nval _ _ _ R). unfold zlen.
  destruct (Z.leb_spec (Z.of_nat (length kvs)) (Z.of_nat i)); [lia|].
  destruct (Z.eqb_spec (Z.of_nat i) (Z.of_nat midx)) as [E|Hne].
  - assert (i = midx) as -> by lia. rewrite (drop_ge (take midx kvs)) by (rewrite length_take; lia).
    cbn [setvals]. rewrite bind_ok. destruct (copyup n c 0) as [[n' nb]|]; [|done]. rewrite !bind_ok.
    replace (if _ || _ then Z.of_nat midx + 2 else Z.of_nat midx + 1)
      with (Z.of_nat (midx + kwidth c)) by (unfold kwidth; case_match; lia).
    apply updatepiv_vals_tail; [right; unfold kwidth; case_match; lia|].
    rewrite length_drop. unfold kwidth. case_match; lia.
  - destruct (lookup_lt_is_Some_2 kvs i) as [kv Hkv]; [lia|].
    rewrite (getval_repr _ _ _ _ _ R Hkv), bind_ok.
    rewrite (drop_S (take midx kvs) kv i) by (apply lookup_take_Some; split; [done|lia]).
    cbn [setvals]. destruct (setval n kv) as [n'|]; [|done]. rewrite !bind_ok.
    replace (Z.of_nat i + 1) with (Z.of_nat (S i)) by lia. apply IH; lia.
Qed.

Lemma updatepiv_vals_repr midx c l1 l2 n :
  (midx < length kvs)%nat -> kidptr (knl c) l1 -> kidptr (knr c) l2 ->
  Forall entry_ok kvs -> blk_repr n [] [] ->
  kvs_valsz (newvals kvs midx c (l1 ++ l2)) <= bspc n ->
  exists n', updatepiv_vals (Z.to_nat (nval b)) b (Z.of_nat midx) (Some c) 0 n = Ok n' /\
    blk_repr n' (newvals kvs midx c (l1 ++ l2)) [] /\ btyp n' = btyp n /\ bp n' = bp n.
Proof using R.
  intros Hm H1 H2 He Rn Hroom. unfold newvals in *.
  rewrite (repr_nval _ _ _ R). unfold zlen. rewrite Nat2Z.id. change 0 with (Z.of_nat 0).
  rewrite updatepiv_vals_head by lia. rewrite drop_0.
  rewrite !kvs_valsz_app in Hroom. pose proof (kvs_valsz_nonneg l1). pose proof (kvs_valsz_nonneg l2).
  pose proof (kvs_valsz_nonneg (drop (midx + kwidth c) kvs)).
  destruct (setvals_repr (take midx kvs) n [] [] Rn) as (n1 & -> & R1 & T1 & P1).
  { by apply Forall_take. }
  { cbn [app]. fold (kvs_valsz (take midx kvs)). lia. }
  rewrite bind_ok. cbn [app] in R1.
  destruct (copyup_repr n1 _ [] c l1 l2 0 H1 H2 R1) as (n2 & E2 & R2 & T2 & P2).
  { rewrite !kvs_valsz_app. unfold bspc in *. rewrite T1. lia. }
  rewrite E2, bind_ok. rewrite <- app_assoc.
  destruct (setvals_repr (drop (midx + kwidth c) kvs) n2 _ [] R2) as (n3 & -> & R3 & T3 & P3).
  { by apply Forall_drop. }
  { rewrite <- !app_assoc. fold (kvs_valsz (take midx kvs ++ l1 ++ l2 ++ drop (midx + kwidth c) kvs)).
    rewrite !kvs_valsz_app. unfold bspc in *. rewrite T2, T1. lia. }
  exists n3. rewrite <- !app_assoc in R3. split_and!; [done|done|congruence|congruence].
Qed.

Lemma updatepiv_vals_none midx n :
  Forall entry_ok kvs -> blk_repr n [] [] -> btyp n = btyp b ->
  exists n', updatepiv_vals (Z.to_nat (nval b)) b midx None 0 n = Ok n' /\
    blk_repr n' kvs [] /\ btyp n' = btyp n /\ bp n' = bp n.
Proof using R.
  intros He Rn Tn. rewrite (repr_nval _ _ _ R). unfold zlen. rewrite Nat2Z.id. change 0 with (Z.of_nat 0).
  rewrite updatepiv_vals_tail by (first [by left|rewrite length_drop; lia]). rewrite drop_0.
  destruct (setvals_repr kvs n [] [] Rn He) as (n1 & -> & R1 & T1 & P1).
  { pose proof (repr_fill _ _ _ R). unfold bspc in *. by rewrite Tn. }
  by exists n1.
Qed.
End UpdateVals.

(** ** The whole of updatepiv *)

(** What the child of a pivot reports, and what it makes of the pivot's
    values and of its buffer: [nkvs] and [rst]. *)
Definition pivkid (pp : option kid) (kvs : list Kvp) (ms : list Msg) (midx plo : Z)
    (nkvs : list Kvp) (rst : list Msg) : Prop :=
  match pp with
  | None => plo = -1 /\ nkvs = kvs /\ rst = ms
  | Some c => exists mi l1 l2,
      midx = Z.of_nat mi /\ (mi < length kvs)%nat /\ kidptr (knl c) l1 /\ kidptr (knr c) l2 /\
      0 <= plo /\ 0 <= knpull c /\ plo + knpull c <= zlen ms /\
      0 <= kpullsz c <= total_msgsz (take (Z.to_nat (knpull c)) (drop (Z.to_nat plo) ms)) /\
      nkvs = newvals kvs mi c (l1 ++ l2) /\
      rst = take (Z.to_nat plo) ms ++ drop (Z.to_nat (plo + knpull c)) ms
  end.

Record pivinput (b : Blk) (src : msgsrc) (lo hi midx plo : Z) (pp : option kid)
    (kvs nkvs : list Kvp) (ms rst pms : list Msg) : Prop := {
  pi_repr : blk_repr b kvs ms;
  pi_typ : btyp b = Tpivot;
  pi_entries : Forall entry_ok kvs;
  pi_sorted : msgs_sorted ms;
  pi_src : src_repr src lo pms;
  pi_hi : hi = lo + zlen pms;
  pi_psorted : msgs_sorted pms;
  pi_pgood : Forall msg_good pms;
  pi_kid : pivkid pp kvs ms midx plo nkvs rst;
  (* flush's test *)
  pi_room : filledpiv b 2 = Ok false
}.

Lemma kidptr_size oc l : kidptr oc l -> kvs_valsz l <= 288.
Proof.
  destruct oc as [c|]; cbn [kidptr]; [|intros ->; by vm_compute].
  intros (kc & mc & _ & _ & Hk & _ & ->). rewrite kvs_valsz_one. by apply valsz_ptr_kv.
Qed.

Lemma newvals_size kvs mi c l : kvs_valsz (newvals kvs mi c l) <= kvs_valsz kvs + kvs_valsz l.
Proof.
  unfold newvals. rewrite !kvs_valsz_app.
  assert (kvs_valsz kvs = kvs_valsz (take mi kvs) + kvs_valsz (take (kwidth c) (drop mi kvs)) +
    kvs_valsz (drop (mi + kwidth c) kvs)) as ->.
  { rewrite <- drop_drop, <- !kvs_valsz_app, <- app_assoc. by rewrite !take_drop. }
  pose proof (kvs_valsz_nonneg (take (kwidth c) (drop mi kvs))). lia.
Qed.

Lemma filledpiv_room b kvs ms :
  blk_repr b kvs ms -> filledpiv b 2 = Ok false -> kvs_valsz kvs + 2 * 288 <= Pivspc.
Proof.
  intros R H. unfold filledpiv in H. inv_ok. apply Z.ltb_ge in H.
  rewrite (repr_nval _ _ _ R), (repr_valsz _ _ _ R) in H. unfold kvs_valsz.
  change (8 + Keymax + Ptrsz) with 288 in H. lia.
Qed.

Lemma updatepiv_spec b src lo hi midx plo pp kvs nkvs ms rst pms pull n :
  pivinput b src lo hi midx plo pp kvs nkvs ms rst pms -> blk_repr n [] [] -> btyp n = Tpivot ->
  exists n' pl pm out,
    updatepiv b src lo hi midx plo pull pp n = Ok (n', zlen pl, pull + total_msgsz pl) /\
    pms = pl ++ pm /\ blk_repr n' nkvs out /\ btyp n' = Tpivot /\ msgs_sorted out /\
    (forall key, for_key key out = for_key key rst ++ for_key key pl).
Proof.
  intros [R Tb He Hs Hsrc Hhi Hps Hpg Hkid Hroom] Rn Tn.
  pose proof (filledpiv_room _ _ _ R Hroom) as Hval. pose proof (repr_buffill _ _ _ R Tb) as Hbuf.
  assert (Forall (fun m => 0 <= op m < 128) pms) as Hops
    by (eapply Forall_impl; [exact Hpg|]; by intros ? (_ & ? & _)).
  assert (Forall msg_small pms) as Hsm
    by (eapply Forall_impl; [exact Hpg|]; by intros ? (? & _)).
  set (np := match pp with Some c => knpull c | None => 0 end).
  assert ((pp = None /\ plo = -1 /\ np = 0) \/
    (exists c, pp = Some c /\ knpull c = np /\ 0 <= plo /\ 0 <= np /\ plo + np <= zlen ms)) as Hpp.
  { destruct pp as [c|]; cbn in Hkid; [right|left].
    - destruct Hkid as (mi & l1 & l2 & H). exists c. naive_solver.
    - naive_solver. }
  assert (rest ms plo np = rst /\ validi ms plo np 0) as [Erest Hv].
  { unfold rest, restfrom, validi, np. pose proof (zlen_nonneg ms).
    destruct pp as [c|]; cbn in Hkid.
    - destruct Hkid as (mi & l1 & l2 & H1 & H2 & H3 & H4 & H5 & H6 & H7 & H8 & H9 & ->).
      destruct (Z.leb_spec 0 plo); [|lia]. split; [by rewrite drop_0|left; lia].
    - destruct Hkid as (-> & _ & ->). split; [by rewrite drop_0|right; lia]. }
  unfold updatepiv.
  assert (exists n1, updatepiv_vals (Z.to_nat (nval b)) b midx pp 0 n = Ok n1 /\
    blk_repr n1 nkvs [] /\ btyp n1 = Tpivot) as (n1 & -> & R1 & T1).
  { destruct pp as [c|]; cbn in Hkid.
    - destruct Hkid as (mi & l1 & l2 & -> & Hmi & K1 & K2 & _ & _ & _ & _ & -> & _).
      destruct (updatepiv_vals_repr b kvs ms R mi c l1 l2 n Hmi K1 K2 He Rn) as (n1 & E & R1 & T1 & _).
      { pose proof (newvals_size kvs mi c (l1 ++ l2)) as Hz. rewrite kvs_valsz_app in Hz.
        pose proof (kidptr_size _ _ K1). pose proof (kidptr_size _ _ K2).
        unfold bspc. rewrite Tn, decide_False by done. lia. }
      exists n1. split_and!; [done|done|congruence].
    - destruct Hkid as (_ & -> & _).
      destruct (updatepiv_vals_none b kvs ms R midx n He Rn) as (n1 & E & R1 & T1 & _); [congruence|].
      exists n1. split_and!; [done|done|congruence]. }
  rewrite bind_ok. unfold buffill. rewrite bool_decide_true by done. cbn [check]. rewrite !bind_ok.
  rewrite (repr_nbuf _ _ _ R), (repr_bufsz _ _ _ R), <- total_msgsz_eq.
  rewrite <- total_msgsz_eq in Hbuf.
  set (spc := match pp with Some c => Bufspc - total_msgsz ms + kpullsz c
              | None => Bufspc - total_msgsz ms end).
  assert (0 <= spc /\ total_msgsz rst + spc <= Bufspc) as [Hspc0 Hspc].
  { unfold spc. destruct pp as [c|]; cbn in Hkid.
    - destruct Hkid as (mi & l1 & l2 & _ & _ & _ & _ & H5 & H6 & H7 & H8 & _ & ->).
      split; [lia|]. rewrite total_msgsz_app.
      assert (total_msgsz ms = total_msgsz (take (Z.to_nat plo) ms) +
        total_msgsz (take (Z.to_nat (knpull c)) (drop (Z.to_nat plo) ms)) +
        total_msgsz (drop (Z.to_nat (plo + knpull c)) ms)) as Et; [|lia].
      replace (Z.to_nat (plo + knpull c)) with (Z.to_nat plo + Z.to_nat (knpull c))%nat by lia.
      rewrite <- drop_drop, <- !total_msgsz_app, <- app_assoc. by rewrite !take_drop.
    - destruct Hkid as (_ & _ & ->). lia. }
  assert (pvinv ms lo pms plo np nkvs [] (restfrom ms plo np 0) [] pms []
    (mkPivst 0 lo 0 false spc n1 pull) pull) as I0.
  { fold (rest ms plo np). rewrite Erest.
    split; cbn [vj vsz vspc vpull vn vfull]; try done; try lia.
    - by rewrite zlen_nil, Z.add_0_r.
    - change (total_msgsz []) with 0. lia.
    - constructor.
    - intros x y Hx. by apply elem_of_nil in Hx.
    - intros _ x y Hx. by apply elem_of_nil in Hx.
    - intros x y Hx. by apply elem_of_nil in Hx. }
  assert (length (restfrom ms plo np 0) <= length ms)%nat as Hlen.
  { fold (rest ms plo np). rewrite Erest. destruct pp as [c|]; cbn in Hkid.
    - destruct Hkid as (mi & l1 & l2 & _ & _ & _ & _ & H5 & H6 & H7 & _ & _ & ->).
      rewrite length_app, length_take, length_drop. unfold zlen in *. lia.
    - by destruct Hkid as (_ & _ & ->). }
  destruct (updatepiv_msgs_spec b kvs ms src lo hi pms plo np pp R Tb Hsrc Hhi Hs Hps Hops Hsm Hpp
    nkvs pull (Z.to_nat (zlen ms + (hi - lo) + 1)) [] [] pms [] (mkPivst 0 lo 0 false spc n1 pull) I0 Hv)
    as (s1 & dn & pl & pm & out & -> & I1 & Hl).
  { cbn [vi]. rewrite Hhi. unfold zlen in *. lia. }
  rewrite bind_ok.
  destruct (pullrest_spec b kvs ms src lo hi pms plo np pp R Tb Hsrc Hhi Hs Hps Hops Hsm Hpp
    nkvs dn pull (Z.to_nat (zlen ms + (hi - lo) + 1)) _ _ _ _ I1) as (s2 & pl2 & pm2 & out2 & -> & I2).
  { rewrite Hhi. unfold zlen in *. lia. }
  rewrite bind_ok. exists (vn s2), pl2, pm2, out2. destruct I2. split_and!; try done.
  - rewrite pv_j0, pv_pull0. do 3 f_equal. lia.
  - intros key. rewrite pv_map0. rewrite Erest, app_nil_r in pv_rest0. by rewrite pv_rest0.
Qed.

(** C10: updatepiv rebuilds a pivot around its new child.  Under flush's test
    for room, for a pivot with a sorted buffer, a child that has pulled a
    range of it, and the parent's sorted messages, updatepiv terminates
    without an abort: the child's entry (and its neighbour's, after a merge or
    a rotation) is replaced by those of the new children, the messages the
    child pulled leave the buffer and no others do, a prefix of the parent's
    messages is pulled into it and accounted for, and the buffer stays sorted
    with each key's older messages before its newer ones. *)
Theorem updatepiv_correct b src lo hi midx plo pp kvs nkvs ms rst pms pull n :
  pivinput b src lo hi midx plo pp kvs nkvs ms rst pms -> blk_repr n [] [] -> btyp n = Tpivot ->
  exists n' pl pm out,
    updatepiv b src lo hi midx plo pull pp n = Ok (n', zlen pl, pull + total_msgsz pl) /\
    pms = pl ++ pm /\ blk_repr n' nkvs out /\ msgs_sorted out /\
    (forall key, for_key key out = for_key key rst ++ for_key key pl).
Proof.
  intros I Rn Tn.
  destruct (updatepiv_spec _ _ _ _ _ _ _ _ _ _ _ _ pull n I Rn Tn)
    as (n' & pl & pm & out & E & Hp & Rn' & _ & Hs & Hm).
  exists n', pl, pm, out. done.
Qed.

(** * splitpiv *)

(** The loop over the values deals out groups: [g i] is what takes the place
    of entry i (itself, or the new children), [c i] the size it is counted
    with. *)
Section SplitVals.
  Context (g : nat -> list Kvp) (c : nat -> Z) (N : nat) (F : Z).
  Context (body : Z -> Blk -> Z -> res (Blk * Z)).
Definition gpre (i : nat) : list Kvp := concat (g <$> seq 0 i).
Definition gsuf (i : nat) : list Kvp := concat (g <$> seq i (N - i)).
Definition csum (i : nat) : Z := sum_list (c <$> seq 0 i).
  Hypothesis HN : (4 <= N)%nat.
  Hypothesis Hbody : forall i d kd copied, (i < N)%nat -> blk_repr d kd [] -> btyp d = Tpivot ->
    kvs_valsz (kd ++ g i) <= Pivspc ->
    exists d', body (Z.of_nat i) d copied = Ok (d', copied + c i) /\
      blk_repr d' (kd ++ g i) [] /\ btyp d' = Tpivot /\ bp d' = bp d.
  Hypothesis Hg : forall i, (i < N)%nat -> kvs_valsz (g i) <= 576.
  Hypothesis Hdelta : forall i, (i <= N)%nat -> -52 <= csum i - kvs_valsz (gpre i) <= 972.
  Hypothesis HF : 0 <= F <= Pivspc.
  Hypothesis Htot : kvs_valsz (gpre N) <= F + 576.

Fixpoint dealvals (cnt : nat) (i : Z) (s : pvst) : res pvst :=
  match cnt with
  | O => Ok s
  | S cnt =>
      let s := if pleft s && ((i =? Z.of_nat N - 2) || ((2 <=? i) && (Z.quot F 2 <=? pcopied s)))
               then mkPvst false (pl s) (pr s) (pcopied s) else s in
      s ← ('(d, copied) ← body i (pdst s) (pcopied s); Ok (pset s d copied));
      dealvals cnt (i + 1) s
  end.

Record dealinv (i : nat) (s : pvst) (Kl Kr : list Kvp) : Prop := {
  dl_split : gpre i = Kl ++ Kr;
  dl_l : blk_repr (pl s) Kl [];
  dl_r : blk_repr (pr s) Kr [];
  dl_tl : btyp (pl s) = Tpivot;
  dl_tr : btyp (pr s) = Tpivot;
  dl_copied : pcopied s = csum i;
  dl_left : pleft s = true -> Kr = [];
  dl_right : pleft s = false ->
    kvs_valsz Kr + kvs_valsz (gsuf i) <= Pivspc /\
    exists j, (2 <= j <= N - 2)%nat /\ Kl = gpre j /\ (j <= i)%nat
}.

Lemma gpre_S i : gpre (S i) = gpre i ++ g i.
Proof. unfold gpre. rewrite seq_S, fmap_app, concat_app. cbn. by rewrite app_nil_r. Qed.
Lemma csum_S i : csum (S i) = csum i + c i.
Proof. unfold csum. rewrite seq_S, fmap_app, sum_list_app. cbn. by rewrite Z.add_0_r. Qed.
Lemma gsuf_S i : (i < N)%nat -> gsuf i = g i ++ gsuf (S i).
Proof. clear. intros. unfold gsuf. replace (N - i)%nat with (S (N - S i)) by lia. done. Qed.
Lemma gpre_gsuf i : (i <= N)%nat -> gpre N = gpre i ++ gsuf i.
Proof.
  clear.
  intros H. unfold gpre, gsuf. rewrite <- concat_app, <- fmap_app. do 2 f_equal.
  rewrite <- seq_app. f_equal. lia.
Qed.

Lemma gsuf_app j i : (j <= i <= N)%nat -> gsuf j = concat (g <$> seq j (i - j)) ++ gsuf i.
Proof.
  clear. intros H. unfold gsuf. rewrite <- concat_app, <- fmap_app. do 2 f_equal.
  replace i with (j + (i - j))%nat at 2 by lia. rewrite <- seq_app. f_equal. lia.
Qed.

Lemma gpre_small i : (i <= N)%nat -> kvs_valsz (gpre i) <= 576 * Z.of_nat i.
Proof using Hg HN.
  induction i as [|i IH]; intros Hi; [by vm_compute|].
  rewrite gpre_S, kvs_valsz_app. pose proof (Hg i). specialize (IH ltac:(lia)). lia.
Qed.

Lemma gsuf_end : kvs_valsz (gsuf (N - 2)) <= 1152.
Proof using Hg HN.
  rewrite gsuf_S, gsuf_S by lia. replace (S (S (N - 2))) with N by lia.
  unfold gsuf. rewrite Nat.sub_diag. rewrite app_nil_r, kvs_valsz_app.
  pose proof (Hg (N - 2)). pose proof (Hg (S (N - 2))). lia.
Qed.

(** The switch to the right block leaves room in it for all that is left. *)
Lemma deal_switch i s Kl Kr :
  (i < N)%nat -> dealinv i s Kl Kr -> (i <= N - 2)%nat \/ pleft s = false ->
  let s' := if pleft s && ((Z.of_nat i =? Z.of_nat N - 2) ||
                 ((2 <=? Z.of_nat i) && (Z.quot F 2 <=? pcopied s)))
            then mkPvst false (pl s) (pr s) (pcopied s) else s in
  dealinv i s' Kl Kr /\ (pleft s' = true -> (i < N - 2)%nat /\ kvs_valsz Kl + 576 <= Pivspc).
Proof using All.
  intros Hi I Hside. cbn zeta. destruct (pleft s) eqn:El; cbn [andb].
  2: { split; [done|]. by rewrite El. }
  assert (Kr = []) as -> by (by apply I). pose proof (dl_split _ _ _ _ I) as Hsp.
  rewrite app_nil_r in Hsp. destruct layout_sizes as (_ & HP & _).
  pose proof (Hdelta i ltac:(lia)) as Hd. pose proof (dl_copied _ _ _ _ I) as Hc.
  destruct (Z.eqb_spec (Z.of_nat i) (Z.of_nat N - 2)) as [E|Hne]; cbn [orb].
  - split; [|done]. destruct I. split; cbn; try done. intros _.
    change (kvs_valsz []) with 0. assert (i = (N - 2)%nat) as -> by lia.
    pose proof gsuf_end. split; [lia|]. exists (N - 2)%nat. split_and!; [lia|lia|done|lia].
  - assert (i < N - 2)%nat by (destruct Hside; [lia|done]).
    rewrite Z.quot_div_nonneg by lia. pose proof (Z.div_mod F 2). pose proof (Z.mod_pos_bound F 2).
    destruct (Z.leb_spec 2 (Z.of_nat i)); cbn [andb].
    + destruct (Z.leb_spec (F / 2) (pcopied s)).
      * split; [|done]. destruct I. split; cbn; try done. intros _.
        change (kvs_valsz []) with 0. pose proof (gpre_gsuf i ltac:(lia)) as Hg2.
        rewrite Hg2, kvs_valsz_app in Htot. split; [lia|]. exists i. split_and!; [lia|lia|done|lia].
      * split; [done|]. intros _. split; [done|]. rewrite <- Hsp. lia.
    + split; [done|]. intros _. split; [done|]. rewrite <- Hsp.
      pose proof (gpre_small i ltac:(lia)). lia.
Qed.

Lemma dealvals_spec cnt : forall i s Kl Kr,
  (i + cnt = N)%nat -> dealinv i s Kl Kr -> ((i <= N - 2)%nat \/ pleft s = false) ->
  exists s' Kl' Kr', dealvals cnt (Z.of_nat i) s = Ok s' /\ dealinv N s' Kl' Kr' /\
    ((N - 2 < N)%nat -> pleft s' = false).
Proof using All.
  induction cnt as [|cnt IH]; intros i s Kl Kr Hi I Hside.
  { exists s, Kl, Kr. assert (i = N) as -> by lia. split_and!; [done|done|].
    intros _. destruct Hside; [lia|done]. }
  cbn [dealvals]. destruct (deal_switch i s Kl Kr ltac:(lia) I Hside) as [I' Hleft].
  cbn zeta in I', Hleft. match type of I' with dealinv _ ?x _ _ => set (s1 := x) in * end.
  assert (kvs_valsz (g i) <= 576) as Hgi by (apply Hg; lia).
  assert (exists d, body (Z.of_nat i) (pdst s1) (pcopied s1) = Ok (d, pcopied s1 + c i) /\
    exists Kl' Kr', dealinv (S i) (pset s1 d (pcopied s1 + c i)) Kl' Kr') as (d & -> & Kl' & Kr' & I2).
  { destruct I' as [Hsp Hl Hr Tl Tr Hc Hlf Hrt]. unfold pdst, pset.
    destruct (pleft s1) eqn:El.
    - destruct (Hleft eq_refl) as [Hi2 Hroom]. rewrite (Hlf eq_refl), app_nil_r in *.
      destruct (Hbody i (pl s1) Kl (pcopied s1)) as (d & E & Rd & Td & _); [lia|done|done| |].
      { rewrite kvs_valsz_app. lia. }
      exists d. split; [done|]. exists (Kl ++ g i), [].
      split; cbn [pl pr pcopied pleft]; try done; rewrite ?gpre_S, ?csum_S, ?app_nil_r; [by rewrite Hsp|by rewrite Hc].
    - destruct (Hrt eq_refl) as [Hroom (j & Hj & Ej & Hji)]. rewrite gsuf_S, kvs_valsz_app in Hroom by lia.
      pose proof (kvs_valsz_nonneg (gsuf (S i))).
      destruct (Hbody i (pr s1) Kr (pcopied s1)) as (d & E & Rd & Td & _); [lia|done|done| |].
      { rewrite kvs_valsz_app. lia. }
      exists d. split; [done|]. exists Kl, (Kr ++ g i).
      split; cbn [pl pr pcopied pleft]; try done; rewrite ?gpre_S, ?csum_S; [by rewrite Hsp, app_assoc|by rewrite Hc|].
      intros _. rewrite kvs_valsz_app. split; [lia|]. exists j. split_and!; [lia|lia|done|lia]. }
  rewrite !bind_ok. replace (Z.of_nat i + 1) with (Z.of_nat (S i)) by lia.
  eapply IH; [lia|exact I2|]. unfold pset. destruct (pleft s1) eqn:El; [left|by right].
  destruct (Hleft eq_refl). lia.
Qed.
End SplitVals.

(** ** The values of splitpiv *)

Definition splitbody (b : Blk) (pidx : Z) (pp : option kid) (i : Z) (d : Blk) (copied : Z)
    : res (Blk * Z) :=
  if i =? pidx then c ← of_option pp Undef; copyup d c copied
  else tk ← getval b i; d ← setval d tk; Ok (d, copied + valsz tk).

Lemma splitpiv_vals_deal b N F pidx pp cnt : forall i s,
  nval b = Z.of_nat N ->
  splitpiv_vals cnt b pidx (Z.quot F 2) pp i s = dealvals N F (splitbody b pidx pp) cnt i s.
Proof.
  induction cnt as [|cnt IH]; intros i s HN; [done|]. cbn [splitpiv_vals dealvals]. rewrite HN.
  set (s1 := if pleft s && _ then _ else _).
  replace (splitbody b pidx pp i (pdst s1) (pcopied s1))
    with (if i =? pidx then c ← of_option pp Undef; copyup (pdst s1) c (pcopied s1)
          else tk ← getval b i; d ← setval (pdst s1) tk; Ok (d, pcopied s1 + valsz tk)) by done.
  destruct (i =? pidx).
  - destruct pp as [c|]; [|done]. cbn [of_option]. rewrite !bind_ok.
    destruct (copyup (pdst s1) c (pcopied s1)) as [[d n]|]; [|done]. rewrite !bind_ok. by apply IH.
  - destruct (getval b i) as [tk|]; [|done]. rewrite !bind_ok.
    destruct (setval (pdst s1) tk) as [d|]; [|done]. rewrite !bind_ok. by apply IH.
Qed.

Section SplitPiv.
  Context (b : Blk) (kvs : list Kvp) (ms : list Msg) (pidx plo : Z) (pp : option kid).
  Context (nkvs : list Kvp) (rst : list Msg).
  Hypothesis R : blk_repr b kvs ms.
  Hypothesis Tb : btyp b = Tpivot.
  Hypothesis He : Forall entry_ok kvs.
  Hypothesis Hptr : Forall (fun kv => valsz kv <= 288) kvs.
  Hypothesis Hs : msgs_sorted ms.
  Hypothesis Hkid : pivkid pp kvs ms pidx plo nkvs rst.
  (* no child, or one that was not merged or rotated *)
  Hypothesis Hone : match pp with Some c => kwidth c = 1%nat | None => pidx = -1 end.
  Hypothesis HN : (4 <= length kvs)%nat.

(** What takes the place of entry i. *)
Definition sg (l : list Kvp) (i : nat) : list Kvp :=
  if decide (Z.of_nat i = pidx) then l else option_list (kvs !! i).
Definition sc (i : nat) : Z :=
  if decide (Z.of_nat i = pidx)
  then match pp with Some c => kidcount (knl c) + kidcount (knr c) | None => 0 end
  else match kvs !! i with Some kv => valsz kv | None => 0 end.

Definition kidlist (l : list Kvp) : Prop :=
  match pp with
  | Some c => exists l1 l2, kidptr (knl c) l1 /\ kidptr (knr c) l2 /\ l = l1 ++ l2
  | None => l = []
  end.

Lemma sg_pre l i : (i <= length kvs)%nat ->
  gpre (sg l) i = if decide (Z.of_nat i <= pidx \/ pidx < 0) then take i kvs
    else take (Z.to_nat pidx) kvs ++ l ++ drop (S (Z.to_nat pidx)) (take i kvs).
Proof.
  induction i as [|i IH]; intros Hi.
  { unfold gpre. case_decide; [done|lia]. }
  rewrite gpre_S, IH by lia. destruct (lookup_lt_is_Some_2 kvs i) as [kv Hkv]; [lia|].
  rewrite (take_S_r _ _ _ Hkv). unfold sg. rewrite Hkv. cbn [option_list].
  change (option_list (Some kv)) with [kv].
  repeat case_decide; try lia; try done.
  - assert (Z.to_nat pidx = i) as -> by lia. rewrite drop_ge; [by rewrite app_nil_r|].
    rewrite length_app, length_take. cbn. lia.
  - rewrite <- !app_assoc. do 2 f_equal. rewrite drop_app_le; [done|]. rewrite length_take. lia.
Qed.

Lemma sg_all : exists l, kidlist l /\ gpre (sg l) (length kvs) = nkvs.
Proof using All.
  unfold kidlist. destruct pp as [c|]; cbn in Hkid, Hone.
  - destruct Hkid as (mi & l1 & l2 & Hp & Hmi & K1 & K2 & _ & _ & _ & _ & -> & _).
    exists (l1 ++ l2). split; [by exists l1, l2|]. rewrite sg_pre by done. rewrite take_ge by done.
    unfold newvals. rewrite Hone. case_decide as Hd; [lia|].
    replace (Z.to_nat pidx) with mi by lia. by rewrite Nat.add_1_r.
  - destruct Hkid as (_ & -> & _). exists []. split; [done|]. rewrite sg_pre by done.
    rewrite take_ge by done. case_decide as Hd; [done|]. lia.
Qed.
Lemma sg_one l i kv : kvs !! i = Some kv -> Z.of_nat i <> pidx -> sg l i = [kv] /\ sc i = valsz kv.
Proof. intros Hi Hne. unfold sg, sc. rewrite !decide_False, Hi by done. done. Qed.

Lemma sg_kid l i : kidlist l -> Z.of_nat i = pidx ->
  exists c l1 l2, pp = Some c /\ kidptr (knl c) l1 /\ kidptr (knr c) l2 /\ l = l1 ++ l2 /\
    sg l i = l1 ++ l2 /\ sc i = kidcount (knl c) + kidcount (knr c).
Proof using All.
  intros Hl E. unfold kidlist, sg, sc in *. rewrite !decide_True by done.
  destruct pp as [c|]; [|lia]. destruct Hl as (l1 & l2 & K1 & K2 & ->).
  by exists c, l1, l2.
Qed.

Lemma sg_body l i d kd copied :
  kidlist l -> (i < length kvs)%nat -> blk_repr d kd [] -> btyp d = Tpivot ->
  kvs_valsz (kd ++ sg l i) <= Pivspc ->
  exists d', splitbody b pidx pp (Z.of_nat i) d copied = Ok (d', copied + sc i) /\
    blk_repr d' (kd ++ sg l i) [] /\ btyp d' = Tpivot /\ bp d' = bp d.
Proof using All.
  intros Hl Hi Rd Td Hroom. unfold splitbody.
  assert (bspc d = Pivspc) as Hsp by (unfold bspc; by rewrite Td).
  destruct (Z.eqb_spec (Z.of_nat i) pidx) as [E|Hne].
  - destruct (sg_kid l i Hl E) as (c & l1 & l2 & -> & K1 & K2 & -> & Eg & Ec). cbn [of_option].
    rewrite bind_ok, Eg, Ec in *.
    destruct (copyup_repr d kd [] c l1 l2 copied K1 K2 Rd) as (d' & E' & Rd' & Td' & Pd'); [lia|].
    exists d'. split_and!; [done|done|congruence|done].
  - destruct (lookup_lt_is_Some_2 kvs i Hi) as [kv Hkv].
    destruct (sg_one l i kv Hkv Hne) as [Eg Ec]. rewrite Eg, Ec in *.
    rewrite (getval_repr _ _ _ _ _ R Hkv), bind_ok.
    destruct (setval_room d kd [] kv Rd) as (d' & E' & Rd' & Td' & Pd'); [|lia|].
    { rewrite Forall_forall in He. apply He. by eapply list_elem_of_lookup_2. }
    rewrite E', bind_ok. exists d'. split_and!; [done|done|congruence|done].
Qed.

Lemma sg_size l i : kidlist l -> (i < length kvs)%nat -> kvs_valsz (sg l i) <= 576.
Proof using All.
  intros Hl Hi. destruct (decide (Z.of_nat i = pidx)) as [E|Hne].
  - destruct (sg_kid l i Hl E) as (c & l1 & l2 & _ & K1 & K2 & _ & -> & _).
    rewrite kvs_valsz_app. pose proof (kidptr_size _ _ K1). pose proof (kidptr_size _ _ K2). lia.
  - destruct (lookup_lt_is_Some_2 kvs i Hi) as [kv Hkv].
    destruct (sg_one l i kv Hkv Hne) as [-> _]. rewrite kvs_valsz_one.
    rewrite Forall_forall in Hptr. pose proof (Hptr kv). specialize (H (list_elem_of_lookup_2 _ _ _ Hkv)). lia.
Qed.

Lemma sg_delta l i : kidlist l -> (i <= length kvs)%nat ->
  -52 <= csum sc i - kvs_valsz (gpre (sg l) i) <= 972 /\
  (Z.of_nat i <= pidx -> csum sc i = kvs_valsz (gpre (sg l) i)).
Proof using All.
  intros Hl. induction i as [|i IH]; intros Hi; [by vm_compute|].
  destruct (IH ltac:(lia)) as [IH1 IH2]. rewrite csum_S, gpre_S, kvs_valsz_app.
  destruct (decide (Z.of_nat i = pidx)) as [E|Hne].
  - destruct (sg_kid l i Hl E) as (c & l1 & l2 & _ & K1 & K2 & _ & -> & ->).
    pose proof (kidcount_bound _ _ K1). pose proof (kidcount_bound _ _ K2).
    specialize (IH2 ltac:(lia)). rewrite kvs_valsz_app. lia.
  - destruct (lookup_lt_is_Some_2 kvs i) as [kv Hkv]; [lia|].
    destruct (sg_one l i kv Hkv Hne) as [-> ->]. rewrite kvs_valsz_one. split; [lia|].
    intros ?. specialize (IH2 ltac:(lia)). lia.
Qed.

Lemma concat_take_nonempty l j : kidlist l -> (2 <= j <= length kvs)%nat -> gpre (sg l) j <> [].
Proof using All.
  intros Hl Hj. replace j with (S (S (j - 2))) by lia. rewrite !gpre_S.
  destruct (decide (Z.of_nat (j - 2) = pidx)) as [E|Hne].
  - destruct (lookup_lt_is_Some_2 kvs (S (j - 2))) as [kv Hkv]; [lia|].
    destruct (sg_one l _ kv Hkv) as [-> _]; [lia|]. by destruct (gpre (sg l) (j - 2)), (sg l (j - 2)).
  - destruct (lookup_lt_is_Some_2 kvs (j - 2)) as [kv Hkv]; [lia|].
    destruct (sg_one l _ kv Hkv Hne) as [-> _]. by destruct (gpre (sg l) (j - 2)).
Qed.

Lemma gsuf_nonempty l : kidlist l -> gsuf (sg l) (length kvs) (length kvs - 2) <> [].
Proof using All.
  intros Hl. rewrite gsuf_S, gsuf_S by lia. set (j := (length kvs - 2)%nat).
  destruct (decide (Z.of_nat j = pidx)) as [E|Hne].
  - destruct (lookup_lt_is_Some_2 kvs (S j)) as [kv Hkv]; [lia|].
    destruct (sg_one l _ kv Hkv) as [-> _]; [lia|]. by destruct (sg l j).
  - destruct (lookup_lt_is_Some_2 kvs j) as [kv Hkv]; [lia|].
    by destruct (sg_one l _ kv Hkv Hne) as [-> _].
Qed.

(** The child below has a new node at least. *)
Definition lives : Prop := match pp with Some c => is_Some (knl c) \/ is_Some (knr c) | None => True end.

Lemma sg_cons l i : kidlist l -> lives -> (i < length kvs)%nat -> (1 <= length (sg l i))%nat.
Proof using All.
  intros Hl Hv Hi. destruct (decide (Z.of_nat i = pidx)) as [E|Hne].
  - destruct (sg_kid l i Hl E) as (c & l1 & l2 & Ep & K1 & K2 & _ & -> & _). unfold lives in Hv. rewrite Ep in Hv.
    rewrite length_app. destruct Hv as [[x Hx]|[x Hx]]; [rewrite Hx in K1; destruct K1 as (? & ? & _ & _ & _ & _ & ->)|
      rewrite Hx in K2; destruct K2 as (? & ? & _ & _ & _ & _ & ->)]; cbn; lia.
  - destruct (lookup_lt_is_Some_2 kvs i Hi) as [kv Hkv]. by destruct (sg_one l i kv Hkv Hne) as [-> _].
Qed.

Lemma gpre_length l j : kidlist l -> lives -> (j <= length kvs)%nat -> (j <= length (gpre (sg l) j))%nat.
Proof using All.
  intros Hl Hv. induction j as [|j IH]; intros Hj; [lia|]. rewrite gpre_S, length_app.
  pose proof (sg_cons l j Hl Hv ltac:(lia)). specialize (IH ltac:(lia)). lia.
Qed.

Lemma gsuf_length l j : kidlist l -> lives -> (j <= length kvs)%nat ->
  (length kvs - j <= length (gsuf (sg l) (length kvs) j))%nat.
Proof using All.
  intros Hl Hv Hj. remember (length kvs - j)%nat as n eqn:E. revert j Hj E.
  induction n as [|n IH]; intros j Hj E; [lia|]. rewrite gsuf_S, length_app by lia.
  pose proof (sg_cons l j Hl Hv ltac:(lia)). specialize (IH (S j) ltac:(lia) ltac:(lia)). lia.
Qed.

(** Both halves hold values, two at least unless the child is gone, and all of
    them together. *)
Lemma splitpiv_vals_spec l r :
  blk_repr l [] [] -> blk_repr r [] [] -> btyp l = Tpivot -> btyp r = Tpivot ->
  exists s K1 kv K2,
    splitpiv_vals (Z.to_nat (nval b)) b pidx (Z.quot (2 * nval b + bvalsz b) 2) pp 0
      (mkPvst true l r 0) = Ok s /\
    nkvs = K1 ++ kv :: K2 /\ K1 <> [] /\ (lives -> (2 <= length K1 /\ 2 <= length (kv :: K2))%nat) /\
    blk_repr (pl s) K1 [] /\ blk_repr (pr s) (kv :: K2) [] /\
    btyp (pl s) = Tpivot /\ btyp (pr s) = Tpivot.
Proof using All.
  intros Rl Rr Tl Tr. destruct sg_all as (kl & Hl & Hall).
  rewrite (repr_valsz _ _ _ R), (repr_nval _ _ _ R).
  fold (kvs_valsz kvs). unfold zlen. rewrite Nat2Z.id.
  rewrite (splitpiv_vals_deal b (length kvs)) by (by rewrite (repr_nval _ _ _ R)).
  assert (0 <= kvs_valsz kvs <= Pivspc) as HF.
  { pose proof (kvs_valsz_nonneg kvs). pose proof (repr_fill _ _ _ R) as Hf.
    unfold bspc in Hf. rewrite Tb in Hf. unfold kvs_valsz. by split. }
  assert (kvs_valsz (gpre (sg kl) (length kvs)) <= kvs_valsz kvs + 576) as Htot.
  { rewrite Hall. clear Hall. destruct pp as [c|]; cbn in Hkid.
    - destruct Hkid as (mi & l1 & l2 & _ & _ & K1 & K2 & _ & _ & _ & _ & -> & _).
      pose proof (newvals_size kvs mi c (l1 ++ l2)) as Hz. rewrite kvs_valsz_app in Hz.
      pose proof (kidptr_size _ _ K1). pose proof (kidptr_size _ _ K2). lia.
    - destruct Hkid as (_ & -> & _). lia. }
  assert (dealinv (sg kl) sc (length kvs) 0 (mkPvst true l r 0) [] []) as D0.
  { split; try done. }
  destruct (dealvals_spec (sg kl) sc (length kvs) (kvs_valsz kvs) (splitbody b pidx pp) HN) with
    (cnt := length kvs) (i := 0%nat) (s := mkPvst true l r 0) (Kl := @nil Kvp) (Kr := @nil Kvp)
    as (s & Kl & Kr & E & D & Hlf); try done; try (left; lia).
  - intros i d kd copied Hi Rd Td Hroom. by apply sg_body.
  - intros i Hi. by apply sg_size.
  - intros i Hi. by apply sg_delta.
  - specialize (Hlf ltac:(lia)). destruct D as [Hsp Dl Dr Dtl Dtr _ _ Dright].
    destruct (Dright Hlf) as (_ & j & Hj & Ej & _). rewrite Hall in Hsp.
    assert (gpre (sg kl) (length kvs) = gpre (sg kl) j ++ gsuf (sg kl) (length kvs) j) as Hcut
      by (apply gpre_gsuf; lia).
    rewrite Hall, Hsp, Ej in Hcut. apply app_inv_head in Hcut.
    destruct Kr as [|kv K2].
    { exfalso. rewrite (gsuf_app _ _ j (length kvs - 2)) in Hcut by lia.
      symmetry in Hcut. apply app_eq_nil in Hcut as [_ Hcut]. by apply (gsuf_nonempty kl Hl). }
    exists s, Kl, kv, K2. split_and!; try done; [rewrite Ej; apply concat_take_nonempty; [done|lia]|].
    intros Hv. pose proof (gpre_length kl j Hl Hv ltac:(lia)). pose proof (gsuf_length kl j Hl Hv ltac:(lia)).
    rewrite Ej, Hcut. lia.
Qed.
(** ** The messages of splitpiv *)

Definition snp : Z := match pp with Some c => knpull c | None => 0 end.

Lemma split_pp : (pp = None /\ plo = -1 /\ snp = 0) \/
  (exists c, pp = Some c /\ knpull c = snp /\ 0 <= plo /\ 0 <= snp /\ plo + snp <= zlen ms).
Proof using All.
  unfold snp. destruct pp as [c|]; cbn in Hkid; [right|left].
  - destruct Hkid as (mi & l1 & l2 & H). exists c. naive_solver.
  - naive_solver.
Qed.

Lemma split_rest : rest ms plo snp = rst /\ validi ms plo snp 0 /\ total_msgsz rst <= total_msgsz ms.
Proof using All.
  unfold rest, restfrom, validi, snp. pose proof (zlen_nonneg ms).
  destruct pp as [c|]; cbn in Hkid.
  - destruct Hkid as (mi & l1 & l2 & H1 & H2 & H3 & H4 & H5 & H6 & H7 & H8 & H9 & ->).
    destruct (Z.leb_spec 0 plo); [|lia]. split_and!; [by rewrite drop_0|left; lia|].
    rewrite total_msgsz_app.
    assert (total_msgsz ms = total_msgsz (take (Z.to_nat plo) ms) +
      total_msgsz (take (Z.to_nat (knpull c)) (drop (Z.to_nat plo) ms)) +
      total_msgsz (drop (Z.to_nat (plo + knpull c)) ms)) as Et; [|lia].
    replace (Z.to_nat (plo + knpull c)) with (Z.to_nat plo + Z.to_nat (knpull c))%nat by lia.
    rewrite <- drop_drop, <- !total_msgsz_app, <- app_assoc. by rewrite !take_drop.
  - destruct Hkid as (-> & _ & ->). split_and!; [by rewrite drop_0|right; lia|lia].
Qed.

Lemma split_skip i : validi ms plo snp i -> i < zlen ms ->
  exists i', skippulled plo pp i = Ok i' /\
    ((i' = zlen ms /\ restfrom ms plo snp i = []) \/
     exists m, getmsg b i' = Ok m /\ restfrom ms plo snp i = m :: restfrom ms plo snp (i' + 1) /\
       validi ms plo snp (i' + 1) /\ m ∈ ms /\ i' < zlen ms /\ i <= i').
Proof using All.
  intros Hv Hi.
  destruct (skip_next b kvs ms (SrcIns []) 0 0 [] plo snp pp R Tb (src_repr_ins [] []) eq_refl Hs
    ltac:(constructor) ltac:(constructor) ltac:(constructor) split_pp i Hv Hi) as (i' & E & H).
  exists i'. split; [done|]. destruct H as [H|(m & H1 & H2 & H3 & H4 & H5 & _)]; [by left|right].
  exists m. split_and!; try done. unfold skippulled in E. destruct (Z.eqb_spec i plo) as [->|].
  - destruct split_pp as [(-> & _)|(c & -> & Hc & _ & Hn & _)]; [done|]. apply Ok_inj in E. lia.
  - apply Ok_inj in E. lia.
Qed.

Record smsinv (mid : list Z) (K1 K2 : list Kvp) (dn rs Ml Mr : list Msg) (s : pvst) : Prop := {
  ss_rst : rst = dn ++ rs;
  ss_split : dn = Ml ++ Mr;
  ss_l : blk_repr (pl s) K1 Ml;
  ss_r : blk_repr (pr s) K2 Mr;
  ss_tl : btyp (pl s) = Tpivot;
  ss_tr : btyp (pr s) = Tpivot;
  ss_left : pleft s = true -> Mr = [];
  ss_lt : Forall (fun m => key_lt (mk m) mid) Ml;
  ss_ge : pleft s = false -> Forall (fun m => key_le mid (mk m)) (Mr ++ rs)
}.

Lemma sms_sorted rs dn : rst = dn ++ rs -> msgs_sorted rs.
Proof using All.
  intros E. destruct split_rest as (Er & Hv & _).
  assert (msgs_sorted rst) as H.
  { rewrite <- Er. eapply (rest_sorted b kvs ms (SrcIns []) 0 0 [] plo snp pp R Tb
      (src_repr_ins [] []) eq_refl Hs); [constructor|constructor|constructor|apply split_pp|done]. }
  rewrite E in H. by eapply sorted_suffix.
Qed.

Lemma sms_room n K M M' m dn rs :
  rst = dn ++ m :: rs -> dn = M' ++ M \/ dn = M ++ M' -> blk_repr n K M -> btyp n = Tpivot ->
  0 <= op m < 128 ->
  exists n', setmsg n m = Ok n' /\ blk_repr n' K (M ++ [m]) /\ btyp n' = Tpivot.
Proof using All.
  intros E Hd Rn Tn Ho. destruct split_rest as (_ & _ & Ht).
  pose proof (repr_buffill _ _ _ R Tb) as Hb. rewrite <- total_msgsz_eq in Hb.
  rewrite E, total_msgsz_app, total_msgsz_cons in Ht. pose proof (total_msgsz_nonneg rs).
  pose proof (total_msgsz_nonneg M').
  apply (pv_setmsg n K M m 0); [done|done|done|done|].
  destruct Hd as [-> | ->]; rewrite total_msgsz_app in Ht; lia.
Qed.

(** One message, to the side its key belongs to. *)
Lemma sms_step mid K1 K2 dn m rs Ml Mr s :
  smsinv mid K1 K2 dn (m :: rs) Ml Mr s -> m ∈ ms ->
  let s1 := if pleft s && (0 <=? keycmp (mk m) mid)
            then mkPvst false (pl s) (pr s) (pcopied s) else s in
  exists d Ml' Mr', setmsg (pdst s1) m = Ok d /\
    smsinv mid K1 K2 (dn ++ [m]) rs Ml' Mr' (pset s1 d (pcopied s1)).
Proof using All.
  intros I Hin. assert (0 <= op m < 128) as Ho.
  { pose proof (repr_ops _ _ _ R) as H. rewrite Forall_forall in H. by apply H. }
  assert (msgs_sorted (m :: rs)) as Hsr by (eapply sms_sorted; apply I).
  destruct I as [Er Hsp Hl Hr Tl Tr Hlf Hlt Hge]. cbn zeta.
  assert (Forall (fun m => key_le mid (mk m)) (Mr ++ m :: rs) ->
    exists d Ml' Mr', setmsg (pr s) m = Ok d /\
      smsinv mid K1 K2 (dn ++ [m]) rs Ml' Mr' (mkPvst false (pl s) d (pcopied s))) as Hright.
  { intros Hall. destruct (sms_room (pr s) K2 Mr Ml m dn rs) as (d & E & Rd & Td); try done; [by left|].
    exists d, Ml, (Mr ++ [m]). split; [done|]. split; cbn [pl pr pleft]; try done.
    - by rewrite <- app_assoc.
    - by rewrite Hsp, <- app_assoc.
    - intros _. by rewrite <- app_assoc. }
  destruct (pleft s) eqn:El; cbn [andb].
  - rewrite (Hlf eq_refl), app_nil_r in *. destruct (Z.leb_spec 0 (keycmp (mk m) mid)) as [Hc|Hc].
    + unfold pdst, pset. cbn [pleft pl pr pcopied]. apply Hright. cbn [app].
      assert (key_le mid (mk m)) as Hmid by (unfold key_le; rewrite keycmp_opp; lia).
      constructor; [done|]. apply Forall_forall. intros y Hy. etrans; [exact Hmid|]. by eapply sorted_head.
    + unfold pdst, pset. rewrite El.
      destruct (sms_room (pl s) K1 Ml [] m dn rs) as (d & E & Rd & Td); try done; [by left|].
      exists d, (Ml ++ [m]), []. split; [done|]. split; cbn [pl pr pleft]; try done.
      * by rewrite <- app_assoc.
      * by rewrite Hsp, app_nil_r.
      * apply Forall_app. split; [done|]. constructor; [done|constructor].
  - unfold pdst, pset. rewrite El. apply Hright. by apply Hge.
Qed.

Lemma splitpiv_msgs_spec mid K1 K2 fuel : forall i dn Ml Mr s,
  smsinv mid K1 K2 dn (restfrom ms plo snp i) Ml Mr s -> validi ms plo snp i ->
  zlen ms - i <= Z.of_nat fuel ->
  exists s' Ml' Mr', splitpiv_msgs fuel b plo pp mid i s = Ok s' /\
    smsinv mid K1 K2 rst [] Ml' Mr' s'.
Proof using All.
  induction fuel as [|fuel IH]; intros i dn Ml Mr s I Hv Hf; cbn [splitpiv_msgs];
    rewrite (repr_nbuf _ _ _ R).
  all: assert (zlen ms <= i -> restfrom ms plo snp i = []) as Hend
    by (intros Hle; unfold restfrom; destruct (Z.leb_spec i plo);
        [destruct split_pp as [(_ & -> & _)|(c & _ & _ & ? & ? & ?)]; [destruct Hv; lia|];
         rewrite !drop_ge; [done|unfold zlen in *; lia|rewrite length_take; unfold zlen in *; lia]
        |apply drop_ge; unfold zlen in *; lia]).
  all: assert (restfrom ms plo snp i = [] -> exists s' Ml' Mr', Ok s = Ok s' /\
    smsinv mid K1 K2 rst [] Ml' Mr' s') as Hstop
    by (intros E; exists s, Ml, Mr; split; [done|]; rewrite E in I;
        pose proof (ss_rst _ _ _ _ _ _ _ _ I) as Hx; rewrite app_nil_r in Hx; by rewrite Hx).
  { destruct (Z.leb_spec (zlen ms) i); [by apply Hstop, Hend|lia]. }
  destruct (Z.leb_spec (zlen ms) i); [by apply Hstop, Hend|].
  destruct (split_skip i Hv) as (i' & -> & Hi'); [done|]. rewrite bind_ok.
  destruct Hi' as [[-> E]|(m & Hg & E & Hv' & Hin & Hlt & Hle)].
  { rewrite Z.eqb_refl. by apply Hstop. }
  destruct (Z.eqb_spec i' (zlen ms)); [lia|]. rewrite Hg, bind_ok. rewrite E in I.
  destruct (sms_step _ _ _ _ _ _ _ _ _ I Hin) as (d & Ml' & Mr' & Hd & I'). cbn zeta in Hd, I'.
  cbn zeta. rewrite Hd, bind_ok. eapply IH; [exact I'|done|lia].
Qed.

Lemma splitpiv_spec l r :
  blk_repr l [] [] -> blk_repr r [] [] -> btyp l = Tpivot -> btyp r = Tpivot ->
  exists l' r' K1 kv K2 M1 M2,
    splitpiv b pidx plo pp l r = Ok (l', r') /\ blk_repr l' K1 M1 /\ blk_repr r' (kv :: K2) M2 /\
    btyp l' = Tpivot /\ btyp r' = Tpivot /\
    nkvs = K1 ++ kv :: K2 /\ rst = M1 ++ M2 /\ K1 <> [] /\ (lives -> (2 <= length K1 /\ 2 <= length (kv :: K2))%nat) /\
    Forall (fun m => key_lt (mk m) (k kv)) M1 /\ Forall (fun m => key_le (k kv) (mk m)) M2.
Proof using All.
  intros Rl Rr Tl Tr.
  destruct (splitpiv_vals_spec l r Rl Rr Tl Tr) as (s & K1 & kv & K2 & E1 & Hk & Hne & Hlen & R1 & R2 & T1 & T2).
  unfold splitpiv. rewrite check_true by (rewrite (repr_nval _ _ _ R); unfold zlen; lia).
  rewrite bind_ok, E1, bind_ok.
  pose proof (getval_middle (pr s) [] kv K2 [] R2) as Hg. change (zlen []) with 0 in Hg.
  rewrite Hg, bind_ok. destruct split_rest as (Er & Hv & _).
  assert (smsinv (k kv) K1 (kv :: K2) [] (restfrom ms plo snp 0) [] [] (mkPvst true (pl s) (pr s) 0)) as I0.
  { split; cbn; try done. }
  destruct (splitpiv_msgs_spec (k kv) K1 (kv :: K2) (Z.to_nat (nbuf b)) 0 [] [] [] _ I0 Hv)
    as (s' & M1 & M2 & -> & I).
  { rewrite (repr_nbuf _ _ _ R). pose proof (zlen_nonneg ms). lia. }
  rewrite bind_ok. destruct I as [_ Hsp Hl Hr Htl Htr Hlf Hlt Hge].
  exists (pl s'), (pr s'), K1, kv, K2, M1, M2. split_and!; try done.
  destruct (pleft s') eqn:El; [by rewrite (Hlf eq_refl)|]. specialize (Hge eq_refl).
  by rewrite app_nil_r in Hge.
Qed.
End SplitPiv.

(** * Properties of rotmerge *)

(** Two neighbours as trybalance hands them to rotmerge, and fresh blocks. *)
Record balinput (a b d l r : Blk) (ka kb : list Kvp) (ma mb : list Msg) : Prop := {
  bi_a : blk_repr a ka ma;
  bi_b : blk_repr b kb mb;
  bi_typ : btyp a = btyp b;
  bi_small : Forall (fun kv => kv_small kv /\ entry_ok kv) (ka ++ kb);
  bi_sorted : kvs_sorted (ka ++ kb);
  bi_msorted : keys_sorted (msg_keys (ma ++ mb));
  (* fill + blkfill(m) < spc *)
  bi_fill : exists fa fb, blkfill a = Ok fa /\ blkfill b = Ok fb /\ fa + fb < bspc a;
  bi_d : blk_repr d [] [] /\ btyp d = btyp a;
  bi_l : blk_repr l [] [] /\ btyp l = btyp a;
  bi_r : blk_repr r [] [] /\ btyp r = btyp a
}.

Lemma balinput_neighbours a b d l r ka kb ma mb :
  balinput a b d l r ka kb ma mb -> neighbours a b ka kb ma mb.
Proof.
  intros [Ra Rb Ht Hsm Hs Hms (fa & fb & Ea & Eb & Hf) _ _ _].
  rewrite (blkfill_repr _ _ _ Ra) in Ea. rewrite (blkfill_repr _ _ _ Rb) in Eb. simplify_eq.
  pose proof (kvs_valsz_nonneg ka). pose proof (kvs_valsz_nonneg kb).
  pose proof (zlen_nonneg ma). pose proof (zlen_nonneg mb).
  pose proof (msgs_size_nonneg ma). pose proof (msgs_size_nonneg mb).
  split; try done.
  - eapply Forall_impl; [exact Hsm|]. by intros ? [_ ?].
  - fold (kvs_valsz (ka ++ kb)). rewrite kvs_valsz_app. lia.
  - autorewrite with gefs. destruct (repr_typ _ _ _ Ra) as [T|T].
    + rewrite (repr_leaf _ _ _ Ra T), (repr_leaf _ _ _ Rb (eq_trans (eq_sym Ht) T)). done.
    + unfold bspc in Hf. rewrite decide_False in Hf by (by rewrite T).
      destruct layout_sizes as (? & HP & HB & ?). lia.
Qed.

Lemma valsz_small kv : kv_small kv -> valsz kv <= 774.
Proof. intros [? ?]. unfold valsz, Keymax, Inlmax, Maxent in *. lia. Qed.

(** C12: evening out two neighbours loses nothing.  For two neighbouring
    blocks of one type whose fills fit one block together, rotmerge decides
    without an abort, and what it decides succeeds: a merge leaves the values
    and the messages of both, in order, in one block; a rotation leaves two
    blocks, neither empty, that together hold the values and the messages in
    order, with every message in the block whose key range it belongs to. *)
Theorem balance_correct a b d l r ka kb ma mb :
  balinput a b d l r ka kb ma mb ->
  exists c, rotmerge a b = Ok c /\
  match c with
  | BalNone => True
  | BalMerge => exists d', merge a b d = Ok d' /\ blk_repr d' (ka ++ kb) (ma ++ mb)
  | BalRotate half =>
      exists l' r' K1 kv K2 M1 M2,
        rotate a b half l r = Ok (l', r') /\ blk_repr l' K1 M1 /\ blk_repr r' (kv :: K2) M2 /\
        ka ++ kb = K1 ++ kv :: K2 /\ ma ++ mb = M1 ++ M2 /\ K1 <> [] /\
        Forall (fun m => key_lt (mk m) (k kv)) M1 /\ Forall (fun m => key_le (k kv) (mk m)) M2
  end.
Proof.
  intros B. pose proof (balinput_neighbours _ _ _ _ _ _ _ _ _ B) as N.
  destruct B as [Ra Rb Ht Hsm Hs Hms _ [Rd Td] [Rl Tl] [Rr Tr]].
  unfold rotmerge. rewrite (bool_decide_true (btyp a = btyp b)) by done. cbn [check]. rewrite bind_ok.
  destruct (if bool_decide (btyp a = Tleaf) then _ else _) as [na nb].
  destruct (_ && _).
  { eexists. split; [reflexivity|].
    destruct (merge_repr a b d _ _ _ _ N Rd Td) as (d' & E & R & _). by exists d'. }
  destruct (Z.ltb_spec (4 * Msgmax)
    (Z.abs (2 * nval a + bvalsz a - (2 * nval b + bvalsz b)))) as [Him|]; [|by eexists].
  eexists. split; [reflexivity|].
  rewrite (repr_nval _ _ _ Ra), (repr_valsz _ _ _ Ra), (repr_nval _ _ _ Rb), (repr_valsz _ _ _ Rb) in *.
  fold (kvs_valsz ka) (kvs_valsz kb) in *. rewrite msgmax_val in Him.
  pose proof (kvs_valsz_nonneg ka). pose proof (kvs_valsz_nonneg kb).
  destruct (ka ++ kb) as [|x Q _] eqn:EQ using rev_ind.
  { apply app_eq_nil in EQ as [-> ->]. rewrite kvs_valsz_nil in Him. lia. }
  assert (kvs_valsz ka + kvs_valsz kb = kvs_valsz Q + valsz x) as Hsum.
  { by rewrite <- kvs_valsz_app, EQ, kvs_valsz_app, kvs_valsz_one. }
  rewrite <- EQ in *.
  assert (valsz x <= 774) as Hx.
  { apply valsz_small. rewrite EQ in Hsm. apply Forall_app in Hsm as [_ Hsm].
    by apply Forall_cons in Hsm as [[? _] _]. }
  pose proof (Z.quot_div_nonneg (kvs_valsz ka + kvs_valsz kb) 2).
  pose proof (Z.div_mod (kvs_valsz ka + kvs_valsz kb) 2).
  pose proof (Z.mod_pos_bound (kvs_valsz ka + kvs_valsz kb) 2).
  destruct (rotate_repr a b ka kb ma mb (Z.quot (kvs_valsz ka + kvs_valsz kb) 2) l r Q x)
    as (l' & r' & K1 & kv & K2 & M1 & M2 & E & R1 & R2 & _ & _ & HK & HM & Hne & _ & F1 & F2);
    try done; [lia|lia|].
  exists l', r', K1, kv, K2, M1, M2. done.
Qed.

(** ** Two small pivots *)

Definition ex_kv (n : Z) : Kvp := mkKvp [n] (pack 8 n ++ pack 8 0 ++ pack 8 0 ++ pack 2 7).
Definition ex_b0 : Bptr := mkBptr 0 0 0.
Definition ex_ka : list Kvp := [ex_kv 1; ex_kv 3].
Definition ex_kb : list Kvp := [ex_kv 5; ex_kv 7; ex_kv 9].
Definition ex_ma : list Msg := [mkMsg Oinsert [2] [1]; mkMsg Owstat [2] [0]].
Definition ex_mb : list Msg := [mkMsg Odelete [8] []].
Definition ex_pa : Blk := build Tpivot ex_b0 ex_ka ex_ma.
Definition ex_pb : Blk := build Tpivot ex_b0 ex_kb ex_mb.
Definition ex_fresh : Blk := build Tpivot ex_b0 [] [].

Lemma ex_pa_repr : blk_repr ex_pa ex_ka ex_ma /\ btyp ex_pa = Tpivot /\ bp ex_pa = ex_b0.
Proof. apply build_repr; [by left|repeat constructor; done|repeat constructor; done|done|done]. Qed.
Lemma ex_pb_repr : blk_repr ex_pb ex_kb ex_mb /\ btyp ex_pb = Tpivot /\ bp ex_pb = ex_b0.
Proof. apply build_repr; [by left|repeat constructor; done|repeat constructor; done|done|done]. Qed.
Lemma ex_fresh_repr : blk_repr ex_fresh [] [] /\ btyp ex_fresh = Tpivot /\ bp ex_fresh = ex_b0.
Proof. apply build_repr; [by left|constructor|constructor|done|done]. Qed.

Lemma balance_correct_witness :
  balinput ex_pa ex_pb ex_fresh ex_fresh ex_fresh ex_ka ex_kb ex_ma ex_mb /\
  exists c, rotmerge ex_pa ex_pb = Ok c /\
  match c with
  | BalNone => True
  | BalMerge => exists d', merge ex_pa ex_pb ex_fresh = Ok d' /\ blk_repr d' (ex_ka ++ ex_kb) (ex_ma ++ ex_mb)
  | BalRotate half =>
      exists l' r' K1 kv K2 M1 M2,
        rotate ex_pa ex_pb half ex_fresh ex_fresh = Ok (l', r') /\
        blk_repr l' K1 M1 /\ blk_repr r' (kv :: K2) M2 /\
        ex_ka ++ ex_kb = K1 ++ kv :: K2 /\ ex_ma ++ ex_mb = M1 ++ M2 /\ K1 <> [] /\
        Forall (fun m => key_lt (mk m) (k kv)) M1 /\ Forall (fun m => key_le (k kv) (mk m)) M2
  end.
Proof.
  assert (balinput ex_pa ex_pb ex_fresh ex_fresh ex_fresh ex_ka ex_kb ex_ma ex_mb) as B.
  { destruct ex_pa_repr as (Ra & Ta & _), ex_pb_repr as (Rb & Tb & _), ex_fresh_repr as (Rf & Tf & _).
    split; rewrite ?Ta, ?Tb, ?Tf; try done.
    - repeat constructor; done.
    - unfold kvs_sorted. cbn. repeat constructor; done.
    - unfold keys_sorted. cbn. repeat constructor; done.
    - eexists _, _. rewrite (blkfill_repr _ _ _ Ra), (blkfill_repr _ _ _ Rb).
      split_and!; [reflexivity|reflexivity|]. unfold bspc. rewrite Ta. by vm_compute. }
  split; [exact B|]. exact (balance_correct _ _ _ _ _ _ _ _ _ B).
Defined.

Definition ex_child : Blk := build Tleaf (mkBptr 65536 1 2) [mkKvp [1; 1] [5]; mkKvp [2] [1]] [].
Definition ex_kid : kid := mkKid POmod (Some ex_child) None 1 0.
Definition ex_pms : list Msg := [mkMsg Oinsert [2] [2]; mkMsg Oinsert [4] [3]].

Lemma ex_kidptr : kidptr (Some ex_child) [ptr_kv [1; 1] (mkBptr 65536 1 2) 17].
Proof.
  assert (blk_repr ex_child [mkKvp [1; 1] [5]; mkKvp [2] [1]] [] /\ btyp ex_child = Tleaf /\
    bp ex_child = mkBptr 65536 1 2) as (Rc & _ & Pc).
  { apply build_repr; [by right|repeat constructor; done|constructor|done|done]. }
  cbn [kidptr]. rewrite Pc. exists [mkKvp [1; 1] [5]; mkKvp [2] [1]], [].
  split_and!; try done. repeat constructor; done.
Qed.

Lemma ex_pivinput :
  pivinput ex_pa (SrcIns ex_pms) 0 2 0 0 (Some ex_kid) ex_ka
    (newvals ex_ka 0 ex_kid ([ptr_kv [1; 1] (mkBptr 65536 1 2) 17] ++ [])) ex_ma
    [mkMsg Owstat [2] [0]] ex_pms.
Proof.
  destruct ex_pa_repr as (Ra & Ta & _). split; try done.
  - repeat constructor; done.
  - unfold msgs_sorted, keys_sorted. cbn. repeat constructor; done.
  - apply (src_repr_ins []).
  - unfold msgs_sorted, keys_sorted. cbn. repeat constructor; done.
  - repeat constructor; done.
  - exists 0%nat, [ptr_kv [1; 1] (mkBptr 65536 1 2) 17], []. split_and!; try done.
    + cbn. lia.
    + apply ex_kidptr.
Qed.

Lemma updatepiv_correct_witness :
  exists n' pl pm out,
    updatepiv ex_pa (SrcIns ex_pms) 0 2 0 0 0 (Some ex_kid) ex_fresh =
      Ok (n', zlen pl, 0 + total_msgsz pl) /\
    ex_pms = pl ++ pm /\
    blk_repr n' (newvals ex_ka 0 ex_kid ([ptr_kv [1; 1] (mkBptr 65536 1 2) 17] ++ [])) out /\
    msgs_sorted out /\
    (forall key, for_key key out = for_key key [mkMsg Owstat [2] [0]] ++ for_key key pl).
Proof.
  apply (updatepiv_correct _ _ _ _ _ _ _ ex_ka _ ex_ma); [exact ex_pivinput|apply ex_fresh_repr|apply ex_fresh_repr].
Defined.

(** * Properties of splitpiv *)

Lemma msgs_sorted_cut ms p q : (p <= q)%nat -> msgs_sorted ms -> msgs_sorted (take p ms ++ drop q ms).
Proof.
  intros Hpq H. assert (ms = take p ms ++ take (q - p) (drop p ms) ++ drop q ms) as E.
  { rewrite <- (take_drop p ms) at 1. f_equal. rewrite <- (take_drop (q - p) (drop p ms)) at 1. rewrite drop_drop. do 2 f_equal. lia. }
  unfold msgs_sorted, keys_sorted, msg_keys in *. rewrite E, !fmap_app in H. rewrite fmap_app.
  apply StronglySorted_app in H as (H1 & H2 & H3). apply StronglySorted_app in H3 as (_ & _ & H4).
  apply StronglySorted_app. split_and!; [|done|done]. intros x y Hx Hy. apply H1; [done|]. apply elem_of_app. by right.
Qed.

Lemma pivkid_sorted pp kvs ms midx plo nkvs rst :
  pivkid pp kvs ms midx plo nkvs rst -> msgs_sorted ms -> msgs_sorted rst.
Proof.
  destruct pp as [c|]; cbn; [|by intros (_ & _ & ->)].
  intros (mi & l1 & l2 & _ & _ & _ & _ & H1 & H2 & _ & _ & _ & ->). apply msgs_sorted_cut. lia.
Qed.

Lemma halves_sorted K1 kv K2 M1 M2 :
  msgs_sorted (M1 ++ M2) ->
  msgs_sorted M1 /\ msgs_sorted M2 /\
  (kvs_sorted (K1 ++ kv :: K2) -> kvs_sorted K1 /\ kvs_sorted (kv :: K2) /\ Forall (fun x => key_lt (k x) (k kv)) K1).
Proof.
  unfold msgs_sorted, keys_sorted, msg_keys, kvs_sorted, kv_keys. rewrite fmap_app.
  intros (_ & H1 & H2)%StronglySorted_app. split_and!; [done|done|]. rewrite fmap_app.
  intros (H3 & H4 & H5)%StronglySorted_app. split_and!; [done|done|]. apply Forall_forall. intros x Hx. apply H3.
  - by apply list_elem_of_fmap_2.
  - cbn. by left.
Qed.

(** C11: splitting a full pivot loses nothing.  For a pivot of at least four
    children, each with a pointer-sized entry, and a child below that was
    replaced by up to two new ones and has pulled a range of the buffer,
    splitpiv terminates without an abort; the two blocks it fills hold
    together exactly the entries after the replacement and the messages that
    were not pulled, in order; each has at least two entries, when the child
    was replaced by a node at all; the buffers are sorted, and so are the
    entries when those after the replacement are; and every message is in the
    block whose key range it belongs to, the right block's range starting at
    its first key. *)
Theorem splitpiv_correct b kvs ms pidx plo pp nkvs rst l r :
  blk_repr b kvs ms -> btyp b = Tpivot -> Forall entry_ok kvs ->
  Forall (fun kv => valsz kv <= 288) kvs -> msgs_sorted ms ->
  pivkid pp kvs ms pidx plo nkvs rst ->
  match pp with Some c => kwidth c = 1%nat | None => pidx = -1 end ->
  (4 <= length kvs)%nat ->
  blk_repr l [] [] -> blk_repr r [] [] -> btyp l = Tpivot -> btyp r = Tpivot ->
  exists l' r' K1 kv K2 M1 M2,
    splitpiv b pidx plo pp l r = Ok (l', r') /\ blk_repr l' K1 M1 /\ blk_repr r' (kv :: K2) M2 /\
    nkvs = K1 ++ kv :: K2 /\ rst = M1 ++ M2 /\ K1 <> [] /\
    (match pp with Some c => is_Some (knl c) \/ is_Some (knr c) | None => True end ->
     (2 <= length K1 /\ 2 <= length (kv :: K2))%nat) /\
    Forall (fun m => key_lt (mk m) (k kv)) M1 /\ Forall (fun m => key_le (k kv) (mk m)) M2 /\
    msgs_sorted M1 /\ msgs_sorted M2 /\
    (kvs_sorted nkvs -> kvs_sorted K1 /\ kvs_sorted (kv :: K2) /\ Forall (fun x => key_lt (k x) (k kv)) K1).
Proof.
  intros R Tb He Hp Hs Hk Ho HN Rl Rr Tl Tr.
  destruct (splitpiv_spec b kvs ms pidx plo pp nkvs rst R Tb He Hp Hs Hk Ho HN l r Rl Rr Tl Tr)
    as (l' & r' & K1 & kv & K2 & M1 & M2 & E & R1 & R2 & _ & _ & Enk & Er & Hne & Hlen & H1 & H2).
  exists l', r', K1, kv, K2, M1, M2. pose proof (pivkid_sorted _ _ _ _ _ _ _ Hk Hs) as Hrs. rewrite Er in Hrs.
  rewrite Enk. destruct (halves_sorted K1 kv K2 M1 M2 Hrs) as (? & ? & ?). done.
Qed.

Definition ex_k4 : list Kvp := [ex_kv 1; ex_kv 3; ex_kv 5; ex_kv 7].
Definition ex_m4 : list Msg := [mkMsg Oinsert [2] [1]; mkMsg Odelete [6] []; mkMsg Odelete [8] []].
Definition ex_p4 : Blk := build Tpivot ex_b0 ex_k4 ex_m4.

Lemma splitpiv_correct_witness :
  exists l' r' K1 kv K2 M1 M2,
    splitpiv ex_p4 0 0 (Some ex_kid) ex_fresh ex_fresh = Ok (l', r') /\
    blk_repr l' K1 M1 /\ blk_repr r' (kv :: K2) M2 /\
    newvals ex_k4 0 ex_kid ([ptr_kv [1; 1] (mkBptr 65536 1 2) 17] ++ []) = K1 ++ kv :: K2 /\
    [mkMsg Odelete [6] []; mkMsg Odelete [8] []] = M1 ++ M2 /\
    (2 <= length K1 /\ 2 <= length (kv :: K2))%nat /\
    Forall (fun m => key_lt (mk m) (k kv)) M1 /\ Forall (fun m => key_le (k kv) (mk m)) M2 /\
    msgs_sorted M1 /\ msgs_sorted M2 /\ kvs_sorted K1 /\ kvs_sorted (kv :: K2) /\
    Forall (fun x => key_lt (k x) (k kv)) K1.
Proof.
  assert (blk_repr ex_p4 ex_k4 ex_m4 /\ btyp ex_p4 = Tpivot /\ bp ex_p4 = ex_b0) as (R & T & _)
    by (apply build_repr; [by left|repeat constructor; done|repeat constructor; done|done|done]).
  destruct (splitpiv_correct ex_p4 ex_k4 ex_m4 0 0 (Some ex_kid)
    (newvals ex_k4 0 ex_kid ([ptr_kv [1; 1] (mkBptr 65536 1 2) 17] ++ [])) [mkMsg Odelete [6] []; mkMsg Odelete [8] []]
    ex_fresh ex_fresh) as (l' & r' & K1 & kv & K2 & M1 & M2 & E & R1 & R2 & Ek & Em & _ & Hlen & H1 & H2 & H3 & H4 & H5).
  - exact R.
  - exact T.
  - repeat constructor; done.
  - repeat constructor; done.
  - unfold msgs_sorted, keys_sorted. cbn. repeat constructor; done.
  - exists 0%nat, [ptr_kv [1; 1] (mkBptr 65536 1 2) 17], [].
    split_and!; [done|cbn; lia|exact ex_kidptr|done|done|done|done|done|done|done|done].
  - reflexivity.
  - cbn. lia.
  - apply ex_fresh_repr.
  - apply ex_fresh_repr.
  - apply ex_fresh_repr.
  - apply ex_fresh_repr.
  - exists l', r', K1, kv, K2, M1, M2. destruct H5 as (H5 & H6 & H7).
    { unfold kvs_sorted. cbn. repeat constructor; done. }
    split; [exact E|]. split; [exact R1|]. split; [exact R2|]. split; [exact Ek|]. split; [exact Em|].
    split; [apply Hlen; left; by eexists|]. split_and!; assumption.
Defined.

(** The halves of a split whose child has no block left: setb has dropped it,
    and one of them has a single entry. *)
Lemma splitpiv_vanished :
  exists l r, splitpiv ex_p4 0 0 (Some (mkKid POmod None None 1 0)) ex_fresh ex_fresh = Ok (l, r) /\ nval l = 1 /\ nval r = 2.
Proof.
  assert (('(l, r) ← splitpiv ex_p4 0 0 (Some (mkKid POmod None None 1 0)) ex_fresh ex_fresh; Ok (nval l, nval r)) = Ok (1, 2)) as H
    by (vm_compute; reflexivity).
  apply bind_Ok in H as ([l r] & E & H). apply Ok_inj in H. injection H as H1 H2.
  exact (ex_intro _ l (ex_intro _ r (conj E (conj H1 H2)))).
Qed.
