(* ===== verification/Avl.v ===== *)
(** sys/src/9/gefs/avl.c: the balanced trees in which an arena keeps its free
    ranges (Knuth, volume 3, 6.2.3).

    A node's children are an array indexed by a direction, and the rotations
    are written once for both; the model keeps that, with [ch a t] for
    t->c[a].  A parent pointer is the path from the root, a zipper.  The
    comparison is a parameter, as in the code; it orders the elements by an
    integer key, as rangecmp of load.c does. *)

From S2P Require Import Prelude.

(** * The code *)

Inductive avl (A : Type) := Nil | Node (c0 : avl A) (x : A) (balance : Z) (c1 : avl A).
Arguments Nil {_}.
Arguments Node {_} _ _ _ _.

Section Code.
  Context {A : Type} (cmp : A -> A -> Z).

(** A direction: false for c[0], true for c[1]; [dir c] is (c+1)/2. *)
Definition dir (c : Z) : bool := 0 <? c.

Definition ch (a : bool) (t : avl A) : res (avl A) :=
  match t with
  | Nil => Fail Undef
  | Node c0 _ _ c1 => Ok (if a then c1 else c0)
  end.

Definition setch (a : bool) (t n : avl A) : res (avl A) :=
  match t with
  | Nil => Fail Undef
  | Node c0 x b c1 => Ok (if a then Node c0 x b n else Node n x b c1)
  end.

Definition balance (t : avl A) : res Z :=
  match t with Nil => Fail Undef | Node _ _ b _ => Ok b end.

Definition setbalance (t : avl A) (b : Z) : res (avl A) :=
  match t with Nil => Fail Undef | Node c0 x _ c1 => Ok (Node c0 x b c1) end.

Fixpoint lookup (t : avl A) (k : A) (d : Z) (n : option A) : option A :=
  match t with
  | Nil => n
  | Node c0 x _ c1 =>
      let c := cmp k x in
      if c <? 0 then lookup c0 k d (if 0 <? d then Some x else n)
      else if 0 <? c then lookup c1 k d (if d <? 0 then Some x else n)
      else Some x
  end.

Definition avllookup (t : avl A) (k : A) (d : Z) : option A := lookup t k d None.

Definition rotate (c : Z) (s : avl A) : res (avl A) :=
  let a := dir c in
  r ← ch a s;
  n ← ch (negb a) r;
  s ← setch a s n;
  setch (negb a) r s.

Definition singlerot (c : Z) (s : avl A) : res (avl A) :=
  s ← setbalance s 0;
  s ← rotate c s;
  setbalance s 0.

(** After the two rotations s is p's child away from c and r the one towards
    it. *)
Definition doublerot (c : Z) (s : avl A) : res (avl A) :=
  let a := dir c in
  r ← ch a s;
  r ← rotate (- c) r;
  s ← setch a s r;
  p ← rotate c s;
  pb ← balance p;
  s ← ch (negb a) p;
  r ← ch a p;
  let '(sb, rb) := if pb =? c then (- c, 0) else if pb =? - c then (0, c) else (0, 0) in
  s ← setbalance s sb;
  r ← setbalance r rb;
  p ← setch (negb a) p s;
  p ← setch a p r;
  setbalance p 0.

(** insertfix and deletefix return whether the subtree's height has changed. *)
Definition insertfix (c : Z) (s : avl A) : res (bool * avl A) :=
  b ← balance s;
  if b =? 0 then s ← setbalance s c; Ok (true, s)
  else if b =? - c then s ← setbalance s 0; Ok (false, s)
  else
    r ← ch (dir c) s;
    rb ← balance r;
    s ← (if rb =? c then singlerot c s else doublerot c s);
    Ok (false, s).

Definition deletefix (c : Z) (s : avl A) : res (bool * avl A) :=
  b ← balance s;
  if b =? 0 then s ← setbalance s c; Ok (false, s)
  else if b =? - c then s ← setbalance s 0; Ok (true, s)
  else
    r ← ch (dir c) s;
    rb ← balance r;
    if rb =? 0 then
      s ← rotate c s;
      s ← setbalance s (- c);
      Ok (false, s)
    else
      s ← (if rb =? c then singlerot c s else doublerot c s);
      Ok (true, s).

(** The result: whether to fix, the subtree, and the element replaced. *)
Fixpoint insert (k : A) (q : avl A) : res (bool * avl A * option A) :=
  match q with
  | Nil => Ok (true, Node Nil k 0 Nil, None)
  | Node c0 x b c1 =>
      let c := cmp k x in
      if c =? 0 then Ok (false, Node c0 k b c1, Some x)
      else
        let c := if 0 <? c then 1 else -1 in
        '(fix_, sub, old) ← insert k (if dir c then c1 else c0);
        let q := if dir c then Node c0 x b sub else Node sub x b c1 in
        if fix_ : bool then '(f, q) ← insertfix c q; Ok (f, q, old) else Ok (false, q, old)
  end.

Definition avlinsert (t : avl A) (k : A) : res (avl A * option A) :=
  '(_, t, old) ← insert k t; Ok (t, old).

Fixpoint deletemin (q : avl A) : res (bool * avl A * A) :=
  match q with
  | Nil => Fail Undef
  | Node Nil x _ c1 => Ok (true, c1, x)
  | Node c0 x b c1 =>
      '(fix_, sub, e) ← deletemin c0;
      let q := Node sub x b c1 in
      if fix_ : bool then '(f, q) ← deletefix 1 q; Ok (f, q, e) else Ok (false, q, e)
  end.

Fixpoint delete (k : A) (q : avl A) : res (bool * avl A * option A) :=
  match q with
  | Nil => Ok (false, Nil, None)
  | Node c0 x b c1 =>
      let c := cmp k x in
      let c := if 0 <? c then 1 else if c <? 0 then -1 else 0 in
      if c =? 0 then
        match c1 with
        | Nil => Ok (true, c0, Some x)
        | _ =>
            '(fix_, sub, e) ← deletemin c1;
            let q := Node c0 e b sub in
            if fix_ : bool then '(f, q) ← deletefix (-1) q; Ok (f, q, Some x)
            else Ok (false, q, Some x)
        end
      else
        '(fix_, sub, old) ← delete k (if dir c then c1 else c0);
        let q := if dir c then Node c0 x b sub else Node sub x b c1 in
        if fix_ : bool then '(f, q) ← deletefix (- c) q; Ok (f, q, old) else Ok (false, q, old)
  end.

Definition avldelete (t : avl A) (k : A) : res (avl A * option A) :=
  match t with
  | Nil => Ok (Nil, None)
  | _ => '(_, t, old) ← delete k t; Ok (t, old)
  end.

Fixpoint bottom (d : bool) (t : avl A) : option A :=
  match t with
  | Nil => None
  | Node c0 x _ c1 =>
      match (if d then c1 else c0) with
      | Nil => Some x
      | _ => if d then bottom d c1 else bottom d c0
      end
  end.
Definition avlmin (t : avl A) : option A := bottom false t.
Definition avlmax (t : avl A) : option A := bottom true t.

(** A node with its parents: for each, the direction taken down from it, its
    element and its other child. *)
Record zip := mkZip { zc0 : avl A; zx : A; zc1 : avl A; zup : list (bool * A * Z * avl A); zb : Z }.

(** The walk up: to the first parent reached from its other side. *)
Fixpoint walkup (a : bool) (up : list (bool * A * Z * avl A)) : option A :=
  match up with
  | [] => None
  | (d, x, _, _) :: up => if eqb d a then walkup a up else Some x
  end.

Definition walk1 (a : bool) (q : zip) : option A :=
  match (if a then zc1 q else zc0 q) with
  | Nil => walkup a (zup q)
  | t => bottom (negb a) t
  end.
Definition avlprev (q : zip) : option A := walk1 false q.
Definition avlnext (q : zip) : option A := walk1 true q.
End Code.

(** rangecmp of load.c, on the offsets of two ranges. *)
Record Arange := mkArange { off : Z; len : Z }.
#[global] Instance Arange_eq_dec : EqDecision Arange.
Proof. solve_decision. Defined.

Definition rangecmp (a b : Arange) : Z :=
  if off a <? off b then -1 else if off b <? off a then 1 else 0.

(** * Correctness *)

Section Correct.
  Context {A : Type} (key : A -> Z) (cmp : A -> A -> Z).
  Hypothesis Hcmp : forall x y, Z.sgn (cmp x y) = Z.sgn (key x - key y).

Fixpoint elements (t : avl A) : list A :=
  match t with Nil => [] | Node c0 x _ c1 => elements c0 ++ x :: elements c1 end.

Fixpoint height (t : avl A) : Z :=
  match t with Nil => 0 | Node c0 _ _ c1 => 1 + Z.max (height c0) (height c1) end.

(** Every node's balance is the difference of its children's heights. *)
Fixpoint balanced (t : avl A) : Prop :=
  match t with
  | Nil => True
  | Node c0 _ b c1 => b = height c1 - height c0 /\ -1 <= b <= 1 /\ balanced c0 /\ balanced c1
  end.

Definition asc (l : list A) : Prop := StronglySorted (fun x y => key x < key y) l.

Lemma height_nonneg t : 0 <= height t.
Proof. induction t; cbn; lia. Qed.


(** ** The rotations *)

Ltac avl_crush :=
  repeat match goal with
  | H : balanced (Node _ _ _ _) |- _ => cbn [balanced] in H
  | H : _ /\ _ |- _ => destruct H
  | t : avl A |- _ =>
      lazymatch goal with H : 0 <= height t |- _ => fail | _ => idtac end;
      pose proof (height_nonneg t)
  end.

(** A node's balance is one of three numbers. *)
Ltac three b :=
  assert (b = -1 \/ b = 0 \/ b = 1) as [-> | [-> | ->]] by lia.

(** After an insertion that made the child towards [c] one higher. *)
Lemma insertfix_spec c c0 x b c1 :
  c = 1 \/ c = -1 ->
  balanced c0 -> balanced c1 -> -1 <= b <= 1 -> b + c = height c1 - height c0 ->
  (b = c -> exists d0 y rb d1, (if dir c then c1 else c0) = Node d0 y rb d1 /\ rb <> 0) ->
  exists f d0 y b' d1,
    let s' := Node d0 y b' d1 in
    insertfix c (Node c0 x b c1) = Ok (f, s') /\ balanced s' /\
    elements s' = elements c0 ++ x :: elements c1 /\ (f = true -> b' <> 0) /\
    height s' = 1 + (if dir c then Z.max (height c0) (height c1 - 1) else Z.max (height c0 - 1) (height c1))
                + Z.b2z f.
Proof.
  intros Hc H0 H1 Hb Hd Hr.
  destruct (decide (b = c)) as [->|Hbc].
  - destruct (Hr eq_refl) as (d0 & y & rb & d1 & E & Hrb). clear Hr.
    destruct Hc as [-> | ->]; cbn [dir Z.ltb Z.compare] in *; subst; avl_crush; three rb; try done;
      [destruct d0 as [|e0 z zb e1]| | |destruct d1 as [|e0 z zb e1]]; avl_crush;
      try (three zb); cbn [height] in *; try lia;
      eexists _, _, _, _, _; (split; [lazy; reflexivity|]); cbn [balanced height elements Z.b2z];
      repeat (rewrite <- app_assoc; cbn [app]); repeat split; auto; lia.
  - clear Hr. destruct Hc as [-> | ->]; three b; try done;
      eexists _, _, _, _, _; (split; [lazy; reflexivity|]); cbn [balanced height elements Z.b2z dir Z.ltb Z.compare];
      repeat split; auto; lia.
Qed.

(** After a deletion that made the child away from [c] one lower. *)
Lemma deletefix_spec c c0 x b c1 :
  c = 1 \/ c = -1 ->
  balanced c0 -> balanced c1 -> -1 <= b <= 1 -> b + c = height c1 - height c0 ->
  exists f s',
    deletefix c (Node c0 x b c1) = Ok (f, s') /\ balanced s' /\
    elements s' = elements c0 ++ x :: elements c1 /\
    height s' = 1 + (if dir c then Z.max (height c0 + 1) (height c1) else Z.max (height c0) (height c1 + 1))
                - Z.b2z f.
Proof.
  intros Hc H0 H1 Hb Hd.
  destruct (decide (b = c)) as [->|Hbc].
  - avl_crush. destruct Hc as [-> | ->];
      [destruct c1 as [|d0 y rb d1]|destruct c0 as [|d0 y rb d1]]; cbn [height] in *; try lia;
      avl_crush; three rb;
      [destruct d0 as [|e0 z zb e1]| | | | |destruct d1 as [|e0 z zb e1]]; avl_crush;
      try (three zb); cbn [height] in *; try lia;
      eexists _, _; (split; [lazy; reflexivity|]); cbn [balanced height elements Z.b2z dir Z.ltb Z.compare];
      repeat (rewrite <- app_assoc; cbn [app]); repeat split; auto; lia.
  - destruct Hc as [-> | ->]; three b; try done;
      eexists _, _; (split; [lazy; reflexivity|]); cbn [balanced height elements Z.b2z dir Z.ltb Z.compare];
      repeat split; auto; lia.
Qed.

(** ** What the tree holds around a key *)

Definition below (k : A) (l : list A) : list A := filter (fun x => key x < key k) l.
Definition above (k : A) (l : list A) : list A := filter (fun x => key k < key x) l.
Definition at_ (k : A) (l : list A) : option A := list_find (fun x => key x = key k) l ≫= fun p => Some p.2.

Lemma at_none k l : Forall (fun x => key x <> key k) l -> at_ k l = None.
Proof.
  unfold at_. intros H. destruct (list_find _ l) as [[i y]|] eqn:E; [|done].
  apply list_find_Some in E as (Hl & He & _).
  exfalso. exact (Forall_lookup_1 _ _ _ _ H Hl He).
Qed.

Lemma at_app_none k l1 l2 : at_ k l1 = None -> at_ k (l1 ++ l2) = at_ k l2.
Proof.
  unfold at_. intros H. destruct (list_find _ l1) as [[i y]|] eqn:E; [done|].
  rewrite list_find_app_r by done. by destruct (list_find _ l2) as [[]|].
Qed.

Lemma at_app_r k l1 l2 : Forall (fun x => key x <> key k) l2 -> at_ k (l1 ++ l2) = at_ k l1.
Proof.
  intros H. apply at_none in H. destruct (at_ k l1) as [y|] eqn:E1; [|by rewrite at_app_none].
  unfold at_ in *. destruct (list_find _ l1) as [[i z]|] eqn:E; [|done].
  erewrite list_find_app_l by exact E. done.
Qed.

Lemma at_cons_eq k x l : key x = key k -> at_ k (x :: l) = Some x.
Proof. intros H. unfold at_. cbn. by rewrite decide_True. Qed.

Lemma asc_filter (P : A -> Prop) `{forall x, Decision (P x)} l : asc l -> asc (filter P l).
Proof.
  induction 1 as [|x l _ IH Hf]; [constructor|]. destruct (decide (P x)) as [Hp|Hp];
    [rewrite filter_cons_True by done|by rewrite filter_cons_False by done].
  constructor; [done|]. apply Forall_forall. intros y [_ Hy]%list_elem_of_filter.
  exact (proj1 (Forall_forall _ _) Hf y Hy).
Qed.

Lemma around_forall k l : Forall (fun y => key y < key k) (below k l) /\ Forall (fun y => key k < key y) (above k l).
Proof. split; apply Forall_forall; intros y Hy; by apply list_elem_of_filter in Hy as [? _]. Qed.

Lemma asc_mid l1 x l2 :
  asc (l1 ++ x :: l2) ->
  asc l1 /\ asc l2 /\ Forall (fun y => key y < key x) l1 /\ Forall (fun y => key x < key y) l2.
Proof.
  unfold asc. intros (H1 & H2 & H3)%StronglySorted_app. inversion H3; subst.
  repeat split; auto. apply Forall_forall. intros y Hy. apply H1; [done|]. by left.
Qed.

(** A search for [k] goes the way of the comparison: what it leaves behind is
    all on one side of [k]. *)
Lemma around_lt k l1 x l2 :
  asc (l1 ++ x :: l2) -> key k < key x ->
  below k (l1 ++ x :: l2) = below k l1 /\ above k (l1 ++ x :: l2) = above k l1 ++ x :: l2 /\
  at_ k (l1 ++ x :: l2) = at_ k l1.
Proof.
  intros (_ & _ & _ & Hf)%asc_mid Hk. unfold below, above. rewrite !filter_app.
  assert (Forall (fun y => key k < key y) (x :: l2)) as Hall.
  { constructor; [done|]. eapply Forall_impl; [exact Hf|]. cbn. lia. }
  split_and!.
  - rewrite (filter_none _ (x :: l2)); [by rewrite app_nil_r|]. eapply Forall_impl; [exact Hall|]. cbn. lia.
  - f_equal. by apply filter_all.
  - apply at_app_r. eapply Forall_impl; [exact Hall|]. cbn. lia.
Qed.

Lemma around_gt k l1 x l2 :
  asc (l1 ++ x :: l2) -> key x < key k ->
  below k (l1 ++ x :: l2) = l1 ++ x :: below k l2 /\ above k (l1 ++ x :: l2) = above k l2 /\
  at_ k (l1 ++ x :: l2) = at_ k l2.
Proof.
  intros (_ & _ & Hf & _)%asc_mid Hk.
  assert (Forall (fun y => key y < key k) (l1 ++ [x])) as Hall.
  { apply Forall_app. split; [|by repeat constructor]. eapply Forall_impl; [exact Hf|]. cbn. lia. }
  change (x :: l2) with ([x] ++ l2). unfold below, above. rewrite !(app_assoc l1), !filter_app.
  rewrite <- !filter_app. split_and!.
  - rewrite filter_app, (filter_all _ (l1 ++ [x])) by done. by rewrite <- app_assoc.
  - rewrite filter_app, (filter_none _ (l1 ++ [x])); [done|]. eapply Forall_impl; [exact Hall|]. cbn. lia.
  - apply at_app_none, at_none. eapply Forall_impl; [exact Hall|]. cbn. lia.
Qed.

Lemma around_eq k l1 x l2 :
  asc (l1 ++ x :: l2) -> key x = key k ->
  below k (l1 ++ x :: l2) = l1 /\ above k (l1 ++ x :: l2) = l2 /\ at_ k (l1 ++ x :: l2) = Some x.
Proof.
  intros (_ & _ & Hf & Hg)%asc_mid Hk. unfold below, above. rewrite !filter_app, !filter_cons_False by lia.
  split_and!.
  - rewrite filter_all, filter_none, app_nil_r; [done| |]; eapply Forall_impl; eauto; cbn; lia.
  - rewrite (filter_none _ l1), (filter_all _ l2); [done| |]; eapply Forall_impl; eauto; cbn; lia.
  - rewrite at_app_none; [by apply at_cons_eq|]. apply at_none. eapply Forall_impl; [exact Hf|]. cbn. lia.
Qed.

Lemma cmp_lt x y : (cmp x y <? 0) = (key x <? key y).
Proof. pose proof (Hcmp x y). lia. Qed.
Lemma cmp_gt x y : (0 <? cmp x y) = (key y <? key x).
Proof. pose proof (Hcmp x y). lia. Qed.
Lemma cmp_eq x y : (cmp x y =? 0) = (key x =? key y).
Proof. pose proof (Hcmp x y). lia. Qed.

(** ** Insertion and deletion *)

Definition leaning (t : avl A) : Prop := match t with Nil => False | Node _ _ b _ => b <> 0 end.

Lemma leaning_inv t : leaning t -> exists d0 y rb d1, t = Node d0 y rb d1 /\ rb <> 0.
Proof. destruct t; [done|]. cbn. eauto 10. Qed.

Lemma insert_spec k q :
  balanced q -> asc (elements q) ->
  exists f q', insert cmp k q = Ok (f, q', at_ k (elements q)) /\ balanced q' /\
    elements q' = below k (elements q) ++ k :: above k (elements q) /\
    height q' = height q + Z.b2z f /\ (f = true -> q = Nil \/ leaning q').
Proof.
  induction q as [|c0 IH0 x b c1 IH1]; intros Hb Hs.
  { eexists true, _. split; [done|]. cbn. repeat split; try lia. by left. }
  cbn [balanced] in Hb. destruct Hb as (Eb & Hb & B0 & B1). cbn [elements] in *.
  pose proof (asc_mid _ _ _ Hs) as (S0 & S1 & _ & _). cbn [insert]. rewrite cmp_eq, cmp_gt.
  destruct (Z.eqb_spec (key k) (key x)) as [E|E].
  { destruct (around_eq k _ _ _ Hs) as (-> & -> & ->); [done|].
    eexists false, _. split; [done|]. cbn. repeat split; auto; lia. }
  destruct (Z.ltb_spec (key x) (key k)) as [L|L].
  - destruct (around_gt k _ _ _ Hs L) as (-> & -> & ->). change (dir 1) with true. cbn iota.
    destruct (IH1 B1 S1) as (f & q' & -> & B' & E' & H' & Hl). rewrite bind_ok.
    destruct f; cbn [Z.b2z] in H'.
    + destruct (insertfix_spec 1 c0 x b q') as (f & d0 & y & b' & d1 & -> & B & El & Lf & Hh); auto; try lia.
      { intros ->. apply leaning_inv. destruct Hl as [->|?]; [done| |done]. pose proof (height_nonneg c0). cbn in Eb. lia. }
      eexists f, _. rewrite bind_ok. split; [done|]. rewrite El, E', Hh. split; [done|].
      change (dir 1) with true. cbn [height]. rewrite <- app_assoc. repeat split; [lia|]. intros ?. right. by apply Lf.
    + eexists false, _. split; [done|]. cbn [balanced elements height Z.b2z]. rewrite E', <- app_assoc.
      repeat split; auto; lia.
  - destruct (around_lt k _ _ _ Hs) as (-> & -> & ->); [lia|]. change (dir (-1)) with false. cbn iota.
    destruct (IH0 B0 S0) as (f & q' & -> & B' & E' & H' & Hl). rewrite bind_ok.
    destruct f; cbn [Z.b2z] in H'.
    + destruct (insertfix_spec (-1) q' x b c1) as (f & d0 & y & b' & d1 & -> & B & El & Lf & Hh); auto; try lia.
      { intros ->. apply leaning_inv. destruct Hl as [->|?]; [done| |done]. pose proof (height_nonneg c1). cbn in Eb. lia. }
      eexists f, _. rewrite bind_ok. split; [done|]. rewrite El, E', Hh. split; [done|].
      change (dir (-1)) with false. cbn [height]. rewrite <- app_assoc. repeat split; [lia|]. intros ?. right. by apply Lf.
    + eexists false, _. split; [done|]. cbn [balanced elements height Z.b2z]. rewrite E', <- app_assoc.
      repeat split; auto; lia.
Qed.

Lemma deletemin_spec q x0 l :
  balanced q -> elements q = x0 :: l ->
  exists f q', deletemin q = Ok (f, q', x0) /\ balanced q' /\ elements q' = l /\
    height q' = height q - Z.b2z f.
Proof.
  revert l. induction q as [|c0 IH0 x b c1 _]; intros l Hb El; [done|].
  cbn [balanced] in Hb. destruct Hb as (Eb & Hb & B0 & B1). cbn [deletemin elements] in *.
  destruct c0 as [|d0 y b0 d1] eqn:E0.
  { cbn in El. injection El as -> <-. eexists true, _. split; [done|]. cbn in Eb |- *. repeat split; auto.
    pose proof (height_nonneg c1). lia. }
  rewrite <- E0 in *. destruct (elements c0) as [|x1 l0] eqn:Ec; [exfalso; rewrite E0 in Ec; cbn in Ec; by destruct (elements d0)|].
  injection El as -> <-. destruct (IH0 l0 B0 eq_refl) as (f & q' & -> & B' & E' & H'). rewrite bind_ok.
  destruct f; cbn [Z.b2z] in H'.
  - destruct (deletefix_spec 1 q' x b c1) as (f & s' & -> & B & Els & Hh); auto; try lia.
    eexists f, _. rewrite bind_ok. split; [done|]. rewrite Els, E', Hh. change (dir 1) with true.
    cbn [height]. repeat split; auto; lia.
  - eexists false, _. split; [done|]. cbn [balanced elements height Z.b2z]. rewrite E'. repeat split; auto; lia.
Qed.

Lemma delete_spec k q :
  balanced q -> asc (elements q) ->
  exists f q', delete cmp k q = Ok (f, q', at_ k (elements q)) /\ balanced q' /\
    elements q' = below k (elements q) ++ above k (elements q) /\
    height q' = height q - Z.b2z f.
Proof.
  induction q as [|c0 IH0 x b c1 IH1]; intros Hb Hs; [by eexists false, _|].
  cbn [balanced] in Hb. destruct Hb as (Eb & Hb & B0 & B1). cbn [elements] in *.
  pose proof (asc_mid _ _ _ Hs) as (S0 & S1 & _ & _). cbn [delete]. rewrite cmp_lt, cmp_gt.
  destruct (Z.ltb_spec (key x) (key k)) as [L|L]; [|destruct (Z.ltb_spec (key k) (key x)) as [L'|L']].
  - destruct (around_gt k _ _ _ Hs L) as (-> & -> & ->). change (dir 1) with true. cbn [Z.eqb]. cbn iota.
    destruct (IH1 B1 S1) as (f & q' & -> & B' & E' & H'). rewrite bind_ok.
    destruct f; cbn [Z.b2z] in H'.
    + destruct (deletefix_spec (-1) c0 x b q') as (f & s' & Hf & B & El & Hh); auto; try lia.
      change (- (1)) with (-1). rewrite Hf.
      eexists f, _. rewrite bind_ok. split; [done|]. rewrite El, E', Hh. split; [done|].
      change (dir (-1)) with false. cbn [height]. rewrite <- app_assoc. repeat split; lia.
    + eexists false, _. split; [done|]. cbn [balanced elements height Z.b2z]. rewrite E', <- app_assoc.
      repeat split; auto; lia.
  - destruct (around_lt k _ _ _ Hs) as (-> & -> & ->); [lia|]. change (dir (-1)) with false. cbn [Z.eqb]. cbn iota.
    destruct (IH0 B0 S0) as (f & q' & -> & B' & E' & H'). rewrite bind_ok.
    destruct f; cbn [Z.b2z] in H'.
    + destruct (deletefix_spec 1 q' x b c1) as (f & s' & Hf & B & El & Hh); auto; try lia.
      change (- (-1)) with 1. rewrite Hf.
      eexists f, _. rewrite bind_ok. split; [done|]. rewrite El, E', Hh. split; [done|].
      change (dir 1) with true. cbn [height]. rewrite <- app_assoc. repeat split; lia.
    + eexists false, _. split; [done|]. cbn [balanced elements height Z.b2z]. rewrite E', <- app_assoc.
      repeat split; auto; lia.
  - destruct (around_eq k _ _ _ Hs) as (-> & -> & ->); [lia|]. cbn [Z.eqb].
    destruct c1 as [|d0 y b1 d1] eqn:E1.
    { eexists true, _. split; [done|]. cbn [elements height Z.b2z] in *. rewrite app_nil_r.
      repeat split; auto. pose proof (height_nonneg c0). lia. }
    rewrite <- E1 in *. destruct (elements c1) as [|x1 l1] eqn:Ec; [exfalso; rewrite E1 in Ec; cbn in Ec; by destruct (elements d0)|].
    destruct (deletemin_spec c1 x1 l1) as (f & q' & -> & B' & E' & H'); auto. rewrite bind_ok.
    destruct f; cbn [Z.b2z] in H'.
    + destruct (deletefix_spec (-1) c0 x1 b q') as (f & s' & -> & B & El & Hh); auto; try lia.
      eexists f, _. rewrite bind_ok. split; [done|]. rewrite El, E', Hh. split; [done|].
      change (dir (-1)) with false. cbn [height]. repeat split; lia.
    + eexists false, _. split; [done|]. cbn [balanced elements height Z.b2z]. rewrite E'.
      repeat split; auto; lia.
Qed.

(** ** Searches and walks *)

Definition or_else (o n : option A) : option A := match o with Some x => Some x | None => n end.

Lemma or_else_none o : or_else o None = o.
Proof. by destruct o. Qed.

Lemma or_else_assoc a b c : or_else a (or_else b c) = or_else (or_else a b) c.
Proof. by destruct a. Qed.

Lemma head_app_else (l1 l2 : list A) : head (l1 ++ l2) = or_else (head l1) (head l2).
Proof. by destruct l1. Qed.

Lemma last_app_else (l1 l2 : list A) : last (l1 ++ l2) = or_else (last l2) (last l1).
Proof. rewrite last_app. by destruct (last l2). Qed.

(** What avllookup looks for: the element itself, and failing that the next
    one in direction [d]. *)
Definition nearest (k : A) (d : Z) (l : list A) : option A :=
  or_else (at_ k l) (if 0 <? d then head (above k l) else if d <? 0 then last (below k l) else None).

Lemma lookup_spec k d t n :
  asc (elements t) -> lookup cmp t k d n = or_else (nearest k d (elements t)) n.
Proof.
  revert n. induction t as [|c0 IH0 x b c1 IH1]; intros n Hs.
  { cbn. by destruct (0 <? d), (d <? 0). }
  cbn [elements lookup] in *. pose proof (asc_mid _ _ _ Hs) as (S0 & S1 & _ & _). rewrite cmp_lt, cmp_gt.
  destruct (Z.ltb_spec (key k) (key x)) as [L|L]; [|destruct (Z.ltb_spec (key x) (key k)) as [L'|L']].
  - rewrite IH0 by done. unfold nearest. destruct (around_lt k _ _ _ Hs L) as (-> & -> & ->).
    rewrite head_app_else. cbn [head]. destruct (at_ k _); [done|]. cbn [or_else].
    destruct (0 <? d); [|done]. by destruct (head _).
  - rewrite IH1 by done. unfold nearest. destruct (around_gt k _ _ _ Hs L') as (-> & -> & ->).
    rewrite last_app_else, last_cons. destruct (at_ k _); [done|]. cbn [or_else].
    destruct (Z.ltb_spec 0 d), (Z.ltb_spec d 0); try lia; try done. by destruct (last (below _ _)).
  - unfold nearest. destruct (around_eq k _ _ _ Hs) as (-> & -> & ->); [lia|done].
Qed.

Lemma elements_ends c0 x b c1 :
  is_Some (head (elements (Node c0 x b c1))) /\ is_Some (last (elements (Node c0 x b c1))).
Proof. cbn. rewrite head_app_else, last_app_else, last_cons. split; [destruct (head _)|destruct (last _)]; by eexists. Qed.

Lemma bottom_spec d t : bottom d t = if d then last (elements t) else head (elements t).
Proof.
  induction t as [|c0 IH0 x b c1 IH1]; [by destruct d|].
  cbn [bottom elements]. destruct d.
  - rewrite last_app_else, last_cons. destruct c1; [done|]. rewrite IH1.
    edestruct (elements_ends c1_1) as [_ [y ->]]. done.
  - rewrite head_app_else. destruct c0; [done|]. rewrite IH0.
    edestruct (elements_ends c0_1) as [[y ->] _]. done.
Qed.

(** The whole tree of which a zipper is a place, and what lies on each side of
    its path. *)
Fixpoint plug (t : avl A) (up : list (bool * A * Z * avl A)) : avl A :=
  match up with
  | [] => t
  | (true, x, b, c0) :: up => plug (Node c0 x b t) up
  | (false, x, b, c1) :: up => plug (Node t x b c1) up
  end.
Definition unzip (q : zip) : avl A := plug (Node (zc0 q) (zx q) (zb q) (zc1 q)) (zup q).

Fixpoint sides (up : list (bool * A * Z * avl A)) : list A * list A :=
  match up with
  | [] => ([], [])
  | (true, x, _, c0) :: up => ((sides up).1 ++ elements c0 ++ [x], (sides up).2)
  | (false, x, _, c1) :: up => ((sides up).1, x :: elements c1 ++ (sides up).2)
  end.

Lemma plug_elements t up : elements (plug t up) = (sides up).1 ++ elements t ++ (sides up).2.
Proof.
  revert t. induction up as [|[[[[] x] b] c] up IH]; intros t; cbn [plug sides fst snd].
  - by rewrite app_nil_r.
  - rewrite IH. cbn [elements]. by rewrite <- !app_assoc.
  - rewrite IH. cbn [elements]. by rewrite <- !app_assoc.
Qed.

Lemma walkup_spec a up : walkup a up = if a then head (sides up).2 else last (sides up).1.
Proof.
  induction up as [|[[[[] x] b] c] up IH]; cbn [walkup sides fst snd]; [by destruct a| |]; destruct a; cbn; try done.
  by rewrite app_assoc, last_snoc.
Qed.

Lemma walk1_spec a q :
  walk1 a q = if a then head (elements (zc1 q) ++ (sides (zup q)).2)
              else last ((sides (zup q)).1 ++ elements (zc0 q)).
Proof.
  unfold walk1. destruct a.
  - rewrite head_app_else. destruct (zc1 q) as [|d0 y b d1] eqn:E; [by rewrite walkup_spec|].
    rewrite bottom_spec. cbn [negb]. edestruct (elements_ends d0) as [[z ->] _]. done.
  - rewrite last_app_else. destruct (zc0 q) as [|d0 y b d1] eqn:E; [by rewrite walkup_spec|].
    rewrite bottom_spec. cbn [negb]. edestruct (elements_ends d0) as [_ [z ->]]. done.
Qed.

Lemma around_asc k l : asc l -> asc (below k l ++ k :: above k l) /\ asc (below k l ++ above k l).
Proof.
  intros Hs.
  pose proof (asc_filter (fun x => key x < key k) _ Hs : asc (below k l)) as Sb.
  pose proof (asc_filter (fun x => key k < key x) _ Hs : asc (above k l)) as Sa.
  destruct (around_forall k l) as [Fb Fa]. rewrite Forall_forall in Fb. pose proof (proj1 (Forall_forall _ _) Fa) as Fa'.
  split; apply StronglySorted_app; split_and!; try done; [|by constructor|].
  - intros y z Hy%Fb [->|Hz%Fa']%elem_of_cons; lia.
  - intros y z Hy%Fb Hz%Fa'; lia.
Qed.

Lemma avlinsert_spec k t :
  balanced t -> asc (elements t) ->
  exists t', avlinsert cmp t k = Ok (t', at_ k (elements t)) /\ balanced t' /\ elements t' = below k (elements t) ++ k :: above k (elements t).
Proof.
  intros Hb Hs. destruct (insert_spec k t Hb Hs) as (f & t' & E & B & El & _ & _). exists t'.
  unfold avlinsert. rewrite E. done.
Qed.

Lemma avldelete_spec k t :
  balanced t -> asc (elements t) ->
  exists t', avldelete cmp t k = Ok (t', at_ k (elements t)) /\ balanced t' /\ elements t' = below k (elements t) ++ above k (elements t).
Proof.
  intros Hb Hs. destruct (delete_spec k t Hb Hs) as (f & t' & E & B & El & _). exists t'.
  split_and!; auto. unfold avldelete. destruct t; [cbn in E; by injection E as <- <-|]. by rewrite E.
Qed.

Lemma walk_spec (q : zip) :
  exists l1 l2, elements (unzip q) = l1 ++ zx q :: l2 /\ avlprev q = last l1 /\ avlnext q = head l2.
Proof.
  exists ((sides (zup q)).1 ++ elements (zc0 q)), (elements (zc1 q) ++ (sides (zup q)).2).
  unfold avlprev, avlnext, unzip. rewrite !walk1_spec, plug_elements. cbn [elements].
  by rewrite <- !app_assoc.
Qed.

(** C25: on a balanced tree whose elements ascend, avlinsert and avldelete run
    without a fault and leave a balanced tree whose elements are the ones
    below the key, the element inserted (or nothing), and the ones above it;
    both return the element of that key the tree held, if any.  No rotation
    follows a nil child. *)
Theorem avl_update_correct k t :
  balanced t -> asc (elements t) ->
  (exists t', avlinsert cmp t k = Ok (t', at_ k (elements t)) /\ balanced t' /\ asc (elements t') /\
     elements t' = below k (elements t) ++ k :: above k (elements t)) /\
  (exists t', avldelete cmp t k = Ok (t', at_ k (elements t)) /\ balanced t' /\ asc (elements t') /\
     elements t' = below k (elements t) ++ above k (elements t)).
Proof.
  intros Hb Hs. destruct (around_asc k _ Hs) as [Si Sd]. split.
  - destruct (avlinsert_spec k t Hb Hs) as (t' & E & B & El). exists t'. by rewrite El.
  - destruct (avldelete_spec k t Hb Hs) as (t' & E & B & El). exists t'. by rewrite El.
Qed.

(** Avllookup returns the element of the key searched, and failing that,
    for d > 0 the first one above it, for d < 0 the last one below it and for
    d = 0 nothing; avlmin and avlmax return the ends of the tree. *)
Theorem avl_lookup_correct k d t :
  asc (elements t) ->
  avllookup cmp t k d = nearest k d (elements t) /\
  avlmin t = head (elements t) /\ avlmax t = last (elements t).
Proof.
  intros Hs. unfold avllookup, avlmin, avlmax. rewrite lookup_spec by done.
  rewrite !bottom_spec. by rewrite or_else_none.
Qed.

(** From any node of a tree, avlprev and avlnext return its neighbours in
    the order of the tree, by the child's far end or by the parent pointers. *)
Theorem avl_walk_correct (q : zip) :
  exists l1 l2, elements (unzip q) = l1 ++ zx q :: l2 /\
    avlprev q = last l1 /\ avlnext q = head l2.
Proof. apply walk_spec. Qed.

(** A balanced tree of n elements is at most 2*log2(n+1) high, which bounds
    the depth of the recursions of insert and delete. *)
Theorem avl_height_log t : balanced t -> 2 ^ height t <= (Z.of_nat (length (elements t)) + 1) ^ 2.
Proof.
  induction t as [|c0 IH0 x b c1 IH1]; intros Hb; [done|].
  cbn [balanced] in Hb. destruct Hb as (Eb & Hb & B0 & B1). specialize (IH0 B0). specialize (IH1 B1).
  cbn [height elements]. rewrite length_app. cbn [length].
  pose proof (height_nonneg c0). pose proof (height_nonneg c1).
  replace (Z.of_nat (length (elements c0) + S (length (elements c1))) + 1)
    with ((Z.of_nat (length (elements c0)) + 1) + (Z.of_nat (length (elements c1)) + 1)) by lia.
  set (m := Z.of_nat (length (elements c0)) + 1) in *. set (n := Z.of_nat (length (elements c1)) + 1) in *.
  assert (1 <= m /\ 1 <= n) as [? ?] by lia. clearbody m n.
  assert (forall h a c, 0 <= h -> 1 <= a -> 1 <= c -> 2 ^ h <= a ^ 2 -> 2 ^ (h + 1) <= c ^ 2 ->
            2 ^ (1 + (h + 1)) <= (a + c) ^ 2) as Key.
  { intros h a c Hh Ha Hc. rewrite (Z.add_comm 1), !Z.pow_add_r, !Z.pow_1_r by lia.
    pose proof (Z.pow_pos_nonneg 2 h). set (p := 2 ^ h) in *. intros. assert (p * p <= (a * c) * (a * c)) by nia.
    assert (p <= a * c) by nia. nia. }
  three b.
  - replace (height c0) with (height c1 + 1) in * by lia. rewrite Z.max_l by lia. rewrite (Z.add_comm m). by apply Key.
  - replace (height c0) with (height c1) in * by lia. rewrite Z.max_id, Z.pow_add_r, Z.pow_1_r by lia. nia.
  - replace (height c1) with (height c0 + 1) in * by lia. rewrite Z.max_r by lia. by apply Key.
Qed.
End Correct.

(** * Examples: the free ranges of an arena *)

Lemma rangecmp_off x y : Z.sgn (rangecmp x y) = Z.sgn (off x - off y).
Proof. unfold rangecmp. destruct (Z.ltb_spec (off x) (off y)), (Z.ltb_spec (off y) (off x)); lia. Qed.

Definition ex_free : avl Arange :=
  Node (Node Nil (mkArange 16384 16384) 0 Nil) (mkArange 65536 32768) 1
       (Node Nil (mkArange 131072 16384) 1 (Node Nil (mkArange 262144 16384) 0 Nil)).

Lemma ex_free_asc : asc off (elements ex_free).
Proof. cbn. repeat (constructor; cbn; try lia). Qed.

Lemma ex_free_balanced : balanced ex_free.
Proof. cbn. lia. Qed.

Lemma avl_update_correct_witness :
  (exists t', avlinsert rangecmp ex_free (mkArange 327680 16384) = Ok (t', None) /\ balanced t' /\
     elements t' = elements ex_free ++ [mkArange 327680 16384]) /\
  (exists t', avldelete rangecmp ex_free (mkArange 16384 0) = Ok (t', Some (mkArange 16384 16384)) /\
     balanced t' /\ elements t' = drop 1 (elements ex_free)).
Proof.
  split.
  - destruct (avl_update_correct off rangecmp rangecmp_off (mkArange 327680 16384) ex_free
                ex_free_balanced ex_free_asc) as [(t' & H & B & _ & E) _].
    exists t'. split; [exact H|]. split; [exact B|]. exact E.
  - destruct (avl_update_correct off rangecmp rangecmp_off (mkArange 16384 0) ex_free
                ex_free_balanced ex_free_asc) as [_ (t' & H & B & _ & E)].
    exists t'. split; [exact H|]. split; [exact B|]. exact E.
Defined.

Lemma avl_lookup_correct_witness :
  avllookup rangecmp ex_free (mkArange 70000 0) (-1) = Some (mkArange 65536 32768) /\
  avllookup rangecmp ex_free (mkArange 70000 0) 1 = Some (mkArange 131072 16384) /\
  avllookup rangecmp ex_free (mkArange 70000 0) 0 = None.
Proof.
  split; [|split].
  - rewrite (proj1 (avl_lookup_correct off rangecmp rangecmp_off (mkArange 70000 0) (-1) ex_free ex_free_asc)).
    reflexivity.
  - rewrite (proj1 (avl_lookup_correct off rangecmp rangecmp_off (mkArange 70000 0) 1 ex_free ex_free_asc)).
    reflexivity.
  - rewrite (proj1 (avl_lookup_correct off rangecmp rangecmp_off (mkArange 70000 0) 0 ex_free ex_free_asc)).
    reflexivity.
Defined.

Lemma avl_height_log_witness : 2 ^ 3 <= (4 + 1) ^ 2 /\ height ex_free = 3.
Proof. split; [exact (avl_height_log ex_free ex_free_balanced)|reflexivity]. Defined.
