(* ===== verification/Ranges.v ===== *)
(** sys/src/9/gefs/blk.c, the free space of an arena: freerange and grabrange
    on the AVL tree of free ranges.

    The nodes of the tree are changed in place, keys included; [poke] is such
    a store.  A pointer to a node is the range it holds: the ranges of a tree
    start at different offsets.  The memory of a range is always there
    (Enomem is left out).

    [ranges_ok] is the invariant of a free list: ascending ranges that
    neither overlap nor touch.  [infree l x] is the abstract free space: the
    set of the bytes [x] that some range covers. *)

From S2P Require Import Prelude Layout Avl.

(** * The code *)

(** r->off + r->len, a vlong. *)
Definition rend (r : Arange) : Z := s64 (off r + len r).

Fixpoint poke (r r' : Arange) (t : avl Arange) : avl Arange :=
  match t with
  | Nil => Nil
  | Node c0 x b c1 => Node (poke r r' c0) (if decide (x = r) then r' else x) b (poke r r' c1)
  end.

(** The node a pointer [r] points to, with its parents. *)
Fixpoint nodeof (r : Arange) (t : avl Arange) (up : list (bool * Arange * Z * avl Arange)) : option zip :=
  match t with
  | Nil => None
  | Node c0 x b c1 =>
      if decide (x = r) then Some (mkZip c0 x c1 up b)
      else match nodeof r c0 ((false, x, b, c1) :: up) with
           | Some q => Some q
           | None => nodeof r c1 ((true, x, b, c0) :: up)
           end
  end.

Definition prev (t : avl Arange) (r : Arange) : option Arange := nodeof r t [] ≫= avlprev.
Definition next (t : avl Arange) (r : Arange) : option Arange := nodeof r t [] ≫= avlnext.

(** The loop at Again, which takes a node away each time it goes round. *)
Fixpoint coalesce (fuel : nat) (t : avl Arange) (r : Arange) : res (avl Arange) :=
  match fuel with
  | O => Fail Fuel
  | S fuel =>
      let after :=
        match next t r with
        | None => Ok t
        | Some s =>
            if rend r =? off s then
              '(t, _) ← avldelete rangecmp t r;
              let s' := mkArange (off r) (s64 (len s + len r)) in
              coalesce fuel (poke s s' t) s'
            else if off s <=? rend r then Fail Abort
            else Ok t
        end in
      match prev t r with
      | None => after
      | Some s =>
          if rend s =? off r then
            '(t, _) ← avldelete rangecmp t r;
            let s' := mkArange (off s) (s64 (len s + len r)) in
            coalesce fuel (poke s s' t) s'
          else if off r <=? rend s then Fail Abort
          else after
      end
  end.

Definition freerange (t : avl Arange) (o l : Z) : res (avl Arange) :=
  check (Z.rem l Blksz =? 0);;
  let r := mkArange o l in
  check (bool_decide (avllookup rangecmp t r 0 = None));;
  '(t, _) ← avlinsert rangecmp t r;
  coalesce (S (length (elements t))) t r.

Definition grabrange (t : avl Arange) (o l : Z) : res (avl Arange) :=
  check (Z.rem l Blksz =? 0);;
  let q := mkArange o l in
  match avllookup rangecmp t q (-1) with
  | None => Fail Abort
  | Some r =>
      if rend r <? rend q then Fail Abort else
      '(t, r') ←
        (if o =? off r then
           let r' := mkArange (s64 (off r + l)) (s64 (len r - l)) in Ok (poke r r' t, r')
         else if rend q =? rend r then
           let r' := mkArange (off r) (s64 (len r - l)) in Ok (poke r r' t, r')
         else if (off r <? o) && (rend q <? rend r) then
           let r' := mkArange (off r) (s64 (o - off r)) in
           let s := mkArange (rend q) (s64 (len r - len r' - l)) in
           '(t, _) ← avlinsert rangecmp (poke r r' t) s; Ok (t, r')
         else Fail Abort);
      if len r' =? 0 then '(t, _) ← avldelete rangecmp t r'; Ok t else Ok t
  end.

(** * The free space *)

Definition rin (r : Arange) (x : Z) : Prop := off r <= x < off r + len r.
Definition infree (l : list Arange) (x : Z) : Prop := exists r, r ∈ l /\ rin r x.

Definition range_ok (r : Arange) : Prop :=
  0 <= off r /\ 0 < len r /\ off r + len r < 2 ^ 63 /\ (Blksz | off r) /\ (Blksz | len r).
Definition apart (r s : Arange) : Prop := off r + len r < off s.
Definition ranges_ok (l : list Arange) : Prop := Forall range_ok l /\ StronglySorted apart l.
Definition free_ok (t : avl Arange) : Prop := balanced t /\ ranges_ok (elements t).

(** The number of free bytes. *)
Definition total (l : list Arange) : Z := foldr (fun r n => len r + n) 0 l.

Lemma total_app l1 l2 : total (l1 ++ l2) = total l1 + total l2.
Proof. induction l1; cbn; [done|]. fold (total (l1 ++ l2)). unfold total in *. lia. Qed.

Lemma total_cons r l : total (r :: l) = len r + total l.
Proof. done. Qed.
#[global] Opaque total.

Lemma rend_ok r : range_ok r -> rend r = off r + len r.
Proof. intros (? & ? & ? & _). unfold rend. apply s64_id. lia. Qed.

Lemma infree_app l1 l2 x : infree (l1 ++ l2) x <-> infree l1 x \/ infree l2 x.
Proof. unfold infree. set_solver. Qed.

Lemma infree_cons r l x : infree (r :: l) x <-> rin r x \/ infree l x.
Proof. unfold infree. set_solver. Qed.

Lemma infree_nil x : infree [] x <-> False.
Proof. unfold infree. set_solver. Qed.

Lemma ranges_ok_app l1 l2 :
  ranges_ok (l1 ++ l2) <->
  ranges_ok l1 /\ ranges_ok l2 /\ (forall r s, r ∈ l1 -> s ∈ l2 -> apart r s).
Proof.
  unfold ranges_ok. rewrite Forall_app, StronglySorted_app. naive_solver.
Qed.

Lemma ranges_ok_cons r l :
  ranges_ok (r :: l) <-> range_ok r /\ ranges_ok l /\ (forall s, s ∈ l -> apart r s).
Proof.
  unfold ranges_ok. rewrite Forall_cons, StronglySorted_cons, (Forall_forall (apart r)). naive_solver.
Qed.

Lemma ranges_ok_nil : ranges_ok [].
Proof. split; constructor. Qed.
#[export] Hint Resolve ranges_ok_nil : gefs.

Lemma ranges_ok_in l r : ranges_ok l -> r ∈ l -> range_ok r.
Proof. intros [H _]. rewrite Forall_forall in H. auto. Qed.

Lemma ranges_asc l : ranges_ok l -> asc off l.
Proof.
  induction l as [|r l IH]; [constructor|]. intros (Hr & Hl & Ha)%ranges_ok_cons.
  constructor; [by apply IH|]. apply Forall_forall. intros s Hs. specialize (Ha s Hs).
  unfold apart, range_ok in *. lia.
Qed.
#[export] Hint Resolve ranges_asc : gefs.

(** ** Nodes and stores *)

Lemma poke_elements r r' t : elements (poke r r' t) = ((fun x => if decide (x = r) then r' else x) <$> (elements t)).
Proof. induction t as [|c0 IH0 x b c1 IH1]; [done|]. cbn. by rewrite IH0, IH1, fmap_app. Qed.

Lemma poke_height r r' t : height (poke r r' t) = height t.
Proof. induction t as [|c0 IH0 x b c1 IH1]; [done|]. cbn. by rewrite IH0, IH1. Qed.

Lemma poke_balanced r r' t : balanced t -> balanced (poke r r' t).
Proof. induction t as [|c0 IH0 x b c1 IH1]; [done|]. cbn. rewrite !poke_height. naive_solver. Qed.

Lemma asc_notin l1 r l2 : asc off (l1 ++ r :: l2) -> (r ∉ l1) /\ (r ∉ l2).
Proof.
  intros (_ & _ & H1 & H2)%asc_mid. rewrite Forall_forall in H1, H2. split; intros Hin.
  - specialize (H1 _ Hin). lia.
  - specialize (H2 _ Hin). lia.
Qed.

Lemma fmap_notin (r r' : Arange) (l : list Arange) :
  r ∉ l -> ((fun x => if decide (x = r) then r' else x) <$> l) = l.
Proof.
  induction l as [|x l IH]; [done|]. intros [Hx Hl]%not_elem_of_cons. cbn.
  rewrite decide_False by congruence. by rewrite IH.
Qed.

Lemma poke_mid r r' t l1 l2 :
  asc off (elements t) -> elements t = l1 ++ r :: l2 -> elements (poke r r' t) = l1 ++ r' :: l2.
Proof.
  intros Hs E. rewrite poke_elements, E in *. destruct (asc_notin _ _ _ Hs) as [H1 H2].
  by rewrite fmap_app, fmap_cons, decide_True, !fmap_notin.
Qed.

Lemma nodeof_spec r t up :
  (forall q, nodeof r t up = Some q -> zx q = r /\ unzip q = plug t up) /\
  (r ∈ elements t -> is_Some (nodeof r t up)).
Proof.
  revert up. induction t as [|c0 IH0 x b c1 IH1]; intros up; cbn [nodeof elements].
  { split; [done|]. set_solver. }
  destruct (decide (x = r)) as [->|Hx].
  { split; [|by eexists]. by intros q [= <-]. }
  destruct (IH0 ((false, x, b, c1) :: up)) as [F0 S0]. destruct (IH1 ((true, x, b, c0) :: up)) as [F1 S1].
  destruct (nodeof r c0 _) as [q0|] eqn:E0.
  - split; [|by eexists]. intros q [= <-]. by apply F0.
  - split; [exact F1|]. intros [Hin|[Hin|Hin]%elem_of_cons]%elem_of_app; [|congruence|by apply S1].
    destruct (S0 Hin). congruence.
Qed.

Lemma split_unique l1 r l2 m1 m2 :
  asc off (l1 ++ r :: l2) -> l1 ++ r :: l2 = m1 ++ r :: m2 -> l1 = m1 /\ l2 = m2.
Proof.
  intros Hs E. pose proof (asc_notin _ _ _ Hs) as [N1 N2]. rewrite E in Hs.
  pose proof (asc_notin _ _ _ Hs) as [M1 M2]. clear Hs.
  revert m1 E M1. induction l1 as [|x l1 IH]; intros [|y m1] E M1; simplify_eq/=; [done|set_solver|set_solver|].
  edestruct IH as [-> ->]; eauto; set_solver.
Qed.

Lemma walk_mid t r l1 l2 :
  asc off (elements t) -> elements t = l1 ++ r :: l2 -> prev t r = last l1 /\ next t r = head l2.
Proof.
  intros Hs E. destruct (nodeof_spec r t []) as [F S].
  assert (r ∈ elements t) as Hin by (rewrite E; set_solver).
  destruct (S Hin) as [q Hq]. destruct (F q Hq) as [Hx Hu]. unfold prev, next. rewrite Hq. cbn.
  destruct (walk_spec q) as (m1 & m2 & Em & Hp & Hn). rewrite Hu, Hx in Em. cbn in Em.
  rewrite E in Hs, Em. destruct (split_unique _ _ _ _ _ Hs Em) as [-> ->]. done.
Qed.

Lemma delete_mid t r l1 l2 :
  balanced t -> asc off (elements t) -> elements t = l1 ++ r :: l2 ->
  exists t' o, avldelete rangecmp t r = Ok (t', o) /\ balanced t' /\ elements t' = l1 ++ l2.
Proof.
  intros Hb Hs E. destruct (avldelete_spec off rangecmp rangecmp_off r t Hb Hs) as (t' & Hd & B & El).
  rewrite E in Hs, El. destruct (around_eq off r _ _ _ Hs eq_refl) as (E1 & E2 & _).
  rewrite E1, E2 in El. eauto.
Qed.

(** ** freerange *)

(** A new range [r] among the ranges [B] below it and [T] above it. *)
Definition placed (B : list Arange) (r : Arange) (T : list Arange) : Prop :=
  ranges_ok B /\ ranges_ok T /\ range_ok r /\
  (forall s, s ∈ B -> off s < off r) /\ (forall s, s ∈ T -> off r < off s).
Definition fits (B : list Arange) (r : Arange) (T : list Arange) : Prop :=
  (forall s, s ∈ B -> off s + len s <= off r) /\ (forall s, s ∈ T -> off r + len r <= off s).

Lemma asc_join B r T :
  ranges_ok B -> ranges_ok T -> (forall s, s ∈ B -> off s < off r) -> (forall s, s ∈ T -> off r < off s) ->
  asc off (B ++ r :: T).
Proof.
  intros HB HT H1 H2. unfold asc. rewrite StronglySorted_app, StronglySorted_cons, Forall_forall.
  split_and!; auto using ranges_asc; [|by apply ranges_asc..].
  intros x y Hx [->|Hy]%elem_of_cons; [by apply H1|]. specialize (H1 x Hx). specialize (H2 y Hy). lia.
Qed.

Lemma placed_asc B r T : placed B r T -> asc off (B ++ r :: T).
Proof. intros (? & ? & _ & ? & ?). by apply asc_join. Qed.

Lemma merge_ok r s :
  range_ok r -> range_ok s -> off r + len r = off s -> range_ok (mkArange (off r) (len r + len s)).
Proof.
  intros (? & ? & ? & ? & ?) (? & ? & ? & ? & ?) E. unfold range_ok. cbn. repeat split; try lia; try done.
  by apply Z.divide_add_r.
Qed.

Lemma merge_rin r s x : range_ok r -> range_ok s -> off r + len r = off s ->
  rin (mkArange (off r) (len r + len s)) x <-> rin r x \/ rin s x.
Proof. unfold range_ok, rin. cbn. lia. Qed.

(** Taking [r] out and growing its neighbour [s] moves the place. *)
Lemma merge_tree t r s s' l1 l2 m1 m2 :
  balanced t -> asc off (elements t) -> elements t = l1 ++ r :: l2 -> l1 ++ l2 = m1 ++ s :: m2 ->
  asc off (m1 ++ s :: m2) ->
  exists t' o, avldelete rangecmp t r = Ok (t', o) /\ balanced (poke s s' t') /\
    elements (poke s s' t') = m1 ++ s' :: m2.
Proof.
  intros Hb Hs E Em Hm. destruct (delete_mid t r l1 l2 Hb Hs E) as (t' & o & Hd & B & El).
  exists t', o. split; [done|]. split; [by apply poke_balanced|].
  apply poke_mid; rewrite El, Em; done.
Qed.

Lemma placed_left B s r T :
  placed (B ++ [s]) r T -> off s + len s = off r ->
  let s' := mkArange (off s) (len s + len r) in
  range_ok s /\ asc off (B ++ s :: T) /\ placed B s' T /\
  (fits (B ++ [s]) r T -> fits B s' T) /\
  (forall x, infree (B ++ s' :: T) x <-> infree ((B ++ [s]) ++ r :: T) x).
Proof.
  intros (HB & HT & Hr & H1 & H2) E s'.
  apply ranges_ok_app in HB as (HB & (Hs & _ & _)%ranges_ok_cons & Hap).
  assert (forall x, x ∈ B -> off x + len x < off s) as Hbs by (intros x Hx; apply (Hap x s Hx); set_solver).
  assert (forall x, x ∈ B -> off x < off s) as Hbs'.
  { intros x Hx. specialize (Hbs x Hx). pose proof (ranges_ok_in _ _ HB Hx) as (? & ? & _). lia. }
  assert (forall x, x ∈ T -> off s < off x) as Hts.
  { intros x Hx. specialize (H2 x Hx). destruct Hs as (? & ? & _). lia. }
  split; [done|]. split; [by apply asc_join|]. split; [|split].
  - repeat split; try apply HB; try apply HT; try done; try (apply merge_ok; [done..|lia]).
  - intros [F1 F2]. split; cbn; [intros x Hx; specialize (Hbs x Hx); lia|].
    intros x Hx. specialize (F2 x Hx). lia.
  - intros x. subst s'. rewrite !infree_app, !infree_cons, infree_nil, merge_rin by (done || lia). tauto.
Qed.

Lemma placed_right B s r T :
  placed B r (s :: T) -> off r + len r = off s ->
  let s' := mkArange (off r) (len s + len r) in
  range_ok s /\ asc off (B ++ s :: T) /\ placed B s' T /\
  (fits B r (s :: T) -> fits B s' T) /\
  (forall x, infree (B ++ s' :: T) x <-> infree (B ++ r :: s :: T) x).
Proof.
  intros (HB & HT & Hr & H1 & H2) E s'.
  apply ranges_ok_cons in HT as (Hs & HT & Hap).
  assert (forall x, x ∈ T -> off s + len s < off x) as Hts by (intros x Hx; apply (Hap x Hx)).
  assert (forall x, x ∈ B -> off x < off s) as Hbs.
  { intros x Hx. specialize (H1 x Hx). destruct Hr as (? & ? & _). lia. }
  assert (forall x, x ∈ T -> off s < off x) as Hts'.
  { intros x Hx. specialize (Hts x Hx). destruct Hs as (? & ? & _). lia. }
  assert (s' = mkArange (off r) (len r + len s)) as -> by (unfold s'; f_equal; lia).
  split; [done|]. split; [by apply asc_join|]. split; [|split].
  - repeat split; try apply HB; try apply HT; try done; try (apply merge_ok; [done..|lia]).
    cbn. intros x Hx. apply H2. set_solver.
  - intros [F1 F2]. split; cbn; [done|]. intros x Hx. specialize (Hts x Hx). lia.
  - intros x. rewrite !infree_app, !infree_cons, merge_rin by (done || lia). tauto.
Qed.

Lemma last_inv {X} (l : list X) : l = [] \/ exists l' x, l = l' ++ [x].
Proof. induction l as [|x l' _] using rev_ind; [by left|right; eauto]. Qed.

Lemma s64_sum r s : range_ok r -> range_ok s -> off r + len r = off s -> s64 (len r + len s) = len r + len s.
Proof. unfold range_ok. intros. apply s64_id. lia. Qed.

Lemma coalesce_fits fuel t B r T :
  placed B r T -> fits B r T -> balanced t -> elements t = B ++ r :: T ->
  (length B + length T < fuel)%nat ->
  exists t', coalesce fuel t r = Ok t' /\ free_ok t' /\ total (elements t') = total (elements t) /\
    forall x, infree (elements t') x <-> infree (elements t) x.
Proof.
  revert t B r T. induction fuel as [|fuel IH]; intros t B r T Hp Hf Hb E Hn; [lia|].
  assert (asc off (elements t)) as Hs by (rewrite E; by apply placed_asc).
  destruct (walk_mid _ _ _ _ Hs E) as [Pv Nx]. cbn [coalesce]. rewrite Pv, Nx. clear Pv Nx.
  pose proof Hp as (HB & HT & Hr & _ & _). rewrite (rend_ok r) by done.
  set (after := match head T with None => Ok t | Some s => _ end).
  assert ((forall s, s ∈ B -> apart s r) -> exists t', after = Ok t' /\ free_ok t' /\ total (elements t') = total (elements t) /\
    forall x, infree (elements t') x <-> infree (elements t) x) as Hafter.
  { intros HBr. subst after. destruct T as [|s T]; cbn [head].
    - exists t. split; [done|]. split; [|by split]. split; [done|]. rewrite E.
      apply ranges_ok_app. split_and!; [done|by apply ranges_ok_cons; set_solver|]. set_solver.
    - destruct Hf as [F1 F2]. pose proof (F2 s ltac:(set_solver)) as F2s.
      destruct (Z.eqb_spec (off r + len r) (off s)) as [Es|Es].
      + destruct (placed_right _ _ _ _ Hp Es) as (Hsk & Ha & Hp' & Hf' & Hx).
        destruct (merge_tree t r s (mkArange (off r) (len s + len r)) B (s :: T) B T Hb Hs E eq_refl Ha) as (t' & o & -> & B' & E').
        rewrite bind_ok, Z.add_comm, s64_sum, (Z.add_comm (len r)) by done.
        destruct (IH _ _ _ _ Hp' (Hf' (conj F1 F2)) B' E') as (t'' & R & Ok'' & Ht'' & Hx'').
        { cbn in Hn. lia. }
        exists t''. split; [done|]. split; [done|]. split; [|intros x; by rewrite Hx'', E', E, Hx].
        rewrite Ht'', E', E, !total_app, !total_cons. cbn [len]. lia.
      + rewrite (proj2 (Z.leb_gt (off s) (off r + len r))) by lia.
        exists t. split; [done|]. split; [|by split]. split; [done|]. rewrite E.
        assert (forall y, y ∈ s :: T -> apart r y) as Hry.
        { apply ranges_ok_cons in HT as (? & _ & Hsy). unfold apart, range_ok in *.
          intros y [->|Hy]%elem_of_cons; [lia|]. specialize (Hsy y Hy). lia. }
        apply ranges_ok_app. split_and!; [done|by apply ranges_ok_cons|].
        intros x y Hx [->|Hy]%elem_of_cons; [by apply HBr|].
        specialize (HBr x Hx). specialize (Hry y Hy). unfold apart, range_ok in *. lia. }
  destruct (last_inv B) as [->|(B' & s & ->)]; [apply Hafter; set_solver|]. rewrite last_snoc.
  pose proof HB as HB2. apply ranges_ok_app in HB2 as (_ & (Hsk & _ & _)%ranges_ok_cons & Hap). rewrite (rend_ok s) by done.
  destruct (Z.eqb_spec (off s + len s) (off r)) as [Es|Es].
  - destruct (placed_left _ _ _ _ Hp Es) as (_ & Ha & Hp' & Hf' & Hx).
    destruct (merge_tree t r s (mkArange (off s) (len s + len r)) (B' ++ [s]) T B' T Hb Hs E) as (t' & o & -> & B'' & E'); [by rewrite <- app_assoc|done|].
    rewrite bind_ok, s64_sum by done.
    destruct (IH _ _ _ _ Hp' (Hf' Hf) B'' E') as (t'' & R & Ok'' & Ht'' & Hx'').
    { rewrite length_app in Hn. cbn in Hn. lia. }
    exists t''. split; [done|]. split; [done|]. split; [|intros x; by rewrite Hx'', E', E, Hx].
    rewrite Ht'', E', E, !total_app, !total_cons. change (total []) with 0. cbn [len]. lia.
  - destruct Hf as [F1 F2]. pose proof (F1 s ltac:(set_solver)).
    rewrite (proj2 (Z.leb_gt (off r) (off s + len s))) by lia. apply Hafter.
    intros x [Hx| ->%list_elem_of_singleton]%elem_of_app; [|unfold apart; lia].
    specialize (Hap x s Hx ltac:(set_solver)). unfold apart, range_ok in *. lia.
Qed.

Lemma coalesce_overlap fuel t B r T :
  placed B r T -> balanced t -> elements t = B ++ r :: T -> (length B + length T < fuel)%nat ->
  (exists s, (s ∈ B /\ off r < off s + len s) \/ (s ∈ T /\ off s < off r + len r)) ->
  coalesce fuel t r = Fail Abort.
Proof.
  revert t B r T. induction fuel as [|fuel IH]; intros t B r T Hp Hb E Hn Ho; [lia|].
  assert (asc off (elements t)) as Hs by (rewrite E; by apply placed_asc).
  destruct (walk_mid _ _ _ _ Hs E) as [Pv Nx]. cbn [coalesce]. rewrite Pv, Nx. clear Pv Nx.
  pose proof Hp as (HB & HT & Hr & P1 & P2). rewrite (rend_ok r) by done.
  set (after := match head T with None => Ok t | Some s => _ end).
  assert ((exists s, s ∈ T /\ off s < off r + len r) -> after = Fail Abort) as Hafter.
  { intros (s & Hin & Hlt). subst after. destruct T as [|s0 T]; [set_solver|]. cbn [head].
    assert (off s0 < off r + len r).
    { apply elem_of_cons in Hin as [->|Hin]; [done|]. apply ranges_ok_cons in HT as (? & _ & Ha).
      specialize (Ha s Hin). unfold apart, range_ok in *. lia. }
    rewrite (proj2 (Z.eqb_neq _ _)) by lia. by rewrite (proj2 (Z.leb_le _ _)) by lia. }
  destruct (last_inv B) as [->|(B' & s & ->)]; [apply Hafter; set_solver|]. rewrite last_snoc.
  pose proof HB as HB2. apply ranges_ok_app in HB2 as (HB' & (Hsk & _ & _)%ranges_ok_cons & Hap). rewrite (rend_ok s) by done.
  assert (forall x, x ∈ B' -> off x + len x < off s) as Hbs by (intros x Hx; apply (Hap x s Hx); set_solver).
  pose proof (P1 s ltac:(set_solver)) as Hsr.
  destruct (Z.eqb_spec (off s + len s) (off r)) as [Es|Es].
  - destruct (placed_left _ _ _ _ Hp Es) as (_ & Ha & Hp' & _ & _).
    destruct (merge_tree t r s (mkArange (off s) (len s + len r)) (B' ++ [s]) T B' T Hb Hs E) as (t' & o & -> & B'' & E'); [by rewrite <- app_assoc|done|].
    rewrite bind_ok, s64_sum by done. eapply IH; eauto.
    { rewrite length_app in Hn. cbn in Hn. lia. }
    destruct Ho as (x & [[[Hx| ->%list_elem_of_singleton]%elem_of_app Hlt]|[Hx Hlt]]); [|lia|].
    + specialize (Hbs x Hx). lia.
    + exists x. right. cbn. split; [done|]. lia.
  - destruct (Z.leb_spec (off r) (off s + len s)); [done|]. apply Hafter.
    destruct Ho as (x & [[[Hx| ->%list_elem_of_singleton]%elem_of_app Hlt]|[Hx Hlt]]); [|lia|eauto].
    specialize (Hbs x Hx). lia.
Qed.

Lemma divide_rem z : (Blksz | z) -> 0 <= z -> (Z.rem z Blksz =? 0) = true.
Proof. intros [q ->] H. by rewrite Z.rem_mul. Qed.

Lemma ranges_ok_filter (P : Arange -> Prop) `{forall x, Decision (P x)} l : ranges_ok l -> ranges_ok (filter P l).
Proof.
  induction l as [|x l IH]; [done|]. intros (Hx & Hl & Hap)%ranges_ok_cons.
  destruct (decide (P x)); [rewrite filter_cons_True by done|rewrite filter_cons_False by done; by apply IH].
  apply ranges_ok_cons. split_and!; [done|by apply IH|]. intros s [_ Hs]%list_elem_of_filter. by apply Hap.
Qed.

Lemma at_notin r l : at_ off r l = None -> forall s, s ∈ l -> off s <> off r.
Proof.
  intros Ha s Hs He. unfold at_ in Ha. destruct (list_find _ l) as [[]|] eqn:Ef; [done|].
  apply list_find_None in Ef. rewrite Forall_forall in Ef. by apply (Ef s).
Qed.

Lemma total_around l r :
  at_ off r l = None -> total (below off r l) + total (above off r l) = total l.
Proof.
  intros Ha. pose proof (at_notin _ _ Ha) as Hne. clear Ha. unfold below, above.
  induction l as [|x l IH]; [done|]. pose proof (Hne x ltac:(set_solver)).
  destruct (decide (off x < off r)).
  - rewrite filter_cons_True, filter_cons_False, !total_cons by lia. rewrite <- IH by set_solver. lia.
  - rewrite filter_cons_False, filter_cons_True, !total_cons by lia. rewrite <- IH by set_solver. lia.
Qed.

Lemma around_placed l r :
  ranges_ok l -> range_ok r -> at_ off r l = None -> placed (below off r l) r (above off r l) /\
  (forall x, infree (below off r l ++ r :: above off r l) x <-> infree l x \/ rin r x).
Proof.
  intros Hl Hr Ha. destruct (around_forall off r l) as [Fb Fa]. rewrite Forall_forall in Fb, Fa.
  pose proof (at_notin _ _ Ha) as Hne.
  split; [unfold placed, below, above; split_and!; auto using ranges_ok_filter|].
  intros x. rewrite infree_app, infree_cons. unfold infree, below, above. split.
  - intros [(s & [_ Hs]%list_elem_of_filter & ?)|[?|(s & [_ Hs]%list_elem_of_filter & ?)]]; eauto.
  - intros [(s & Hs & ?)|?]; [|by auto]. specialize (Hne s Hs).
    destruct (decide (off s < off r)); [left|right; right]; exists s; (split; [|done]);
      apply list_elem_of_filter; (split; [lia|done]).
Qed.

Lemma at_in k l x : at_ off k l = Some x -> x ∈ l /\ off x = off k.
Proof.
  unfold at_. destruct (list_find _ l) as [[i y]|] eqn:E; [|done]. cbn. intros [= ->].
  apply list_find_Some in E as (Hl & He & _). split; [|done]. by eapply list_elem_of_lookup_2.
Qed.

Lemma lookup0_spec t r : ranges_ok (elements t) -> avllookup rangecmp t r 0 = at_ off r (elements t).
Proof.
  intros H. unfold avllookup. rewrite (lookup_spec off rangecmp rangecmp_off) by by apply ranges_asc.
  unfold nearest. cbn. by destruct (at_ off r _).
Qed.

Lemma freerange_spec t o l :
  let r := mkArange o l in
  free_ok t -> range_ok r ->
  ((forall x, rin r x -> ~ infree (elements t) x) ->
     exists t', freerange t o l = Ok t' /\ free_ok t' /\ total (elements t') = total (elements t) + l /\
       forall x, infree (elements t') x <-> infree (elements t) x \/ rin r x) /\
  ((exists x, rin r x /\ infree (elements t) x) -> freerange t o l = Fail Abort).
Proof.
  intros r [Hb Hl] Hr. unfold freerange. fold r.
  pose proof Hr as (R1 & R2 & R3 & R4 & R5). cbn in R1, R2, R3, R4, R5.
  rewrite divide_rem by (done || lia). cbn [check]. rewrite bind_ok, lookup0_spec by done.
  destruct (at_ off r (elements t)) as [s|] eqn:Ha.
  { apply at_in in Ha as [Hs Es]. pose proof (ranges_ok_in _ _ Hl Hs) as (? & ? & _). cbn in Es. split; [|done].
    intros Hd. exfalso. apply (Hd o); [unfold rin; cbn; lia|]. exists s. split; [done|]. unfold rin. lia. }
  rewrite bool_decide_true by done. cbn [check]. rewrite bind_ok.
  destruct (avlinsert_spec off rangecmp rangecmp_off r t Hb (ranges_asc _ Hl)) as (t' & -> & B & El).
  rewrite bind_ok. destruct (around_placed _ _ Hl Hr Ha) as [Hp Hx].
  assert (length (below off r (elements t)) + length (above off r (elements t)) < S (length (elements t')))%nat.
  { rewrite El, length_app. cbn. lia. }
  split.
  - intros Hd. destruct (coalesce_fits (S (length (elements t'))) t' _ _ _ Hp) as (t'' & R & F & Ht'' & Hx''); auto.
    { pose proof Hp as (HB & HT & _ & P1 & P2). split; intros s Hs.
      - specialize (P1 s Hs). destruct (ranges_ok_in _ _ HB Hs) as (? & ? & _).
        destruct (Z.le_gt_cases (off s + len s) (off r)); [done|]. exfalso. apply (Hd o); [unfold rin; cbn; lia|].
        apply list_elem_of_filter in Hs as [_ Hs]. exists s. split; [done|]. unfold rin. cbn in *. lia.
      - specialize (P2 s Hs). destruct (ranges_ok_in _ _ HT Hs) as (? & ? & _).
        destruct (Z.le_gt_cases (off r + len r) (off s)); [done|]. exfalso. apply (Hd (off s)); [unfold rin; lia|].
        apply list_elem_of_filter in Hs as [_ Hs]. exists s. split; [done|]. unfold rin. lia. }
    exists t''. split; [done|]. split; [done|]. split; [|intros x; by rewrite Hx'', El, Hx].
    rewrite Ht'', El, total_app, total_cons, <- (total_around _ _ Ha). cbn [len r]. lia.
  - intros (x & Hrx & (s & Hs & Hsx)). apply (coalesce_overlap _ _ _ _ _ Hp); auto. exists s.
    pose proof (at_notin _ _ Ha s Hs). destruct (decide (off s < off r)); [left|right]; (split; [apply list_elem_of_filter; split; [lia|done]|unfold rin in *; lia]).
Qed.

(** ** grabrange *)

(** The last range that starts at or before [q]. *)
Lemma split_at l (q : Arange) :
  asc off l ->
  (forall s, s ∈ l -> off q < off s) \/
  exists l1 r l2, l = l1 ++ r :: l2 /\ off r <= off q /\ (forall s, s ∈ l2 -> off q < off s).
Proof.
  induction l as [|x l IH]; [left; set_solver|]. unfold asc. rewrite StronglySorted_cons, Forall_forall.
  intros [Hx Hl]. destruct (IH Hl) as [Hall|(l1 & r & l2 & -> & Hr & Hall)].
  - destruct (Z.le_gt_cases (off x) (off q)); [right; by exists [], x, l|left; set_solver].
  - right. by exists (x :: l1), r, l2.
Qed.

Lemma nearest_last l1 r l2 (q : Arange) :
  asc off (l1 ++ r :: l2) -> off r <= off q -> (forall s, s ∈ l2 -> off q < off s) ->
  nearest off q (-1) (l1 ++ r :: l2) = Some r.
Proof.
  intros Hs Hr Hall. unfold nearest. cbn [Z.ltb Z.compare].
  destruct (Z.eq_dec (off r) (off q)) as [E|E].
  { by destruct (around_eq off q _ _ _ Hs E) as (_ & _ & ->). }
  destruct (around_gt off q _ _ _ Hs) as (-> & _ & ->); [lia|].
  rewrite at_none by (apply Forall_forall; intros s Hin; specialize (Hall s Hin); lia).
  unfold below. rewrite filter_none by (apply Forall_forall; intros s Hin; specialize (Hall s Hin); lia).
  cbn [or_else]. by rewrite last_app, last_cons.
Qed.

Lemma nearest_none l (q : Arange) : (forall s, s ∈ l -> off q < off s) -> nearest off q (-1) l = None.
Proof.
  intros Hall. unfold nearest, below.
  rewrite at_none by (apply Forall_forall; intros s Hin; specialize (Hall s Hin); lia).
  by rewrite filter_none by (apply Forall_forall; intros s Hin; specialize (Hall s Hin); lia).
Qed.

(** What a free list looks like around one of its ranges. *)
Lemma ranges_mid l1 r l2 :
  ranges_ok (l1 ++ r :: l2) <->
  ranges_ok l1 /\ ranges_ok l2 /\ range_ok r /\ (forall s, s ∈ l1 -> apart s r) /\ (forall s, s ∈ l2 -> apart r s) /\
  (forall s u, s ∈ l1 -> u ∈ l2 -> apart s u).
Proof. rewrite ranges_ok_app, ranges_ok_cons. set_solver. Qed.

(** A run of free bytes lies in one range. *)
Lemma covered_one l1 r l2 q :
  ranges_ok (l1 ++ r :: l2) -> off r <= off q -> 0 < len q -> (forall s, s ∈ l2 -> off q < off s) ->
  (forall x, rin q x -> infree (l1 ++ r :: l2) x) <-> off q + len q <= off r + len r.
Proof.
  intros (H1 & H2 & Hr & A1 & A2 & _)%ranges_mid Hq Hlen Hall. split.
  - intros Hc. destruct (Z.le_gt_cases (off q + len q) (off r + len r)) as [|Hgt]; [done|].
    pose proof (Hc (Z.max (off q) (off r + len r))) as Hx. rewrite infree_app, infree_cons in Hx.
    destruct Hx as [(s & Hs & Hx)|[Hx|(s & Hs & Hx)]]; [unfold rin; lia| | |]; unfold rin, apart, range_ok in *.
    + specialize (A1 s Hs). lia.
    + lia.
    + specialize (A2 s Hs). specialize (Hall s Hs). lia.
  - intros Hle x Hx. rewrite infree_app, infree_cons. right. left. unfold rin in *. lia.
Qed.

Lemma divide_lt a b : (Blksz | a) -> (Blksz | b) -> a < b -> (Blksz | b - a) /\ 0 < b - a.
Proof. intros. split; [by apply Z.divide_sub_r|lia]. Qed.

Definition cut (r q : Arange) : list Arange :=
  (if off q =? off r then [] else [mkArange (off r) (off q - off r)]) ++
  (if off q + len q =? off r + len r then [] else [mkArange (off q + len q) (off r + len r - (off q + len q))]).

Lemma total_cut r q : off r <= off q -> off q + len q <= off r + len r -> total (cut r q) = len r - len q.
Proof.
  intros H1 H2. unfold cut. rewrite total_app.
  destruct (Z.eqb_spec (off q) (off r)), (Z.eqb_spec (off q + len q) (off r + len r));
    rewrite ?total_cons; change (total []) with 0; cbn [len]; lia.
Qed.

Lemma cut_ok l1 r l2 q :
  ranges_ok (l1 ++ r :: l2) -> range_ok q -> off r <= off q -> off q + len q <= off r + len r ->
  ranges_ok (l1 ++ cut r q ++ l2) /\
  (forall x, infree (l1 ++ cut r q ++ l2) x <-> infree (l1 ++ r :: l2) x /\ ~ rin q x).
Proof.
  intros Hl Hq Hlo Hhi. pose proof Hl as (H1 & H2 & Hr & A1 & A2 & A3)%ranges_mid.
  destruct Hq as (Q1 & Q2 & Q3 & Q4 & Q5). destruct Hr as (R1 & R2 & R3 & R4 & R5).
  assert (range_ok q) as Hqk by done. assert (Hend : (Blksz | off q + len q)) by (by apply Z.divide_add_r).
  assert (Hrend : (Blksz | off r + len r)) by (by apply Z.divide_add_r).
  split.
  - assert (ranges_ok (cut r q)) as Hc.
    { unfold cut. destruct (Z.eqb_spec (off q) (off r)), (Z.eqb_spec (off q + len q) (off r + len r));
        cbn [app]; rewrite ?ranges_ok_cons; unfold range_ok, apart; cbn; split_and!; try apply ranges_ok_nil; try (by intros s Hs%elem_of_nil); try lia;
        try (by apply Z.divide_sub_r); try assumption.
      intros s ->%list_elem_of_singleton. cbn. lia. }
    assert (forall s, s ∈ cut r q -> off r <= off s /\ off s + len s <= off r + len r) as Hin.
    { unfold cut. intros s. rewrite elem_of_app.
      destruct (Z.eqb_spec (off q) (off r)), (Z.eqb_spec (off q + len q) (off r + len r));
        rewrite ?list_elem_of_singleton, ?elem_of_nil; intros [Hs|Hs]; try done; subst s; cbn; lia. }
    apply ranges_ok_app. split_and!; [done| |].
    + apply ranges_ok_app. split_and!; [done|done|]. intros s u Hs Hu. specialize (Hin s Hs). specialize (A2 u Hu). unfold apart in *. lia.
    + intros s u Hs [Hu|Hu]%elem_of_app; [|by apply A3]. specialize (Hin u Hu). specialize (A1 s Hs). unfold apart in *. lia.
  - intros x. rewrite !infree_app, infree_cons.
    assert (infree (cut r q) x <-> rin r x /\ ~ rin q x) as ->.
    { unfold cut. rewrite infree_app.
      destruct (Z.eqb_spec (off q) (off r)), (Z.eqb_spec (off q + len q) (off r + len r));
        rewrite ?infree_cons, ?infree_nil; unfold rin; cbn; lia. }
    assert (infree l1 x -> ~ rin q x) by (intros (s & Hs & Hx); specialize (A1 s Hs); unfold rin, apart in *; lia).
    assert (infree l2 x -> ~ rin q x) by (intros (s & Hs & Hx); specialize (A2 s Hs); unfold rin, apart in *; lia).
    tauto.
Qed.

(** A store that moves a range inside its place keeps the order. *)
Lemma asc_mid_set l1 r r' l2 :
  ranges_ok (l1 ++ r :: l2) -> off r <= off r' <= off r + len r -> asc off (l1 ++ r' :: l2).
Proof.
  intros (H1 & H2 & Hr & A1 & A2 & _)%ranges_mid Hlo. apply asc_join; [done|done| |]; intros s Hs.
  - specialize (A1 s Hs). destruct (ranges_ok_in _ _ H1 Hs) as (? & ? & _). unfold apart in *. lia.
  - specialize (A2 s Hs). unfold apart in *. lia.
Qed.

Lemma insert_after t l1 r s l2 :
  balanced t -> elements t = l1 ++ r :: l2 -> asc off (l1 ++ r :: l2) -> asc off (l1 ++ r :: s :: l2) ->
  exists t' o, avlinsert rangecmp t s = Ok (t', o) /\ balanced t' /\ elements t' = l1 ++ r :: s :: l2.
Proof.
  intros Hb E Hs Hi. rewrite <- E in Hs.
  destruct (avlinsert_spec off rangecmp rangecmp_off s t Hb Hs) as (t' & -> & B & El).
  exists t', (at_ off s (elements t)). split; [done|]. split; [done|]. rewrite El, E.
  change (r :: s :: l2) with ([r] ++ s :: l2) in Hi |- *. change (r :: l2) with ([r] ++ l2).
  rewrite !app_assoc in Hi |- *. pose proof (asc_mid _ _ _ _ Hi) as (_ & _ & F1 & F2).
  assert (below off s ((l1 ++ [r]) ++ l2) = l1 ++ [r]) as ->.
  { unfold below. rewrite filter_app, (filter_all _ (l1 ++ [r])) by done. rewrite filter_none; [by rewrite app_nil_r|].
    eapply Forall_impl; [exact F2|]. cbn. lia. }
  assert (above off s ((l1 ++ [r]) ++ l2) = l2) as ->; [|by rewrite <- app_assoc].
  unfold above. rewrite filter_app, (filter_all _ l2) by done. rewrite filter_none; [done|].
  eapply Forall_impl; [exact F1|]. cbn. lia.
Qed.

Lemma grab_cut t l1 r l2 (q : Arange) :
  balanced t -> elements t = l1 ++ r :: l2 -> ranges_ok (l1 ++ r :: l2) -> range_ok q ->
  off r <= off q -> off q + len q <= off r + len r -> (forall s, s ∈ l2 -> off q < off s) ->
  exists t', grabrange t (off q) (len q) = Ok t' /\ balanced t' /\ elements t' = l1 ++ cut r q ++ l2.
Proof.
  intros Hb E Hl Hq Hlo Hhi Hall. pose proof (ranges_asc _ Hl) as Hs.
  pose proof Hl as (_ & _ & Hr & _ & A2 & _)%ranges_mid. pose proof Hq as (Q1 & Q2 & Q3 & Q4 & Q5).
  pose proof Hr as (R1 & R2 & R3 & R4 & R5).
  unfold grabrange. rewrite divide_rem by (done || lia). cbn [check]. rewrite bind_ok.
  replace (mkArange (off q) (len q)) with q by by destruct q.
  unfold avllookup. rewrite (lookup_spec off rangecmp rangecmp_off), E, nearest_last by (rewrite ?E; done).
  cbn [or_else]. rewrite (rend_ok r), (rend_ok q) by done. rewrite (proj2 (Z.ltb_ge _ _)) by lia.
  unfold cut. destruct (Z.eqb_spec (off q) (off r)) as [E1|E1]; [|destruct (Z.eqb_spec (off q + len q) (off r + len r)) as [E2|E2]].
  - rewrite bind_ok. cbn [len off]. rewrite !s64_id by lia. set (r' := mkArange _ _).
    assert (elements (poke r r' t) = l1 ++ r' :: l2) as Ep by (apply poke_mid; rewrite E; done).
    destruct (Z.eqb_spec (len r - len q) 0) as [E2|E2].
    + rewrite (proj2 (Z.eqb_eq _ _)) by lia.
      destruct (delete_mid (poke r r' t) r' l1 l2) as (t' & o & -> & B' & E'); [by apply poke_balanced| |done|eauto].
      rewrite Ep. apply (asc_mid_set _ r); [done|]. cbn. lia.
    + rewrite (proj2 (Z.eqb_neq _ _)) by lia. eexists. split; [done|]. split; [by apply poke_balanced|].
      rewrite Ep. cbn [app]. unfold r'. do 2 f_equal. f_equal; lia.
  - rewrite bind_ok. cbn [len off]. rewrite !s64_id by lia. rewrite (proj2 (Z.eqb_neq _ _)) by lia.
    eexists. split; [done|]. split; [by apply poke_balanced|]. cbn [app].
    rewrite (poke_mid r (mkArange (off r) (len r - len q)) t l1 l2); [|by rewrite E|done]. do 2 f_equal. f_equal; lia.
  - rewrite (proj2 (Z.ltb_lt (off r) (off q))), (proj2 (Z.ltb_lt _ _)) by lia. cbn [andb len off].
    rewrite !s64_id by lia. set (r' := mkArange (off r) _).
    assert (elements (poke r r' t) = l1 ++ r' :: l2) as Ep by (apply poke_mid; rewrite E; done).
    assert (asc off (l1 ++ r' :: l2)) as Hs' by (apply (asc_mid_set _ r); [done|cbn; lia]).
    destruct (cut_ok _ _ _ _ Hl Hq Hlo Hhi) as [Hc _]. unfold cut in Hc.
    rewrite (proj2 (Z.eqb_neq _ _) E1), (proj2 (Z.eqb_neq _ _) E2) in Hc. cbn [app] in Hc. fold r' in Hc.
    replace (len r - (off q - off r) - len q) with (off r + len r - (off q + len q)) by lia.
    destruct (insert_after (poke r r' t) l1 r' _ l2 (poke_balanced _ _ _ Hb) Ep Hs' (ranges_asc _ Hc)) as (t' & o & -> & B' & E').
    rewrite !bind_ok. subst r'. cbn [len] in *. rewrite (proj2 (Z.eqb_neq (off q - off r) 0)) by lia. eauto.
Qed.

Lemma grabrange_spec t o l :
  let q := mkArange o l in
  free_ok t -> range_ok q ->
  ((forall x, rin q x -> infree (elements t) x) ->
     exists t', grabrange t o l = Ok t' /\ free_ok t' /\ total (elements t') = total (elements t) - l /\
       forall x, infree (elements t') x <-> infree (elements t) x /\ ~ rin q x) /\
  (~ (forall x, rin q x -> infree (elements t) x) -> grabrange t o l = Fail Abort).
Proof.
  intros q [Hb Hl] Hq. pose proof Hq as (Q1 & Q2 & Q3 & Q4 & Q5). cbn in Q1, Q2, Q3, Q4, Q5.
  destruct (split_at (elements t) q (ranges_asc _ Hl)) as [Hall|(l1 & r & l2 & E & Hr & Hall)].
  - split.
    + intros Hc. destruct (Hc o) as (s & Hs & Hx); [unfold rin; cbn; lia|]. specialize (Hall s Hs).
      unfold rin in Hx. cbn in *. lia.
    + intros _. unfold grabrange. rewrite divide_rem by (done || lia). cbn [check]. rewrite bind_ok. fold q.
      unfold avllookup. rewrite (lookup_spec off rangecmp rangecmp_off), nearest_none by auto using ranges_asc. done.
  - rewrite E in Hl |- *. rewrite (covered_one _ _ _ q Hl) by (done || cbn; lia). split.
    + intros Hhi. destruct (grab_cut t l1 r l2 q) as (t' & R & B' & E'); auto.
      destruct (cut_ok _ _ _ _ Hl Hq Hr Hhi) as [Hc Hx]. exists t'. split; [done|]. unfold free_ok. rewrite E'.
      split; [done|]. split; [|done]. rewrite !total_app, total_cons, total_cut by done. cbn [len q]. lia.
    + intros Hgt. unfold grabrange. rewrite divide_rem by (done || lia). cbn [check]. rewrite bind_ok. fold q.
      unfold avllookup. rewrite (lookup_spec off rangecmp rangecmp_off), E, nearest_last by (rewrite ?E; auto using ranges_asc).
      cbn [or_else]. pose proof Hl as (_ & _ & Hrk & _)%ranges_mid. rewrite (rend_ok r), (rend_ok q) by done.
      by rewrite (proj2 (Z.ltb_lt _ _)) by lia.
Qed.

(** ** A free list is determined by the space it covers *)

Lemma head_least r l x : ranges_ok (r :: l) -> infree (r :: l) x -> off r <= x.
Proof.
  intros (Hr & Hl & Ha)%ranges_ok_cons. rewrite infree_cons. intros [Hx|(s & Hs & Hx)]; unfold rin in *; [lia|].
  specialize (Ha s Hs). unfold apart, range_ok in *. lia.
Qed.

Lemma head_end r l : ranges_ok (r :: l) -> ~ infree (r :: l) (off r + len r).
Proof.
  intros (Hr & Hl & Ha)%ranges_ok_cons. rewrite infree_cons. intros [Hx|(s & Hs & Hx)]; unfold rin in *; [lia|].
  specialize (Ha s Hs). unfold apart in *. lia.
Qed.

Lemma tail_space r l x : ranges_ok (r :: l) -> infree l x <-> infree (r :: l) x /\ ~ rin r x.
Proof.
  intros (Hr & Hl & Ha)%ranges_ok_cons. rewrite infree_cons. split; [|tauto]. intros (s & Hs & Hx).
  split; [right; by exists s|]. specialize (Ha s Hs). unfold rin, apart, range_ok in *. lia.
Qed.

Lemma head_in r l x : rin r x -> infree (r :: l) x.
Proof. intros Hx. apply infree_cons. by left. Qed.

Lemma ranges_canonical l l' :
  ranges_ok l -> ranges_ok l' -> (forall x, infree l x <-> infree l' x) -> l = l'.
Proof.
  revert l'. induction l as [|r l IH]; intros [|s l'] H H' E; [done| | |].
  - exfalso. pose proof H' as ((? & ? & _) & _)%ranges_ok_cons. apply (infree_nil (off s)), E, head_in. unfold rin. lia.
  - exfalso. pose proof H as ((? & ? & _) & _)%ranges_ok_cons. apply (infree_nil (off r)), E, head_in. unfold rin. lia.
  - pose proof H as ((R1 & R2 & _) & Hl & _)%ranges_ok_cons. pose proof H' as ((S1 & S2 & _) & Hl' & _)%ranges_ok_cons.
    assert (off s <= off r) by (apply (head_least s l'); [done|]; apply E, head_in; unfold rin; lia).
    assert (off r <= off s) by (apply (head_least r l); [done|]; apply E, head_in; unfold rin; lia).
    assert (~ off r + len r < off s + len s).
    { intros Hlt. apply (head_end r l H), E, head_in. unfold rin. lia. }
    assert (~ off s + len s < off r + len r).
    { intros Hlt. apply (head_end s l' H'), E, head_in. unfold rin. lia. }
    assert (r = s) as -> by (destruct r, s; cbn in *; f_equal; lia).
    f_equal. apply IH; [done|done|]. intros x. by rewrite (tail_space s l), (tail_space s l'), E.
Qed.

(** C21: freerange adds the bytes of the range to the free space and to nothing
    else when none of them is free yet, and keeps the tree balanced and its
    ranges sorted, disjoint and coalesced; when one of them is free already
    the kernel aborts, so that no block is freed twice. *)
Theorem freerange_correct t o l :
  let r := mkArange o l in
  free_ok t -> range_ok r ->
  ((forall x, rin r x -> ~ infree (elements t) x) ->
     exists t', freerange t o l = Ok t' /\ free_ok t' /\ total (elements t') = total (elements t) + l /\
       forall x, infree (elements t') x <-> infree (elements t) x \/ rin r x) /\
  ((exists x, rin r x /\ infree (elements t) x) -> freerange t o l = Fail Abort).
Proof. apply freerange_spec. Qed.

(** C26: grabrange takes exactly the bytes of the range out of the free space
    when all of them are free, and keeps the tree's invariant; otherwise the
    kernel aborts. *)
Theorem grabrange_correct t o l :
  let q := mkArange o l in
  free_ok t -> range_ok q ->
  ((forall x, rin q x -> infree (elements t) x) ->
     exists t', grabrange t o l = Ok t' /\ free_ok t' /\ total (elements t') = total (elements t) - l /\
       forall x, infree (elements t') x <-> infree (elements t) x /\ ~ rin q x) /\
  (~ (forall x, rin q x -> infree (elements t) x) -> grabrange t o l = Fail Abort).
Proof. apply grabrange_spec. Qed.

Lemma ex_free_ok : free_ok ex_free.
Proof.
  split; [apply ex_free_balanced|]. cbn. rewrite !ranges_ok_cons. unfold range_ok, apart. cbn.
  assert (forall n, (Blksz | n * Blksz)) as D by (intros n; by exists n).
  split_and!; try lia; try apply (D 1); try apply (D 2); try apply (D 4); try apply (D 8); try apply (D 16);
    try apply ranges_ok_nil; intros s; rewrite ?elem_of_cons, ?elem_of_nil;
    intros Hs; repeat (destruct Hs as [Hs|Hs]); subst; cbn; lia || done.
Qed.

Lemma range_ok_blk n : 0 <= n < 2 ^ 40 -> range_ok (mkArange (n * Blksz) Blksz).
Proof. intros. unfold range_ok. change Blksz with 16384. cbn. split_and!; try lia; [by exists n|by exists 1]. Qed.

(** The hole between two ranges is filled, and a range's middle is taken. *)
Lemma freerange_correct_witness :
  (exists t', freerange ex_free 114688 16384 = Ok t' /\ infree (elements t') 114688) /\
  freerange ex_free 65536 16384 = Fail Abort.
Proof.
  split.
  - destruct (freerange_correct ex_free (7 * Blksz) Blksz ex_free_ok (range_ok_blk 7 ltac:(lia))) as [H _].
    destruct H as (t' & E & _ & _ & Hx).
    + intros x Hx. cbn. rewrite !infree_cons, infree_nil. unfold rin in *. change Blksz with 16384 in *. cbn in *. lia.
    + exists t'. split; [exact E|]. apply Hx. right. unfold rin. change Blksz with 16384. cbn. lia.
  - destruct (freerange_correct ex_free (4 * Blksz) Blksz ex_free_ok (range_ok_blk 4 ltac:(lia))) as [_ H].
    apply H. exists 65536. cbn. rewrite !infree_cons. unfold rin. change Blksz with 16384. cbn. lia.
Defined.

Lemma grabrange_correct_witness :
  (exists t', grabrange ex_free 81920 16384 = Ok t' /\ ~ infree (elements t') 81920) /\
  grabrange ex_free 98304 16384 = Fail Abort.
Proof.
  split.
  - destruct (grabrange_correct ex_free (5 * Blksz) Blksz ex_free_ok (range_ok_blk 5 ltac:(lia))) as [H _].
    destruct H as (t' & E & _ & _ & Hx).
    + intros x Hx. cbn. rewrite !infree_cons. unfold rin in *. change Blksz with 16384 in *. cbn in *. lia.
    + exists t'. split; [exact E|]. intros Hin. apply Hx in Hin as [_ Hn]. apply Hn. unfold rin. change Blksz with 16384. cbn. lia.
  - destruct (grabrange_correct ex_free (6 * Blksz) Blksz ex_free_ok (range_ok_blk 6 ltac:(lia))) as [_ H].
    apply H. intros Hc. specialize (Hc 98304). cbn in Hc. rewrite !infree_cons, infree_nil in Hc.
    unfold rin in Hc. change Blksz with 16384 in Hc. cbn in Hc. lia.
Defined.
