(* ===== verification/Blk.v ===== *)
(** sys/src/9/gefs/blk.c, one block: its flags, its header (initblk, dupblk,
    finalize) and reading it back from the device (readblk).

    A block's buf is its header [hdr] followed by its data; the length of the
    header depends on the type.  The C union of the fields of trees and logs
    is read by type only, so the model keeps the fields apart.  Setting a flag
    retries a compare-and-swap until it succeeds, which is one store. *)

From S2P Require Import Prelude Layout Hash Pack Node.

(** * The code *)

Definition Bdirty : Z := 1.
Definition Bfinal : Z := 2.
Definition Bfreed : Z := 4.
Definition Bcached : Z := 8.
Definition Bqueued : Z := 16.
Definition Blimbo : Z := 32.
Definition Bstatic : Z := 64.

Definition GBraw : Z := 1.
Definition GBnochk : Z := 4.

Definition Eio : string := "i/o error".
Definition Ecorrupt : string := "block contents corrupted".
Definition Ebtype : string := "invalid block type".

Record Mblk := mkMblk {
  mb : Blk; logsz : Z; logh : Z; logp : Bptr; hdr : list Z; bflag : Z
}.
Definition buf (b : Mblk) : list Z := hdr b ++ data (mb b).

Definition checkflag (v set clr : Z) : bool := Z.land v (Z.lor set clr) =? set.
Definition setflag (v set clr : Z) : Z := Z.lor (Z.ldiff v clr) set.

Definition hdsz (t : btype) : Z :=
  match t with
  | Tdat | Tsuper => 0
  | Tarena => 2
  | Tlog | Tdlist => Loghdsz
  | Tpivot => Pivhdsz
  | Tleaf => Leafhdsz
  end.

(** [incache] is whether cacheget(bp) finds the address in use already.  A
    superblock is not in the switch: its data stays where it is. *)
Definition initblk (b : Mblk) (a g : Z) (ty : btype) (incache : bool) : res Mblk :=
  check (negb incache);;
  let n := if decide (ty = Tsuper) then length (hdr b) else Z.to_nat (hdsz ty) in
  let lp := match ty with Tlog | Tdlist => Zb | _ => logp b end in
  Ok (mkMblk (mkBlk ty 0 0 0 0 (drop n (buf b)) (mkBptr a (2 ^ 64 - 1) g))
             0 (logh b) lp (take n (buf b)) (setflag (bflag b) Bdirty 0)).

(** dupblk, given the block [r] that newblk returned. *)
Definition dupblk (r b : Mblk) : Mblk :=
  let n := length (hdr r) in
  mkMblk (mkBlk (btyp (mb r)) (nval (mb b)) (bvalsz (mb b)) (nbuf (mb b)) (bufsz (mb b))
                (drop n (buf b)) (mkBptr (addr (bp (mb r))) (2 ^ 64 - 1) (gen (bp (mb r)))))
         (logsz b) (logh r) (logp r) (take n (buf b)) (bflag r).

Definition setblkhdr (b : Mblk) (lh : Z) (h d : list Z) : Mblk :=
  let n := mb b in
  mkMblk (mkBlk (btyp n) (nval n) (bvalsz n) (nbuf n) (bufsz n) d
                (mkBptr (addr (bp n)) (blkhash (h ++ d)) (gen (bp n))))
         (logsz b) lh (logp b) h (setflag (bflag b) (Z.lor Bdirty Bfinal) 0).

Definition finalize (b : Mblk) : res Mblk :=
  let n := mb b in
  let ty := pack 2 (btype_code (btyp n)) in
  match btyp n with
  | Tpivot =>
      Ok (setblkhdr b (logh b) (ty ++ pack 2 (nval n) ++ pack 2 (bvalsz n) ++ pack 2 (nbuf n) ++ pack 2 (bufsz n)) (data n))
  | Tleaf => Ok (setblkhdr b (logh b) (ty ++ pack 2 (nval n) ++ pack 2 (bvalsz n)) (data n))
  | Tlog | Tdlist =>
      d ← READ (Z.to_nat (logsz b)) (data n);
      let lh := bufhash d in
      p ← packbp Ptrsz (logp b);
      Ok (setblkhdr b lh (ty ++ pack 2 (logsz b) ++ pack 8 lh ++ p) (data n))
  | Tdat => Ok (setblkhdr b (logh b) (hdr b) (data n))
  | Tarena => Ok (setblkhdr b (logh b) ty (data n))
  | Tsuper => Ok (setblkhdr b (logh b) (hdr b) (patch (data n) 0 ty))
  end.

Definition hdfields (b0 : Mblk) (p : Bptr) (t : btype) (b : list Z) : res Mblk :=
  let h := Z.to_nat (hdsz t) in
  let mk nval valsz nbuf bufsz lsz lh lp :=
    mkMblk (mkBlk t nval valsz nbuf bufsz (drop h b) (mkBptr (addr p) (2 ^ 64 - 1) (-1)))
           lsz lh lp (take h b) (bflag b0) in
  let q := drop 2 b in
  match t with
  | Tdat | Tsuper | Tarena => Ok (mk 0 0 0 0 0 (logh b0) (logp b0))
  | Tdlist | Tlog =>
      lsz ← UNPACK 2 q; let q := drop 2 q in
      lh ← UNPACK 8 q;  let q := drop 8 q in
      lp ← unpackbp q;
      Ok (mk 0 0 0 0 lsz lh lp)
  | Tpivot =>
      nv ← UNPACK 2 q; let q := drop 2 q in
      vs ← UNPACK 2 q; let q := drop 2 q in
      nb ← UNPACK 2 q; let q := drop 2 q in
      bs ← UNPACK 2 q;
      Ok (mk (s16 nv) (s16 vs) (s16 nb) (s16 bs) 0 (logh b0) (logp b0))
  | Tleaf =>
      nv ← UNPACK 2 q; let q := drop 2 q in
      vs ← UNPACK 2 q;
      Ok (mk (s16 nv) (s16 vs) 0 0 0 (logh b0) (logp b0))
  end.

(** The checksum expected and the one of the block. *)
Definition blksums (p : Bptr) (m : Mblk) : res (Z * Z) :=
  match btyp (mb m) with
  | Tlog | Tdlist => d ← READ (Z.to_nat (logsz m)) (data (mb m)); Ok (logh m, bufhash d)
  | _ => Ok (hash p, blkhash (buf m))
  end.

(** readblk after its read loop, with the bytes read into the buffer of the
    block [b0]; the fields its type does not have keep what they were. *)
Definition parseblk (b0 : Mblk) (p : Bptr) (flg : Z) (b : list Z) : res Mblk :=
  code ← UNPACK 2 b;
  let raw := negb (Z.land flg GBraw =? 0) in
  t ← of_option (if raw then Some Tdat else btype_of (s16 code)) (Error Ebtype);
  m ← hdfields b0 p t b;
  '(xh, ck) ← blksums p m;
  if (Z.land flg GBnochk =? 0) && negb (ck =? xh) then Fail (Error Ecorrupt) else Ok m.

Section Device.
  (** pread(2) on the device: the offset and the count, and the bytes read;
      None for -1. *)
  Context (pread : Z -> Z -> option (list Z)).

(** The read loop of readblk; a call reads at least one byte. *)
Fixpoint readloop (fuel : nat) (off rem : Z) : res (list Z) :=
  if rem =? 0 then Ok [] else
  match fuel with
  | O => Fail Fuel
  | S fuel =>
      match pread off rem with
      | None | Some [] => Fail (Error Eio)
      | Some p => rest ← readloop fuel (off + zlen p) (rem - zlen p); Ok (p ++ rest)
      end
  end.

Definition readblk (b0 : Mblk) (p : Bptr) (flg : Z) : res Mblk :=
  b ← readloop (Z.to_nat Blksz) (addr p) Blksz;
  parseblk b0 p flg b.
End Device.

(** * Reading back what was written *)

(** The device holds [img] at [a]: every read inside it returns some of its
    bytes, from one to as many as asked for. *)
Definition serves (pread : Z -> Z -> option (list Z)) (a : Z) (img : list Z) : Prop :=
  forall o n, 0 <= o -> 0 < n -> o + n <= zlen img ->
    exists l, pread (a + o) n = Some l /\ l <> [] /\ zlen l <= n /\
      l = take (length l) (drop (Z.to_nat o) img).

Lemma readloop_serves pread a img fuel o :
  serves pread a img -> 0 <= o <= zlen img -> zlen img - o <= Z.of_nat fuel ->
  readloop pread fuel (a + o) (zlen img - o) = Ok (drop (Z.to_nat o) img).
Proof.
  intros Hs. revert o. induction fuel as [|fuel IH]; intros o Ho Hf; cbn [readloop].
  - replace (zlen img - o) with 0 by lia. cbn. rewrite drop_ge; [done|]. unfold zlen in *. lia.
  - destruct (Z.eqb_spec (zlen img - o) 0) as [E|E].
    { rewrite drop_ge; [done|]. unfold zlen in *. lia. }
    destruct (Hs o (zlen img - o)) as (l & -> & Hne & Hn & El); [lia..|].
    destruct l as [|x l]; [done|]. set (p := x :: l) in *.
    assert (1 <= zlen p) by (unfold p; rewrite zlen_cons; pose proof (zlen_nonneg l); lia).
    replace (a + o + zlen p) with (a + (o + zlen p)) by lia.
    replace (zlen img - o - zlen p) with (zlen img - (o + zlen p)) by lia.
    rewrite IH by lia. rewrite bind_ok. f_equal.
    rewrite <- (take_drop (length p) (drop (Z.to_nat o) img)), <- El, drop_drop.
    do 2 f_equal. unfold zlen. lia.
Qed.

Lemma readloop_whole pread a img :
  serves pread a img -> zlen img = Blksz -> readloop pread (Z.to_nat Blksz) a Blksz = Ok img.
Proof.
  intros Hs Hl. pose proof (readloop_serves pread a img (Z.to_nat Blksz) 0 Hs) as H.
  rewrite Hl, Z.add_0_r, Z.sub_0_r in H. apply H; change Blksz with 16384; lia.
Qed.

Lemma readblk_image pread b0 p flg img :
  serves pread (addr p) img -> zlen img = Blksz -> readblk pread b0 p flg = parseblk b0 p flg img.
Proof. intros Hs Hl. unfold readblk. by rewrite (readloop_whole _ _ _ Hs Hl), bind_ok. Qed.

(** A device that reads the block in one piece. *)
Lemma readblk_once pread b0 p flg img :
  pread (addr p) Blksz = Some img -> zlen img = Blksz -> readblk pread b0 p flg = parseblk b0 p flg img.
Proof.
  intros Hp Hl. unfold readblk. replace (Z.to_nat Blksz) with (S (Z.to_nat (Blksz - 1))) by (change Blksz with 16384; lia).
  cbn [readloop]. rewrite (proj2 (Z.eqb_neq Blksz 0)), Hp by done.
  destruct img as [|x img]; [done|]. rewrite Hl, Z.sub_diag.
  assert (forall f o, readloop pread f o 0 = Ok []) as E by (intros [] ?; reflexivity).
  rewrite E, !bind_ok, app_nil_r. done.
Qed.
#[global] Opaque readblk.

(** A block whose parts have their sizes. *)
Record mblk_ok (m : Mblk) : Prop := {
  mok_hdr : zlen (hdr m) = hdsz (btyp (mb m));
  mok_data : zlen (data (mb m)) = Blksz - hdsz (btyp (mb m));
  mok_logsz : 0 <= logsz m <= Logspc;
  mok_logp : bptr_ok (logp m);
  mok_tree : Forall (fun n => 0 <= n < 2 ^ 15) [nval (mb m); bvalsz (mb m); nbuf (mb m); bufsz (mb m)]
}.

(** What the reader of a block has of it. *)
Definition same_content (m m' : Mblk) : Prop :=
  btyp (mb m') = btyp (mb m) /\ addr (bp (mb m')) = addr (bp (mb m)) /\ buf m' = buf m /\
  match btyp (mb m) with
  | Tpivot => data (mb m') = data (mb m) /\ nval (mb m') = nval (mb m) /\ bvalsz (mb m') = bvalsz (mb m) /\
      nbuf (mb m') = nbuf (mb m) /\ bufsz (mb m') = bufsz (mb m)
  | Tleaf => data (mb m') = data (mb m) /\ nval (mb m') = nval (mb m) /\ bvalsz (mb m') = bvalsz (mb m) /\
      nbuf (mb m') = 0 /\ bufsz (mb m') = 0
  | Tlog | Tdlist => data (mb m') = data (mb m) /\ logsz m' = logsz m /\ logp m' = logp m
  | _ => data (mb m') = data (mb m)
  end.

Lemma s16_pack v : 0 <= v < 2 ^ 15 -> s16 (v mod 2 ^ 16) = v.
Proof. intros. rewrite Z.mod_small by lia. apply s16_id. lia. Qed.

Lemma btype_of_code t : btype_of (s16 (btype_code t mod 2 ^ 16)) = Some t.
Proof. by destruct t. Qed.

(** finalize succeeds, and its image has the size of a block. *)
Lemma finalize_ok m : mblk_ok m ->
  exists m', finalize m = Ok m' /\ zlen (buf m') = Blksz /\ hash (bp (mb m')) = blkhash (buf m') /\
    zlen (hdr m') = hdsz (btyp (mb m')) /\ btyp (mb m') = btyp (mb m) /\ nval (mb m') = nval (mb m).
Proof.
  intros [Hh Hd Hls Hlp Ht]. unfold finalize.
  assert (zlen (buf m) = Blksz) as Hb by (unfold buf; rewrite zlen_app; lia).
  destruct (btyp (mb m)) eqn:E; cbn [hdsz] in *;
    try (eexists; split; [done|]; cbn; rewrite E; unfold buf; cbn; autorewrite with gefs;
         rewrite ?Hd, ?Hh; change Blksz with 16384; change Pivhdsz with 10; change Leafhdsz with 6; repeat split; lia).
  all: try (unfold READ; rewrite decide_True by (unfold zlen in *; change Blksz with 16384 in *; change Loghdsz with 36 in *; change Logspc with 16348 in *; lia);
    rewrite bind_ok; unfold packbp; rewrite check_leb by lia; rewrite !bind_ok;
    eexists; split; [done|]; cbn; rewrite E; unfold buf; cbn; autorewrite with gefs;
         rewrite ?Hd, ?Hh; change Blksz with 16384; change Loghdsz with 36; repeat split; lia).
  eexists; split; [done|]; cbn; rewrite E; unfold buf; cbn. rewrite zlen_app. unfold zlen in *.
  rewrite length_patch by (rewrite length_pack; change Blksz with 16384 in *; lia). repeat split; cbn [hdsz]; lia.
Qed.

Ltac blk_sizes :=
  change Blksz with 16384 in *; change Loghdsz with 36 in *; change Logspc with 16348 in *;
  change Pivhdsz with 10 in *; change Leafhdsz with 6 in *; change Ptrsz with 24 in *.

Lemma hdfields_finalize m m' b0 :
  mblk_ok m -> finalize m = Ok m' ->
  exists r, hdfields b0 (bp (mb m')) (btyp (mb m)) (buf m') = Ok r /\ same_content m' r /\
    blksums (bp (mb m')) r = Ok (match btyp (mb m) with Tlog | Tdlist => (logh r, logh r) | _ => (hash (bp (mb m')), hash (bp (mb m'))) end).
Proof.
  intros [Hh Hd Hls Hlp Ht] Hf. rewrite !Forall_cons in Ht. destruct Ht as (T1 & T2 & T3 & T4 & _).
  unfold finalize, packbp in Hf. unfold same_content, blksums, hdfields, buf.
  destruct (btyp (mb m)) eqn:E; cbn [hdsz] in *; inv_ok; subst; cbn [setblkhdr mb btyp data hdr bp hash addr gen buf nval bvalsz nbuf bufsz] in *; rewrite ?E.
  all: rewrite take_app_length', drop_app_length' by (rewrite ?length_app, ?length_pack; unfold zlen in *; blk_sizes; lia).
  1,2,3,6,7: flatten; read_fields; eexists; (split; [done|]);
    cbn [mb btyp data hdr bp hash addr gen nval bvalsz nbuf bufsz buf]; unfold buf; cbn [mb data hdr];
    flatten; repeat split; try (apply s16_pack; done).
  all: flatten; read_fields.
  all: rewrite unpackbp_pack, bind_ok by done; eexists; (split; [done|]);
    cbn [mb btyp data hdr bp hash addr gen nval bvalsz nbuf bufsz buf logsz logh logp setblkhdr].
  all: change (8 * Z.of_nat 2) with 16; change (8 * Z.of_nat 8) with 64;
    rewrite (Z.mod_small (logsz m)), (pack64_u64 (bufhash x)) by (apply bufhash_u64 || blk_sizes; lia).
  all: flatten; rewrite H, bind_ok; done.
Qed.

Lemma finalize_addr m m' : finalize m = Ok m' -> addr (bp (mb m')) = addr (bp (mb m)).
Proof. intros Hf. unfold finalize in Hf. destruct (btyp (mb m)); inv_ok; by subst. Qed.

(** The flags of a read that suits the type: raw for data, else not. *)
Definition rawfor (t : btype) (flg : Z) : Prop :=
  (Z.land flg GBraw =? 0) = negb (bool_decide (t = Tdat)).

Lemma image_code m m' :
  mblk_ok m -> finalize m = Ok m' -> btyp (mb m) <> Tdat ->
  UNPACK 2 (buf m') = Ok (btype_code (btyp (mb m)) mod 2 ^ 16).
Proof.
  intros [Hh _ _ _ _] Hf Hn. unfold finalize in Hf. unfold buf.
  destruct (btyp (mb m)) eqn:E; try done; inv_ok; subst m'; cbn [setblkhdr mb data hdr]; flatten;
    try (by rewrite UNPACK_pack).
  cbn [hdsz] in Hh. destruct (hdr m); [|rewrite zlen_cons in Hh; pose proof (zlen_nonneg l); lia].
  unfold patch. rewrite take_0, !app_nil_l. by rewrite UNPACK_pack.
Qed.

Lemma readblk_finalize pread m m' b0 flg :
  mblk_ok m -> finalize m = Ok m' -> serves pread (addr (bp (mb m))) (buf m') -> rawfor (btyp (mb m)) flg ->
  exists r, readblk pread b0 (bp (mb m')) flg = Ok r /\ same_content m' r.
Proof.
  intros Hok Hf Hs Hraw. destruct (finalize_ok m Hok) as (m'' & Hf' & Hlen & _ & _ & _ & _).
  rewrite Hf in Hf'. injection Hf' as <-.
  destruct (hdfields_finalize m m' b0 Hok Hf) as (r & Hr & Hc & Hsum). exists r. split; [|done].
  pose proof (finalize_addr _ _ Hf) as Ha.
  rewrite <- Ha in Hs. rewrite (readblk_image _ _ _ _ _ Hs Hlen). unfold parseblk.
  assert (exists c, UNPACK 2 (buf m') = Ok c /\
    of_option (if negb (Z.land flg GBraw =? 0) then Some Tdat else btype_of (s16 c)) (Error Ebtype) = Ok (btyp (mb m)))
    as (c & -> & Ht).
  { destruct (decide (btyp (mb m) = Tdat)) as [E|E].
    - unfold UNPACK. rewrite decide_True by (unfold zlen in Hlen; blk_sizes; lia). eexists. split; [done|].
      unfold rawfor in Hraw. by rewrite Hraw, E.
    - rewrite (image_code m m') by done. eexists. split; [done|]. unfold rawfor in Hraw. rewrite Hraw.
      rewrite bool_decide_false by done. cbn [negb]. by rewrite btype_of_code. }
  rewrite bind_ok, Ht, bind_ok, Hr, bind_ok, Hsum, bind_ok.
  destruct (btyp (mb m)); rewrite Z.eqb_refl, andb_false_r; done.
Qed.

(** C27: a block that is finalized and written to the device is read back with
    the same content: the same type, bytes and header fields.  The read loop
    puts short reads together, and the checksum in the block pointer (for
    logs, the one in the header) matches. *)
Theorem block_roundtrip m b0 flg :
  mblk_ok m -> rawfor (btyp (mb m)) flg ->
  exists m', finalize m = Ok m' /\
    forall pread, serves pread (addr (bp (mb m))) (buf m') ->
     exists r, readblk pread b0 (bp (mb m')) flg = Ok r /\ same_content m' r.
Proof.
  intros Hok Hraw. destruct (finalize_ok m Hok) as (m' & Hf & _). exists m'. split; [done|].
  intros pread Hs. by apply (readblk_finalize pread m).
Qed.

(** ** Tree nodes *)

Lemma repr_mblk m kvs ms :
  blk_repr (mb m) kvs ms -> zlen (hdr m) = hdsz (btyp (mb m)) -> 0 <= logsz m <= Logspc -> bptr_ok (logp m) ->
  mblk_ok m.
Proof.
  intros R Hh Hl Hp. destruct (repr_typ _ _ _ R) as [E|E]; (split; [done| |done|done|]).
  1,3: rewrite (repr_data _ _ _ R), E; reflexivity.
  - rewrite (repr_nval _ _ _ R), (repr_nbuf _ _ _ R), (repr_bufsz _ _ _ R), (repr_leaf _ _ _ R E).
    pose proof (repr_fill _ _ _ R) as Hf. unfold bspc in Hf. rewrite E, decide_True in Hf by done. change Leafspc with 16378 in Hf.
    pose proof (zlen_nonneg kvs). rewrite (repr_valsz _ _ _ R).
    destruct (repr_vals _ _ _ R) as [Hpos _]. rewrite (repr_valsz _ _ _ R) in Hpos.
    change (zlen []) with 0. change (msgs_size []) with 0. rewrite !Forall_cons. split_and!; try lia. constructor.
  - rewrite (repr_nval _ _ _ R), (repr_nbuf _ _ _ R), (repr_bufsz _ _ _ R).
    pose proof (repr_fill _ _ _ R) as Hf. unfold bspc in Hf. rewrite E, decide_False in Hf by done. change Pivspc with 8187 in Hf.
    destruct (repr_bufs _ _ _ R E) as (Hb1 & Hb2 & _). rewrite (repr_bufsz _ _ _ R) in Hb1, Hb2.
    unfold zlen in Hb2. rewrite length_fmap in Hb2. change Bufspc with 8187 in Hb2.
    pose proof (zlen_nonneg kvs). pose proof (zlen_nonneg ms). rewrite (repr_valsz _ _ _ R).
    destruct (repr_vals _ _ _ R) as [Hpos _]. rewrite (repr_valsz _ _ _ R) in Hpos.
    fold (zlen ms) in Hb2. rewrite !Forall_cons. split_and!; try lia. constructor.
Qed.

(** A node's entries are in its type, its counts and its data. *)
Lemma repr_ext b b' kvs ms :
  blk_repr b kvs ms -> btyp b' = btyp b -> data b' = data b -> nval b' = nval b -> bvalsz b' = bvalsz b ->
  nbuf b' = nbuf b -> bufsz b' = bufsz b -> blk_repr b' kvs ms.
Proof.
  intros R E1 E2 E3 E4 E5 E6. destruct R as [R1 R2 R3 R4 R5 R6 R7 R8 R9 R10].
  unfold bspc in *. split; unfold bspc; rewrite ?E1, ?E2, ?E3, ?E4, ?E5, ?E6; auto.
Qed.

(** C28: a tree node survives the disk and copy-on-write: finalized, written and
    read back, and likewise copied by dupblk into a new block of its type, it
    holds the same values and the same messages; the copy has the new block's
    address and generation. *)
Theorem node_survives m r0 b0 kvs ms :
  blk_repr (mb m) kvs ms -> zlen (hdr m) = hdsz (btyp (mb m)) -> 0 <= logsz m <= Logspc -> bptr_ok (logp m) ->
  (exists m', finalize m = Ok m' /\
     forall pread, serves pread (addr (bp (mb m))) (buf m') ->
      exists r, readblk pread b0 (bp (mb m')) 0 = Ok r /\ blk_repr (mb r) kvs ms) /\
  (forall a g, exists r, initblk r0 a g (btyp (mb m)) false = Ok r /\
     (zlen (buf r0) = Blksz ->
      blk_repr (mb (dupblk r m)) kvs ms /\ bp (mb (dupblk r m)) = mkBptr a (2 ^ 64 - 1) g)).
Proof.
  intros R Hh Hl Hp. pose proof (repr_mblk m kvs ms R Hh Hl Hp) as Hok.
  destruct (repr_typ _ _ _ R) as [E|E]; rewrite E in *; cbn [hdsz] in Hh.
  all: split.
  1,3: destruct (finalize_ok m Hok) as (m' & Hf & _); exists m'; split; [done|]; intros pread Hs;
    destruct (readblk_finalize pread m m' b0 0 Hok Hf Hs) as (r & Hr & Ec & _ & _ & Hc);
      [unfold rawfor; by rewrite E|]; exists r; split; [done|];
    assert (Hm' : btyp (mb m') = btyp (mb m) /\ data (mb m') = data (mb m) /\ nval (mb m') = nval (mb m) /\
                  bvalsz (mb m') = bvalsz (mb m) /\ nbuf (mb m') = nbuf (mb m) /\ bufsz (mb m') = bufsz (mb m))
      by (unfold finalize in Hf; rewrite E in Hf; injection Hf as <-; cbn; rewrite E; done);
    destruct Hm' as (M1 & M2 & M3 & M4 & M5 & M6); rewrite M1, E in Hc.
  - destruct Hc as (C2 & C3 & C4 & C5 & C6). apply (repr_ext (mb m)); try done; try congruence.
    + rewrite C5, (repr_nbuf _ _ _ R), (repr_leaf _ _ _ R E). done.
    + rewrite C6, (repr_bufsz _ _ _ R), (repr_leaf _ _ _ R E). done.
  - destruct Hc as (C2 & C3 & C4 & C5 & C6). apply (repr_ext (mb m)); try done; congruence.
  - intros a g. eexists. split; [done|]. intros Hr. cbn. split; [|done].
    apply (repr_ext (mb m)); cbn; try done. unfold buf at 1.
    apply drop_app_length'. rewrite decide_False, length_take by done. fold (buf r0). unfold zlen in *. cbn [hdsz]. blk_sizes. lia.
  - intros a g. eexists. split; [done|]. intros Hr. cbn. split; [|done].
    apply (repr_ext (mb m)); cbn; try done. unfold buf at 1.
    apply drop_app_length'. rewrite decide_False, length_take by done. fold (buf r0). unfold zlen in *. cbn [hdsz]. blk_sizes. lia.
Qed.

(** ** Checksums *)

Lemma hdfields_inv b0 p t img m :
  hdfields b0 p t img = Ok m -> btyp (mb m) = t /\ buf m = img.
Proof.
  unfold hdfields. intros H. destruct t; inv_ok; subst; unfold buf; cbn [mb btyp data hdr]; by rewrite take_drop.
Qed.

(** No block of the wrong content is accepted: when readblk is asked to
    check and returns a block, the block holds the bytes of the device, and
    its checksum is the one in the block pointer; for a log or a deadlist, its
    entries have the checksum in its header. *)
Theorem readblk_checks pread b0 p flg img r :
  serves pread (addr p) img -> zlen img = Blksz -> Z.land flg GBnochk = 0 ->
  readblk pread b0 p flg = Ok r ->
  buf r = img /\
  match btyp (mb r) with
  | Tlog | Tdlist => bufhash (take (Z.to_nat (logsz r)) (data (mb r))) = logh r
  | _ => blkhash img = hash p
  end.
Proof.
  intros Hs Hl Hchk H. rewrite (readblk_image _ _ _ _ _ Hs Hl) in H.
  unfold parseblk in H. inv_ok. rename x0 into t, x1 into m, x2 into sums. destruct sums as [xh ck].
  rewrite Hchk in H. cbn [Z.eqb andb] in H. destruct (Z.eqb_spec ck xh) as [->|]; [|done].
  cbn [negb] in H. apply Ok_inj in H as <-.
  match goal with Hd : hdfields _ _ _ _ = Ok _ |- _ => destruct (hdfields_inv _ _ _ _ _ Hd) as [<- Eb] end.
  split; [done|].
  match goal with Hd : blksums _ _ = Ok _ |- _ => rename Hd into Hsum end.
  unfold blksums in Hsum. rewrite Eb in Hsum.
  destruct (btyp (mb m)); try (by injection Hsum as -> ->);
    inv_ok; match goal with Hr : READ _ _ = Ok _ |- _ => unfold READ in Hr; case_decide; [|done]; injection Hr as <- end;
    by injection Hsum as <- <-.
Qed.

Lemma UNPACK_total n p : Z.of_nat n <= zlen p -> exists v, UNPACK n p = Ok v.
Proof. intros H. unfold UNPACK. rewrite decide_True by (unfold zlen in H; lia). by eexists. Qed.

Lemma zlen_drop {A} n (p : list A) : zlen (drop n p) = Z.max 0 (zlen p - Z.of_nat n).
Proof. unfold zlen. rewrite length_drop. lia. Qed.

Lemma unpackbp_total p : Ptrsz <= zlen p -> exists b, unpackbp p = Ok b.
Proof.
  intros H. unfold unpackbp. rewrite check_leb, bind_ok by done. change Ptrsz with 24 in H.
  destruct (UNPACK_total 8 p) as [a ->]; [lia|].
  destruct (UNPACK_total 8 (drop 8 p)) as [h ->]; [rewrite zlen_drop; lia|].
  destruct (UNPACK_total 8 (drop 8 (drop 8 p))) as [g ->]; [rewrite !zlen_drop; lia|].
  rewrite !bind_ok. by eexists.
Qed.

(** A log block on the device whose size field says more than a block's
    data makes readblk hash past the end of its buffer: the field is used
    before the checksum is known to be right. *)
Theorem readblk_log_overrun pread b0 p flg lsz rest :
  let img := pack 2 (btype_code Tlog) ++ pack 2 lsz ++ rest in
  serves pread (addr p) img -> zlen img = Blksz -> Z.land flg GBraw = 0 -> Logspc < lsz < 2 ^ 16 ->
  readblk pread b0 p flg = Fail Undef.
Proof.
  intros img Hs Hl Hraw Hsz. rewrite (readblk_image _ _ _ _ _ Hs Hl). unfold parseblk, img.
  assert (zlen rest = Blksz - 4) as Hrest.
  { unfold img in Hl. autorewrite with gefs in Hl. blk_sizes. lia. }
  read_fields. rewrite Hraw. cbn [Z.eqb negb]. rewrite btype_of_code. cbn [of_option]. rewrite bind_ok.
  unfold hdfields. read_fields.
  destruct (UNPACK_total 8 rest) as [lh ->]; [blk_sizes; lia|]. rewrite bind_ok.
  destruct (unpackbp_total (drop 8 rest)) as [lp ->]; [rewrite zlen_drop; blk_sizes; lia|]. rewrite !bind_ok.
  unfold blksums. cbn [mb btyp logsz data]. unfold READ. rewrite decide_False; [done|].
  rewrite length_drop, !length_app, !length_pack. cbn [hdsz]. unfold zlen in Hrest.
  change (8 * Z.of_nat 2) with 16. rewrite Z.mod_small by (blk_sizes; lia). blk_sizes. lia.
Qed.

(** ** Examples *)

(** A device that holds [img] at [a] and reads at most 512 bytes at a time. *)
Definition memdev (a : Z) (img : list Z) (off n : Z) : option (list Z) :=
  if (a <=? off) && (off + n <=? a + zlen img)
  then Some (take (Z.to_nat (Z.min n 512)) (drop (Z.to_nat (off - a)) img)) else None.

Lemma memdev_serves a img : serves (memdev a img) a img.
Proof.
  intros o n Ho Hn Hle. unfold memdev. rewrite (proj2 (Z.leb_le _ _)), (proj2 (Z.leb_le _ _)) by lia.
  eexists. split; [done|]. replace (a + o - a) with o by lia. unfold zlen in *.
  split_and!.
  - intros E. apply (f_equal length) in E. rewrite length_take, length_drop in E. cbn in E. lia.
  - rewrite length_take, length_drop. lia.
  - set (l := drop (Z.to_nat o) img). rewrite length_take.
    destruct (Nat.min_spec (Z.to_nat (Z.min n 512)) (length l)) as [[_ ->]|[Hge ->]]; [done|].
    by rewrite !take_ge by lia.
Qed.

Definition ex_mblk : Mblk := mkMblk ex_pivot 0 0 Zb (replicate 10 0) 0.

Lemma ex_mblk_ok : mblk_ok ex_mblk.
Proof.
  apply (repr_mblk _ ex_pkvs ex_pms); [apply ex_pivot_repr| | |done].
  - cbn [ex_mblk mb hdr]. by rewrite (proj2 ex_pivot_repr).
  - cbn. change Logspc with 16348. lia.
Qed.

Lemma block_roundtrip_witness :
  exists m', finalize ex_mblk = Ok m' /\
    exists r, readblk (memdev (addr (bp ex_pivot)) (buf m')) ex_mblk (bp (mb m')) 0 = Ok r /\ same_content m' r.
Proof.
  destruct (block_roundtrip ex_mblk ex_mblk 0 ex_mblk_ok) as (m' & Hf & H).
  - unfold rawfor. cbn [ex_mblk mb]. rewrite (proj2 ex_pivot_repr). reflexivity.
  - exists m'. split; [exact Hf|]. apply H, memdev_serves.
Defined.

Lemma node_survives_witness :
  exists m', finalize ex_mblk = Ok m' /\
    exists r, readblk (memdev (addr (bp ex_pivot)) (buf m')) ex_mblk (bp (mb m')) 0 = Ok r /\
      blk_repr (mb r) ex_pkvs ex_pms.
Proof.
  destruct (node_survives ex_mblk ex_mblk ex_mblk ex_pkvs ex_pms) as [(m' & Hf & H) _].
  - apply ex_pivot_repr.
  - apply (mok_hdr _ ex_mblk_ok).
  - apply (mok_logsz _ ex_mblk_ok).
  - apply (mok_logp _ ex_mblk_ok).
  - exists m'. split; [exact Hf|]. apply H, memdev_serves.
Defined.

(** A superblock's image without a checksum, and one of a log. *)
Definition ex_logimg (lsz : Z) : list Z := pack 2 (btype_code Tlog) ++ pack 2 lsz ++ replicate (Z.to_nat (Blksz - 4)) 0.

Lemma ex_logimg_len lsz : zlen (ex_logimg lsz) = Blksz.
Proof. unfold ex_logimg. rewrite !zlen_app, !zlen_pack. unfold zlen. rewrite length_replicate. reflexivity. Qed.

Lemma readblk_log_overrun_witness :
  readblk (memdev 32768 (ex_logimg 20000)) ex_mblk (mkBptr 32768 0 0) 0 = Fail Undef.
Proof.
  apply (readblk_log_overrun (memdev 32768 (ex_logimg 20000)) ex_mblk (mkBptr 32768 0 0) 0 20000
           (replicate (Z.to_nat (Blksz - 4)) 0)).
  - apply (memdev_serves 32768 (ex_logimg 20000)).
  - apply (ex_logimg_len 20000).
  - reflexivity.
  - change Logspc with 16348. lia.
Defined.

Lemma readblk_checks_witness :
  exists m' r, readblk (memdev (addr (bp ex_pivot)) (buf m')) ex_mblk (bp (mb m')) 0 = Ok r /\
    buf r = buf m' /\ blkhash (buf m') = hash (bp (mb m')).
Proof.
  destruct (finalize_ok ex_mblk ex_mblk_ok) as (m' & Hf & Hl & _ & _ & Et & _).
  destruct (readblk_finalize (memdev (addr (bp ex_pivot)) (buf m')) ex_mblk m' ex_mblk 0 ex_mblk_ok Hf)
    as (r & Hr & Hc); [apply memdev_serves|unfold rawfor; cbn [ex_mblk mb]; rewrite (proj2 ex_pivot_repr); reflexivity|].
  exists m', r. split; [exact Hr|]. destruct Hc as (Etr & _).
  pose proof (readblk_checks (memdev (addr (bp ex_pivot)) (buf m')) ex_mblk (bp (mb m')) 0 (buf m') r) as H.
  rewrite Etr, Et in H. cbn [ex_mblk mb] in H. rewrite (proj2 ex_pivot_repr) in H. apply H.
  - rewrite (finalize_addr _ _ Hf). apply memdev_serves.
  - exact Hl.
  - reflexivity.
  - exact Hr.
Defined.
