(* ===== verification/Alloc.v ===== *)
(** sys/src/9/gefs/blk.c, an arena's allocator: its free ranges, and the log of
    allocations and frees on the disk from which loadlog rebuilds them.

    An arena has two buffers for log blocks: the open tail of the log, and a
    spare for the next one ([aspare]).  The disk maps the address of a block
    to its bytes.  What the allocator is told by its callers is a parameter:
    whether the process may use the reserve ([priv]: usereserve, or it is the
    syncer or the sweeper), the addresses the cache holds ([incache]) and the
    addresses at which a write fails ([wfail]).  The locks of the arena are
    held throughout, the reference counts and the cache are left out. *)

From S2P Require Import Prelude Layout Hash Pack Node Avl Ranges Blk.

(** * The code *)

Abbreviation disk := (gmap Z (list Z)).

Record Arena := mkArena {
  afree : avl Arange; asz : Z; ausd : Z; aresv : Z; ah0 : Z;
  aloghd : Bptr; alogtl : option Mblk; aspare : Mblk; anlog : Z; alast : Z
}.

Definition Efull : string := "file system full".

(** A store of [bs] at b->data + off. *)
Definition WRITE (d : list Z) (o : Z) (bs : list Z) : res (list Z) :=
  if (0 <=? o) && (o + zlen bs <=? zlen d) then Ok (patch d (Z.to_nat o) bs) else Fail Undef.

Definition setfree (a : Arena) (f : avl Arange) (used : Z) : Arena :=
  mkArena f (asz a) used (aresv a) (ah0 a) (aloghd a) (alogtl a) (aspare a) (anlog a) (alast a).
Definition setlogtl (a : Arena) (tl : Mblk) (spare : Mblk) (n : Z) : Arena :=
  mkArena (afree a) (asz a) (ausd a) (aresv a) (ah0 a) (aloghd a) (Some tl) spare n (alast a).
Definition setbflag (b : Mblk) (f : Z) : Mblk := mkMblk (mb b) (logsz b) (logh b) (logp b) (hdr b) f.
Definition setlogp (b : Mblk) (p : Bptr) : Mblk := mkMblk (mb b) (logsz b) (logh b) p (hdr b) (bflag b).
Definition setlogsz (b : Mblk) (n : Z) : Mblk := mkMblk (mb b) n (logh b) (logp b) (hdr b) (bflag b).
Definition setdata (b : Mblk) (d : list Z) : Mblk :=
  let n := mb b in
  mkMblk (mkBlk (btyp n) (nval n) (bvalsz n) (nbuf n) (bufsz n) d (bp n))
         (logsz b) (logh b) (logp b) (hdr b) (bflag b).

(** p = b->data + b->logsz; PACK64(p, ...); b->logsz += ... *)
Definition logput (b : Mblk) (bs : list Z) : res Mblk :=
  d ← WRITE (data (mb b)) (logsz b) bs;
  Ok (setlogsz (setdata b d) (logsz b + zlen bs)).

Section Alloc.
  Context (priv : bool) (incache wfail : Z -> bool).

Definition syncblk (d : disk) (b : Mblk) : res (disk * Mblk) :=
  check (checkflag (bflag b) Bfinal 0);;
  check (0 <=? addr (bp (mb b)));;
  if wfail (addr (bp (mb b))) then Fail (Broke Eio) else
  Ok (<[addr (bp (mb b)) := buf b]> d, setbflag b (setflag (bflag b) 0 Bdirty)).

(** The block allocated, or -1. *)
Definition blkalloc_lk (a : Arena) (seq : bool) : res (Arena * Z) :=
  let r := if seq then avlmin (afree a) else avlmax (afree a) in
  if negb priv && (asz a - ausd a <=? aresv a) then Ok (a, -1) else
  match r with
  | None => Ok (a, -1)
  | Some r =>
      let '(r', b) :=
        if seq then (mkArange (s64 (off r + Blksz)) (s64 (len r - Blksz)), off r)
        else let l := s64 (len r - Blksz) in (mkArange (off r) l, s64 (off r + l)) in
      let t := poke r r' (afree a) in
      t ← (if len r' =? 0 then '(t, _) ← avldelete rangecmp t r'; Ok t else Ok t);
      Ok (setfree a t (ausd a + Blksz), b)
  end.

Definition mklogblk (a : Arena) (o : Z) : res Mblk :=
  initblk (setbflag (aspare a) Bstatic) o (-1) Tlog (incache o).

(** The first half of logappend: with too little room left in the tail, a new
    block is allocated, logged and chained. *)
Definition logroom (a : Arena) (lb : Mblk) : res (Arena * Mblk * option Mblk) :=
  if Logspc - Logslop <=? logsz lb then
    '(a, o) ← blkalloc_lk a false;
    if o =? -1 then Fail (Error Efull) else
    lb ← logput lb (pack 8 (Z.lor o LogAlloc1));
    let lb := setlogp lb (mkBptr o (2 ^ 64 - 1) (-1)) in
    nb ← mklogblk a o;
    Ok (a, lb, Some nb)
  else Ok (a, lb, None).

Definition logent (o l op : Z) : list Z :=
  let op := if l =? Blksz then (if op =? LogAlloc then LogAlloc1 else if op =? LogFree then LogFree1 else op) else op in
  pack 8 (Z.lor o op) ++ (if Log2wide <=? op then pack 8 l else []).

(** An entry of compresslog: PACK64(p+0, r->off|LogFree); PACK64(p+8, r->len). *)
Definition widefree (r : Arange) : list Z := pack 8 (Z.lor (off r) LogFree) ++ pack 8 (len r).

Definition logappend (a : Arena) (d : disk) (o l op : Z) : res (Arena * disk) :=
  check (Z.land o 0xff =? 0);;
  check ((op =? LogAlloc) || (op =? LogFree) || (op =? LogSync));;
  (if op =? LogSync then Ok tt
   else check (ah0 a <=? o);; check (o <? ah0 a + asz a + 2 * Blksz));;
  lb ← of_option (alogtl a) Undef;
  check (bool_decide (btyp (mb lb) = Tlog));;
  check (0 <=? logsz lb);;
  let lb := if checkflag (bflag lb) 0 Bdirty then setbflag lb (setflag (bflag lb) Bdirty Bfinal) else lb in
  '(a, lb, nb) ← logroom a lb;
  match nb with
  | None =>
      lb ← logput lb (logent o l op);
      Ok (setlogtl a lb (aspare a) (anlog a), d)
  | Some nb =>
      nb ← logput nb (logent o l op);
      nb ← finalize nb;
      '(d, nb) ← syncblk d nb;
      lb ← finalize lb;
      '(d, lb) ← syncblk d lb;
      Ok (setlogtl a nb lb (anlog a + 1), d)
  end.

Definition logbarrier (a : Arena) (d : disk) (g : Z) : res (Arena * disk) :=
  logappend a d (s64 (Z.shiftl g 8)) 0 LogSync.

Definition blkdealloc_lk (a : Arena) (d : disk) (b : Z) : res (Arena * disk) :=
  '(a, d) ← logappend a d b Blksz LogFree;
  t ← freerange (afree a) b Blksz;
  Ok (setfree a t (ausd a - Blksz), d).

Definition flushlog (a : Arena) (d : disk) : res (Arena * disk) :=
  tl ← of_option (alogtl a) Undef;
  if checkflag (bflag tl) 0 (Z.lor Bdirty Bstatic) then Ok (a, d) else
  tl ← finalize tl;
  '(d, tl) ← syncblk d tl;
  Ok (setlogtl a tl (aspare a) (anlog a), d).

(** What blkalloc does in the arena it has locked; [dat] is ty == Tdat and
    [useres] is usereserve. *)
Definition Logfloor : Z := 8.
Definition arenaalloc (a : Arena) (d : disk) (dat useres seq : bool) : res (Arena * disk * Z) :=
  '(a, b) ←
    (if dat && negb useres && (asz a - ausd a <=? 2 * aresv a) then Ok (a, -1)
     else if asz a - ausd a <=? Logfloor * Blksz then Ok (a, -1)
     else blkalloc_lk a seq);
  if b =? -1 then Ok (a, d, -1) else
  '(a, d) ← logappend a d b Blksz LogAlloc;
  Ok (a, d, b).

(** The entries of one log block from byte [i] on.  [inr] is the byte of the
    barrier at which the log ends. *)
Fixpoint replayblk (fuel : nat) (a : Arena) (b : Mblk) (qgen i : Z) : res (Arena * option Z) :=
  if logsz b <=? i then Ok (a, None) else
  match fuel with
  | O => Fail Fuel
  | S fuel =>
      let p := drop (Z.to_nat i) (data (mb b)) in
      e ← UNPACK 8 p;
      let ent := s64 e in
      let op := Z.land ent 0xff in
      let o := Z.ldiff ent 0xff in
      let n := if Log2wide <=? op then 16 else 8 in
      if op =? LogSync then
        if qgen <=? Z.shiftr ent 8 then Ok (a, Some i) else replayblk fuel a b qgen (i + n)
      else if (op =? LogAlloc) || (op =? LogAlloc1) then
        l ← (if Log2wide <=? op then l ← UNPACK 8 (drop 8 p); Ok (s64 l) else Ok Blksz);
        t ← grabrange (afree a) o l;
        replayblk fuel (setfree a t (ausd a + l)) b qgen (i + n)
      else if (op =? LogFree) || (op =? LogFree1) then
        l ← (if Log2wide <=? op then l ← UNPACK 8 (drop 8 p); Ok (s64 l) else Ok Blksz);
        t ← freerange (afree a) o l;
        replayblk fuel (setfree a t (ausd a - l)) b qgen (i + n)
      else Fail Abort
  end.

Definition dpread (d : disk) (o n : Z) : option (list Z) :=
  img ← d !! o; Some (take (Z.to_nat n) img).

(** loadlog, which reads the chain into logbuf[0], [b]; every block of it adds
    to nlog. *)
Fixpoint loadlog (fuel : nat) (a : Arena) (d : disk) (b : Mblk) (p : Bptr) (qgen : Z) (rdonly : bool)
    : res (Arena * disk) :=
  match fuel with
  | O => Fail Fuel
  | S fuel =>
      check (checkflag (bflag b) Bstatic Bcached);;
      b ← readblk (dpread d) b p 0;
      let a := mkArena (afree a) (asz a) (ausd a) (aresv a) (ah0 a) (aloghd a) (alogtl a) (aspare a) (anlog a + 1) (alast a) in
      '(a, stop) ← replayblk (Z.to_nat (logsz b)) a b qgen 0;
      match stop with
      | Some i =>
          match alogtl a with
          | None =>
              let b := setbflag (setlogsz (setlogp b Zb) i) (setflag (bflag b) Bdirty 0) in
              '(d, b) ← (if rdonly then Ok (d, b) else b ← finalize b; syncblk d b);
              Ok (setlogtl a b (aspare a) (anlog a), d)
          | Some _ => Ok (a, d)
          end
      | None =>
          if addr (logp b) =? -1 then Ok (setlogtl a b (aspare a) (anlog a), d)
          else loadlog fuel a d b (logp b) qgen rdonly
      end
  end.
End Alloc.

(** * Allocating a block *)

(** Taking [q] off one end of the range [r]. *)
Lemma end_cut t l1 r l2 q r' :
  balanced t -> elements t = l1 ++ r :: l2 -> ranges_ok (l1 ++ r :: l2) -> range_ok q ->
  off r <= off q -> off q + len q <= off r + len r ->
  off r <= off r' <= off r + len r -> len r' = len r - len q ->
  (len r' <> 0 -> off r' = if off q =? off r then off r + len q else off r) ->
  off q = off r \/ off q + len q = off r + len r ->
  exists t', (if len r' =? 0 then '(t, _) ← avldelete rangecmp (poke r r' t) r'; Ok t else Ok (poke r r' t)) = Ok t' /\
    balanced t' /\ elements t' = l1 ++ cut r q ++ l2.
Proof.
  intros Hb E Hl Hq Hlo Hhi Hr1 Hr2 Hr3 Hside. pose proof Hl as (_ & _ & Hr & _)%ranges_mid.
  pose proof Hq as (Q1 & Q2 & _). pose proof Hr as (R1 & R2 & _).
  assert (asc off (elements t)) as Hs by (rewrite E; by apply ranges_asc).
  assert (elements (poke r r' t) = l1 ++ r' :: l2) as Ep by (by apply poke_mid).
  unfold cut. rewrite Hr2 in Hr3 |- *. destruct (Z.eqb_spec (len r - len q) 0) as [E0|E0].
  - destruct (delete_mid (poke r r' t) r' l1 l2) as (t' & o & -> & B' & E');
      [by apply poke_balanced|rewrite Ep; by apply (asc_mid_set _ r)|done|].
    exists t'. split; [done|]. split; [done|]. rewrite E'.
    rewrite (proj2 (Z.eqb_eq (off q) (off r))), (proj2 (Z.eqb_eq (off q + len q) (off r + len r))) by lia. done.
  - eexists. split; [done|]. split; [by apply poke_balanced|]. rewrite Ep. specialize (Hr3 E0).
    destruct r' as [ro rl]. cbn [off len] in *. destruct (Z.eqb_spec (off q) (off r)).
    + rewrite (proj2 (Z.eqb_neq (off q + len q) (off r + len r))) by lia. cbn [app]. do 2 f_equal. f_equal; lia.
    + rewrite (proj2 (Z.eqb_eq (off q + len q) (off r + len r))) by lia. cbn [app]. do 2 f_equal. f_equal; lia.
Qed.

Lemma cut_length (l1 : list Arange) r q l2 :
  off q = off r \/ off q + len q = off r + len r -> (length (l1 ++ cut r q ++ l2) <= length (l1 ++ r :: l2))%nat.
Proof.
  intros H. rewrite !length_app. unfold cut. rewrite length_app. cbn [length].
  destruct (Z.eqb_spec (off q) (off r)), (Z.eqb_spec (off q + len q) (off r + len r)); cbn [length]; lia.
Qed.

Definition blkrange (b : Z) : Arange := mkArange b Blksz.

(** The free space [F'] is [F] without the bytes of [q]. *)
Definition took (t t' : avl Arange) (q : Arange) : Prop :=
  range_ok q /\ (forall x, rin q x -> infree (elements t) x) /\ free_ok t' /\
  total (elements t') = total (elements t) - len q /\
  (forall x, infree (elements t') x <-> infree (elements t) x /\ ~ rin q x).

Lemma blksz_divide_ge n : (Blksz | n) -> 0 < n -> Blksz <= n.
Proof. intros. by apply Z.divide_pos_le. Qed.

Lemma blkalloc_lk_spec priv a seq :
  free_ok (afree a) ->
  exists a' b, blkalloc_lk priv a seq = Ok (a', b) /\
    (length (elements (afree a')) <= length (elements (afree a)))%nat /\
    ((b = -1 /\ a' = a /\ ((priv = false /\ asz a - ausd a <= aresv a) \/ elements (afree a) = [])) \/
     (took (afree a) (afree a') (blkrange b) /\ a' = setfree a (afree a') (ausd a + Blksz))).
Proof.
  intros [Hb Hl]. unfold blkalloc_lk.
  destruct (negb priv && (asz a - ausd a <=? aresv a)) eqn:Eres.
  { exists a, (-1). split; [done|]. split; [done|]. left. split; [done|]. split; [done|]. left.
    apply andb_true_iff in Eres as [? ?]. destruct priv; [done|]. split; [done|lia]. }
  unfold avlmin, avlmax. rewrite !bottom_spec.
  destruct (if seq then _ else _) as [r|] eqn:Er; cycle 1.
  { exists a, (-1). split; [done|]. split; [done|]. left. split; [done|]. split; [done|]. right. destruct seq.
    - by destruct (elements (afree a)).
    - by apply last_None in Er. }
  assert (exists l1 l2, elements (afree a) = l1 ++ r :: l2) as (l1 & l2 & E).
  { destruct seq.
    - destruct (elements (afree a)) as [|x l]; [done|]. cbn in Er. injection Er as ->. by exists [], l.
    - apply last_Some in Er as [l ->]. by exists l, []. }
  clear Er. rewrite E in Hl. pose proof Hl as (_ & _ & Hr & _)%ranges_mid.
  pose proof Hr as (R1 & R2 & R3 & R4 & R5). pose proof (blksz_divide_ge _ R5 R2) as Rb.
  set (q := if seq then blkrange (off r) else blkrange (off r + len r - Blksz)).
  assert (range_ok q /\ off r <= off q /\ off q + len q <= off r + len r /\ len q = Blksz) as (Hq & Q1 & Q2 & Q3).
  { unfold q, blkrange, range_ok. assert (0 < Blksz) by done. destruct seq; cbn [off len];
      split_and!; try lia; try done; try (by exists 1).
    apply Z.divide_sub_r; [by apply Z.divide_add_r|by exists 1]. }
  assert (0 < Blksz < 2 ^ 20) by done.
  destruct (cut_ok _ _ _ _ Hl Hq Q1 Q2) as [Hc Hx].
  destruct seq.
  - destruct (end_cut (afree a) l1 r l2 q (mkArange (off r + Blksz) (len r - Blksz)) Hb E Hl Hq Q1 Q2) as (t' & Ht & B' & E');
      [cbn [off len q blkrange]; lia|cbn [off len q blkrange]; lia|by rewrite Q3, Z.eqb_refl|by left|].
    rewrite !s64_id by lia. rewrite Ht, bind_ok. do 2 eexists. split; [done|].
    cbn [afree setfree]. split; [rewrite E, E'; apply cut_length; cbn; auto|]. right. split; [|done].
    change (blkrange (off r)) with q. unfold took, free_ok. rewrite E, E', !total_app, total_cons, total_cut by done. split_and!; try done; try lia.
    intros x Hxq. apply infree_app. right. apply infree_cons. left. unfold rin in *. lia.
  - destruct (end_cut (afree a) l1 r l2 q (mkArange (off r) (len r - Blksz)) Hb E Hl Hq Q1 Q2) as (t' & Ht & B' & E').
    { cbn [off]. lia. }
    { cbn [len]. lia. }
    { unfold q. cbn [off len blkrange]. destruct (Z.eqb_spec (off r + len r - Blksz) (off r)); lia. }
    { right. unfold q. cbn. lia. }
    rewrite (s64_id (len r - Blksz)), (s64_id (off r + (len r - Blksz))) by lia. rewrite Ht, bind_ok. do 2 eexists. split; [done|].
    cbn [afree setfree]. split; [rewrite E, E'; apply cut_length; unfold q; cbn; right; lia|]. right. split; [|done].
    replace (blkrange (off r + (len r - Blksz))) with q by (unfold q; f_equal; lia).
    unfold took, free_ok. rewrite E, E', !total_app, total_cons, total_cut by done. split_and!; try done; try lia.
    intros x Hxq. apply infree_app. right. apply infree_cons. left. unfold rin in *. lia.
Qed.

(** * The log *)

(** An entry of the log; [LWide] is the free of a range as compresslog writes
    it, in two words even when the range is one block. *)
Inductive lent := LAlloc (o l : Z) | LFree (o l : Z) | LWide (o l : Z) | LSync (g : Z).

Definition encl (e : lent) : list Z :=
  match e with
  | LAlloc o l => logent o l LogAlloc
  | LFree o l => logent o l LogFree
  | LWide o l => widefree (mkArange o l)
  | LSync g => logent (s64 (Z.shiftl g 8)) 0 LogSync
  end.

Definition lent_ok (e : lent) : Prop :=
  match e with
  | LAlloc o l | LFree o l | LWide o l => range_ok (mkArange o l)
  | LSync g => 0 <= g < 2 ^ 55
  end.

Lemma lor_low (g op : Z) : 0 <= op < 256 -> Z.lor (256 * g) op = 256 * g + op.
Proof.
  intros H. replace (256 * g) with (Z.shiftl g 8) by (rewrite Z.shiftl_mul_pow2 by lia; lia).
  rewrite lor_shiftl_low, Z.shiftl_mul_pow2 by lia. lia.
Qed.

Lemma land_low (g op : Z) : 0 <= op < 256 -> Z.land (256 * g + op) 0xff = op.
Proof.
  intros H. change 0xff with (Z.ones 8). rewrite Z.land_ones by lia. change (2 ^ 8) with 256.
  rewrite Z.add_comm, (Z.mul_comm 256), Z_mod_plus_full, Z.mod_small; lia.
Qed.

Lemma ldiff_low (g op : Z) : 0 <= op < 256 -> Z.ldiff (256 * g + op) 0xff = 256 * g.
Proof.
  intros H. change 0xff with (Z.ones 8). rewrite Z.ldiff_ones_r, Z.shiftr_div_pow2, Z.shiftl_mul_pow2 by lia.
  change (2 ^ 8) with 256. rewrite (Z.mul_comm 256 g), Z.add_comm, Z.div_add, Z.div_small by lia. lia.
Qed.

Lemma shiftr_low (g op : Z) : 0 <= op < 256 -> Z.shiftr (256 * g + op) 8 = g.
Proof. intros H. rewrite Z.shiftr_div_pow2 by lia. change (2 ^ 8) with 256. rewrite (Z.mul_comm 256 g), Z.add_comm, Z.div_add, Z.div_small by lia. lia. Qed.

Lemma divide_256 o : (Blksz | o) -> exists g, o = 256 * g.
Proof. intros [q ->]. exists (q * 64). change Blksz with 16384. lia. Qed.

(** The first word of an entry. *)
Lemma entword g op p :
  0 <= 256 * g < 2 ^ 63 -> 0 <= op < 256 ->
  exists e, UNPACK 8 (pack 8 (Z.lor (256 * g) op) ++ p) = Ok e /\ s64 e = 256 * g + op.
Proof.
  intros Hg Hop. rewrite UNPACK_pack, lor_low by done. eexists. split; [done|].
  change (8 * Z.of_nat 8) with 64. apply pack64_s64. unfold is_s64. lia.
Qed.

Lemma encl_bounds e : zlen (encl e) = 8 \/ zlen (encl e) = 16.
Proof.
  destruct e; cbn [encl]; unfold logent, widefree; rewrite zlen_app, zlen_pack;
    try match goal with |- context [if ?c then _ else _] => destruct c end; rewrite ?zlen_pack, ?zlen_nil; auto.
Qed.

(** ** A log block *)

Definition encls (es : list lent) : list Z := concat (encl <$> es).

Lemma encls_app es1 es2 : encls (es1 ++ es2) = encls es1 ++ encls es2.
Proof. unfold encls. by rewrite fmap_app, concat_app. Qed.

Lemma encls_cons e es : encls (e :: es) = encl e ++ encls es.
Proof. done. Qed.

Record log_repr (b : Mblk) (es : list lent) : Prop := {
  lr_typ : btyp (mb b) = Tlog;
  lr_hdr : zlen (hdr b) = Loghdsz;
  lr_data : zlen (data (mb b)) = Logspc;
  lr_size : logsz b = zlen (encls es);
  lr_room : logsz b <= Logspc;
  lr_ents : take (length (encls es)) (data (mb b)) = encls es;
  lr_tree : Forall (fun n => 0 <= n < 2 ^ 15) [nval (mb b); bvalsz (mb b); nbuf (mb b); bufsz (mb b)]
}.

Lemma logput_repr b es e :
  log_repr b es -> logsz b + zlen (encl e) <= Logspc ->
  exists b', logput b (encl e) = Ok b' /\ log_repr b' (es ++ [e]) /\ bp (mb b') = bp (mb b) /\
    logp b' = logp b /\ bflag b' = bflag b /\ logsz b' = logsz b + zlen (encl e).
Proof.
  intros [L1 L2 L3 L4 L5 L6 L7] Hr. unfold logput, WRITE. pose proof (zlen_nonneg (encls es)).
  rewrite (proj2 (Z.leb_le _ _)), (proj2 (Z.leb_le _ _)) by lia. cbn [andb]. rewrite bind_ok.
  replace (Z.to_nat (logsz b)) with (length (encls es)) by (rewrite L4; unfold zlen; lia).
  eexists. split; [done|]. split; [|done].
  assert (encls (es ++ [e]) = encls es ++ encl e) as Ee by (rewrite encls_app; cbn; by rewrite app_nil_r).
  unfold zlen in Hr, L3, L4.
  split; cbn; auto; rewrite ?Ee.
  - unfold zlen. rewrite length_patch; lia.
  - rewrite zlen_app. unfold zlen. lia.
  - rewrite length_app. change (take ?n ?l) with (slice l 0 n). rewrite slice_app, slice_patch_before by lia. cbn [Nat.add].
    rewrite slice_patch_same by lia. f_equal. exact L6.
Qed.

(** ** What a log means: a set of free bytes *)

Definition space := Z -> Prop.

Definition lstep (S : space) (e : lent) (S' : space) : Prop :=
  match e with
  | LAlloc o l => (forall x, rin (mkArange o l) x -> S x) /\ (forall x, S' x <-> S x /\ ~ rin (mkArange o l) x)
  | LFree o l | LWide o l => (forall x, rin (mkArange o l) x -> ~ S x) /\ (forall x, S' x <-> S x \/ rin (mkArange o l) x)
  | LSync _ => forall x, S' x <-> S x
  end.

Inductive lrun : space -> list lent -> space -> Prop :=
  | lrun_nil S S' : (forall x, S' x <-> S x) -> lrun S [] S'
  | lrun_cons S e S1 es S' : lstep S e S1 -> lrun S1 es S' -> lrun S (e :: es) S'.

(** Spaces are compared point by point. *)
Definition space_eq (S S' : space) : Prop := forall x, S x <-> S' x.
#[global] Instance space_eq_equiv : Equivalence space_eq.
Proof. split; unfold space_eq; repeat intro; naive_solver. Qed.

#[global] Instance lstep_proper : Proper (space_eq ==> eq ==> space_eq ==> iff) lstep.
Proof.
  intros S1 S2 HS e e' <- T1 T2 HT. unfold space_eq in *. destruct e as [o l|o l|o l|g]; cbn;
    setoid_rewrite HS; setoid_rewrite HT; done.
Qed.

Lemma lstep_ext S e T T' : lstep S e T -> space_eq T T' -> lstep S e T'.
Proof. intros H E. by rewrite <- E. Qed.

Lemma lrun_ext S es T S' T' : lrun S es T -> space_eq S S' -> space_eq T T' -> lrun S' es T'.
Proof.
  intros H. revert S' T'. induction H as [S T H|S e S1 es T H _ IH]; intros S' T' HS HT.
  - constructor. intros x. rewrite <- (HT x), <- (HS x). apply H.
  - econstructor; [by rewrite <- HS|]. by apply IH.
Qed.

#[global] Instance lrun_proper : Proper (space_eq ==> eq ==> space_eq ==> iff) lrun.
Proof.
  intros S S' HS es ? <- T T' HT. split; intros H; eapply lrun_ext; eauto; by symmetry.
Qed.

Lemma lrun_app S es1 es2 T : lrun S (es1 ++ es2) T <-> exists M, lrun S es1 M /\ lrun M es2 T.
Proof.
  revert S. induction es1 as [|e es1 IH]; intros S; cbn.
  - split; [intros H; exists S; split; [constructor|]; done|].
    intros (M & H1 & H2). inversion H1; subst. eapply lrun_ext; [exact H2| |done]. done.
  - split.
    + intros H. inversion H; subst. apply IH in H5 as (M & ? & ?). exists M. split; [|done]. by econstructor.
    + intros (M & H1 & H2). inversion H1; subst. econstructor; [done|]. apply IH. eauto.
Qed.

(** A log describes one space. *)
Lemma lrun_det S es T T' : lrun S es T -> lrun S es T' -> space_eq T T'.
Proof.
  intros H. revert T'. induction H as [S T H|S e S1 es T H _ IH]; intros T' H'; inversion H'; subst.
  - intros x. rewrite H. symmetry. done.
  - apply IH. eapply lrun_ext; [done| |done]. intros x.
    destruct e as [o l|o l|o l|g]; cbn in *; naive_solver.
Qed.

Lemma lrun_one S e T : lstep S e T -> lrun S [e] T.
Proof. intros H. econstructor; [done|]. by constructor. Qed.

(** The entries before the barrier of a generation the superblock does not
    have yet, and whether there is such a barrier. *)
Fixpoint upto (qgen : Z) (es : list lent) : list lent * bool :=
  match es with
  | [] => ([], false)
  | e :: es =>
      match e with
      | LSync g => if qgen <=? g then ([], true) else let r := upto qgen es in (e :: r.1, r.2)
      | _ => let r := upto qgen es in (e :: r.1, r.2)
      end
  end.

(** The arena's free ranges are the space [S], and its count of used bytes is
    right. *)
Definition holds (a : Arena) (S : space) : Prop :=
  free_ok (afree a) /\ ausd a = asz a - total (elements (afree a)) /\
  space_eq (infree (elements (afree a))) S.

Lemma holds_alloc a S o l S' :
  holds a S -> range_ok (mkArange o l) -> lstep S (LAlloc o l) S' ->
  exists t, grabrange (afree a) o l = Ok t /\ holds (setfree a t (ausd a + l)) S'.
Proof.
  intros (Hf & Hu & HS) Hr [H1 H2]. destruct (grabrange_spec (afree a) o l Hf Hr) as [H _].
  destruct H as (t & E & Hf' & Ht & Hx); [intros x Hx; by apply HS, H1|]. exists t. split; [done|].
  split; [done|]. split; [cbn; lia|]. intros x. cbn. rewrite Hx, H2, (HS x). done.
Qed.

Lemma holds_free a S o l S' :
  holds a S -> range_ok (mkArange o l) -> lstep S (LFree o l) S' ->
  exists t, freerange (afree a) o l = Ok t /\ holds (setfree a t (ausd a - l)) S'.
Proof.
  intros (Hf & Hu & HS) Hr [H1 H2]. destruct (freerange_spec (afree a) o l Hf Hr) as [H _].
  destruct H as (t & E & Hf' & Ht & Hx); [intros x Hx Hin; by eapply H1, HS|]. exists t. split; [done|].
  split; [done|]. split; [cbn; lia|]. intros x. cbn. rewrite Hx, H2, (HS x). done.
Qed.

Lemma holds_eq a S S' : holds a S -> space_eq S S' -> holds a S'.
Proof. intros (? & ? & H) E. split; [done|]. split; [done|]. by rewrite H. Qed.

(** ** Replaying a block *)

Lemma log_at b es1 e es2 :
  log_repr b (es1 ++ e :: es2) ->
  exists rest, drop (Z.to_nat (zlen (encls es1))) (data (mb b)) = encl e ++ rest.
Proof.
  intros R. pose proof (lr_ents _ _ R) as E. rewrite <- (take_drop (length (encls (es1 ++ e :: es2))) (data (mb b))), E.
  rewrite encls_app, encls_cons. flatten. exists (encls es2 ++ drop (length (encls (es1 ++ e :: es2))) (data (mb b))).
  unfold zlen. rewrite Nat2Z.id, drop_app_length, encls_app, encls_cons. done.
Qed.

Lemma log_more b es1 e es2 : log_repr b (es1 ++ e :: es2) -> (logsz b <=? zlen (encls es1)) = false.
Proof.
  intros R. rewrite (lr_size _ _ R), encls_app, encls_cons, !zlen_app.
  pose proof (zlen_nonneg (encls es2)). destruct (encl_bounds e); lia.
Qed.

(** How the words of an entry of a range are read. *)
Lemma range_ent o l opw op1 p :
  range_ok (mkArange o l) -> (opw = LogAlloc /\ op1 = LogAlloc1) \/ (opw = LogFree /\ op1 = LogFree1) ->
  exists e, UNPACK 8 (logent o l opw ++ p) = Ok e /\ Z.ldiff (s64 e) 0xff = o /\
    ((Z.land (s64 e) 0xff = op1 /\ l = Blksz /\ zlen (logent o l opw) = 8) \/
     (Z.land (s64 e) 0xff = opw /\ UNPACK 8 (drop 8 (logent o l opw ++ p)) = Ok (l mod 2 ^ 64) /\
      s64 (l mod 2 ^ 64) = l /\ zlen (logent o l opw) = 16)).
Proof.
  intros (R1 & R2 & R3 & R4 & R5) Hop. cbn [off len] in *. destruct (divide_256 _ R4) as [g ->].
  assert (0 <= opw < 256 /\ 0 <= op1 < 256 /\ (Log2wide <=? opw) = true /\ (Log2wide <=? op1) = false) as (O1 & O2 & O3 & O4)
    by (destruct Hop as [[-> ->]|[-> ->]]; done).
  unfold logent. destruct (Z.eqb_spec l Blksz) as [E|E].
  - replace (if opw =? LogAlloc then LogAlloc1 else if opw =? LogFree then LogFree1 else opw) with op1
      by (destruct Hop as [[-> ->]|[-> ->]]; done).
    rewrite O4, app_nil_r. destruct (entword g op1 p) as (w & -> & Ew); [lia|done|].
    exists w. rewrite Ew, land_low, ldiff_low by done. split; [done|]. split; [done|]. left. by rewrite zlen_pack.
  - rewrite O3. flatten. destruct (entword g opw (pack 8 l ++ p)) as (w & -> & Ew); [lia|done|].
    exists w. rewrite Ew, land_low, ldiff_low, drop_pack, UNPACK_pack by done. split; [done|]. split; [done|]. right.
    rewrite zlen_app, !zlen_pack. split; [done|]. split; [done|]. split; [|done]. apply pack64_s64. unfold is_s64. lia.
Qed.

Lemma wide_ent o l p :
  range_ok (mkArange o l) ->
  exists e, UNPACK 8 (widefree (mkArange o l) ++ p) = Ok e /\ Z.ldiff (s64 e) 0xff = o /\ Z.land (s64 e) 0xff = LogFree /\
    UNPACK 8 (drop 8 (widefree (mkArange o l) ++ p)) = Ok (l mod 2 ^ 64) /\
    s64 (l mod 2 ^ 64) = l /\ zlen (widefree (mkArange o l)) = 16.
Proof.
  intros (R1 & R2 & R3 & R4 & R5). cbn [off len] in *. destruct (divide_256 _ R4) as [g ->].
  unfold widefree. cbn [off len]. flatten. destruct (entword g LogFree (pack 8 l ++ p)) as (w & -> & Ew); [lia|done|].
  exists w. rewrite Ew, land_low, ldiff_low, drop_pack, UNPACK_pack, zlen_app, !zlen_pack by done. split_and!; try done.
  apply pack64_s64. unfold is_s64. lia.
Qed.

Lemma sync_ent g p :
  0 <= g < 2 ^ 55 ->
  exists e, UNPACK 8 (encl (LSync g) ++ p) = Ok e /\ Z.land (s64 e) 0xff = LogSync /\ Z.shiftr (s64 e) 8 = g /\
    zlen (encl (LSync g)) = 8.
Proof.
  intros Hg. cbn [encl]. unfold logent. change (Log2wide <=? (if 0 =? Blksz then _ else LogSync)) with false.
  cbn iota. rewrite app_nil_r. replace (s64 (Z.shiftl g 8)) with (256 * g).
  2: { rewrite s64_id; rewrite Z.shiftl_mul_pow2 by lia; lia. }
  change (if 0 =? Blksz then _ else LogSync) with LogSync.
  destruct (entword g LogSync p) as (w & -> & Ew); [lia|done|].
  exists w. rewrite Ew, land_low, shiftr_low by done. by rewrite zlen_pack.
Qed.

Lemma replayblk_spec b qgen es2 : forall es1 a S S' fuel,
  log_repr b (es1 ++ es2) -> Forall lent_ok es2 -> holds a S -> lrun S (upto qgen es2).1 S' ->
  (length es2 <= fuel)%nat ->
  exists a', replayblk fuel a b qgen (zlen (encls es1)) =
      Ok (a', if (upto qgen es2).2 then Some (zlen (encls (es1 ++ (upto qgen es2).1))) else None) /\
    holds a' S' /\ a' = setfree a (afree a') (ausd a').
Proof.
  induction es2 as [|e es2 IH]; intros es1 a S S' fuel R Hok Ha Hrun Hf.
  { rewrite app_nil_r in R. cbn [upto fst snd] in *. inversion Hrun; subst.
    exists a. split; [|split; [eapply holds_eq; [done|]; by intros x; rewrite H|by destruct a]].
    destruct fuel; cbn [replayblk]; rewrite (lr_size _ _ R), Z.leb_refl; done. }
  destruct fuel as [|fuel]; [cbn in Hf; lia|]. cbn [length] in Hf.
  apply Forall_cons in Hok as [He Hok]. destruct (log_at _ _ _ _ R) as [rest Hp].
  pose proof (log_more _ _ _ _ R) as Hm.
  assert (log_repr b ((es1 ++ [e]) ++ es2)) as R' by (by rewrite <- app_assoc).
  assert (zlen (encls (es1 ++ [e])) = zlen (encls es1) + zlen (encl e)) as Hz
    by (rewrite encls_app, zlen_app; cbn; by rewrite app_nil_r).
  cbn [replayblk]. rewrite Hm, Hp. clear Hm Hp R.
  assert (forall es, es1 ++ e :: es = (es1 ++ [e]) ++ es) as Hcat by (intros; by rewrite <- app_assoc).
  destruct e as [o l|o l|o l|g]; cbn [upto fst snd] in *.
  - inversion Hrun as [|? ? S1 ? ? Hst Hrest]; subst.
    destruct (range_ent o l LogAlloc LogAlloc1 rest He) as (w & Hw & Ho & Hc); [auto|]. cbn [encl].
    rewrite Hw, bind_ok, Ho. destruct (holds_alloc _ _ _ _ _ Ha He Hst) as (t & Hg & Ha').
    destruct (IH (es1 ++ [LAlloc o l]) _ _ _ fuel R' Hok Ha' Hrest) as (a' & Hr & Hh & Hs); [lia|].
    exists a'. rewrite Hcat. rewrite Hz in Hr. cbn [encl] in Hr.
    destruct Hc as [(-> & -> & Hl)|(-> & Hlen & Hs64 & Hl)]; rewrite Hl in Hr; cbn -[replayblk zlen encls setfree].
    + rewrite Hg. cbn -[replayblk zlen encls setfree]. rewrite Hr. split; [done|]. split; [done|]. by rewrite Hs.
    + rewrite Hlen. cbn -[replayblk zlen encls setfree]. rewrite Hs64, Hg. cbn -[replayblk zlen encls setfree]. rewrite Hr. split; [done|]. split; [done|]. by rewrite Hs.
  - inversion Hrun as [|? ? S1 ? ? Hst Hrest]; subst.
    destruct (range_ent o l LogFree LogFree1 rest He) as (w & Hw & Ho & Hc); [auto|]. cbn [encl].
    rewrite Hw, bind_ok, Ho. destruct (holds_free _ _ _ _ _ Ha He Hst) as (t & Hg & Ha').
    destruct (IH (es1 ++ [LFree o l]) _ _ _ fuel R' Hok Ha' Hrest) as (a' & Hr & Hh & Hs); [lia|].
    exists a'. rewrite Hcat. rewrite Hz in Hr. cbn [encl] in Hr.
    destruct Hc as [(-> & -> & Hl)|(-> & Hlen & Hs64 & Hl)]; rewrite Hl in Hr; cbn -[replayblk zlen encls setfree].
    + rewrite Hg. cbn -[replayblk zlen encls setfree]. rewrite Hr. split; [done|]. split; [done|]. by rewrite Hs.
    + rewrite Hlen. cbn -[replayblk zlen encls setfree]. rewrite Hs64, Hg. cbn -[replayblk zlen encls setfree]. rewrite Hr. split; [done|]. split; [done|]. by rewrite Hs.
  - inversion Hrun as [|? ? S1 ? ? Hst Hrest]; subst.
    destruct (wide_ent o l rest He) as (w & Hw & Ho & Hop & Hlen & Hs64 & Hl). cbn [encl].
    rewrite Hw, bind_ok, Ho, Hop. destruct (holds_free _ _ _ _ _ Ha He Hst) as (t & Hg & Ha').
    destruct (IH (es1 ++ [LWide o l]) _ _ _ fuel R' Hok Ha' Hrest) as (a' & Hr & Hh & Hs); [lia|].
    exists a'. rewrite Hcat. rewrite Hz in Hr. cbn [encl] in Hr. rewrite Hl in Hr. cbn -[replayblk zlen encls setfree widefree].
    rewrite Hlen. cbn -[replayblk zlen encls setfree widefree]. rewrite Hs64, Hg. cbn -[replayblk zlen encls setfree widefree]. rewrite Hr. split; [done|]. split; [done|]. by rewrite Hs.
  - destruct (sync_ent g rest He) as (w & -> & Hop & Hg & Hl). rewrite bind_ok, Hop, Hg. rewrite Hl in Hz. clear Hop Hg Hl.
    cbn -[replayblk zlen encls setfree]. destruct (qgen <=? g) eqn:Eg; cbn [fst snd] in *.
    + inversion Hrun; subst. exists a. rewrite app_nil_r. split; [done|].
      split; [eapply holds_eq; [done|]; by intros x; rewrite H|by destruct a].
    + inversion Hrun as [|? ? S1 ? ? Hst Hrest]; subst.
      destruct (IH (es1 ++ [LSync g]) a S1 S' fuel R' Hok) as (a' & Hr & Hh & Hs); [|done|lia|].
      { eapply holds_eq; [done|]. by intros x; rewrite (Hst x). }
      exists a'. rewrite Hcat. rewrite Hz in Hr. done.
Qed.

(** ** The chain on the disk *)

(** The image of a log block at [p] with the entries [es], linked to [nx]. *)
Definition log_image (img : list Z) (p : Z) (es : list lent) (nx : Bptr) : Prop :=
  exists m m', log_repr m es /\ logp m = nx /\ addr (bp (mb m)) = p /\ bptr_ok nx /\
    finalize m = Ok m' /\ buf m' = img.

(** The blocks from address [p] up to, not including, [q]: what the disk holds
    of a log whose tail is at [q]. *)
Inductive segment (d : disk) : Z -> list Z -> list lent -> Z -> Prop :=
  | seg_nil p : segment d p [] [] p
  | seg_cons p img es nx ps es' q :
      d !! p = Some img -> log_image img p es nx -> addr nx <> -1 -> zlen (encls es) + 16 <= Logspc ->
      segment d (addr nx) ps es' q -> segment d p (p :: ps) (es ++ es') q.

Lemma log_mblk m es : log_repr m es -> bptr_ok (logp m) -> mblk_ok m.
Proof.
  intros [L1 L2 L3 L4 L5 L6 L7] Hp. pose proof (zlen_nonneg (encls es)). split; rewrite ?L1; cbn [hdsz]; try done.
  lia.
Qed.

(** Reading such an image gives the block back. *)
Lemma read_image d p img es nx b0 :
  d !! addr p = Some img -> log_image img (addr p) es nx ->
  exists r, readblk (dpread d) b0 p 0 = Ok r /\ log_repr r es /\ logp r = nx /\
    addr (bp (mb r)) = addr p /\ bflag r = bflag b0.
Proof.
  intros Hd (m & m' & R & Hnx & Ha & Hb & Hf & Him). subst nx.
  pose proof (log_mblk _ _ R Hb) as Hok. destruct (finalize_ok m Hok) as (m1 & Hf1 & Hlen & _).
  rewrite Hf in Hf1. injection Hf1 as <-. rewrite Him in Hlen.
  rewrite (readblk_once _ _ _ _ img); [|unfold dpread; rewrite Hd; cbn; f_equal; apply take_ge; unfold zlen in Hlen; lia|done].
  destruct (hdfields_finalize m m' b0 Hok Hf) as (r & Hr & Hc & Hsum).
  pose proof (finalize_addr _ _ Hf) as Ha'.
  assert (btyp (mb m) = Tlog) as Ht by apply R.
  rewrite Ht in *. exists r.
  assert (hdfields b0 (bp (mb m')) Tlog (buf m') = hdfields b0 p Tlog (buf m')) as Eh.
  { unfold hdfields. by rewrite Ha', Ha. }
  rewrite Eh in Hr. rewrite Him in *.
  assert (blksums p r = Ok (logh r, logh r)) as Hs.
  { destruct (hdfields_inv _ _ _ _ _ Hr) as [Et _]. unfold blksums in *. by rewrite Et in *. }
  assert (parseblk b0 p 0 img = Ok r) as Hparse.
  { unfold parseblk. rewrite <- Him, (image_code m m' Hok Hf), Ht by (rewrite Ht; done). rewrite bind_ok. cbn [Z.land GBraw Z.eqb negb].
    rewrite btype_of_code. change (Z.land 0 GBraw =? 0) with true. cbn [of_option negb]. rewrite bind_ok, Him, Hr, bind_ok, Hs, bind_ok.
    by rewrite (Z.eqb_refl (logh r)), andb_false_r. }
  split; [done|]. destruct Hc as (C1 & C2 & C3 & C4).
  unfold finalize in Hf. rewrite Ht in Hf. inv_ok. subst m'. cbn [setblkhdr mb btyp data logsz logp bp addr] in *.
  rewrite Ht in C4. destruct C4 as (D1 & D2 & D3).
  unfold hdfields in Hr. inv_ok. subst r. cbn [mb data logsz logp hdr nval bvalsz nbuf bufsz btyp bflag bp addr] in *.
  split_and!; try done. destruct R as [R1 R2 R3 R4 R5 R6 R7].
  split; cbn [mb data logsz logp hdr nval bvalsz nbuf bufsz btyp]; try done; try congruence.
  - unfold zlen in *. rewrite length_take. cbn [hdsz]. blk_sizes. lia.
  - rewrite !Forall_cons. split_and!; try lia. constructor.
Qed.

(** ** Flags *)

Lemma flag_final f : checkflag (setflag f (Z.lor Bdirty Bfinal) 0) Bfinal 0 = true.
Proof.
  unfold checkflag, setflag. rewrite Z.ldiff_0_r, Z.lor_0_r, Z.land_lor_distr_l. apply Z.eqb_eq.
  change (Z.land (Z.lor Bdirty Bfinal) Bfinal) with Bfinal. apply Z.bits_inj'. intros n Hn.
  rewrite Z.lor_spec, Z.land_spec. by destruct (Z.testbit f n), (Z.testbit Bfinal n).
Qed.

(** Flags other than the ones of the log buffers do not touch these. *)
Definition logflags (f : Z) : Prop := checkflag f Bstatic Bcached = true.

Lemma logflags_set f s c :
  Z.land s (Z.lor Bstatic Bcached) = 0 -> Z.land c (Z.lor Bstatic Bcached) = 0 -> logflags f ->
  logflags (setflag f s c).
Proof.
  unfold logflags, checkflag, setflag. intros Hs Hc H. rewrite Z.eqb_eq in *.
  rewrite Z.land_lor_distr_l, Hs, Z.lor_0_r. etransitivity; [|exact H]. apply Z.bits_inj'. intros n Hn.
  rewrite !Z.land_spec, Z.ldiff_spec. apply (f_equal (fun z => Z.testbit z n)) in Hc.
  rewrite Z.land_spec, Z.bits_0 in Hc. revert Hc.
  by destruct (Z.testbit f n), (Z.testbit c n), (Z.testbit (Z.lor Bstatic Bcached) n).
Qed.

Lemma logflags_final f : logflags f -> logflags (setflag (setflag f (Z.lor Bdirty Bfinal) 0) 0 Bdirty).
Proof. intros. apply logflags_set; [done|done|]. by apply logflags_set. Qed.

Lemma static_flag f : logflags f -> checkflag f 0 (Z.lor Bdirty Bstatic) = false.
Proof.
  unfold logflags, checkflag. intros H%Z.eqb_eq. apply Z.eqb_neq. intros H0. cbn [Z.lor] in *.
  apply (f_equal (fun z => Z.testbit z 6)) in H, H0. rewrite Z.land_spec in H, H0. cbn in H, H0.
  rewrite andb_true_r in H, H0. congruence.
Qed.

(** ** Writing a log block *)

Lemma write_log wfail d m es :
  log_repr m es -> bptr_ok (logp m) -> 0 <= addr (bp (mb m)) -> wfail (addr (bp (mb m))) = false ->
  exists m1 m2 img, finalize m = Ok m1 /\ syncblk wfail d m1 = Ok (<[addr (bp (mb m)) := img]> d, m2) /\
    log_image img (addr (bp (mb m))) es (logp m) /\ log_repr m2 es /\ logp m2 = logp m /\
    addr (bp (mb m2)) = addr (bp (mb m)) /\ (logflags (bflag m) -> logflags (bflag m2)).
Proof.
  intros R Hb Ha Hw. pose proof (log_mblk _ _ R Hb) as Hok. destruct (finalize_ok m Hok) as (m1 & Hf & Hlen & Hhash & Hhd & Hty & Hnv).
  pose proof (finalize_addr _ _ Hf) as Ha'. assert (btyp (mb m) = Tlog) as Ht by apply R.
  exists m1. pose proof Hf as Hf'. unfold finalize in Hf'. rewrite Ht in Hf'. inv_ok.
  assert (bflag m1 = setflag (bflag m) (Z.lor Bdirty Bfinal) 0) as Hfl by (by subst m1).
  unfold syncblk. rewrite Hfl, flag_final. cbn [check]. rewrite bind_ok, Ha'.
  rewrite check_true by lia. rewrite bind_ok, Hw. do 2 eexists. split; [done|]. split; [done|].
  split; [by exists m, m1|]. unfold setbflag. cbn [logp bflag mb bp].
  split; [|split; [by subst m1|split; [done|apply logflags_final]]].
  destruct R as [R1 R2 R3 R4 R5 R6 R7]. rewrite Hty, Ht in Hhd.
  split; cbn [mb hdr logsz]; rewrite ?Hty; try done; by subst m1.
Qed.

Lemma log_prefix m es1 es2 :
  log_repr m (es1 ++ es2) -> log_repr (setlogsz m (zlen (encls es1))) es1.
Proof.
  intros [R1 R2 R3 R4 R5 R6 R7]. rewrite encls_app, zlen_app in R4. pose proof (zlen_nonneg (encls es2)).
  split; cbn [setlogsz mb hdr logsz]; try done; [lia|].
  rewrite encls_app, length_app in R6. apply (f_equal (take (length (encls es1)))) in R6.
  rewrite take_take, take_app_length in R6. rewrite <- R6 at 2. f_equal. lia.
Qed.

Lemma upto_app qgen es1 es2 :
  upto qgen (es1 ++ es2) =
    if (upto qgen es1).2 then upto qgen es1 else (es1 ++ (upto qgen es2).1, (upto qgen es2).2).
Proof.
  induction es1 as [|e es1 IH]; cbn [upto app]; [by destruct (upto qgen es2)|].
  rewrite IH. destruct e as [| | |g]; try destruct (qgen <=? g); cbn [fst snd]; try done;
    destruct (upto qgen es1) as [p []]; done.
Qed.

Lemma upto_all qgen es : (upto qgen es).2 = false -> (upto qgen es).1 = es.
Proof.
  induction es as [|e es IH]; [done|]. cbn [upto]. destruct e as [| | |g]; try destruct (qgen <=? g); cbn [fst snd]; try done;
    intros H; by rewrite IH.
Qed.

Lemma upto_prefix qgen es : exists es', es = (upto qgen es).1 ++ es'.
Proof.
  induction es as [|e es [es' IH]]; [by exists []|]. cbn [upto]. destruct e as [| | |g]; cbn [fst snd];
    try destruct (qgen <=? g); cbn [fst snd]; try (exists es'; cbn; by rewrite <- IH). by eexists.
Qed.

Lemma encls_length es : (length es <= length (encls es))%nat.
Proof.
  induction es as [|e es IH]; [done|]. rewrite encls_cons, length_app. cbn [length].
  pose proof (encl_bounds e) as H. unfold zlen in H. lia.
Qed.

(** ** The log of an arena *)

(** The disk and the open tail hold the entries [es]: the blocks before the
    tail are on the disk at the addresses [ps]. *)
Record log_ok (a : Arena) (d : disk) (ps : list Z) (es : list lent) : Prop := {
  log_tl : exists tl es0 es1, alogtl a = Some tl /\ es = es0 ++ es1 /\
    segment d (addr (aloghd a)) ps es0 (addr (bp (mb tl))) /\
    log_repr tl es1 /\ logp tl = Zb /\ 0 <= addr (bp (mb tl)) /\ (addr (bp (mb tl)) ∉ ps) /\
    logsz tl + 24 <= Logspc /\ logflags (bflag tl);
  log_spare : zlen (buf (aspare a)) = Blksz;
  log_nodup : NoDup ps;
  log_ents : Forall lent_ok es
}.

Lemma segment_write d p ps es q x img :
  segment d p ps es q -> x ∉ ps -> segment (<[x := img]> d) p ps es q.
Proof.
  induction 1 as [p|p im es nx ps es' q Hd Hi Hn Hz _ IH]; [constructor|]. intros [Hx Hps]%not_elem_of_cons.
  econstructor; eauto. by rewrite lookup_insert_ne.
Qed.

Lemma upto_stop_size qgen es : (upto qgen es).2 = true -> zlen (encls (upto qgen es).1) + 8 <= zlen (encls es).
Proof.
  induction es as [|e es IH]; [done|]. destruct e as [o l|o l|o l|g]; cbn [upto].
  4: destruct (qgen <=? g); cbn [fst snd].
  4: { intros _. rewrite encls_cons, zlen_app. pose proof (zlen_nonneg (encls es)). pose proof (encl_bounds (LSync g)).
       change (zlen (encls [])) with 0. lia. }
  all: cbn [fst snd]; intros H; rewrite !encls_cons, !zlen_app; specialize (IH H); lia.
Qed.

(** What loadlog leaves: the arena's tail and the chain before it hold exactly
    the committed entries [es], on the disk too unless it is read-only. *)
Definition loaded (a' : Arena) (d d' : disk) (p : Z) (addrs : list Z) (es : list lent) (rdonly : bool) : Prop :=
  exists tl es0 es1 ps, alogtl a' = Some tl /\ es = es0 ++ es1 /\ segment d' p ps es0 (addr (bp (mb tl))) /\
    log_repr tl es1 /\ logp tl = Zb /\ logsz tl + 24 <= Logspc /\ logflags (bflag tl) /\
    NoDup (ps ++ [addr (bp (mb tl))]) /\ (forall x, x ∈ ps ++ [addr (bp (mb tl))] -> x ∈ addrs) /\
    (forall x, x <> addr (bp (mb tl)) -> d' !! x = d !! x) /\
    (rdonly = false -> exists img, d' !! addr (bp (mb tl)) = Some img /\ log_image img (addr (bp (mb tl))) es1 Zb).

(** One block of the chain. *)
Lemma load_block d b p a qgen es nx img S S' :
  d !! addr p = Some img -> log_image img (addr p) es nx -> holds a S -> Forall lent_ok es ->
  lrun S (upto qgen es).1 S' -> logflags (bflag b) ->
  exists r a', check (checkflag (bflag b) Bstatic Bcached) = Ok tt /\ readblk (dpread d) b p 0 = Ok r /\
    replayblk (Z.to_nat (logsz r)) a r qgen 0 =
      Ok (a', if (upto qgen es).2 then Some (zlen (encls (upto qgen es).1)) else None) /\
    holds a' S' /\ a' = setfree a (afree a') (ausd a') /\
    log_repr r es /\ logp r = nx /\ addr (bp (mb r)) = addr p /\ logflags (bflag r).
Proof.
  intros Hd Hi Ha Hok Hrun Hb. destruct (read_image _ _ _ _ _ b Hd Hi) as (r & Hr & R & Hlp & Hra & Hfl).
  destruct (replayblk_spec r qgen es [] a S S' (Z.to_nat (logsz r)) R Hok Ha Hrun) as (a' & E & Hh & Hs).
  { rewrite (lr_size _ _ R). unfold zlen. rewrite Nat2Z.id. apply encls_length. }
  exists r, a'. rewrite Hfl. unfold logflags in Hb. rewrite Hb. split_and!; try done.
Qed.

Lemma Zb_ok : bptr_ok Zb.
Proof. unfold bptr_ok, is_s64, is_u64. cbn. lia. Qed.

(** The log ends at a barrier inside the block [r]. *)
Lemma load_stop wfail (rdonly : bool) (d : disk) a r es qgen (addrs : list Z) :
  (forall x, wfail x = false) -> log_repr r es -> (upto qgen es).2 = true -> zlen (encls es) + 16 <= Logspc ->
  0 <= addr (bp (mb r)) -> logflags (bflag r) -> addr (bp (mb r)) ∈ addrs ->
  let b := setbflag (setlogsz (setlogp r Zb) (zlen (encls (upto qgen es).1))) (setflag (bflag r) Bdirty 0) in
  exists d' tl, (if rdonly then Ok (d, b) else b ← finalize b; syncblk wfail d b) = Ok (d', tl) /\
    loaded (setlogtl a tl (aspare a) (anlog a)) d d' (addr (bp (mb r))) addrs (upto qgen es).1 rdonly.
Proof.
  intros Hw R Hu Hz Ha Hfl Hin b. destruct (upto_prefix qgen es) as [rest Ep].
  assert (log_repr b (upto qgen es).1) as R'.
  { rewrite Ep in R. destruct (log_prefix _ _ _ R) as [P1 P2 P3 P4 P5 P6 P7]. by split. }
  pose proof (upto_stop_size _ _ Hu) as Hsz.
  assert (logflags (bflag b)) as Hfb by (by apply logflags_set).
  assert (forall (d' : disk) tl, addr (bp (mb tl)) = addr (bp (mb r)) -> log_repr tl (upto qgen es).1 -> logp tl = Zb ->
    logflags (bflag tl) -> (forall x, x <> addr (bp (mb tl)) -> d' !! x = d !! x) ->
    (rdonly = false -> exists img, d' !! addr (bp (mb tl)) = Some img /\ log_image img (addr (bp (mb tl))) (upto qgen es).1 Zb) ->
    loaded (setlogtl a tl (aspare a) (anlog a)) d d' (addr (bp (mb r))) addrs (upto qgen es).1 rdonly) as Hfin.
  { intros d' tl Et Rt Lt Ft Dt It. exists tl, [], (upto qgen es).1, []. rewrite <- Et at 1. split_and!; try done.
    - constructor.
    - rewrite (lr_size _ _ Rt). lia.
    - apply NoDup_singleton.
    - intros x ->%list_elem_of_singleton. by rewrite Et. }
  destruct rdonly.
  - exists d, b. split; [done|]. apply Hfin; done.
  - destruct (write_log wfail d b (upto qgen es).1 R' Zb_ok Ha (Hw _)) as (m1 & m2 & img & -> & Hs & Hi & R2 & L2 & A2 & F2).
    rewrite bind_ok, Hs. do 2 eexists. split; [done|]. apply Hfin; try done; [by apply F2| |].
    + intros x Hx. rewrite lookup_insert_ne; [done|]. by rewrite <- A2.
    + intros _. exists img. rewrite A2. split; [apply lookup_insert_eq|exact Hi].
Qed.

(** The log goes on: what is loaded further on is loaded from here. *)
Lemma loaded_cons a' d d' p ps es nx img es' rdonly :
  d !! p = Some img -> log_image img p es nx -> addr nx <> -1 -> zlen (encls es) + 16 <= Logspc -> p ∉ ps ->
  loaded a' d d' (addr nx) ps es' rdonly -> loaded a' d d' p (p :: ps) (es ++ es') rdonly.
Proof.
  intros Hd Hi Hn Hz Hp (tl & es0 & es1 & ps' & H1 & -> & H3 & H4 & H5 & H6 & H7 & H8 & H9 & H10 & H11).
  assert (p ∉ ps' ++ [addr (bp (mb tl))]) as Hp' by (intros Hin%H9; done).
  exists tl, (es ++ es0), es1, (p :: ps'). split_and!; try done.
  - by rewrite app_assoc.
  - econstructor; eauto. rewrite H10; [done|]. intros ->. apply Hp', elem_of_app. right. by apply list_elem_of_singleton.
  - cbn. by constructor.
  - cbn. intros x [->|Hx]%elem_of_cons; [by left|right; by apply H9].
Qed.

Lemma loadlog_spec wfail qgen rdonly d p ps es0 q :
  (forall x, wfail x = false) -> segment d p ps es0 q ->
  forall fuel a b hd img es1 S S',
  addr hd = p -> d !! q = Some img -> log_image img q es1 Zb -> zlen (encls es1) + 24 <= Logspc ->
  NoDup (ps ++ [q]) -> Forall (fun x => 0 <= x) (ps ++ [q]) ->
  alogtl a = None -> logflags (bflag b) -> Forall lent_ok (es0 ++ es1) -> holds a S ->
  lrun S (upto qgen (es0 ++ es1)).1 S' -> (length ps < fuel)%nat ->
  exists a' d', loadlog wfail fuel a d b hd qgen rdonly = Ok (a', d') /\ holds a' S' /\
    loaded a' d d' p (ps ++ [q]) (upto qgen (es0 ++ es1)).1 rdonly /\
    asz a' = asz a /\ ah0 a' = ah0 a /\ aloghd a' = aloghd a /\ aspare a' = aspare a /\ aresv a' = aresv a.
Proof.
  intros Hw Hseg. induction Hseg as [p|p im es nx ps es' q Hd Hi Hn Hz Hseg IH];
    intros fuel a b hd img es1 S S' Hp Hq Hqi Hqz Hnd Hpos Htl Hb Hok Ha Hrun Hf;
    (destruct fuel as [|fuel]; [lia|]); cbn [loadlog app] in *; subst p;
    set (a1 := mkArena _ _ _ _ _ _ _ _ _ _); assert (holds a1 S) as Ha1 by exact Ha;
    apply Forall_cons in Hpos as [Hp0 Hpos].
  - destruct (load_block d b hd a1 qgen es1 Zb img S S' Hq Hqi Ha1 Hok Hrun Hb)
      as (r & a' & -> & -> & Hr & Hh & Hs & R & Hlp & Hra & Hfl). rewrite !bind_ok. fold a1. rewrite Hr, bind_ok. clear Hr.
    assert (alogtl a' = None) as Htl' by (rewrite Hs; exact Htl).
    destruct (upto qgen es1).2 eqn:Eu.
    + rewrite Htl'. rewrite <- Hra in *.
      destruct (load_stop wfail rdonly d a' r es1 qgen [addr (bp (mb r))] Hw R Eu) as (d' & tl & -> & Hld); try done; [lia|by left|].
      rewrite bind_ok. do 2 eexists. split; [done|]. split; [done|]. split; [done|]. by rewrite Hs.
    + rewrite Hlp. cbn [Zb addr Z.eqb]. do 2 eexists. split; [done|]. split; [done|]. rewrite (upto_all _ _ Eu).
      split; [|by rewrite Hs]. exists r, [], es1, []. rewrite Hra. split_and!; try done; try constructor.
      * rewrite (lr_size _ _ R). lia.
      * intros _. by exists img.
  - rewrite <- app_assoc in *. apply Forall_app in Hok as [Hok1 Hok2]. apply NoDup_cons in Hnd as [Hni Hnd].
    rewrite upto_app in Hrun |- *. destruct (upto qgen es).2 eqn:Eu; cbn [fst] in Hrun |- *.
    + destruct (load_block d b hd a1 qgen es nx im S S' Hd Hi Ha1 Hok1 Hrun Hb)
        as (r & a' & -> & -> & Hr & Hh & Hs & R & Hlp & Hra & Hfl). rewrite !bind_ok. fold a1. rewrite Hr, bind_ok, Eu. clear Hr.
      assert (alogtl a' = None) as -> by (rewrite Hs; exact Htl). rewrite <- Hra in *.
      destruct (load_stop wfail rdonly d a' r es qgen (addr (bp (mb r)) :: ps ++ [q]) Hw R Eu) as (d' & tl & -> & Hld); try done; [by left|].
      rewrite bind_ok. do 2 eexists. split; [done|]. split; [done|]. split; [done|]. by rewrite Hs.
    + apply lrun_app in Hrun as (M & HM & Hrest).
      destruct (load_block d b hd a1 qgen es nx im S M Hd Hi Ha1 Hok1) as (r & a' & -> & -> & Hr & Hh & Hs & R & Hlp & Hra & Hfl);
        [by rewrite (upto_all _ _ Eu)|done|].
      rewrite !bind_ok. fold a1. rewrite Hr, bind_ok, Eu, Hlp, (proj2 (Z.eqb_neq (addr nx) (-1))) by done. clear Hr.
      destruct (IH fuel a' r nx img es1 M S') as (a2 & d' & E & Hh2 & Hld & F1 & F2 & F3 & F4 & F5); try done; [by rewrite Hs|cbn in Hf; lia|].
      rewrite E. do 2 eexists. split; [done|]. split; [done|].
      split; [by apply (loaded_cons _ _ _ _ _ _ nx im)|]. rewrite F1, F2, F3, F4, F5, Hs. done.
Qed.

(** ** Appending to the log *)

Lemma segment_snoc d p ps es q img es1 nx :
  segment d p ps es q -> d !! q = Some img -> log_image img q es1 nx -> addr nx <> -1 ->
  zlen (encls es1) + 16 <= Logspc -> segment d p (ps ++ [q]) (es ++ es1) (addr nx).
Proof.
  induction 1 as [p|p im es nx' ps es' q Hd Hi Hn Hz _ IH]; intros Hq Hqi Hqn Hqz; cbn [app].
  - rewrite <- (app_nil_r es1). econstructor; eauto. constructor.
  - rewrite <- app_assoc. econstructor; eauto.
Qed.

(** The blocks of the log, none of which is free. *)
Definition logblk (a : Arena) (ps : list Z) (b : Z) : Prop :=
  b ∈ ps \/ exists tl, alogtl a = Some tl /\ b = addr (bp (mb tl)).

Definition inspace (a : Arena) (x : Z) : Prop := ah0 a <= x < ah0 a + asz a + 2 * Blksz.

(** A block of the arena no byte of which is free. *)
Definition used_blk (a : Arena) (b : Z) : Prop :=
  range_ok (blkrange b) /\ (forall x, rin (blkrange b) x -> inspace a x) /\
  (forall x, rin (blkrange b) x -> ~ infree (elements (afree a)) x).

Definition log_used (a : Arena) (ps : list Z) : Prop := forall b, logblk a ps b -> used_blk a b.

Lemma rin_blk b : rin (blkrange b) b.
Proof. unfold rin. cbn [off len blkrange]. change Blksz with 16384. lia. Qed.

Lemma used_pos a b : used_blk a b -> 0 <= b < 2 ^ 63 /\ ~ infree (elements (afree a)) b.
Proof.
  intros ((H1 & _ & H2 & _) & _ & Hn). cbn [off len blkrange] in *. change Blksz with 16384 in *.
  split; [lia|]. apply Hn, rin_blk.
Qed.

(** It stays one while the free space does not grow into it. *)
Lemma used_keep a a' b :
  used_blk a b -> asz a' = asz a -> ah0 a' = ah0 a ->
  (forall x, rin (blkrange b) x -> infree (elements (afree a')) x -> infree (elements (afree a)) x) -> used_blk a' b.
Proof.
  intros (H1 & H2 & H3) S1 S2 Hx. split; [done|]. unfold inspace. rewrite S1, S2. split; [done|].
  intros x Hb Hf. by apply (H3 x Hb), Hx.
Qed.

Lemma log_buf m es : log_repr m es -> zlen (buf m) = Blksz.
Proof. intros [_ H1 H2 _ _ _ _]. unfold buf. rewrite zlen_app, H1, H2. reflexivity. Qed.

Lemma new_logblk incache a n :
  zlen (buf (aspare a)) = Blksz -> incache n = false ->
  exists nb, mklogblk incache a n = Ok nb /\ log_repr nb [] /\ logp nb = Zb /\ addr (bp (mb nb)) = n /\
    logflags (bflag nb) /\ logsz nb = 0.
Proof.
  intros Hb Hc. unfold mklogblk, initblk. rewrite Hc. cbn [negb check]. rewrite bind_ok.
  eexists. split; [done|]. cbn [mb bp addr logp bflag logsz]. split; [|done].
  fold (buf (aspare a)). rewrite decide_False by done. cbn [hdsz]. unfold zlen in Hb.
  split; cbn [mb btyp hdr data logsz nval bvalsz nbuf bufsz]; try done.
  - unfold zlen. rewrite length_take. unfold buf in *. cbn [setbflag mb hdr]. blk_sizes. lia.
  - unfold zlen. rewrite length_drop. unfold buf in *. cbn [setbflag mb hdr]. blk_sizes. lia.
  - rewrite !Forall_cons. split_and!; try lia. constructor.
Qed.

Lemma encl_chain n : pack 8 (Z.lor n LogAlloc1) = encl (LAlloc n Blksz).
Proof. cbn [encl]. unfold logent. rewrite Z.eqb_refl. cbn. by rewrite app_nil_r. Qed.

Lemma flag_dirty (b : Mblk) es :
  log_repr b es -> logflags (bflag b) ->
  let b' := if checkflag (bflag b) 0 Bdirty then setbflag b (setflag (bflag b) Bdirty Bfinal) else b in
  log_repr b' es /\ logflags (bflag b') /\ logp b' = logp b /\ bp (mb b') = bp (mb b) /\ logsz b' = logsz b.
Proof.
  intros R Hf b'. unfold b'. destruct (checkflag _ _ _); [|done]. split; [by destruct R|].
  split; [|done]. by apply logflags_set.
Qed.

Definition same_shape (a a' : Arena) : Prop :=
  asz a' = asz a /\ ah0 a' = ah0 a /\ aloghd a' = aloghd a /\ aresv a' = aresv a.

(** logappend's result: [e] is in the log, after the allocation of a block for
    the log itself if the tail was full. *)
Definition appended (a a' : Arena) (d d' : disk) (ps : list Z) (es : list lent) (e : lent) : Prop :=
  (log_ok a' d' ps (es ++ [e]) /\ afree a' = afree a /\ ausd a' = ausd a /\ d' = d /\
     log_used a' ps /\ same_shape a a' /\ (forall b, logblk a' ps b -> logblk a ps b)) \/
  (exists n q, log_ok a' d' (ps ++ [q]) (es ++ [LAlloc n Blksz; e]) /\ took (afree a) (afree a') (blkrange n) /\
     ausd a' = ausd a + Blksz /\ log_used a' (ps ++ [q]) /\ same_shape a a' /\
     (forall b, logblk a' (ps ++ [q]) b -> logblk a ps b \/ b = n) /\
     (forall b, ~ logblk a ps b -> b <> n -> d' !! b = d !! b)).

Section Append.
  Context (priv : bool) (incache wfail : Z -> bool).
  Hypothesis Hcache : forall x, incache x = false.
  Hypothesis Hwrite : forall x, wfail x = false.

Lemma append_room a d ps es e tl :
  log_ok a d ps es -> log_used a ps -> alogtl a = Some tl -> lent_ok e -> logsz tl < Logspc - Logslop ->
  let lb := if checkflag (bflag tl) 0 Bdirty then setbflag tl (setflag (bflag tl) Bdirty Bfinal) else tl in
  exists lb', logput lb (encl e) = Ok lb' /\
    appended a (setlogtl a lb' (aspare a) (anlog a)) d d ps es e.
Proof.
  intros [(tl' & es0 & es1 & Htl & -> & Hseg & R & Hlp & Ha & Hni & Hsz & Hfl) Hsp Hnd Hents] Hu Etl He Hroom lb.
  rewrite Etl in Htl. injection Htl as <-.
  destruct (flag_dirty tl es1 R Hfl) as (R1 & Hfl1 & Hlp1 & Hbp1 & Hsz1). fold lb in R1, Hfl1, Hlp1, Hbp1, Hsz1.
  change Logslop with 40 in Hroom. pose proof (encl_bounds e).
  destruct (logput_repr lb es1 e R1) as (lb' & Hput & R2 & Hbp2 & Hlp2 & Hfl2 & Hsz2); [lia|].
  exists lb'. split; [done|]. left.
  assert (forall b, logblk (setlogtl a lb' (aspare a) (anlog a)) ps b -> logblk a ps b) as Hblk.
  { intros b [Hb|(tl' & Htl' & ->)]; [by left|]. cbn in Htl'. injection Htl' as <-. rewrite Hbp2, Hbp1. right. eauto. }
  split; [|split_and!; try done].
  - split; cbn [setlogtl alogtl aloghd aspare]; try done; [|by rewrite Forall_app, Forall_singleton].
    exists lb', es0, (es1 ++ [e]). rewrite Hbp2, Hbp1, Hlp2, Hlp1, Hfl2, app_assoc. split_and!; try done. lia.
  - intros b Hb%Hblk. by apply Hu.
Qed.

(** Why there may be no block to allocate. *)
Definition noroom (a : Arena) : Prop :=
  (priv = false /\ asz a - ausd a <= aresv a) \/ elements (afree a) = [].

Lemma took_ne (t t' : avl Arange) n b : took t t' (blkrange n) -> ~ infree (elements t) b -> n <> b.
Proof. intros (_ & H & _) Hb ->. apply Hb, H, rin_blk. Qed.

Lemma append_full a d ps es e tl :
  log_ok a d ps es -> log_used a ps -> free_ok (afree a) -> (forall x, infree (elements (afree a)) x -> inspace a x) ->
  alogtl a = Some tl -> lent_ok e ->
  Logspc - Logslop <= logsz tl ->
  let lb := if checkflag (bflag tl) 0 Bdirty then setbflag tl (setflag (bflag tl) Bdirty Bfinal) else tl in
  (logroom priv incache a lb = Fail (Error Efull) /\ noroom a) \/
  exists a1 lb1 nb nb1 nb2 d1 nb3 lb2 d2 lb3,
    logroom priv incache a lb = Ok (a1, lb1, Some nb) /\ logput nb (encl e) = Ok nb1 /\ finalize nb1 = Ok nb2 /\
    syncblk wfail d nb2 = Ok (d1, nb3) /\ finalize lb1 = Ok lb2 /\ syncblk wfail d1 lb2 = Ok (d2, lb3) /\
    appended a (setlogtl a1 nb3 lb3 (anlog a1 + 1)) d d2 ps es e.
Proof.
  intros [(tl' & es0 & es1 & Htl & -> & Hseg & R & Hlp & Ha & Hni & Hsz & Hfl) Hsp Hnd Hents] Hu Hfree Hfin Etl He Hfull lb.
  rewrite Etl in Htl. injection Htl as <-.
  destruct (flag_dirty tl es1 R Hfl) as (R1 & Hfl1 & Hlp1 & Hbp1 & Hsz1). fold lb in R1, Hfl1, Hlp1, Hbp1, Hsz1.
  assert (Hq := used_pos _ _ (Hu (addr (bp (mb tl))) (or_intror (ex_intro _ tl (conj Etl eq_refl))))).
  unfold logroom. rewrite Hsz1, (proj2 (Z.leb_le _ _) Hfull).
  destruct (blkalloc_lk_spec priv a false Hfree) as (a1 & n & -> & _ & [(-> & _ & Hno)|[Htook Ea1]]); [left; by split|]. rewrite bind_ok.
  pose proof Htook as (Hr & _ & _ & _ & _). pose proof Hr as (N1 & _ & N3 & _). cbn [off len blkrange] in N1, N3. change Blksz with 16384 in N3.
  right. rewrite (proj2 (Z.eqb_neq n (-1))) by lia. rewrite encl_chain.
  destruct (logput_repr lb es1 (LAlloc n Blksz) R1) as (lb0 & Hput & R2 & Hbp2 & Hlp2 & Hfl2 & Hsz2).
  { rewrite <- encl_chain, zlen_pack. lia. }
  rewrite Hput, bind_ok. rewrite <- encl_chain, zlen_pack in Hsz2.
  destruct (new_logblk incache a1 n) as (nb & Hnb & Rn & Hnlp & Hna & Hnf & Hn0); [by rewrite Ea1|done|].
  rewrite Hnb, bind_ok. set (nx := mkBptr n (2 ^ 64 - 1) (-1)). set (lb1 := setlogp lb0 nx).
  pose proof (encl_bounds e).
  destruct (logput_repr nb [] e Rn) as (nb1 & Hput1 & R3 & Hbp3 & Hlp3 & Hfl3 & Hsz3); [rewrite Hn0; change Logspc with 16348; lia|].
  destruct (write_log wfail d nb1 [e] R3) as (nb2 & nb3 & img1 & Hf1 & Hs1 & Hi1 & R4 & L4 & A4 & F4).
  { rewrite Hlp3, Hnlp. apply Zb_ok. } { rewrite Hbp3, Hna. lia. } { apply Hwrite. }
  assert (log_repr lb1 (es1 ++ [LAlloc n Blksz])) as R5 by (by destruct R2).
  assert (bptr_ok nx) as Hnx by (unfold bptr_ok, is_s64, is_u64; cbn; lia).
  assert (addr (bp (mb lb1)) = addr (bp (mb tl))) as Hal by (cbn; by rewrite Hbp2, Hbp1).
  set (d1 := <[addr (bp (mb nb1)) := img1]> d) in *.
  destruct (write_log wfail d1 lb1 _ R5 Hnx) as (lb2 & lb3 & img2 & Hf2 & Hs2 & Hi2 & R6 & L6 & A6 & F6).
  { by rewrite Hal. } { apply Hwrite. }
  exists a1, lb1, nb, nb1, nb2, d1, nb3, lb2, (<[addr (bp (mb lb1)) := img2]> d1), lb3.
  split_and!; try done. right. exists n, (addr (bp (mb tl))).
  assert (n <> addr (bp (mb tl))) as Hnq by (apply (took_ne _ _ _ _ Htook); apply Hq).
  assert (forall b, b ∈ ps -> n <> b) as Hnps.
  { intros b Hb. apply (took_ne _ _ _ _ Htook). apply (used_pos a b), Hu. by left. }
  assert (addr (bp (mb nb1)) = n) as Han by (by rewrite Hbp3, Hna).
  rewrite Hal in *. rewrite Han in *.
  assert (forall b, logblk (setlogtl a1 nb3 lb3 (anlog a1 + 1)) (ps ++ [addr (bp (mb tl))]) b -> logblk a ps b \/ b = n) as Hblk.
  { intros b [[Hb|Hb%list_elem_of_singleton]%elem_of_app|(tl' & Htl' & ->)]; [by left; left|left; right; eauto|].
    cbn in Htl'. injection Htl' as <-. rewrite A4. auto. }
  split_and!.
  - split; cbn [setlogtl alogtl aloghd aspare].
    + exists nb3, (es0 ++ es1 ++ [LAlloc n Blksz]), [e]. rewrite A4, Ea1. cbn [setfree aloghd].
      split_and!; try done; try lia.
      * by rewrite <- !app_assoc.
      * change n with (addr nx). eapply segment_snoc; [|apply lookup_insert_eq|exact Hi2| |].
        -- apply segment_write; [|done]. apply segment_write; [done|]. intros Hin. by apply (Hnps _ Hin).
        -- cbn. lia.
        -- change (addr nx) with n. rewrite <- (lr_size _ _ R5). cbn. rewrite Hsz2, Hsz1. lia.
      * by rewrite L4, Hlp3.
      * rewrite elem_of_app, list_elem_of_singleton. intros [Hin| ->]; [by apply (Hnps _ Hin)|done].
      * rewrite (lr_size _ _ R4). unfold encls. cbn. rewrite app_nil_r. change Logspc with 16348. lia.
      * apply F4. by rewrite Hfl3.
    + by apply (log_buf _ _ R6).
    + apply NoDup_app. split; [done|]. split; [|apply NoDup_singleton]. intros x Hx ->%list_elem_of_singleton. done.
    + rewrite !Forall_app in *. destruct Hents as [? ?]. split; [done|]. constructor; [exact Hr|]. by constructor.
  - by rewrite Ea1 in *.
  - by rewrite Ea1.
  - destruct Htook as (_ & Htin & _ & _ & Hx). intros b [Hb| ->]%Hblk.
    + apply (used_keep a); [by apply Hu|by rewrite Ea1|by rewrite Ea1|]. cbn [afree setlogtl]. intros x _. rewrite Hx. by intros [? _].
    + split; [done|]. split; [intros x Hxn; apply Htin, Hfin in Hxn; by rewrite Ea1|]. cbn [afree setlogtl]. intros x Hxn. rewrite Hx. tauto.
  - by rewrite Ea1.
  - done.
  - intros b Hb Hne. rewrite lookup_insert_ne; [apply lookup_insert_ne; congruence|]. intros <-. apply Hb. right. eauto.
Qed.

Lemma logappend_spec a d ps es e o l op :
  log_ok a d ps es -> log_used a ps -> free_ok (afree a) -> (forall x, infree (elements (afree a)) x -> inspace a x) ->
  lent_ok e -> encl e = logent o l op ->
  Z.land o 0xff = 0 -> op = LogAlloc \/ op = LogFree \/ op = LogSync ->
  (op <> LogSync -> ah0 a <= o < ah0 a + asz a + 2 * Blksz) ->
  (logappend priv incache wfail a d o l op = Fail (Error Efull) /\ noroom a) \/
  exists a' d', logappend priv incache wfail a d o l op = Ok (a', d') /\ appended a a' d d' ps es e.
Proof.
  intros Hlog Hu Hfree Hfin He Henc Ho Hop Hin. unfold logappend.
  rewrite Ho. cbn [Z.eqb check]. rewrite bind_ok.
  assert (((op =? LogAlloc) || (op =? LogFree) || (op =? LogSync)) = true) as ->
    by (destruct Hop as [-> |[-> | ->]]; done). cbn [check]. rewrite bind_ok.
  assert ((if op =? LogSync then Ok tt else check (ah0 a <=? o);; check (o <? ah0 a + asz a + 2 * Blksz)) = Ok tt) as ->.
  { destruct (Z.eqb_spec op LogSync); [done|]. destruct Hin as [? ?]; [done|].
    rewrite (check_true (ah0 a <=? o)), (check_true (o <? ah0 a + asz a + 2 * Blksz)) by lia. done. }
  rewrite bind_ok. pose proof (log_tl _ _ _ _ Hlog) as (tl & es0 & es1 & Htl & _ & _ & R & _).
  rewrite Htl. cbn [of_option]. rewrite bind_ok, (lr_typ _ _ R), (bool_decide_true _ eq_refl). cbn [check]. rewrite bind_ok.
  rewrite check_true by (rewrite (lr_size _ _ R); pose proof (zlen_nonneg (encls es1)); lia). rewrite bind_ok, <- Henc.
  set (lb := if checkflag _ _ _ then _ else _).
  assert (logsz lb = logsz tl) as Hsz by (unfold lb; by destruct (checkflag _ _ _)).
  destruct (Z.le_gt_cases (Logspc - Logslop) (logsz tl)) as [Hfull|Hroom].
  - destruct (append_full a d ps es e tl Hlog Hu Hfree Hfin Htl He Hfull) as [[Hno Hwhy]|H]; fold lb in Hno || fold lb in H.
    + left. by rewrite Hno.
    + right. destruct H as (a1 & lb1 & nb & nb1 & nb2 & d1 & nb3 & lb2 & d2 & lb3 & H1 & H2 & H3 & H4 & H5 & H6 & H7).
      do 2 eexists. split; [|exact H7]. rewrite H1, bind_ok, H2, bind_ok, H3, bind_ok, H4, bind_ok, H5, bind_ok, H6. done.
  - right. destruct (append_room a d ps es e tl Hlog Hu Htl He Hroom) as (lb' & Hput & Happ). fold lb in Hput.
    do 2 eexists. split; [|exact Happ]. unfold logroom. rewrite Hsz, (proj2 (Z.leb_gt _ _) Hroom), bind_ok, Hput. done.
Qed.
End Append.

(** * The arena *)

Definition empty_space : space := fun _ => False.

(** The whole invariant: the log's entries rebuild the free space, the count of
    used bytes is right, and the free space lies within the arena. *)
Record arena_ok (a : Arena) (d : disk) (ps : list Z) (es : list lent) : Prop := {
  ao_log : log_ok a d ps es;
  ao_used : log_used a ps;
  ao_holds : holds a (infree (elements (afree a)));
  ao_run : lrun empty_space es (infree (elements (afree a)));
  ao_in : forall x, infree (elements (afree a)) x -> inspace a x
}.

Lemma took_step t t' q : took t t' q -> lstep (infree (elements t)) (LAlloc (off q) (len q)) (infree (elements t')).
Proof. intros (_ & H1 & _ & _ & H2). destruct q. split; done. Qed.

Lemma lrun_snoc S es T e T' : lrun S es T -> lstep T e T' -> lrun S (es ++ [e]) T'.
Proof. intros H1 H2. apply lrun_app. exists T. split; [done|]. by apply lrun_one. Qed.

Lemma aligned_256 b : (Blksz | b) -> Z.land b 0xff = 0.
Proof. intros [g ->]%divide_256. rewrite <- (Z.add_0_r (256 * g)). by rewrite land_low. Qed.

(** The bytes an entry is about. *)
Definition erange (e : lent) (x : Z) : Prop :=
  match e with LAlloc o l | LFree o l | LWide o l => rin (mkArange o l) x | LSync _ => False end.

Lemma lstep_minus S e T q :
  lstep S e T -> (forall x, rin q x -> ~ erange e x) ->
  lstep (fun x => S x /\ ~ rin q x) e (fun x => T x /\ ~ rin q x).
Proof. destruct e as [o l|o l|o l|g]; cbn; intros H Hq; try destruct H as [H1 H2]; try split; naive_solver. Qed.

(** What an append makes of the log's space: the entry's step [T], less the
    block the log may have taken. *)
Lemma appended_run a a' d d' ps es e L T :
  appended a a' d d' ps es e -> free_ok (afree a) -> lrun empty_space es L -> lstep L e T ->
  (forall x, infree (elements (afree a)) x -> L x /\ ~ erange e x) ->
  exists ps' es', (es' = [e] \/ exists n, es' = [LAlloc n Blksz; e]) /\ log_ok a' d' ps' (es ++ es') /\ log_used a' ps' /\ free_ok (afree a') /\ same_shape a a' /\
    ausd a' + total (elements (afree a')) = ausd a + total (elements (afree a)) /\
    ausd a' <= ausd a + Blksz /\
    (forall x, infree (elements (afree a')) x -> infree (elements (afree a)) x) /\
    (forall b, logblk a' ps' b -> logblk a ps b \/ infree (elements (afree a)) b) /\
    (forall b, ~ logblk a ps b -> ~ infree (elements (afree a)) b -> d' !! b = d !! b) /\
    lrun empty_space (es ++ es') (fun x => T x /\ (infree (elements (afree a)) x -> infree (elements (afree a')) x)).
Proof.
  intros Happ Hf Hrun Hst HF. destruct Happ as [(H1 & H2 & H3 & H4 & H5 & H6 & H7)|(n & q & H1 & Htook & H3 & H4 & H5 & H6 & H7)].
  - exists ps, [e]. subst d'. rewrite H2, H3. assert (0 <= Blksz) by done. split_and!; try done; [by left|lia|by auto|].
    apply (lrun_snoc _ _ L); [done|]. apply (lstep_ext _ _ T); [done|]. intros x. tauto.
  - exists (ps ++ [q]), [LAlloc n Blksz; e]. pose proof Htook as (Hr & Hin & Hf' & Ht & Hx).
    split_and!; try done.
    + right. by exists n.
    + cbn [blkrange len] in Ht. lia.
    + lia.
    + intros x Hx'. by apply Hx.
    + intros b [Hb| ->]%H6; [by left|]. right. apply Hin, rin_blk.
    + intros b Hb Hnf. apply H7; [done|]. intros ->. apply Hnf, Hin, rin_blk.
    + change [LAlloc n Blksz; e] with ([LAlloc n Blksz] ++ [e]). rewrite app_assoc.
      apply (lrun_snoc _ _ (fun x => L x /\ ~ rin (blkrange n) x)).
      * apply (lrun_snoc _ _ L); [done|]. split; [|done]. intros x Hxn. by apply HF, Hin.
      * eapply lstep_ext; [apply (lstep_minus _ _ _ (blkrange n) Hst)|].
        -- intros x Hxn. by apply HF, Hin.
        -- intros x. specialize (Hx x). specialize (Hin x). tauto.
Qed.
