(* ===== verification/Logged.v ===== *)
(** What an arena's operations do to its free space and its log, one by one:
    allocation, free, barrier and flush, each from any arena that satisfies
    [arena_ok] (Alloc.v). *)

From S2P Require Import Prelude Layout Hash Pack Node Avl Ranges Blk Alloc.

Section Logged.
  Context (priv : bool) (incache wfail : Z -> bool).
  (** No freed block is left in the cache, and writes succeed. *)
  Hypothesis Hcache : forall x, incache x = false.
  Hypothesis Hwrite : forall x, wfail x = false.

(** * The operations *)

Lemma holds_self a : free_ok (afree a) -> ausd a = asz a - total (elements (afree a)) ->
  holds a (infree (elements (afree a))).
Proof. intros. split_and!; done. Qed.

(** Why an allocation may be refused: data leaves twice the reserve, everything
    else its log's floor, and only a privileged process takes the reserve. *)
Definition refused (a : Arena) (dat useres : bool) : Prop :=
  (dat = true /\ useres = false /\ asz a - ausd a <= 2 * aresv a) \/
  asz a - ausd a <= Logfloor * Blksz \/ (priv = false /\ asz a - ausd a <= aresv a).

(** What an allocation comes to: the log has no block to grow into, the arena
    has no room, or the block [b] goes from the free space to the caller. *)
Definition alloc_ok (a : Arena) (d : disk) (ps : list Z) (es : list lent) (dat useres : bool)
    (r : res (Arena * disk * Z)) : Prop :=
  (r = Fail (Error Efull) /\ priv = false /\ asz a - ausd a <= aresv a + Blksz /\
   (dat = true -> useres = false -> 2 * aresv a < asz a - ausd a)) \/ (r = Ok (a, d, -1) /\ refused a dat useres) \/
  exists a' d' b ps' es', r = Ok (a', d', b) /\ b <> -1 /\
    arena_ok a' d' ps' (es ++ es') /\ range_ok (blkrange b) /\
    (forall x, rin (blkrange b) x -> infree (elements (afree a)) x /\ ~ infree (elements (afree a')) x) /\
    (forall x, infree (elements (afree a')) x -> infree (elements (afree a)) x) /\
    (forall c, logblk a' ps' c -> (logblk a ps c \/ infree (elements (afree a)) c) /\ c <> b) /\ same_shape a a'.

Lemma alloc_spec a d ps es dat useres seq :
  arena_ok a d ps es -> alloc_ok a d ps es dat useres (arenaalloc priv incache wfail a d dat useres seq).
Proof.
  intros [Hlog Hu Hh Hrun Hin]. pose proof Hh as (Hf & Hused & _). unfold arenaalloc.
  assert (forall r, (r = Ok (a, -1) /\ refused a dat useres) \/
      (exists a1 b, r = Ok (a1, b) /\ took (afree a) (afree a1) (blkrange b) /\ a1 = setfree a (afree a1) (ausd a + Blksz) /\
         Logfloor * Blksz < asz a - ausd a /\ (dat = true -> useres = false -> 2 * aresv a < asz a - ausd a)) ->
    alloc_ok a d ps es dat useres ('(a, b) ← r; if b =? -1 then Ok (a, d, -1)
      else '(a, d) ← logappend priv incache wfail a d b Blksz LogAlloc; Ok (a, d, b))) as Hgo; cycle 1.
  { apply Hgo. unfold refused. destruct (dat && negb useres && _) eqn:E1.
    { left. split; [done|]. left. apply andb_true_iff in E1 as [[-> E]%andb_true_iff ?]. destruct useres; [done|]. lia. }
    destruct (Z.leb_spec (asz a - ausd a) (Logfloor * Blksz)) as [E2|E2]; [left; auto|].
    destruct (blkalloc_lk_spec priv a seq Hf) as (a1 & b & -> & _ & [(-> & -> & [Hno|Hno])|[Ht Ea]]); [left; auto| |].
    2: { right. exists a1, b. split_and!; try done. intros -> ->. apply Z.leb_gt in E1. lia. }
    left. split; [done|]. right. left. rewrite Hused, Hno. change (total []) with 0. change (Logfloor * Blksz) with 131072. lia. }
  intros r [[-> Href]|(a1 & b & -> & Htook & Ea1 & Hfloor & Hdat)]; rewrite bind_ok; [right; left; done|].
  pose proof Htook as (Hr & Hbin & Hf1 & Htot & Hx). pose proof Hr as (B1 & _ & B3 & B4 & _). cbn [off len blkrange] in B1, B3, B4.
  rewrite (proj2 (Z.eqb_neq b (-1))) by lia.
  assert (log_ok a1 d ps es) as Hlog1 by (rewrite Ea1; by destruct Hlog).
  assert (forall c, logblk a1 ps c <-> logblk a ps c) as Hblk1 by (by rewrite Ea1).
  assert (log_used a1 ps) as Hu1.
  { intros c Hc%Hblk1. apply (used_keep a); [by apply Hu|by rewrite Ea1|by rewrite Ea1|]. intros x _. rewrite Hx. by intros [? _]. }
  assert (ah0 a1 = ah0 a /\ asz a1 = asz a /\ ausd a1 = ausd a + Blksz /\ aresv a1 = aresv a) as (Eh0 & Esz & Eus & Ers) by (by rewrite Ea1).
  assert (forall x, infree (elements (afree a1)) x -> inspace a1 x) as Hfin1.
  { intros x Hx1. unfold inspace. rewrite Eh0, Esz. by apply Hin, Hx. }
  destruct (logappend_spec priv incache wfail Hcache Hwrite a1 d ps es (LAlloc b Blksz) b Blksz LogAlloc Hlog1 Hu1 Hf1 Hfin1 Hr eq_refl (aligned_256 _ B4))
    as [[-> Hno]|(a' & d' & -> & Happ)]; [by left| |left; split; [done|]|].
  { intros _. rewrite Eh0, Esz. apply Hin, Hbin, rin_blk. }
  { destruct Hno as [[? Hno]|Hno]; [split_and!; [done|lia|done]|]. exfalso. rewrite Hno in Htot. change (total []) with 0 in Htot.
    cbn [len blkrange] in Htot. change (Logfloor * Blksz) with 131072 in Hfloor. change Blksz with 16384 in Htot. lia. }
  rewrite bind_ok. right. right.
  destruct (appended_run _ _ _ _ _ _ _ _ _ Happ Hf1 Hrun (took_step _ _ _ Htook)) as (ps' & es' & El & L1 & U1 & F1 & S1 & T1 & Le1 & Sub & Blk1 & Fr1 & R1).
  { intros x Hx1. apply Hx in Hx1 as [? ?]. done. }
  exists a', d', b, ps', es'. split; [done|]. split; [lia|].
  assert (same_shape a a') as Hshape by (unfold same_shape in *; rewrite Ea1 in S1; done).
  split_and!; try done.
  - destruct Hshape as (Sz & Sh & _). split; [done|done| | |].
    + apply holds_self; [done|]. rewrite Sz. cbn [len blkrange] in Htot. lia.
    + eapply lrun_ext; [exact R1|reflexivity|]. intros x. cbn. specialize (Sub x). tauto.
    + intros x Hx'. unfold inspace. rewrite Sz, Sh. apply Hin. by apply Hx, Sub.
  - intros x Hxb. split; [by apply Hbin|]. intros Hx'. apply Sub, Hx in Hx' as [_ Hn]. done.
  - intros x Hx'. by apply Hx, Sub.
  - intros c Hc%Blk1. rewrite Hblk1 in Hc. split; [destruct Hc as [?|?%Hx]; [by left|right; tauto]|].
    intros ->. destruct Hc as [Hc|Hc].
    + destruct (used_pos _ _ (Hu b Hc)) as [_ Hn]. apply Hn, Hbin, rin_blk.
    + apply Hx in Hc as [_ Hn]. apply Hn, rin_blk.
Qed.

(** A live block: allocated, and not the log's. *)
Definition live_ok (a : Arena) (ps : list Z) (b : Z) : Prop :=
  used_blk a b /\ ~ logblk a ps b.

(** Two different blocks have no byte in common. *)
Lemma blocks_apart b c x :
  range_ok (blkrange b) -> range_ok (blkrange c) -> b <> c -> rin (blkrange b) x -> ~ rin (blkrange c) x.
Proof.
  intros (_ & _ & _ & [m Hm] & _) (_ & _ & _ & [n Hn] & _) Hne. unfold rin. cbn [off len blkrange] in *.
  change Blksz with 16384 in *. intros H1 H2. apply Hne. assert (m = n) by lia. congruence.
Qed.

(** A free comes to the block's return to the free space, unless the log has
    no block to grow into. *)
Definition free_ok_res (a : Arena) (d : disk) (ps : list Z) (es : list lent) (b : Z) (r : res (Arena * disk)) : Prop :=
  (r = Fail (Error Efull) /\ noroom priv a) \/
  exists a' d' ps' es', r = Ok (a', d') /\ ausd a' <= ausd a /\ arena_ok a' d' ps' (es ++ es') /\ same_shape a a' /\
    (forall x, infree (elements (afree a')) x -> infree (elements (afree a)) x \/ rin (blkrange b) x) /\
    (forall x, rin (blkrange b) x -> infree (elements (afree a')) x) /\
    (forall c, logblk a' ps' c -> logblk a ps c \/ infree (elements (afree a)) c) /\
    (forall c, ~ logblk a ps c -> ~ infree (elements (afree a)) c -> d' !! c = d !! c).

Lemma dealloc_spec a d ps es b :
  arena_ok a d ps es -> live_ok a ps b -> free_ok_res a d ps es b (blkdealloc_lk priv incache wfail a d b).
Proof.
  intros [Hlog Hu Hh Hrun Hin] ((Hr & Hb & Hnf) & Hnl). pose proof Hh as (Hf & Hused & _). unfold blkdealloc_lk.
  pose proof Hr as (_ & _ & _ & B4 & _). cbn [off blkrange] in B4.
  destruct (logappend_spec priv incache wfail Hcache Hwrite a d ps es (LFree b Blksz) b Blksz LogFree Hlog Hu Hf Hin Hr eq_refl (aligned_256 _ B4))
    as [[-> ?]|(a' & d' & -> & Happ)]; [by right; left|intros _; by apply Hb, rin_blk|by left|]. rewrite bind_ok.
  set (T := fun x => infree (elements (afree a)) x \/ rin (blkrange b) x).
  destruct (appended_run a a' d d' ps es (LFree b Blksz) (infree (elements (afree a))) T Happ Hf Hrun)
    as (ps' & es' & El & L1 & U1 & F1 & S1 & T1 & Le1 & Sub & Blk1 & Fr1 & R1).
  { split; [exact Hnf|done]. }
  { intros x Hx. split; [done|]. intros Hxb. by apply (Hnf x). }
  destruct (freerange_spec (afree a') b Blksz F1 Hr) as [Hfr _].
  destruct Hfr as (t & -> & Ft & Tt & Xt); [intros x Hxb Hx'; apply (Hnf x Hxb); by apply Sub|].
  rewrite bind_ok. right. pose proof S1 as (Sz & Sh & _).
  assert (forall x, infree (elements (afree a)) x -> ~ rin (blkrange b) x) as Hnb by (intros x Hx Hxb; by apply (Hnf x)).
  do 2 eexists. exists ps', es'. split; [done|]. split; [cbn [setfree ausd]; lia|]. cbn [setfree afree]. split_and!; try done.
  - split; cbn [setfree afree asz ah0 ausd].
    + by destruct L1.
    + intros c Hc. pose proof (U1 c Hc) as Huc. apply (used_keep a'); [done|done|done|]. cbn [setfree afree]. intros x Hxc. rewrite Xt.
      intros [?|Hxb]; [done|]. destruct (decide (c = b)) as [->|Hne]; [|by apply (blocks_apart c b x) in Hxc; [|apply Huc|..]].
      exfalso. destruct (Blk1 b Hc) as [Hl|Hl]; [done|]. by apply (Hnf b (rin_blk b)).
    + apply holds_self; cbn [setfree afree asz ausd]; [done|]. cbn [len blkrange] in Tt. lia.
    + eapply lrun_ext; [exact R1|reflexivity|]. intros x. rewrite Xt. unfold T. specialize (Sub x). specialize (Hnb x). unfold blkrange in *. tauto.
    + intros x. unfold inspace. cbn [setfree asz ah0]. rewrite Xt, Sz, Sh. intros [Hx|Hxb]; [by apply Hin, Sub|by apply Hb].
  - intros x. rewrite Xt. intros [Hx|Hx]; [left; by apply Sub|by right].
  - intros x Hx. apply Xt. by right.
Qed.

Lemma barrier_spec a d ps es g :
  arena_ok a d ps es -> 0 <= g < 2 ^ 55 ->
  logbarrier priv incache wfail a d g = Fail (Error Efull) \/
  exists a' d' ps' es', logbarrier priv incache wfail a d g = Ok (a', d') /\ arena_ok a' d' ps' (es ++ es') /\
    (es' = [LSync g] \/ exists n, es' = [LAlloc n Blksz; LSync g]) /\ same_shape a a' /\
    (forall x, infree (elements (afree a')) x -> infree (elements (afree a)) x) /\
    (forall c, logblk a' ps' c -> logblk a ps c \/ infree (elements (afree a)) c).
Proof.
  intros [Hlog Hu Hh Hrun Hin] Hg. pose proof Hh as (Hf & Hused & _). unfold logbarrier.
  assert (Z.land (s64 (Z.shiftl g 8)) 0xff = 0) as Hal.
  { rewrite s64_id; rewrite Z.shiftl_mul_pow2 by lia; [|lia]. replace (g * 2 ^ 8) with (256 * g + 0) by lia. by rewrite land_low. }
  destruct (logappend_spec priv incache wfail Hcache Hwrite a d ps es (LSync g) _ 0 LogSync Hlog Hu Hf Hin Hg eq_refl Hal)
    as [[-> _]|(a' & d' & -> & Happ)]; [by right; right|done|by left|]. right.
  destruct (appended_run a a' d d' ps es (LSync g) (infree (elements (afree a))) (infree (elements (afree a))) Happ Hf Hrun)
    as (ps' & es' & E & L1 & U1 & F1 & S1 & T1 & Le1 & Sub & Blk1 & Fr1 & R1); [done|by auto|]. pose proof S1 as (Sz & Sh & _).
  exists a', d', ps', es'. split_and!; try done. split; try done.
  - apply holds_self; [done|]. lia.
  - eapply lrun_ext; [exact R1|reflexivity|]. intros x. specialize (Sub x). cbn. tauto.
  - intros x Hx. unfold inspace. rewrite Sz, Sh. by apply Hin, Sub.
Qed.

Lemma flush_spec a d ps es :
  arena_ok a d ps es ->
  exists a' d' tl es0 es1 img, flushlog wfail a d = Ok (a', d') /\ arena_ok a' d' ps es /\
    afree a' = afree a /\ same_shape a a' /\ (forall c, logblk a' ps c <-> logblk a ps c) /\
    alogtl a' = Some tl /\ es = es0 ++ es1 /\ segment d' (addr (aloghd a')) ps es0 (addr (bp (mb tl))) /\
    d' !! addr (bp (mb tl)) = Some img /\ log_image img (addr (bp (mb tl))) es1 Zb /\
    zlen (encls es1) + 24 <= Logspc /\ NoDup (ps ++ [addr (bp (mb tl))]) /\
    Forall (fun x => 0 <= x) (ps ++ [addr (bp (mb tl))]).
Proof.
  intros [Hlog Hu Hh Hrun Hin]. destruct Hlog as [(tl & es0 & es1 & Htl & -> & Hseg & R & Hlp & Ha & Hni & Hsz & Hfl) Hsp Hnd Hents].
  unfold flushlog. rewrite Htl. cbn [of_option]. rewrite bind_ok.
  assert (checkflag (bflag tl) 0 (Z.lor Bdirty Bstatic) = false) as -> by (by apply static_flag).
  destruct (write_log wfail d tl es1 R) as (m1 & m2 & img & -> & Hs & Hi & R2 & L2 & A2 & F2); [by rewrite Hlp; apply Zb_ok|done|by apply Hwrite|].
  rewrite bind_ok, Hs, bind_ok. do 2 eexists. exists m2, es0, es1, img. split; [done|].
  assert (segment (<[addr (bp (mb tl)) := img]> d) (addr (aloghd a)) ps es0 (addr (bp (mb tl)))) as Hseg'
    by (by apply segment_write).
  assert (forall c, logblk (setlogtl a m2 (aspare a) (anlog a)) ps c <-> logblk a ps c) as Hblk.
  { intros c. unfold logblk. cbn [setlogtl alogtl]. rewrite Htl. split; intros [?|(t & [= <-] & ->)]; auto; right; eauto. }
  rewrite A2. split_and!; try done.
  - split; try done.
    + split; cbn [setlogtl alogtl aloghd aspare]; try done.
      exists m2, es0, es1. rewrite L2, A2. split_and!; try done; [by rewrite (lr_size _ _ R2), <- (lr_size _ _ R)|by apply F2].
    + intros c Hc%Hblk. by apply Hu.
  - apply lookup_insert_eq.
  - by rewrite Hlp in Hi.
  - by rewrite <- (lr_size _ _ R).
  - apply NoDup_app. split; [done|]. split; [|apply NoDup_singleton]. by intros x Hx ->%list_elem_of_singleton.
  - apply Forall_app. split; [|by constructor]. apply Forall_forall. intros c Hc. apply (Hu c). by left.
Qed.

(** A live block stays live when the free space and the log only grow into
    space that was free. *)
Lemma live_keep a a' ps ps' b :
  live_ok a ps b -> asz a' = asz a -> ah0 a' = ah0 a ->
  (forall x, rin (blkrange b) x -> infree (elements (afree a')) x -> infree (elements (afree a)) x) ->
  (logblk a' ps' b -> logblk a ps b \/ infree (elements (afree a)) b) -> live_ok a' ps' b.
Proof.
  intros [H1 H2] S1 S2 Hx Hl. split; [by apply (used_keep a)|].
  intros [?|Hf]%Hl; [done|]. by apply (used_pos a b).
Qed.

(** The arena as loadarena makes it, before its log is read. *)
Definition unloaded (a : Arena) : Arena :=
  mkArena Nil (asz a) (asz a) (aresv a) (ah0 a) (aloghd a) None (aspare a) 0 0.

Lemma lrun_prefix S es1 es2 T : lrun S (es1 ++ es2) T -> exists M, lrun S es1 M.
Proof. intros (M & H & _)%lrun_app. eauto. Qed.

(** A chain of log blocks that is whole on the disk, the tail [q] included. *)
Definition chained (d : disk) (p : Z) (ps : list Z) (q : Z) (es : list lent) : Prop :=
  exists es0 es1 img, es = es0 ++ es1 /\ segment d p ps es0 q /\ d !! q = Some img /\ log_image img q es1 Zb /\
    zlen (encls es1) + 24 <= Logspc /\ NoDup (ps ++ [q]) /\ Forall (fun x => 0 <= x) (ps ++ [q]).

(** What loadlog makes of such a chain. *)
Lemma recover a d b qgen ps q es T :
  chained d (addr (aloghd a)) ps q es -> zlen (buf (aspare a)) = Blksz -> Forall lent_ok es ->
  lrun empty_space es T -> logflags (bflag b) ->
  exists fuel a2 d2 S, loadlog wfail fuel (unloaded a) d b (aloghd a) qgen false = Ok (a2, d2) /\
    lrun empty_space (upto qgen es).1 S /\ holds a2 S /\ (exists ps, log_ok a2 d2 ps (upto qgen es).1) /\
    asz a2 = asz a /\ ((upto qgen es).2 = false -> space_eq (infree (elements (afree a2))) T).
Proof.
  intros (es0 & es1 & img & -> & Hseg & Himg & Hi & Hz & Hnd & Hpos) Hsp Hents HT Hb.
  destruct (upto_prefix qgen (es0 ++ es1)) as [rest Ep].
  assert (exists S, lrun empty_space (upto qgen (es0 ++ es1)).1 S) as [S HS].
  { apply (lrun_prefix _ _ rest T). rewrite <- Ep. exact HT. }
  assert (holds (unloaded a) empty_space) as Hh0.
  { split; [split; [done|apply ranges_ok_nil]|]. split; [cbn; change (total []) with 0; lia|]. intros x. cbn. apply infree_nil. }
  destruct (loadlog_spec wfail qgen false d _ ps es0 _ Hwrite Hseg (Datatypes.S (length ps)) (unloaded a) b (aloghd a) img es1 empty_space S
    eq_refl Himg Hi Hz Hnd Hpos eq_refl Hb Hents Hh0 HS ltac:(lia)) as (a2 & d2 & El & Hh2 & Hld & F1 & F2 & F3 & F4 & F5).
  exists (Datatypes.S (length ps)), a2, d2, S. split_and!; try done.
  - destruct Hld as (tl2 & e0 & e1 & ps2 & T1 & T2 & T3 & T4 & T5 & T6 & T7 & T8 & T9 & T10 & T11).
    exists ps2. apply NoDup_app in T8 as (N1 & N2 & _). split; [| |done|].
    + exists tl2, e0, e1. rewrite F3. split_and!; try done.
      * rewrite Forall_forall in Hpos. apply Hpos, T9. apply elem_of_app. right. by apply list_elem_of_singleton.
      * intros Hin. apply (N2 _ Hin). by apply list_elem_of_singleton.
    + rewrite F4. exact Hsp.
    + rewrite Ep in Hents. by apply Forall_app in Hents as [? _].
  - intros Hno. rewrite (upto_all _ _ Hno) in HS. destruct Hh2 as (_ & _ & X2).
    intros x. rewrite (X2 x). by apply (lrun_det _ _ _ _ HS HT).
Qed.
End Logged.
