(* ===== verification/Compress.v ===== *)
(** sys/src/9/gefs/blk.c, compresslog: the log of an arena is replaced by a new
    one that lists the free ranges, and the walk of fs.c that then frees the
    blocks of the old log.

    The blocks of the new log are taken from the free space first, then the
    ranges that are left are written to them, and the blocks that were not
    needed are freed again.  The old log is not touched: until sync writes the
    arena's header, which still points to it, a crash recovers the arena from
    it. *)

From S2P Require Import Prelude Layout Hash Pack Node Avl Ranges Blk Alloc Logged.

(** * The code *)

(** for(r = (Arange* )avlmin(t); r != nil; r = (Arange* )avlnext(r)) *)
Fixpoint rangelist (fuel : nat) (t : avl Arange) (r : option Arange) : list Arange :=
  match fuel, r with
  | S fuel, Some r => r :: rangelist fuel t (next t r)
  | _, _ => []
  end.
Definition walk (t : avl Arange) : list Arange := rangelist (length (elements t)) t (avlmin t).

(** The pessimistic estimate of the blocks needed for [nr] ranges, an int. *)
Definition nblks (nr : Z) : Z :=
  let sz := 16 * nr in
  s32 (Z.quot (sz + Logspc) (Logspc - Logslop) + Z.quot (s32 (16 * nr)) (Logspc - Logslop) + 1).

(** The buffer mklogblk takes is the one that is not the tail's. *)
Definition setspare (a : Arena) (b : Mblk) : Arena :=
  mkArena (afree a) (asz a) (ausd a) (aresv a) (ah0 a) (aloghd a) (alogtl a) b (anlog a) (alast a).

Section Code.
  Context (priv : bool) (incache wfail : Z -> bool).

Fixpoint reserve (n : nat) (a : Arena) : res (Arena * list Z) :=
  match n with
  | O => Ok (a, [])
  | S n =>
      '(a, o) ← blkalloc_lk priv a true;
      if o =? -1 then Fail (Error Efull) else
      '(a, blks) ← reserve n a;
      Ok (a, o :: blks)
  end.

(** Fills the log with the ranges; the blocks left and the number of blocks
    finished are returned with the block being logfilled. *)
Fixpoint fill (a : Arena) (d : disk) (b : Mblk) (blks : list Z) (nlog : Z) (rs : list Arange)
    : res (disk * Mblk * list Z * Z) :=
  match rs with
  | [] => Ok (d, b, blks, nlog)
  | r :: rs =>
      '(d, b, blks, nlog) ←
        (if Logspc - Logslop <=? logsz b then
           match blks with
           | [] => Fail Undef
           | o :: blks =>
               let b := setlogp b (mkBptr o (2 ^ 64 - 1) (-1)) in
               b ← finalize b;
               '(d, b) ← syncblk wfail d b;
               b ← mklogblk incache (setspare a b) o;
               Ok (d, b, blks, nlog + 1)
           end
         else Ok (d, b, blks, nlog));
      b ← logput b (widefree r);
      fill a d b blks nlog rs
  end.

Fixpoint release (blks : list Z) (a : Arena) (d : disk) : res (Arena * disk) :=
  match blks with
  | [] => Ok (a, d)
  | b :: blks => '(a, d) ← blkdealloc_lk priv incache wfail a d b; release blks a d
  end.

Definition compresslog (a : Arena) (d : disk) : res (Arena * disk) :=
  '(a, d) ← flushlog wfail a d;
  let nr := zlen (walk (afree a)) in
  '(a, blks) ← reserve (Z.to_nat (nblks nr)) a;
  match blks with
  | [] => Fail Undef
  | o :: rest =>
      b ← mklogblk incache a o;
      '(d, b, rest, nlog) ← fill a d b rest 0 (walk (afree a));
      b ← finalize b;
      '(d, b) ← syncblk wfail d b;
      tl ← of_option (alogtl a) Undef;
      release rest (mkArena (afree a) (asz a) (ausd a) (aresv a) (ah0 a) (mkBptr o (2 ^ 64 - 1) (-1)) (Some b) tl nlog nlog) d
  end.
End Code.

(** The blocks that fs.c frees once the new log is on the disk: those of the
    chain that starts at the old head. *)
Fixpoint logchain (fuel : nat) (d : disk) (b : Mblk) (p : Bptr) : res (list Z) :=
  if addr p =? -1 then Ok [] else
  match fuel with
  | O => Fail Fuel
  | S fuel => b ← readblk (dpread d) b p 0; l ← logchain fuel d b (logp b); Ok (addr p :: l)
  end.

(** * The ranges *)

Lemma rangelist_spec t : forall l2 l1, asc off (elements t) -> elements t = l1 ++ l2 ->
  rangelist (length l2) t (head l2) = l2.
Proof.
  induction l2 as [|r l2 IH]; intros l1 Hs E; [done|]. cbn [rangelist length head].
  destruct (walk_mid t r l1 l2 Hs E) as [_ ->]. f_equal. apply (IH (l1 ++ [r])); [done|]. by rewrite <- app_assoc.
Qed.

Lemma walk_elements t : free_ok t -> walk t = elements t.
Proof.
  intros [_ H]. unfold walk, avlmin. rewrite bottom_spec. apply (rangelist_spec t _ []); [by apply ranges_asc|done].
Qed.

(** The new log means the ranges it lists. *)
Definition wides (rs : list Arange) : list lent := (fun r => LWide (off r) (len r)) <$> rs.

Lemma encl_wide r : encl (LWide (off r) (len r)) = widefree r.
Proof. by destruct r. Qed.

Lemma zlen_wides rs : zlen (encls (wides rs)) = 16 * zlen rs.
Proof.
  induction rs as [|r rs IH]; [done|]. change (wides (r :: rs)) with (LWide (off r) (len r) :: wides rs).
  rewrite encls_cons, zlen_app, encl_wide, zlen_cons, IH. unfold widefree. rewrite zlen_app, !zlen_pack. lia.
Qed.

Lemma wides_run rs : ranges_ok rs -> lrun empty_space (wides rs) (infree rs).
Proof.
  induction rs as [|r rs IH] using rev_ind; intros H.
  - constructor. intros x. apply infree_nil.
  - apply ranges_ok_app in H as (H1 & H2 & Ha). unfold wides. rewrite fmap_app. cbn [fmap list_fmap].
    apply (lrun_snoc _ _ (infree rs)); [by apply IH|]. destruct r as [o l]. cbn [lstep off len]. split.
    + intros x Hx (s & Hs & Hxs). specialize (Ha s (mkArange o l) Hs ltac:(by apply list_elem_of_singleton)).
      unfold apart, rin in *. cbn [off len] in *. lia.
    + intros x. rewrite infree_app, infree_cons, infree_nil. tauto.
Qed.

Lemma wides_ok rs : ranges_ok rs -> Forall lent_ok (wides rs).
Proof. intros [H _]. unfold wides. rewrite Forall_fmap. eapply Forall_impl; [exact H|]. by intros [o l]. Qed.

(** * Taking the blocks *)

(** [a'] is [a] without the free blocks [bs]. *)
Definition reserved (a a' : Arena) (bs : list Z) : Prop :=
  a' = setfree a (afree a') (ausd a + zlen bs * Blksz) /\ free_ok (afree a') /\
  total (elements (afree a')) = total (elements (afree a)) - zlen bs * Blksz /\
  (length (elements (afree a')) <= length (elements (afree a)))%nat /\
  (forall x, infree (elements (afree a')) x -> infree (elements (afree a)) x) /\
  NoDup bs /\
  (forall b, b ∈ bs -> range_ok (blkrange b) /\
     forall x, rin (blkrange b) x -> infree (elements (afree a)) x /\ ~ infree (elements (afree a')) x).

Lemma reserve_spec priv n : forall a, free_ok (afree a) ->
  (reserve priv n a = Fail (Error Efull) /\
     (total (elements (afree a)) < Z.of_nat n * Blksz \/ (priv = false /\ asz a - ausd a <= aresv a + Z.of_nat n * Blksz))) \/
  exists a' bs, reserve priv n a = Ok (a', bs) /\ length bs = n /\ reserved a a' bs.
Proof.
  induction n as [|n IH]; intros a Hf; cbn [reserve].
  { right. exists a, []. split; [done|]. split; [done|]. unfold reserved. change (zlen []) with 0. rewrite !Z.mul_0_l, Z.add_0_r, Z.sub_0_r.
    split_and!; try done; [by destruct a|constructor|].
    intros b Hb. by apply not_elem_of_nil in Hb. }
  destruct (blkalloc_lk_spec priv a true Hf) as (a1 & o & -> & Hlen & [(-> & -> & Hno)|[Htook Ea]]); rewrite bind_ok.
  { left. split; [done|]. assert (0 < Blksz) by done. destruct Hno as [[? ?]|E]; [right; split; [done|nia]|left]. rewrite E. change (total []) with 0. nia. }
  pose proof Htook as (Hr & Hin & Hf1 & Ht & Hx). cbn [len blkrange] in Ht.
  rewrite (proj2 (Z.eqb_neq o (-1))) by (destruct Hr as (? & _); cbn [off blkrange] in *; lia).
  destruct (IH a1 Hf1) as [[-> Hno]|(a2 & bs & -> & Hn & E2 & Hf2 & Ht2 & Hl2 & Hs2 & Hnd & Hb)]; rewrite ?bind_ok.
  { left. split; [done|]. assert (0 < Blksz) by done. rewrite Ea in Hno. cbn [setfree asz ausd aresv afree] in Hno.
    destruct Hno as [?|[? ?]]; [left; nia|right; split; [done|nia]]. }
  right. exists a2, (o :: bs). split; [done|]. split; [cbn; by rewrite Hn|]. unfold reserved. rewrite zlen_cons.
  split_and!; try done; try lia.
  - rewrite E2, Ea. cbn. f_equal. lia.
  - intros x Hx2%Hs2. by apply Hx.
  - constructor; [|done]. intros Hob. destruct (Hb o Hob) as [_ Hob']. destruct (Hob' o (rin_blk o)) as [Hof _].
    apply Hx in Hof as [_ Hof]. apply Hof, rin_blk.
  - intros b [->|Hb']%elem_of_cons.
    + split; [done|]. intros x Hxb. split; [by apply Hin|]. intros Hx2%Hs2%Hx. tauto.
    + destruct (Hb b Hb') as [? Hbx]. split; [done|]. intros x Hxb. destruct (Hbx x Hxb) as [Hx1 Hx2]. split; [apply Hx in Hx1; tauto|done].
Qed.

(** * Filling the log *)

(** The log being written from [hd] on: the blocks [ps] are on the disk, [b]
    is the buffer of the last one, and the entries are those of the ranges
    [rs]. *)
Definition filling (d : disk) (hd : Z) (ps : list Z) (b : Mblk) (rs : list Arange) : Prop :=
  exists rs0 rs1, rs = rs0 ++ rs1 /\ segment d hd ps (wides rs0) (addr (bp (mb b))) /\
    log_repr b (wides rs1) /\ logp b = Zb /\ logflags (bflag b) /\ logsz b <= 16320.

Section Fill.
  Context (incache wfail : Z -> bool).
  Hypothesis Hcache : forall x, incache x = false.
  Hypothesis Hwrite : forall x, wfail x = false.

Lemma logput_wide b rs r :
  log_repr b (wides rs) -> logsz b + 16 <= Logspc ->
  exists b', logput b (widefree r) = Ok b' /\ log_repr b' (wides (rs ++ [r])) /\ bp (mb b') = bp (mb b) /\
    logp b' = logp b /\ bflag b' = bflag b /\ logsz b' = logsz b + 16.
Proof.
  intros R Hsz. pose proof (zlen_wides [r]) as Hz. unfold encls in Hz. cbn [wides fmap list_fmap concat] in Hz.
  rewrite app_nil_r, encl_wide in Hz. change (zlen [r]) with 1 in Hz.
  destruct (logput_repr b (wides rs) (LWide (off r) (len r)) R) as (b' & E & H1 & H2 & H3 & H4 & H5); rewrite encl_wide in *; [lia|].
  exists b'. rewrite Hz in H5. split_and!; try done. unfold wides in *. by rewrite fmap_app.
Qed.

(** One range: into the block, *)
Lemma fill_here d hd ps b rs r :
  filling d hd ps b rs -> logsz b < Logspc - Logslop ->
  exists b', logput b (widefree r) = Ok b' /\ filling d hd ps b' (rs ++ [r]) /\ addr (bp (mb b')) = addr (bp (mb b)) /\
    logsz b' = logsz b + 16.
Proof.
  intros (rs0 & rs1 & -> & Hseg & R & Hlp & Hfl & Hsz) Hlt. pose proof (lr_size _ _ R) as E. rewrite zlen_wides in E.
  change (Logspc - Logslop) with 16308 in Hlt.
  destruct (logput_wide b rs1 r R) as (b' & Hput & R' & H2 & H3 & H4 & H5); [change Logspc with 16348; lia|].
  exists b'. split; [done|]. rewrite H2. split_and!; try done. exists rs0, (rs1 ++ [r]). rewrite H2, H3, H4, app_assoc.
  split_and!; try done. lia.
Qed.

(** or into the next one, [o], once the block is on the disk. *)
Lemma fill_next a d hd ps b rs r o :
  filling d hd ps b rs -> Logspc - Logslop <= logsz b -> 0 <= addr (bp (mb b)) -> 0 <= o < 2 ^ 63 -> addr (bp (mb b)) ∉ ps ->
  exists b1 img b2 b3 b', let lb := setlogp b (mkBptr o (2 ^ 64 - 1) (-1)) in
    finalize lb = Ok b1 /\ syncblk wfail d b1 = Ok (<[addr (bp (mb b)) := img]> d, b2) /\
    mklogblk incache (setspare a b2) o = Ok b3 /\ logput b3 (widefree r) = Ok b' /\
    filling (<[addr (bp (mb b)) := img]> d) hd (ps ++ [addr (bp (mb b))]) b' (rs ++ [r]) /\
    addr (bp (mb b')) = o /\ logsz b' = 16.
Proof.
  intros (rs0 & rs1 & -> & Hseg & R & Hlp & Hfl & Hsz) Hge Ha Ho Hni. set (nx := mkBptr o (2 ^ 64 - 1) (-1)).
  assert (log_repr (setlogp b nx) (wides rs1)) as R1 by (by destruct R).
  assert (bptr_ok nx) as Hnx by (unfold bptr_ok, is_s64, is_u64; cbn; lia).
  destruct (write_log wfail d (setlogp b nx) _ R1 Hnx Ha (Hwrite _)) as (b1 & b2 & img & Hf & Hs & Hi & R2 & L2 & A2 & F2).
  destruct (new_logblk incache (setspare a b2) o) as (b3 & Hm & R3 & Hlp3 & Ha3 & Hf3 & Hz3); [by apply (log_buf _ _ R2)|done|].
  destruct (logput_wide b3 [] r R3) as (b' & Hput & R' & H2 & H3 & H4 & H5); [rewrite Hz3; done|].
  exists b1, img, b2, b3, b'. cbn zeta. rewrite H5, H2, Ha3, Hz3. split_and!; try done.
  exists (rs0 ++ rs1), [r]. rewrite H2, H3, H4, H5, Ha3, Hz3. split_and!; try done.
  unfold wides in *. rewrite fmap_app. change o with (addr nx). eapply segment_snoc; [by apply segment_write|apply lookup_insert_eq|exact Hi|cbn; lia|].
  rewrite <- (lr_size _ _ R). change Logspc with 16348. lia.
Qed.

(** What fill does: the log is extended with the ranges [rs], in the blocks
    [used], which are enough when [blks] holds what does not fit in [b]. *)
Definition logfilled (d d' : disk) (hd : Z) (ps : list Z) (b b' : Mblk) (blks used rest : list Z) (rs : list Arange) : Prop :=
  blks = used ++ rest /\
  exists ps', ps' ++ [addr (bp (mb b'))] = ps ++ addr (bp (mb b)) :: used /\
    filling d' hd ps' b' rs /\
    (forall x, x ∉ addr (bp (mb b)) :: used -> d' !! x = d !! x).

Lemma fill_spec a hd : forall rs d b blks ps rs0 nlog,
  filling d hd ps b rs0 -> 16 * zlen rs <= 16320 - logsz b + 16320 * zlen blks ->
  NoDup (ps ++ addr (bp (mb b)) :: blks) -> Forall (fun x => 0 <= x < 2 ^ 63) (addr (bp (mb b)) :: blks) ->
  exists d' b' used rest, fill incache wfail a d b blks nlog rs = Ok (d', b', rest, nlog + zlen used) /\
    logfilled d d' hd ps b b' blks used rest (rs0 ++ rs).
Proof.
  induction rs as [|r rs IH]; intros d b blks ps rs0 nlog Hfill Hcap Hnd Hpos; cbn [fill].
  { exists d, b, [], blks. change (zlen []) with 0. rewrite Z.add_0_r, app_nil_r. split; [done|]. split; [done|]. by exists ps. }
  rewrite zlen_cons in Hcap. change (Logspc - Logslop) with 16308 in *. pose proof (zlen_nonneg rs).
  pose proof Hfill as (rs1 & rs2 & _ & _ & R & _ & _ & Hsz). pose proof (lr_size _ _ R) as Hz. rewrite zlen_wides in Hz.
  apply Forall_cons in Hpos as [Hb Hpos].
  destruct (Z.leb_spec 16308 (logsz b)) as [Hge|Hlt].
  - destruct blks as [|o blks]; [change (zlen []) with 0 in Hcap; lia|]. rewrite zlen_cons in Hcap.
    pose proof Hpos as [Ho _]%Forall_cons. apply NoDup_app in Hnd as Hnd'.
    destruct Hnd' as (N1 & N2 & N3). 
    destruct (fill_next a d hd ps b rs0 r o Hfill Hge) as (b1 & img & b2 & b3 & b' & H1 & H2 & H3 & H4 & H5 & H6 & H7); [lia|done| |].
    { intros Hin. apply (N2 _ Hin). by left. }
    rewrite H1, bind_ok, H2, bind_ok, H3, !bind_ok, H4, bind_ok.
    destruct (IH (<[addr (bp (mb b)) := img]> d) b' blks (ps ++ [addr (bp (mb b))]) (rs0 ++ [r]) (nlog + 1) H5) as
      (d' & bl & used & rest & -> & -> & ps' & E & F & Fr); [lia| |by rewrite H6|].
    { by rewrite H6, <- app_assoc. }
    exists d', bl, (o :: used), rest. rewrite zlen_cons. split; [do 2 f_equal; lia|]. split; [done|].
    exists ps'. rewrite E, H6, <- !app_assoc. split; [done|]. split; [by rewrite <- app_assoc in F|].
    intros x [Hx1 Hx2]%not_elem_of_cons. rewrite Fr by (by rewrite H6). by apply lookup_insert_ne.
  - rewrite bind_ok. destruct (fill_here d hd ps b rs0 r Hfill) as (b' & H1 & H2 & H3 & H4); [done|]. rewrite H1, bind_ok.
    destruct (IH d b' blks ps (rs0 ++ [r]) nlog H2) as (d' & bl & used & rest & -> & E & ps' & E' & F & Fr); [lia|by rewrite H3|by rewrite H3; constructor|].
    exists d', bl, used, rest. split; [done|]. split; [done|]. exists ps'. rewrite H3 in *. split; [done|]. by rewrite <- app_assoc in F.
Qed.
End Fill.

Lemma segment_frame d d' p ps es q : segment d p ps es q -> (forall x, x ∈ ps -> d' !! x = d !! x) -> segment d' p ps es q.
Proof.
  induction 1 as [p|p im es nx ps es' q Hd Hi Hn Hz _ IH]; intros Hx; [constructor|].
  econstructor; eauto; [by rewrite Hx; [|left]|]. apply IH. intros x Hin. apply Hx. by right.
Qed.

Lemma chained_frame d d' p ps q es : chained d p ps q es -> (forall x, x ∈ ps ++ [q] -> d' !! x = d !! x) -> chained d' p ps q es.
Proof.
  intros (es0 & es1 & img & E & Hseg & Hq & H) Hx. exists es0, es1, img. split; [done|]. split; [|split; [|done]].
  - eapply segment_frame; [done|]. intros x Hin. apply Hx, elem_of_app. by left.
  - rewrite Hx; [done|]. apply elem_of_app. right. by apply list_elem_of_singleton.
Qed.

Lemma logchain_next fuel d b p : 0 <= addr p ->
  logchain (S fuel) d b p = b ← readblk (dpread d) b p 0; l ← logchain fuel d b (logp b); Ok (addr p :: l).
Proof. intros H. cbn [logchain]. by rewrite (proj2 (Z.eqb_neq _ _)) by lia. Qed.

(** The walk of the old log finds exactly its blocks. *)
Lemma logchain_spec d : forall ps p es q b bp0, chained d p ps q es -> addr bp0 = p ->
  logchain (S (length ps)) d b bp0 = Ok (ps ++ [q]).
Proof.
  intros ps p es q b bp0 (es0 & es1 & img & _ & Hseg & Hq & Hi & _ & _ & Hpos). revert b bp0.
  induction Hseg as [p|p im es' nx ps es'' q Hd Him Hn Hz Hseg IH]; intros b bp0 Hp; cbn [length app];
    apply Forall_cons in Hpos as [Hp0 Hpos]; rewrite <- Hp in *; rewrite logchain_next by done.
  - destruct (read_image d bp0 img es1 Zb b Hq Hi) as (r & -> & _ & Hlp & _). rewrite bind_ok. cbn [logchain]. by rewrite Hlp.
  - destruct (read_image d bp0 im es' nx b Hd Him) as (r & -> & _ & Hlp & _). rewrite bind_ok, Hlp, (IH Hq Hi Hpos r nx eq_refl). done.
Qed.

(** * Freeing the blocks not needed, and the whole *)

Section Compress.
  Context (priv : bool) (incache wfail : Z -> bool).
  Hypothesis Hcache : forall x, incache x = false.
  Hypothesis Hwrite : forall x, wfail x = false.

(** More than [n] blocks, and the reserve, are free. *)
Definition spacefor (n : Z) (a : Arena) : Prop :=
  n * Blksz <= asz a - ausd a /\ (priv = false -> aresv a + n * Blksz < asz a - ausd a).

Definition released (a : Arena) (d : disk) (ps : list Z) (es : list lent) (blks : list Z) (r : res (Arena * disk)) : Prop :=
  (r = Fail (Error Efull) /\ ~ spacefor 1 a) \/
  exists a' d' ps' es', r = Ok (a', d') /\ arena_ok a' d' ps' (es ++ es') /\ same_shape a a' /\
    (forall x, infree (elements (afree a')) x -> infree (elements (afree a)) x \/ exists b, b ∈ blks /\ rin (blkrange b) x) /\
    (forall c, logblk a' ps' c -> logblk a ps c \/ infree (elements (afree a)) c \/ exists b, b ∈ blks /\ rin (blkrange b) c) /\
    (forall c, ~ logblk a ps c -> ~ infree (elements (afree a)) c -> (forall b, b ∈ blks -> ~ rin (blkrange b) c) -> d' !! c = d !! c).

Lemma release_spec : forall blks a d ps es,
  arena_ok a d ps es -> (forall b, b ∈ blks -> live_ok a ps b) -> NoDup blks ->
  released a d ps es blks (release priv incache wfail blks a d).
Proof.
  induction blks as [|b blks IH]; intros a d ps es Ha Hl Hnd; cbn [release].
  { right. exists a, d, ps, []. rewrite app_nil_r. split_and!; try done; auto. }
  apply NoDup_cons in Hnd as [Hb Hnd]. assert (b ∈ b :: blks) as Hbin by by left.
  destruct (dealloc_spec priv incache wfail Hcache Hwrite a d ps es b Ha (Hl b Hbin))
    as [[-> Hno]|(a1 & d1 & ps1 & es1 & -> & Hle & Ha1 & Hs1 & Hx1 & _ & Hb1 & Hf1)].
  { left. split; [done|]. intros [H1 H2]. destruct (ao_holds _ _ _ _ Ha) as (_ & Hu & _). assert (0 < Blksz) by done.
    destruct Hno as [[Hp ?]|E]; [specialize (H2 Hp); lia|]. rewrite E in Hu. change (total []) with 0 in Hu. lia. }
  rewrite bind_ok. destruct Hs1 as (S1 & S2 & S3 & S4).
  assert (forall c, c ∈ blks -> live_ok a1 ps1 c) as Hl1.
  { intros c Hc. destruct (Hl c ltac:(by right)) as ((Rc & _) & _). destruct (Hl b Hbin) as ((Rb & _) & _).
    apply (live_keep a a1 ps ps1); [by apply Hl; right|done|done| |by apply Hb1]. intros x Hxc [?|Hxb]%Hx1; [done|].
    exfalso. apply (blocks_apart c b x Rc Rb); [|done|done]. by intros ->. }
  destruct (IH a1 d1 ps1 (es ++ es1) Ha1 Hl1 Hnd) as [[-> Hno]|(a2 & d2 & ps2 & es2 & -> & Ha2 & (T1 & T2 & T3 & T4) & Hx2 & Hb2 & Hf2)].
  { left. split; [done|]. intros [H1 H2]. apply Hno. split; rewrite S1, ?S4; [lia|]. intros Hp. specialize (H2 Hp). lia. }
  right. exists a2, d2, ps2, (es1 ++ es2). rewrite app_assoc. split; [done|]. split; [done|]. split; [by unfold same_shape; rewrite T1, T2, T3, T4, S1, S2, S3, S4|]. split_and!.
  - intros x [[?|?]%Hx1|(c & Hc & ?)]%Hx2; [by left|right; exists b; by split|right; exists c; split; [by right|done]].
  - intros c [[?|?]%Hb1|[[?|?]%Hx1|(c' & Hc & ?)]]%Hb2; [by left|by right; left|by right; left|right; right; exists b; by split|].
    right. right. exists c'. split; [by right|done].
  - intros c Hc1 Hc2 Hc3. rewrite Hf2, Hf1; try done; [by intros [?|?]%Hb1| |intros c' ?; apply Hc3; by right].
    intros [?|Hcb]%Hx1; [done|]. by apply (Hc3 b Hbin).
Qed.

Lemma nblks_enough nr : 0 <= nr < 2 ^ 26 -> 1 <= nblks nr < 2 ^ 31 /\ 16 * nr <= 16320 * nblks nr.
Proof.
  intros Hn. unfold nblks. rewrite (s32_id (16 * nr)) by lia. change (Logspc - Logslop) with 16308. change Logspc with 16348.
  rewrite !Z.quot_div_nonneg by lia.
  assert (0 <= (16 * nr + 16348) / 16308 <= 2 ^ 20 /\ 0 <= (16 * nr) / 16308 <= 2 ^ 20 /\ 16 * nr <= 16308 * ((16 * nr + 16348) / 16308)) as (H1 & H2 & H3).
  { Z.div_mod_to_equations. lia. }
  rewrite s32_id by lia. lia.
Qed.

(** What compresslog comes to: there is no room for the new log, or the arena
    has a log that lists its free ranges, in blocks that were free; the old
    log is whole on the disk. *)
Definition compressed (a : Arena) (d : disk) (ps : list Z) (es : list lent) (r : res (Arena * disk)) : Prop :=
  (r = Fail (Error Efull) /\ ~ spacefor (nblks (zlen (elements (afree a))) + 1) a) \/
  exists a' d' ps' es' q, r = Ok (a', d') /\ arena_ok a' d' ps' es' /\
    asz a' = asz a /\ ah0 a' = ah0 a /\ aresv a' = aresv a /\
    (forall x, infree (elements (afree a')) x -> infree (elements (afree a)) x) /\
    (forall c, logblk a' ps' c -> infree (elements (afree a)) c) /\
    (forall c, logblk a ps c <-> c ∈ ps ++ [q]) /\ chained d' (addr (aloghd a)) ps q es.

(** The arena between the two loops: its log is the new one. *)
Lemma relogged a d ps es a2 d2 bs ps' used rest b p nlog spare :
  arena_ok a d ps es -> reserved a a2 bs -> bs = used ++ rest -> ps' ++ [addr (bp (mb b))] = used ->
  filling d2 p ps' b (elements (afree a2)) -> zlen (buf spare) = Blksz ->
  let a3 := mkArena (afree a2) (asz a2) (ausd a2) (aresv a2) (ah0 a2) (mkBptr p (2 ^ 64 - 1) (-1)) (Some b) spare nlog nlog in
  arena_ok a3 d2 ps' (wides (elements (afree a2))) /\
  (forall c, logblk a3 ps' c <-> c ∈ used) /\ (forall c, c ∈ rest -> live_ok a3 ps' c).
Proof.
  intros [_ _ Hh _ Hin] (Ea & Hf2 & Ht & _ & Hsub & Hnd & Hbs) -> Eu (rs0 & rs1 & E & Hseg & R & Hlp & Hfl & Hsz) Hspare a3.
  destruct Hh as (_ & Hused & _). apply NoDup_app in Hnd as (Hndu & Hdis & Hndr).
  assert (forall c, logblk a3 ps' c <-> c ∈ used) as Hblk.
  { intros c. rewrite <- Eu, elem_of_app, list_elem_of_singleton. unfold logblk. cbn [a3 alogtl].
    split; [intros [?|(t & [= <-] & ?)]; auto|intros [?|?]; [by left|right; eauto]]. }
  assert (forall c, c ∈ used \/ c ∈ rest -> range_ok (blkrange c) /\ forall x, rin (blkrange c) x -> infree (elements (afree a)) x /\ ~ infree (elements (afree a2)) x) as Hu.
  { intros c Hc. by apply Hbs, elem_of_app. }
  assert (forall x, infree (elements (afree a)) x -> inspace a2 x) as Hin2 by (by rewrite Ea).
  split; [split; cbn [a3 alogtl aloghd aspare afree asz ah0 ausd]|split; [done|]].
  - split; cbn [a3 alogtl aloghd aspare addr]; [|done| |].
    + exists b, (wides rs0), (wides rs1). rewrite E. unfold wides at 1. rewrite fmap_app. split_and!; try done.
      * destruct (Hu (addr (bp (mb b)))) as [(H0 & _) _]; [left; rewrite <- Eu; apply elem_of_app; right; by apply list_elem_of_singleton|].
        exact H0.
      * rewrite <- Eu in Hndu. apply NoDup_app in Hndu as (_ & Hd & _). intros Hi. apply (Hd _ Hi). by apply list_elem_of_singleton.
      * change Logspc with 16348. lia.
    + rewrite <- Eu in Hndu. by apply NoDup_app in Hndu as [? _].
    + apply wides_ok, Hf2.
  - intros c Hc%Hblk. destruct (Hu c (or_introl Hc)) as [Hr Hx]. split; [done|].
    split; [intros x Hxc; by apply Hin2, Hx|intros x Hxc; by apply Hx].
  - change (holds a3 (infree (elements (afree a3)))). apply holds_self; cbn [a3 afree ausd asz]; [done|].
    assert (ausd a2 = ausd a + zlen (used ++ rest) * Blksz /\ asz a2 = asz a) as [? ->] by (by rewrite Ea). lia.
  - apply wides_run, Hf2.
  - intros x Hx. by apply Hin2, Hsub.
  - intros c Hc. destruct (Hu c (or_intror Hc)) as [Hr Hx]. split; [split; [done|]|].
    { split; [intros x Hxc; by apply Hin2, Hx|intros x Hxc; by apply Hx]. }
    intros Hc'%Hblk. by apply (Hdis c).
Qed.

Lemma compress_spec a d ps es :
  arena_ok a d ps es -> zlen (elements (afree a)) < 2 ^ 26 -> compressed a d ps es (compresslog priv incache wfail a d).
Proof.
  intros Ha Hnr. unfold compresslog, compressed.
  destruct (flush_spec wfail Hwrite a d ps es Ha) as (a1 & d1 & tl & es0 & es1 & img & -> & Ha1 & Hf1 & (S1 & S2 & S3 & S4) & Hblk1 & Htl & Ees & Hch).
  rewrite bind_ok. pose proof (ao_holds _ _ _ _ Ha) as (Hfa & Hua & _). pose proof (ao_holds _ _ _ _ Ha1) as (Hfa1 & Hua1 & _).
  rewrite Hf1 in Hua1. assert (ausd a1 = ausd a) as Hu1 by lia.
  rewrite walk_elements by done. rewrite Hf1. set (nr := zlen (elements (afree a))) in *.
  destruct (nblks_enough nr) as [Hn1 Hn2]; [split; [apply zlen_nonneg|done]|].
  destruct (reserve_spec priv (Z.to_nat (nblks nr)) a1 Hfa1) as [[-> Hno]|(a2 & bs & -> & Hlen & Hres)]; rewrite ?bind_ok.
  { left. split; [done|]. intros [H1 H2]. rewrite Z2Nat.id in Hno by lia. rewrite Hf1 in Hno. assert (0 < Blksz) by done.
    destruct Hno as [?|[Hp ?]]; [nia|specialize (H2 Hp); rewrite S1, Hu1, S4 in *; nia]. }
  destruct bs as [|o rest]; [cbn in Hlen; lia|].
  pose proof Hres as (Ea2 & Hf2 & Ht2 & Hl2 & Hsub & Hnd & Hbs).
  destruct (new_logblk incache a2 o) as (b & -> & R & Hlp & Hba & Hbf & Hbz); [rewrite Ea2; apply (log_spare _ _ _ _ (ao_log _ _ _ _ Ha1))|done|].
  rewrite bind_ok, walk_elements by done.
  assert (Forall (fun x => 0 <= x < 2 ^ 63) (o :: rest)) as Hpos.
  { apply Forall_forall. intros x Hx. destruct (Hbs x Hx) as [(? & ? & ? & _) _]. cbn [off len blkrange] in *. lia. }
  destruct (fill_spec incache wfail Hcache Hwrite a2 o (elements (afree a2)) d1 b rest [] [] 0) as (d2 & b2 & used & rest' & -> & Hfill).
  { exists [], []. rewrite Hba, Hbz. split_and!; try done. constructor. }
  { rewrite Hbz. rewrite Hf1 in Hl2. unfold nr, zlen in Hn2 |- *. unfold zlen in nr. cbn [length] in Hlen. fold nr in Hlen, Hn2. lia. }
  { by rewrite Hba. } { by rewrite Hba. }
  destruct Hfill as (Erest & ps' & Eps & Hfill & Hframe). rewrite Hba in Eps, Hframe. cbn [app] in Eps, Hfill.
  rewrite bind_ok. pose proof Hfill as (rs0 & rs1 & Ers & Hseg & R2 & Hlp2 & Hfl2 & Hsz2).
  assert (addr (bp (mb b2)) ∈ o :: used) as Hb2 by (rewrite <- Eps; apply elem_of_app; right; by apply list_elem_of_singleton).
  destruct (write_log wfail d2 b2 _ R2) as (b3 & b4 & img2 & -> & Hs & Hi & R4 & L4 & A4 & F4); [by rewrite Hlp2; apply Zb_ok| |apply Hwrite|].
  { rewrite Forall_forall in Hpos. apply Hpos. rewrite Erest. set_solver. }
  rewrite bind_ok, Hs, bind_ok. assert (alogtl a2 = Some tl) as -> by (by rewrite Ea2).
  cbn [of_option]. rewrite bind_ok.
  set (d3 := <[addr (bp (mb b2)) := img2]> d2).
  destruct (relogged a1 d1 ps es a2 d3 (o :: rest) ps' (o :: used) rest' b4 o (0 + zlen used) tl Ha1 Hres) as (Ha3 & Hblk3 & Hlive3).
  { by rewrite Erest. } { by rewrite A4. }
  { exists rs0, rs1. rewrite A4, L4, (lr_size _ _ R4), <- (lr_size _ _ R2). split_and!; try done; [|by apply F4].
    apply segment_write; [done|]. pose proof Hnd as Hnd'. rewrite Erest in Hnd'. change (o :: used ++ rest') with ((o :: used) ++ rest') in Hnd'.
    rewrite <- Eps in Hnd'. apply NoDup_app in Hnd' as (Hnd' & _). apply NoDup_app in Hnd' as (_ & Hd & _). intros Hin. apply (Hd _ Hin). by apply list_elem_of_singleton. }
  { destruct (log_tl _ _ _ _ (ao_log _ _ _ _ Ha1)) as (tl' & e0 & e1 & Htl' & _ & _ & Rt & _). rewrite Htl in Htl'. injection Htl' as <-. by apply (log_buf _ _ Rt). }
  match goal with |- context [release _ _ _ _ ?a _] => set (a3 := a) in * end.
  destruct (release_spec rest' a3 d3 ps' _ Ha3 Hlive3) as [[-> Hno]|(a4 & d4 & ps4 & es4 & -> & Ha4 & (T1 & T2 & T3 & T4) & Hx4 & Hb4 & Hf4)].
  { rewrite Erest in Hnd. change (o :: used ++ rest') with ((o :: used) ++ rest') in Hnd. by apply NoDup_app in Hnd as (_ & _ & ?). }
  { left. split; [done|]. intros [H1 H2]. apply Hno. unfold spacefor. cbn [a3 asz ausd aresv].
    assert (asz a2 = asz a /\ ausd a2 = ausd a + nblks nr * Blksz /\ aresv a2 = aresv a) as (-> & -> & ->).
    { rewrite Ea2. cbn [setfree asz ausd aresv]. rewrite S1, Hu1, S4. unfold zlen. rewrite Hlen. split; [done|]. split; [lia|done]. }
    split; [lia|]. intros Hp. specialize (H2 Hp). lia. }
  right. exists a4, d4, ps4, (wides (elements (afree a2)) ++ es4), (addr (bp (mb tl))).
  assert (forall b x, b ∈ o :: rest -> rin (blkrange b) x -> infree (elements (afree a)) x) as Hbf2.
  { intros c x Hc Hx. rewrite <- Hf1. by apply (Hbs c Hc). }
  assert (forall b, b ∈ o :: used -> b ∈ o :: rest) as Hsu by (rewrite Erest; set_solver).
  assert (forall b, b ∈ rest' -> b ∈ o :: rest) as Hsr by (rewrite Erest; set_solver).
  assert (asz a2 = asz a /\ ah0 a2 = ah0 a /\ aresv a2 = aresv a) as (Z1 & Z2 & Z3) by (rewrite Ea2; by cbn [setfree asz ah0 aresv]).
  cbn [a3 asz ah0 aresv] in T1, T2, T4. rewrite T1, T2, T4. split_and!; try done.
  - intros x [Hx|(c & Hc & Hx)]%Hx4; [rewrite <- Hf1; by apply Hsub|by apply (Hbf2 c), Hx; apply Hsr].
  - intros c [Hc%Hblk3|[Hx|(c' & Hc & Hx)]]%Hb4; [by apply (Hbf2 c), rin_blk; apply Hsu|rewrite <- Hf1; by apply Hsub|by apply (Hbf2 c'), Hx; apply Hsr].
  - intros c. rewrite <- Hblk1. unfold logblk. rewrite Htl, elem_of_app, list_elem_of_singleton.
    split; [intros [?|(t & [= <-] & ?)]; auto|intros [?|?]; [by left|right; eauto]].
  - apply (chained_frame d1).
    { exists es0, es1, img. rewrite <- S3. split; [exact Ees|]. exact Hch. }
    intros x Hx. assert (~ infree (elements (afree a1)) x) as Hni.
    { apply (used_pos a1 x), (ao_used _ _ _ _ Ha1 x). unfold logblk. rewrite Htl.
      apply elem_of_app in Hx as [?|?%list_elem_of_singleton]; [by left|right; eauto]. }
    assert (forall b, b ∈ o :: rest -> ~ rin (blkrange b) x) as Hnb by (intros c Hc Hx'; apply Hni; by apply (Hbs c Hc)).
    assert (x ∉ o :: used) as Hnu by (intros Hin; apply (Hnb x (Hsu x Hin)), rin_blk).
    rewrite Hf4; [|by rewrite Hblk3|by intros ?%Hsub|by intros c Hc; apply Hnb, Hsr].
    unfold d3. rewrite lookup_insert_ne by (by intros <-). by apply Hframe.
Qed.
End Compress.
