(* ===== verification/Arena.v ===== *)
(** An arena as a state machine: allocations, frees, barriers, flushes and
    compressions of the log interleave in any order, and a crash reloads the
    log.  What one operation does is shown in Logged.v and Compress.v.

    [inv] says that the log on the disk and the open tail rebuild the free
    list, and that no live block (one handed out and not freed) is free or
    part of the log.  Every step keeps it, which gives the allocator's
    contract: a block handed out is not in use, a live block can be freed
    without a panic, and loadlog recovers the free list. *)

From S2P Require Import Prelude Layout Hash Pack Node Avl Ranges Blk Alloc Logged Compress.

Section Machine.
  Context (priv : bool) (incache wfail : Z -> bool).
  (** No freed block is left in the cache, and writes succeed. *)
  Hypothesis Hcache : forall x, incache x = false.
  Hypothesis Hwrite : forall x, wfail x = false.

(** * The state machine *)

(** The arena, its disk, and the blocks handed out and not yet freed.  The
    blocks of a log that compresslog has replaced are among them: fs.c walks
    the old log and frees them. *)
Definition astate : Type := Arena * disk * gset Z.

Inductive ostep : astate -> astate -> Prop :=
  | st_alloc a d L dat useres seq a' d' b :
      arenaalloc priv incache wfail a d dat useres seq = Ok (a', d', b) -> b <> -1 ->
      ostep (a, d, L) (a', d', {[b]} ∪ L)
  | st_full a d L dat useres seq a' d' :
      arenaalloc priv incache wfail a d dat useres seq = Ok (a', d', -1) -> ostep (a, d, L) (a', d', L)
  | st_free a d L b a' d' :
      b ∈ L -> blkdealloc_lk priv incache wfail a d b = Ok (a', d') -> ostep (a, d, L) (a', d', L ∖ {[b]})
  | st_barrier a d L g a' d' :
      0 <= g < 2 ^ 55 -> logbarrier priv incache wfail a d g = Ok (a', d') -> ostep (a, d, L) (a', d', L)
  | st_flush a d L a' d' : flushlog wfail a d = Ok (a', d') -> ostep (a, d, L) (a', d', L).

(** Those that add to the log, and its compression. *)
Inductive astep : astate -> astate -> Prop :=
  | st_op s s' : ostep s s' -> astep s s'
  | st_compress a d L a' d' fuel b old :
      zlen (elements (afree a)) < 2 ^ 26 -> compresslog priv incache wfail a d = Ok (a', d') ->
      logchain fuel d' b (aloghd a) = Ok old -> astep (a, d, L) (a', d', L ∪ list_to_set old).

(** The arena's log is [es], in the blocks [ps] and the tail; the blocks of
    [L] are live. *)
Definition logged (s : astate) (ps : list Z) (es : list lent) : Prop :=
  let '(a, d, L) := s in arena_ok a d ps es /\ forall b, b ∈ L -> live_ok a ps b.

Definition inv (s : astate) : Prop :=
  exists ps es, logged s ps es.

(** The walk of the old log can only end with the old log's blocks. *)
Lemma logchain_old a d ps q es b fuel old :
  chained d (addr (aloghd a)) ps q es -> logchain fuel d b (aloghd a) = Ok old -> old = ps ++ [q].
Proof.
  intros H Hc. pose proof (logchain_spec d ps _ es q b (aloghd a) H eq_refl) as Hw.
  assert (forall f1 f2 p c l1 l2, logchain f1 d c p = Ok l1 -> logchain f2 d c p = Ok l2 -> l1 = l2) as Hdet; [|by eapply Hdet].
  induction f1 as [|f1 IH]; intros [|f2] p c l1 l2; cbn [logchain]; destruct (addr p =? -1); try congruence.
  destruct (readblk _ _ _ _) as [r|]; [|done]. rewrite !bind_ok. intros H1 H2.
  destruct (logchain f1 _ _ _) as [m1|] eqn:E1; [|done]. destruct (logchain f2 _ _ _) as [m2|] eqn:E2; [|done].
  injection H1 as <-. injection H2 as <-. f_equal. by eapply IH.
Qed.

Lemma inv_compress a d L ps es a' d' fuel b old :
  zlen (elements (afree a)) < 2 ^ 26 -> compresslog priv incache wfail a d = Ok (a', d') ->
  logchain fuel d' b (aloghd a) = Ok old -> arena_ok a d ps es -> (forall b, b ∈ L -> live_ok a ps b) ->
  inv (a', d', L ∪ list_to_set old).
Proof.
  intros Hnr H Hc Ha HL.
  destruct (compress_spec priv incache wfail Hcache Hwrite a d ps es Ha Hnr)
    as [[E _]|(a1 & d1 & ps' & es' & q & E & Ha' & Sz & Sh & _ & Hx & Hl & Hold & Hch)]; rewrite H in E; [done|]. injection E as -> ->.
  rewrite (logchain_old _ _ _ _ _ _ _ _ Hch Hc).
  exists ps', es'. split; [done|]. intros c Hcin. split.
  - apply (used_keep a); [|done|done|by auto]. apply elem_of_union in Hcin as [Hc'|Hc'%elem_of_list_to_set]; [by apply HL|].
    apply (ao_used _ _ _ _ Ha). by apply Hold.
  - intros Hlc%Hl. apply elem_of_union in Hcin as [Hc'|Hc'%elem_of_list_to_set].
    + destruct (HL c Hc') as [Hu _]. by apply (used_pos a c).
    + apply Hold in Hc'. by apply (used_pos a c (ao_used _ _ _ _ Ha c Hc')).
Qed.

(** What an operation adds to the log goes at its end. *)
Lemma ostep_logged s s' ps es : ostep s s' -> logged s ps es ->
  exists ps' es', logged s' ps' (es ++ es') /\ asz s'.1.1 = asz s.1.1.
Proof.
  intros Hst. destruct Hst as [a d L dat useres seq a' d' b H Hb|a d L dat useres seq a' d' H|a d L b a' d' Hb H|a d L g a' d' Hg H|a d L a' d' H];
    intros [Ha HL]; cbn [fst].
  - destruct (alloc_spec priv incache wfail Hcache Hwrite a d ps es dat useres seq Ha) as [[E _]|[[E _]|(a1 & d1 & b1 & ps' & es' & E & _ & Ha' & Hr & Hx & Hsub & Hl & Hs)]];
      rewrite H in E; [done|by injection E as -> -> ->|]. injection E as -> -> ->.
    exists ps', es'. split; [|apply Hs]. split; [done|]. intros c [->%elem_of_singleton|Hc]%elem_of_union.
    + destruct Hs as (S1 & S2 & _). split; [split; [done|]; unfold inspace; rewrite S1, S2; split; [intros x Hxb; apply (ao_in _ _ _ _ Ha), (Hx x Hxb)|intros x Hxb; by apply (Hx x Hxb)]|]. intros Hlb. by apply (Hl b1) in Hlb as [_ ?].
    + apply (live_keep a _ ps); auto; try apply Hs. intros Hlc. by apply (Hl c).
  - destruct (alloc_spec priv incache wfail Hcache Hwrite a d ps es dat useres seq Ha) as [[E _]|[[E _]|(a1 & d1 & b1 & ps' & es' & E & Hn & _)]];
      rewrite H in E; [done| |by injection E as -> -> <-]. injection E as -> ->. exists ps, []. by rewrite app_nil_r.
  - destruct (dealloc_spec priv incache wfail Hcache Hwrite a d ps es b Ha (HL b Hb)) as [[E _]|(a1 & d1 & ps' & es' & E & _ & Ha' & Hs & Hx & _ & Hl & _)];
      rewrite H in E; [done|]. injection E as -> ->.
    exists ps', es'. split; [|apply Hs]. split; [done|]. intros c [Hc Hne%not_elem_of_singleton]%elem_of_difference.
    apply (live_keep a _ ps); auto; try apply Hs. intros x Hxc [?|Hxb]%Hx; [done|].
    destruct (HL b Hb) as ((Rb & _) & _). destruct (HL c Hc) as ((Rc & _) & _). exfalso. by apply (blocks_apart c b x Rc Rb).
  - destruct (barrier_spec priv incache wfail Hcache Hwrite a d ps es g Ha Hg) as [E|(a1 & d1 & ps' & es' & E & Ha' & _ & Hs & Hx & Hl)];
      rewrite H in E; [done|]. injection E as -> ->.
    exists ps', es'. split; [|apply Hs]. split; [done|]. intros c Hc. apply (live_keep a _ ps); auto; apply Hs.
  - destruct (flush_spec wfail Hwrite a d ps es Ha) as (a1 & d1 & tl & es0 & es1 & img & E & Ha' & Hf & Hs & Hl & _).
    rewrite H in E. injection E as -> ->. exists ps, []. rewrite app_nil_r. split; [|apply Hs]. split; [done|]. intros c Hc.
    apply (live_keep a _ ps); auto; try apply Hs; [by rewrite Hf|]. intros ?%Hl. by left.
Qed.

Lemma run_logged s s' : rtc ostep s s' -> forall ps es, logged s ps es ->
  exists ps' es', logged s' ps' (es ++ es') /\ asz s'.1.1 = asz s.1.1.
Proof.
  induction 1 as [s|s1 s2 s3 Hst _ IH]; intros ps es Hl; [exists ps, []; by rewrite app_nil_r|].
  destruct (ostep_logged s1 s2 ps es Hst Hl) as (ps2 & e2 & Hl2 & S2). destruct (IH ps2 _ Hl2) as (ps3 & e3 & Hl3 & S3).
  exists ps3, (e2 ++ e3). rewrite app_assoc. split; [done|congruence].
Qed.

Lemma inv_step s s' : inv s -> astep s s' -> inv s'.
Proof.
  intros Hinv Hst. destruct Hst as [s1 s2 Hst|a d L a' d' fuel b old Hnr H Hc]; destruct Hinv as (ps & es & Hl).
  - destruct (ostep_logged s1 s2 ps es Hst Hl) as (ps' & es' & Hl' & _). by exists ps', (es ++ es').
  - destruct Hl as [Ha HL]. by apply (inv_compress a d L ps es a' d' fuel b old).
Qed.

(** C6: the arena's invariant holds in every state that allocations, frees,
    barriers, flushes and compressions reach, in any order: the log on the disk and its open
    tail rebuild exactly the free list, the count of used bytes is the size
    less the free bytes, and no live block is free or part of the log. *)
Theorem arena_invariant s s' : inv s -> rtc astep s s' -> inv s'.
Proof. intros Hs H. induction H; eauto using inv_step. Qed.

(** C29: a block that is handed out was free, is no longer free, and has no byte
    in common with any live block or with the address of any block of the
    log. *)
Theorem alloc_exclusive a d L dat useres seq a' d' b :
  inv (a, d, L) -> arenaalloc priv incache wfail a d dat useres seq = Ok (a', d', b) -> b <> -1 ->
  range_ok (blkrange b) /\ (b ∉ L) /\
  (forall x, rin (blkrange b) x -> infree (elements (afree a)) x /\ ~ infree (elements (afree a')) x) /\
  (forall c x, c ∈ L -> rin (blkrange b) x -> ~ rin (blkrange c) x).
Proof.
  intros (ps & es & Ha & HL) H Hb.
  destruct (alloc_spec priv incache wfail Hcache Hwrite a d ps es dat useres seq Ha) as [[E _]|[[E _]|(a1 & d1 & b1 & ps' & es' & E & _ & Ha' & Hr & Hx & Hsub & Hl & Hs)]];
    rewrite H in E; [done|by injection E as -> -> ->|]. injection E as -> -> ->.
  assert (forall c x, c ∈ L -> rin (blkrange b1) x -> ~ rin (blkrange c) x) as Hd.
  { intros c x Hc Hxb Hxc. destruct (HL c Hc) as ((_ & _ & Hn) & _). by apply (Hn x Hxc), (Hx x Hxb). }
  split_and!; try done. intros Hin. by apply (Hd b1 b1 Hin (rin_blk b1)), rin_blk.
Qed.

(** A live block can be freed: blkdealloc_lk returns it to the free space
    and never panics; it fails only with the error that the disk is full, when
    the log has no block to grow into. *)
Theorem free_live a d L b :
  inv (a, d, L) -> b ∈ L ->
  blkdealloc_lk priv incache wfail a d b = Fail (Error Efull) \/
  exists a' d', blkdealloc_lk priv incache wfail a d b = Ok (a', d') /\
    (forall x, rin (blkrange b) x -> infree (elements (afree a')) x) /\ inv (a', d', L ∖ {[b]}).
Proof.
  intros (ps & es & Ha & HL) Hb. destruct (dealloc_spec priv incache wfail Hcache Hwrite a d ps es b Ha (HL b Hb)) as [[-> _]|(a1 & d1 & ps' & es' & E & _ & Ha' & Hs & Hx & Hin & Hl & _)];
    [by left|]. right. exists a1, d1. split; [done|]. split; [done|].
  apply (inv_step (a, d, L)); [by exists ps, es|]. by apply st_op, st_free.
Qed.

(** While more is free than the floor an arena keeps for its log, a process
    that may use the reserve is always given a block. *)
Theorem alloc_succeeds a d L useres seq :
  inv (a, d, L) -> priv = true -> Logfloor * Blksz < asz a - ausd a ->
  exists a' d' b, arenaalloc priv incache wfail a d false useres seq = Ok (a', d', b) /\ b <> -1.
Proof.
  intros (ps & es & Ha & HL) Hp Hfl.
  destruct (alloc_spec priv incache wfail Hcache Hwrite a d ps es false useres seq Ha) as [[_ [E _]]|[[_ E]|(a1 & d1 & b1 & ps' & es' & E & Hn & _)]]; [congruence| |eauto].
  exfalso. unfold refused in E. destruct E as [[? _]|[?|[? _]]]; [done|lia|congruence].
Qed.

(** ** Recovery *)

(** A crash of the arena [a] on the disk [d] after its log's tail was flushed:
    loadlog on a fresh arena, with the superblock of generation [qgen],
    rebuilds the free list and the count of [a0], and leaves the log [es]. *)
Definition recovers (a : Arena) (d : disk) (b : Mblk) (qgen : Z) (a0 : Arena) (es : list lent) : Prop :=
  exists a1 d1 fuel a2 d2, flushlog wfail a d = Ok (a1, d1) /\
    loadlog wfail fuel (unloaded a1) d1 b (aloghd a1) qgen false = Ok (a2, d2) /\
    elements (afree a2) = elements (afree a0) /\ ausd a2 = ausd a0 /\ exists ps, log_ok a2 d2 ps es.

(** What is recovered is what the log says up to its first barrier that the
    superblock does not have. *)
Lemma recovers_upto a d ps es b qgen a0 :
  arena_ok a d ps es -> logflags (bflag b) ->
  free_ok (afree a0) -> ausd a0 = asz a0 - total (elements (afree a0)) -> asz a0 = asz a ->
  lrun empty_space (upto qgen es).1 (infree (elements (afree a0))) ->
  recovers a d b qgen a0 (upto qgen es).1.
Proof.
  intros Ha Hb Hf0 Hu0 Hsz Hrun.
  destruct (flush_spec wfail Hwrite a d ps es Ha) as (a1 & d1 & tl & es0 & es1 & img & E & Ha1 & _ & (Sz & _) & _ & Htl & -> & Hch).
  destruct (recover wfail Hwrite a1 d1 b qgen ps (addr (bp (mb tl))) (es0 ++ es1) (infree (elements (afree a1))))
    as (fuel & a2 & d2 & S & El & HS & (G2 & U2 & X2) & Hlog & F1 & _); try apply Ha1; [by exists es0, es1, img|done|].
  exists a1, d1, fuel, a2, d2. split_and!; try done.
  - apply ranges_canonical; [apply G2|apply Hf0|]. intros x. rewrite (X2 x). by apply (lrun_det _ _ _ _ HS Hrun).
  - rewrite U2, Hu0, F1, Sz, Hsz. do 2 f_equal. apply ranges_canonical; [apply G2|apply Hf0|].
    intros x. rewrite (X2 x). by apply (lrun_det _ _ _ _ HS Hrun).
Qed.

(** Before a barrier the log has the same space. *)
Lemma lrun_barrier S es g T : lrun S (es ++ [LSync g]) T -> lrun S es T.
Proof.
  intros (M & H1 & H2)%lrun_app. eapply lrun_ext; [exact H1|done|].
  inversion H2 as [|? ? M1 ? ? Hst Hnil]; subst. inversion Hnil as [? ? Hx|]; subst. intros x. by rewrite (Hx x), (Hst x).
Qed.

(** The log at a barrier that the superblock does not have, and whatever comes
    after it. *)
Lemma upto_barrier qgen es e0 g es2 :
  (upto qgen es).2 = false -> e0 = [] \/ (exists n, e0 = [LAlloc n Blksz]) -> qgen <= g ->
  (upto qgen ((es ++ e0 ++ [LSync g]) ++ es2)).1 = es ++ e0.
Proof.
  intros Hes He Hg. rewrite <- app_assoc, upto_app, Hes. cbn [fst]. f_equal. apply Z.leb_le in Hg.
  destruct He as [->|[n ->]]; cbn; by rewrite Hg.
Qed.

(** C7: recovery.  Let [es] be the log of an arena, on the disk and in its
    open tail, and let the superblock have all its barriers.  After a flush of
    the tail, loadlog on a fresh arena rebuilds the free list and the count of
    used bytes, and the log [es].  And let a barrier be written that the
    superblock does not have: whatever the arena does then, short of a
    compression, and however much of it is on the disk, a crash takes the
    arena back to the state of the barrier: loadlog rebuilds the free list and
    the count it had then, and cuts the log before the barrier, on the disk
    too. *)
Theorem log_recovery a d L ps es b qgen :
  logged (a, d, L) ps es -> logflags (bflag b) -> (upto qgen es).2 = false ->
  recovers a d b qgen a es /\
  forall g a1 d1, 0 <= g < 2 ^ 55 -> qgen <= g -> logbarrier priv incache wfail a d g = Ok (a1, d1) ->
    exists e0, (e0 = [] \/ exists n, e0 = [LAlloc n Blksz]) /\
      forall a' d' L', rtc ostep (a1, d1, L) (a', d', L') -> recovers a' d' b qgen a1 (es ++ e0).
Proof.
  intros [Ha HL] Hb Hno. split.
  - rewrite <- (upto_all _ _ Hno) at 1. apply (recovers_upto a d ps); try done; try apply Ha.
    rewrite (upto_all _ _ Hno). apply Ha.
  - intros g a1 d1 Hg Hq Hbar.
    destruct (barrier_spec priv incache wfail Hcache Hwrite a d ps es g Ha Hg) as [E|(a1' & d1' & ps1 & es1 & E & Ha1 & He & Hs & Hx & Hl)];
      rewrite Hbar in E; [done|]. injection E as <- <-.
    assert (exists e0, es1 = e0 ++ [LSync g] /\ (e0 = [] \/ exists n, e0 = [LAlloc n Blksz])) as (e0 & -> & He0).
    { destruct He as [->|[n ->]]; [exists []; auto|exists [LAlloc n Blksz]; eauto]. }
    exists e0. split; [done|]. intros a' d' L' Hrun.
    assert (logged (a1, d1, L) ps1 (es ++ e0 ++ [LSync g])) as Hl1.
    { split; [done|]. intros c Hc. apply (live_keep a _ ps); auto; apply Hs. }
    destruct (run_logged _ _ Hrun ps1 _ Hl1) as (ps' & es' & [Ha' _] & Sz). cbn [fst] in Sz.
    rewrite <- (upto_barrier qgen es e0 g es') by done. apply (recovers_upto a' d' ps'); try done; try apply Ha1.
    rewrite upto_barrier by done. eapply lrun_barrier. rewrite <- app_assoc. apply Ha1.
Qed.

(** C13: compression of the log.  It succeeds when, besides the reserve of a
    process that may not take it, the free space has one block more than the
    estimate of what the new log needs.  Then:
    - the arena still satisfies the invariant, so the new log alone rebuilds
      its free list; the new log and whatever is no longer free took blocks
      that were free;
    - the walk that fs.c makes from the old head reads exactly the blocks of
      the old log, each once and none of them live, and they become blocks
      that can be freed;
    - a crash before the arena's header is written, which still has the old
      head, recovers the arena as it was: the disk has the old log whole. *)
Theorem compress_correct a d L :
  inv (a, d, L) -> zlen (elements (afree a)) < 2 ^ 26 ->
  (compresslog priv incache wfail a d = Fail (Error Efull) /\ ~ spacefor priv (nblks (zlen (elements (afree a))) + 1) a) \/
  exists a' d' old es, compresslog priv incache wfail a d = Ok (a', d') /\
    (forall b, logchain (length old) d' b (aloghd a) = Ok old) /\ NoDup old /\ (forall x, x ∈ old -> x ∉ L) /\
    inv (a', d', L ∪ list_to_set old) /\
    (forall x, infree (elements (afree a')) x -> infree (elements (afree a)) x) /\
    (forall b qgen, logflags (bflag b) -> exists fuel a2 d2 S,
       loadlog wfail fuel (unloaded a) d' b (aloghd a) qgen false = Ok (a2, d2) /\
       lrun empty_space (upto qgen es).1 S /\ holds a2 S /\
       ((upto qgen es).2 = false -> elements (afree a2) = elements (afree a) /\ ausd a2 = ausd a)).
Proof.
  intros (ps & es & Ha & HL) Hnr.
  destruct (compress_spec priv incache wfail Hcache Hwrite a d ps es Ha Hnr)
    as [?|(a' & d' & ps' & es' & q & E & Ha' & Sz & Sh & _ & Hx & Hl & Hold & Hch)]; [by left|right].
  exists a', d', (ps ++ [q]), es. split; [done|]. pose proof Hch as (e0 & e1 & img & _ & _ & _ & _ & _ & Hnd & _).
  assert (forall b, logchain (length (ps ++ [q])) d' b (aloghd a) = Ok (ps ++ [q])) as Hw.
  { intros b. rewrite length_app, Nat.add_1_r. by apply (logchain_spec d' ps (addr (aloghd a)) es q b (aloghd a)). }
  split_and!; try done.
  - intros x Hin%Hold Hlive. by destruct (HL x Hlive) as [_ ?].
  - by apply (inv_compress a d L ps es a' d' (length (ps ++ [q])) (aspare a)).
  - intros b qgen Hb.
    destruct (recover wfail Hwrite a d' b qgen ps q es (infree (elements (afree a))) Hch)
      as (fuel & a2 & d2 & S & El & HS & Hh & _ & F1 & Heq); try done; try apply Ha.
    exists fuel, a2, d2, S. split_and!; try done. intros Hno. destruct Hh as (G2 & U2 & _).
    assert (elements (afree a2) = elements (afree a)) as Eel.
    { apply ranges_canonical; [apply G2|apply (ao_holds _ _ _ _ Ha)|by apply Heq]. }
    split; [done|]. destruct (ao_holds _ _ _ _ Ha) as (_ & -> & _). by rewrite U2, F1, Eel.
Qed.

End Machine.

(** * An example: an arena of sixty free blocks *)

Definition ex_spare : Mblk :=
  mkMblk (mkBlk Tlog 0 0 0 0 (replicate (Z.to_nat Logspc) 0) Zb) 0 0 Zb (replicate (Z.to_nat Loghdsz) 0) Bstatic.
Definition ex_tail0 (k : Z) : Mblk :=
  mkMblk (mkBlk Tlog 0 0 0 0 (replicate (Z.to_nat Logspc) 0) (mkBptr ((k + 3) * Blksz) 0 0)) 0 0 Zb (replicate (Z.to_nat Loghdsz) 0) Bstatic.
Definition ex_entry (k : Z) : lent := LFree ((k + 4) * Blksz) (60 * Blksz).
Definition ex_tail (k : Z) : Mblk :=
  match logput (ex_tail0 k) (encl (ex_entry k)) with Ok b => b | Fail _ => ex_tail0 k end.
Definition ex_range (k : Z) : Arange := mkArange ((k + 4) * Blksz) (60 * Blksz).
Definition ex_at (k : Z) : Arena :=
  mkArena (Node Nil (ex_range k) 0 Nil) (62 * Blksz) (2 * Blksz) 0 ((k + 1) * Blksz) (mkBptr ((k + 3) * Blksz) 0 0)
    (Some (ex_tail k)) ex_spare 1 0.
Definition ex_arena : Arena := ex_at 0.

Lemma ex_range_ok k : 0 <= k < 1000 -> range_ok (ex_range k).
Proof.
  intros Hk. unfold range_ok, ex_range. cbn [off len]. change Blksz with 16384.
  split_and!; try lia; [by exists (k + 4)|by exists 60].
Qed.

Lemma ex_tail_repr k :
  0 <= k < 1000 ->
  log_repr (ex_tail k) [ex_entry k] /\ bp (mb (ex_tail k)) = mkBptr ((k + 3) * Blksz) 0 0 /\ logp (ex_tail k) = Zb /\
  bflag (ex_tail k) = Bstatic /\ logsz (ex_tail k) = zlen (encl (ex_entry k)).
Proof.
  intros Hk. assert (log_repr (ex_tail0 k) []) as R.
  { split; cbn [ex_tail0 mb btyp hdr data logsz nval bvalsz nbuf bufsz]; try done;
      try (unfold zlen; rewrite length_replicate; done); repeat constructor; done. }
  destruct (logput_repr (ex_tail0 k) [] (ex_entry k) R) as (b & E & Rb & H1 & H2 & H3 & H4); [done|].
  unfold ex_tail. rewrite E. split_and!; try done.
Qed.

Lemma ex_spare_size : zlen (buf ex_spare) = Blksz /\ logflags (bflag ex_spare).
Proof.
  split; [|done]. unfold buf. cbn [ex_spare hdr mb data]. rewrite zlen_app. unfold zlen. by rewrite !length_replicate.
Qed.
#[local] Opaque ex_tail ex_spare.

Lemma ex_at_ok k : 0 <= k < 1000 -> arena_ok (ex_at k) ∅ [] [ex_entry k].
Proof.
  intros Hk. destruct (ex_tail_repr k Hk) as (R & Hbp & Hlp & Hfl & Hsz). pose proof (ex_range_ok k Hk) as Hr.
  split.
  - split; cbn [ex_at alogtl aloghd aspare].
    + exists (ex_tail k), [], [ex_entry k]. rewrite Hbp, Hlp, Hfl, Hsz. cbn [addr].
      split; [reflexivity|]. split; [reflexivity|]. split; [constructor|]. split; [exact R|]. split; [reflexivity|].
      split; [change Blksz with 16384; lia|]. split; [apply not_elem_of_nil|]. split; [|reflexivity].
      change Logspc with 16348. destruct (encl_bounds (ex_entry k)); lia.
    + apply ex_spare_size.
    + constructor.
    + constructor; [exact Hr|constructor].
  - intros b [Hb|(tl & Htl & ->)]; [destruct (not_elem_of_nil _ Hb)|]. cbn [ex_at alogtl] in Htl.
    assert (tl = (ex_tail k)) as -> by congruence. rewrite Hbp. cbn [addr ex_at afree elements app].
    unfold used_blk, inspace, range_ok, rin, blkrange. cbn [off len ah0 asz ex_at].
    change Blksz with 16384. split; [split_and!; try lia; [by exists (k + 3)|by exists 1]|]. split; [intros; lia|].
    intros x Hx. cbn [ex_at afree elements app]. rewrite infree_cons, infree_nil. unfold rin, ex_range. cbn [off len].
    change Blksz with 16384. lia.
  - apply holds_self; cbn [ex_at afree elements app ausd asz].
    + split; [cbn; lia|]. cbn [elements app]. apply ranges_ok_cons. split; [exact Hr|]. split; [apply ranges_ok_nil|].
      intros s Hs. destruct (not_elem_of_nil _ Hs).
    + rewrite total_cons. change (total []) with 0. cbn [ex_range len]. lia.
  - apply lrun_one. cbn [ex_at afree elements app]. split; [by intros x _ []|]. intros x. rewrite infree_cons, infree_nil.
    unfold ex_range, empty_space. tauto.
  - intros x. unfold inspace. cbn [ex_at afree elements app ah0 asz]. rewrite infree_cons, infree_nil. unfold rin, ex_range. cbn [off len].
    change Blksz with 16384. lia.
Qed.

Lemma ex_arena_ok : arena_ok ex_arena ∅ [] [ex_entry 0].
Proof. by apply ex_at_ok. Qed.

Lemma ex_inv : inv (ex_arena, ∅, ∅).
Proof. exists [], [ex_entry 0]. split; [exact ex_arena_ok|]. by intros b Hb%elem_of_empty. Qed.

(** A first allocation from it. *)
Lemma ex_alloc :
  exists a' d' b, arenaalloc true (fun _ => false) (fun _ => false) ex_arena ∅ false false true = Ok (a', d', b) /\ b <> -1.
Proof.
  destruct (alloc_spec true (fun _ => false) (fun _ => false) (fun _ => eq_refl) (fun _ => eq_refl) ex_arena ∅ [] [ex_entry 0] false false true ex_arena_ok)
    as [[_ [H _]]|[[_ H]|(a' & d' & b & ps' & es' & E & Hb & _)]]; [done| |eauto].
  unfold refused in H. destruct H as [[H _]|[H|[H _]]]; [done| |done]. exfalso. revert H.
  cbn [ex_arena ex_at asz ausd]. change Blksz with 16384. change Logfloor with 8. lia.
Qed.

Lemma arena_invariant_witness :
  exists a' d' b, inv (a', d', {[b]} ∪ ∅) /\ b <> -1.
Proof.
  destruct ex_alloc as (a' & d' & b & E & Hb). exists a', d', b. split; [|exact Hb].
  apply (arena_invariant true (fun _ => false) (fun _ => false) (fun _ => eq_refl) (fun _ => eq_refl) (ex_arena, ∅, ∅)).
  - exact ex_inv.
  - eapply rtc_l; [|apply rtc_refl]. apply st_op; econstructor; [exact E|exact Hb].
Defined.

Lemma alloc_exclusive_witness :
  exists a' d' b, arenaalloc true (fun _ => false) (fun _ => false) ex_arena ∅ false false true = Ok (a', d', b) /\
    infree (elements (afree ex_arena)) b /\ ~ infree (elements (afree a')) b.
Proof.
  destruct ex_alloc as (a' & d' & b & E & Hb). exists a', d', b. split; [exact E|].
  exact (proj1 (proj2 (proj2 (alloc_exclusive true (fun _ => false) (fun _ => false) (fun _ => eq_refl) (fun _ => eq_refl)
    ex_arena ∅ ∅ false false true a' d' b ex_inv E Hb))) b (rin_blk b)).
Defined.

Lemma free_live_witness :
  exists a d b, inv (a, d, {[b]} ∪ ∅) /\
    (blkdealloc_lk true (fun _ => false) (fun _ => false) a d b = Fail (Error Efull) \/
     exists a' d', blkdealloc_lk true (fun _ => false) (fun _ => false) a d b = Ok (a', d') /\
       (forall x, rin (blkrange b) x -> infree (elements (afree a')) x) /\ inv (a', d', ({[b]} ∪ ∅) ∖ {[b]})).
Proof.
  destruct ex_alloc as (a & d & b & E & Hb).
  assert (inv (a, d, {[b]} ∪ ∅)) as Hi
    by (apply (inv_step true (fun _ => false) (fun _ => false) (fun _ => eq_refl) (fun _ => eq_refl) (ex_arena, ∅, ∅) _ ex_inv);
        apply st_op; econstructor; [exact E|exact Hb]).
  exists a, d, b. split; [exact Hi|].
  apply (free_live true (fun _ => false) (fun _ => false) (fun _ => eq_refl) (fun _ => eq_refl) a d ({[b]} ∪ ∅) b Hi).
  apply elem_of_union_l, elem_of_singleton. reflexivity.
Defined.

Lemma alloc_succeeds_witness :
  exists a' d' b, arenaalloc true (fun _ => false) (fun _ => false) ex_arena ∅ false false false = Ok (a', d', b) /\ b <> -1.
Proof.
  apply (alloc_succeeds true (fun _ => false) (fun _ => false) (fun _ => eq_refl) (fun _ => eq_refl) ex_arena ∅ ∅ false false ex_inv eq_refl).
  cbn [ex_arena ex_at asz ausd]. change Blksz with 16384. change Logfloor with 8. lia.
Defined.

(** A barrier that the superblock does not have, and an allocation after it:
    the free list is not the barrier's any more, and a crash brings that back. *)
Lemma log_recovery_witness :
  exists a1 d1 a' d' c, logbarrier true (fun _ => false) (fun _ => false) ex_arena ∅ 7 = Ok (a1, d1) /\
    arenaalloc true (fun _ => false) (fun _ => false) a1 d1 false false true = Ok (a', d', c) /\
    infree (elements (afree a1)) c /\ ~ infree (elements (afree a')) c /\
    exists e0, recovers (fun _ => false) a' d' ex_spare 7 a1 ([ex_entry 0] ++ e0).
Proof.
  assert (logged (ex_arena, ∅, ∅) [] [ex_entry 0]) as Hl by (split; [exact ex_arena_ok|by intros b Hb%elem_of_empty]).
  destruct (barrier_spec true (fun _ => false) (fun _ => false) (fun _ => eq_refl) (fun _ => eq_refl) ex_arena ∅ [] [ex_entry 0] 7 ex_arena_ok ltac:(lia))
    as [E|(a1 & d1 & ps1 & es1 & E & Ha1 & _ & Hs & Hx & _)]; [exfalso; by vm_compute in E|].
  destruct (log_recovery true (fun _ => false) (fun _ => false) (fun _ => eq_refl) (fun _ => eq_refl) ex_arena ∅ ∅ [] [ex_entry 0] ex_spare 7
    Hl (proj2 ex_spare_size) eq_refl) as [_ H]. destruct (H 7 a1 d1 ltac:(lia) ltac:(lia) E) as (e0 & _ & Hrec).
  destruct (alloc_spec true (fun _ => false) (fun _ => false) (fun _ => eq_refl) (fun _ => eq_refl) a1 d1 ps1 _ false false true Ha1)
    as [[_ [H1 _]]|[[_ H1]|(a' & d' & c & ps' & es' & E' & Hc & _ & _ & Hf & _)]]; [done| |].
  - exfalso. vm_compute in E. injection E as <- <-. destruct H1 as [[H1 _]|[H1|[H1 _]]]; [done|vm_compute in H1; by apply H1|done].
  - exists a1, d1, a', d', c. split; [exact E|]. split; [exact E'|]. destruct (Hf c (rin_blk c)) as [Hf1 Hf2].
    split; [exact Hf1|]. split; [exact Hf2|]. exists e0. apply (Hrec a' d' ({[c]} ∪ ∅)).
    eapply rtc_l; [|apply rtc_refl]. econstructor; [exact E'|exact Hc].
Defined.

Lemma compress_correct_witness :
  exists a' d' old, compresslog true (fun _ => false) (fun _ => false) ex_arena ∅ = Ok (a', d') /\
    inv (a', d', ∅ ∪ list_to_set old) /\ NoDup old.
Proof.
  destruct (compress_correct true (fun _ => false) (fun _ => false) (fun _ => eq_refl) (fun _ => eq_refl) ex_arena ∅ ∅ ex_inv eq_refl)
    as [[_ H]|(a' & d' & old & es & E & _ & Hnd & _ & Hi & _)].
  - exfalso. apply H. unfold spacefor. cbn [ex_arena ex_at afree asz ausd aresv elements app]. change (zlen [ex_range 0]) with 1.
    change (nblks 1) with 2. change Blksz with 16384. split; [lia|]. intros; discriminate.
  - exists a', d', old. split; [exact E|]. split; [exact Hi|exact Hnd].
Defined.
