(* ===== verification/Syncq.v ===== *)
(** sys/src/9/gefs/blk.c, the sync queue of an arena: a binary heap of writes,
    frees and fences, in the order in which they must reach the disk.

    The heap is the array q->heap with its first q->nheap entries in use.  A
    block is named by the number of its buffer.  q->lk is held throughout an
    operation; where it would sleep (a full queue for qput, an empty one for
    qpop) the model returns [None] and the queue as it was.  The qgen an entry
    gets is the one qput reads before it sleeps, an argument of the model.

    [contents] is the abstract queue, a multiset of entries, and [qle] the
    order of the entries: generation, then operation (fence, write, free),
    then address. *)

From stdpp Require Import functions.
From S2P Require Import Prelude Layout Blk.

(** * The code *)

Definition Qnone : Z := 0.
Definition Qfence : Z := 1.
Definition Qwrite : Z := 2.
Definition Qfree : Z := 3.

Record Qent := mkQent { qgen : Z; qbp : Bptr; qb : option nat; qop : Z }.

#[global] Instance Qent_eq_dec : EqDecision Qent.
Proof. solve_decision. Defined.
#[global] Instance Qent_inhabited : Inhabited Qent := populate (mkQent 0 (mkBptr 0 0 0) None Qnone).

Record Syncq := mkSyncq { heap : list Qent; nheap : nat; heapsz : nat }.

Definition qinit (cmax : nat) : Syncq := mkSyncq (replicate cmax inhabitant) 0 cmax.

Definition qcmp (a b : Qent) : Z :=
  if negb (qgen a =? qgen b) then (if qgen a <? qgen b then -1 else 1)
  else if negb (qop a =? qop b) then (if qop a <? qop b then -1 else 1)
  else if negb (addr (qbp a) =? addr (qbp b)) then (if addr (qbp a) <? addr (qbp b) then -1 else 1)
  else 0.

Definition setqgen (e : Qent) (g : Z) : Qent := mkQent g (qbp e) (qb e) (qop e).

(** The loop of qput, which moves the parents of the hole at [i] down, and the
    store of [qe] after it. *)
Fixpoint qup (fuel : nat) (h : list Qent) (i : nat) (qe : Qent) : res (list Qent) :=
  match fuel with
  | O => Fail Fuel
  | S fuel =>
      if decide (i = 0%nat) then Ok (<[i := qe]> h) else
      let p := ((i - 1) / 2)%nat in
      if qcmp qe (h !!! p) =? 1 then Ok (<[i := qe]> h)
      else qup fuel (<[i := h !!! p]> h) p qe
  end.

(** [ref] gives the reference count of a block. *)
Definition qput (ref : nat -> Z) (syncing : Z) (q : Syncq) (e : Qent) (g : Z) : res (option Syncq) :=
  (if (qop e =? Qfree) || (qop e =? Qwrite) then check (Z.land (addr (qbp e)) (Blksz - 1) =? 0)
   else if qop e =? Qfence then check (0 <? syncing)
   else Fail Abort);;
  match qb e with Some b => check (0 <? ref b) | None => Ok tt end;;
  let qe := setqgen e g in
  if decide (nheap q = heapsz q) then Ok None else
  h ← qup (S (nheap q)) (heap q) (nheap q) qe;
  Ok (Some (mkSyncq h (S (nheap q)) (heapsz q))).

(** The loop of qpop. *)
Fixpoint qdown (fuel : nat) (h : list Qent) (n i : nat) : res (list Qent) :=
  match fuel with
  | O => Fail Fuel
  | S fuel =>
      let l := (2 * i + 1)%nat in
      let r := (2 * i + 2)%nat in
      let m := if decide (l < n)%nat then if qcmp (h !!! i) (h !!! l) =? 1 then l else i else i in
      let m := if decide (r < n)%nat then if qcmp (h !!! m) (h !!! r) =? 1 then r else m else m in
      if decide (m = i) then Ok h else
      qdown fuel (<[i := h !!! m]> (<[m := h !!! i]> h)) n m
  end.

(** [flag] holds the flags of the blocks; the debugging fields are left out. *)
Definition qpop (q : Syncq) (flag : nat -> Z) : res (option (Syncq * Qent * (nat -> Z))) :=
  if decide (nheap q = 0%nat) then Ok None else
  let e := heap q !!! 0%nat in
  let n := (nheap q - 1)%nat in
  h ← (if decide (n = 0%nat) then Ok (heap q)
       else qdown (S n) (<[0%nat := heap q !!! n]> (heap q)) n 0);
  let flag' := match qb e with Some b => <[b := setflag (flag b) 0 Bqueued]> flag | None => flag end in
  Ok (Some (mkSyncq h n (heapsz q), e, flag')).

(** * The order of the entries *)

Definition qle (a b : Qent) : Prop :=
  qgen a < qgen b \/ qgen a = qgen b /\
  (qop a < qop b \/ qop a = qop b /\ addr (qbp a) <= addr (qbp b)).

Lemma qle_refl a : qle a a.
Proof. unfold qle. lia. Qed.

Lemma qle_trans a b c : qle a b -> qle b c -> qle a c.
Proof. unfold qle. lia. Qed.

Lemma qcmp_spec a b : qcmp a b = 1 /\ qle b a \/ qcmp a b <> 1 /\ qle a b.
Proof.
  unfold qcmp, qle.
  repeat case_match; rewrite ?negb_true_iff, ?negb_false_iff in *; lia.
Qed.

#[export] Hint Resolve qle_refl : gefs.

(** * The heap *)

Definition parent (i : nat) : nat := ((i - 1) / 2)%nat.

Lemma parent_lt i : (0 < i)%nat -> (parent i < i)%nat.
Proof. intros ?. apply Nat.Div0.div_lt_upper_bound. lia. Qed.

Lemma parent_iff i j : (0 < j)%nat -> parent j = i <-> j = (2 * i + 1)%nat \/ j = (2 * i + 2)%nat.
Proof.
  intros Hj. unfold parent.
  pose proof (Nat.div_mod_eq (j - 1) 2). pose proof (Nat.mod_upper_bound (j - 1) 2 ltac:(lia)).
  lia.
Qed.

(** The heap order of the first [n] entries, but for the pairs of which
    [skip] speaks. *)
Definition ordered (skip : nat -> Prop) (h : list Qent) (n : nat) : Prop :=
  forall j, (0 < j < n)%nat -> ~ skip j -> qle (h !!! parent j) (h !!! j).

Definition heap_ok (h : list Qent) (n : nat) : Prop := ordered (fun _ => False) h n.

(** The entries below [i] are not before the parent of [i]. *)
Definition bridged (h : list Qent) (n i : nat) : Prop :=
  (0 < i)%nat -> forall j, (0 < j < n)%nat -> parent j = i -> qle (h !!! parent i) (h !!! j).

(** Reads [h !!! j] after stores at known places. *)
Ltac read_heap :=
  repeat match goal with
  | |- context [<[?i := _]> ?h !!! ?j] => rewrite (list_lookup_total_insert h i j)
  | H : context [<[?i := _]> ?h !!! ?j] |- _ => rewrite (list_lookup_total_insert h i j) in H
  end;
  repeat case_decide; destruct_and?; simplify_eq/=; try done; try (rewrite ?length_insert in *; lia).

Lemma qup_step h i n qe :
  (0 < i < n)%nat -> (n <= length h)%nat -> qle qe (h !!! parent i) ->
  ordered (fun j => j = i) (<[i := qe]> h) n -> bridged (<[i := qe]> h) n i ->
  let h' := <[i := h !!! parent i]> h in
  ordered (fun j => j = parent i) (<[parent i := qe]> h') n /\
  bridged (<[parent i := qe]> h') n (parent i).
Proof.
  intros Hi Hn Hle Ho Hb. pose proof (parent_lt i ltac:(lia)) as Hp. split.
  - intros j Hj Hs. pose proof (parent_lt j ltac:(lia)).
    destruct (decide (j = i)) as [->|Hji]; [read_heap|].
    specialize (Ho j ltac:(lia) Hji). specialize (Hb ltac:(lia) j ltac:(lia)).
    read_heap; eauto. eapply qle_trans; [done|]. congruence.
  - intros Hp0 j Hj Hs. pose proof (parent_lt (parent i) Hp0).
    pose proof (Ho (parent i) ltac:(lia) ltac:(cbv beta; lia)) as Hpp.
    destruct (decide (j = i)) as [->|Hji]; [read_heap|].
    pose proof (parent_lt j ltac:(lia)). specialize (Ho j ltac:(lia) Hji).
    rewrite Hs in *. read_heap; eauto using qle_trans.
Qed.

Lemma swap_perm (h : list Qent) n i j x :
  (i < n)%nat -> (j < n)%nat -> (n <= length h)%nat -> i <> j ->
  take n (<[j := x]> (<[i := h !!! j]> h)) ≡ₚ take n (<[i := x]> h).
Proof.
  intros. rewrite !take_insert_lt by lia.
  assert (Hl : length (take n h) = n) by (rewrite length_take; lia).
  rewrite <- (Permutation_insert_swap (<[i := x]> (take n h)) i j x (h !!! j)).
  - by rewrite list_insert_insert_eq.
  - apply list_lookup_insert_eq. lia.
  - rewrite list_lookup_insert_ne, lookup_take_lt by done.
    apply list_lookup_lookup_total_lt. lia.
Qed.

Lemma qup_spec fuel h i n qe :
  (i < fuel)%nat -> (i < n)%nat -> (n <= length h)%nat ->
  ordered (fun j => j = i) (<[i := qe]> h) n -> bridged (<[i := qe]> h) n i ->
  exists h', qup fuel h i qe = Ok h' /\ heap_ok h' n /\ length h' = length h /\
             take n h' ≡ₚ take n (<[i := qe]> h).
Proof.
  revert h i. induction fuel as [|fuel IH]; intros h i Hf Hi Hn Ho Hb; [lia|]. cbn [qup].
  fold (parent i).
  case_decide as H0; [|destruct (qcmp_spec qe (h !!! parent i)) as [[Hc Hle]|[Hc Hle]]].
  - eexists. split_and!; [done| |by rewrite length_insert|done].
    intros j Hj _. apply Ho; lia.
  - rewrite Hc. eexists. split_and!; [done| |by rewrite length_insert|done].
    pose proof (parent_lt i ltac:(lia)).
    intros j Hj _. destruct (decide (j = i)) as [->|]; [read_heap|by apply Ho].
  - apply Z.eqb_neq in Hc. rewrite Hc. pose proof (parent_lt i ltac:(lia)).
    destruct (qup_step h i n qe) as [Ho' Hb']; try done; [lia|].
    destruct (IH (<[i := h !!! parent i]> h) (parent i)) as (h' & -> & Hh & Hl & Hperm);
      rewrite ?length_insert; try done; try lia.
    exists h'. rewrite length_insert in Hl. split_and!; try done.
    rewrite Hperm. apply swap_perm; lia.
Qed.

(** The child that qpop's loop goes to, if any. *)
Definition lesser (h : list Qent) (n i : nat) : nat :=
  let l := (2 * i + 1)%nat in
  let r := (2 * i + 2)%nat in
  let m := if decide (l < n)%nat then if qcmp (h !!! i) (h !!! l) =? 1 then l else i else i in
  if decide (r < n)%nat then if qcmp (h !!! m) (h !!! r) =? 1 then r else m else m.

Lemma lesser_spec h n i :
  (i < n)%nat ->
  let m := lesser h n i in
  (m < n)%nat /\ (m = i \/ (0 < m)%nat /\ parent m = i /\ qle (h !!! m) (h !!! i)) /\
  forall j, (0 < j < n)%nat -> parent j = i -> qle (h !!! m) (h !!! j).
Proof.
  intros Hi. cbv zeta. unfold lesser. cbv zeta.
  set (m := if decide (2 * i + 1 < n)%nat then _ else i).
  assert (Hm : (m < n)%nat /\ (m = i \/ m = 2 * i + 1)%nat /\ qle (h !!! m) (h !!! i) /\
               (2 * i + 1 < n -> qle (h !!! m) (h !!! (2 * i + 1)))%nat).
  { subst m. case_decide; [|split_and!; auto with gefs; lia].
    destruct (qcmp_spec (h !!! i) (h !!! (2 * i + 1)%nat)) as [[-> ?]|[->%Z.eqb_neq ?]];
      split_and!; auto with gefs. }
  clearbody m. destruct Hm as (Hmn & Hm & Hle & Hl).
  assert (Hpar : forall j, (j = 2 * i + 1 \/ j = 2 * i + 2)%nat -> (0 < j)%nat /\ parent j = i).
  { intros j ?. split; [lia|]. apply parent_iff; lia. }
  case_decide; [destruct (qcmp_spec (h !!! m) (h !!! (2 * i + 2)%nat)) as [[-> ?]|[->%Z.eqb_neq ?]]|];
    cbn [Z.eqb Pos.eqb].
  - split_and!; [lia| |].
    + right. destruct (Hpar (2 * i + 2)%nat); auto. split_and!; eauto using qle_trans.
    + intros j Hj Hp. apply parent_iff in Hp as [-> | ->]; [|apply qle_refl|lia].
      eapply qle_trans; [done|]. apply Hl. lia.
  - split_and!; [lia| |].
    + destruct Hm as [->|Hm]; [by left|]. right. destruct (Hpar m); auto.
    + intros j Hj Hp. apply parent_iff in Hp as [-> | ->]; [apply Hl; lia|done|lia].
  - split_and!; [lia| |].
    + destruct Hm as [->|Hm]; [by left|]. right. destruct (Hpar m); auto.
    + intros j Hj Hp. apply parent_iff in Hp as [-> | ->]; [apply Hl; lia|lia|lia].
Qed.

Lemma qdown_step h n i m :
  (i < n)%nat -> (n <= length h)%nat -> (0 < m < n)%nat -> parent m = i ->
  qle (h !!! m) (h !!! i) -> (forall j, (0 < j < n)%nat -> parent j = i -> qle (h !!! m) (h !!! j)) ->
  ordered (fun j => parent j = i) h n -> bridged h n i ->
  let h' := <[i := h !!! m]> (<[m := h !!! i]> h) in
  ordered (fun j => parent j = m) h' n /\ bridged h' n m.
Proof.
  intros Hi Hn Hm Hp Hle Hmin Ho Hb. pose proof (parent_lt m ltac:(lia)). split.
  - intros j Hj Hs. pose proof (parent_lt j ltac:(lia)).
    specialize (Ho j Hj). specialize (Hmin j Hj).
    destruct (decide (j = i)) as [->|].
    + specialize (Hb ltac:(lia) m ltac:(lia) Hp). read_heap.
    + destruct (decide (parent j = i)) as [Hji|Hji]; [|specialize (Ho Hji)].
      * rewrite Hji. read_heap; auto.
      * read_heap.
  - intros Hm0 j Hj Hs. pose proof (parent_lt j ltac:(lia)).
    specialize (Ho j Hj ltac:(cbv beta; lia)). rewrite Hs in Ho. rewrite Hp. read_heap.
Qed.

Lemma qdown_spec fuel h n i :
  (n - i < fuel)%nat -> (i < n)%nat -> (n <= length h)%nat ->
  ordered (fun j => parent j = i) h n -> bridged h n i ->
  exists h', qdown fuel h n i = Ok h' /\ heap_ok h' n /\ length h' = length h /\ take n h' ≡ₚ take n h.
Proof.
  revert h i. induction fuel as [|fuel IH]; intros h i Hf Hi Hn Ho Hb; [lia|]. cbn [qdown].
  fold (lesser h n i). destruct (lesser_spec h n i Hi) as (Hmn & Hm & Hmin). cbv zeta in *.
  revert Hmn Hm Hmin. generalize (lesser h n i) as m. intros m Hmn Hm Hmin.
  case_decide as Hmi.
  - exists h. split_and!; try done. intros j Hj _. subst m.
    destruct (decide (parent j = i)) as [<-|]; [by apply Hmin|by apply Ho].
  - destruct Hm as [?|(Hm0 & Hp & Hle)]; [done|]. pose proof (parent_lt m Hm0).
    destruct (qdown_step h n i m) as [Ho' Hb']; try done.
    destruct (IH (<[i := h !!! m]> (<[m := h !!! i]> h)) m) as (h' & -> & Hh & Hl & Hperm); try done;
      rewrite ?length_insert; try lia.
    exists h'. rewrite !length_insert in Hl. split_and!; try done.
    rewrite Hperm, list_insert_insert_ne, swap_perm by lia. 
    by rewrite list_insert_id by (apply list_lookup_lookup_total_lt; lia).
Qed.

(** * The queue *)

Definition contents (q : Syncq) : list Qent := take (nheap q) (heap q).

Record queue_ok (q : Syncq) : Prop := {
  qo_len : length (heap q) = heapsz q;
  qo_n : (nheap q <= heapsz q)%nat;
  qo_heap : heap_ok (heap q) (nheap q)
}.

(** What qput asserts of the entry it is given. *)
Definition entry_ok (ref : nat -> Z) (syncing : Z) (e : Qent) : Prop :=
  ((qop e = Qfree \/ qop e = Qwrite) /\ Z.land (addr (qbp e)) (Blksz - 1) = 0 \/
   qop e = Qfence /\ 0 < syncing) /\
  forall b, qb e = Some b -> 0 < ref b.

#[global] Instance entry_ok_dec ref syncing e : Decision (entry_ok ref syncing e).
Proof.
  assert (Decision (forall b, qb e = Some b -> 0 < ref b)).
  { destruct (qb e) as [b|]; [destruct (decide (0 < ref b)); [left|right]|left]; naive_solver. }
  unfold entry_ok. apply _.
Defined.

Lemma qput_guards ref syncing q e g :
  qput ref syncing q e g =
  if decide (entry_ok ref syncing e) then
    if decide (nheap q = heapsz q) then Ok None else
    h ← qup (S (nheap q)) (heap q) (nheap q) (setqgen e g);
    Ok (Some (mkSyncq h (S (nheap q)) (heapsz q)))
  else Fail Abort.
Proof.
  unfold qput. destruct (decide (entry_ok ref syncing e)) as [[He Hb]|He].
  - destruct He as [[[H|H] Ha]|[H Hs]]; rewrite H; cbn [Qfree Qwrite Qfence Z.eqb Pos.eqb orb];
      (rewrite check_true by lia); rewrite bind_ok;
      (destruct (qb e) as [b|]; [rewrite check_true by (specialize (Hb b eq_refl); lia)|]); done.
  - destruct ((qop e =? Qfree) || (qop e =? Qwrite)) eqn:E1;
      [|destruct (qop e =? Qfence) eqn:E2; [|done]].
    + destruct (Z.land (addr (qbp e)) (Blksz - 1) =? 0) eqn:E3; [|done].
      destruct (qb e) as [b|] eqn:Eb; [destruct (0 <? ref b) eqn:Er; [|done]|];
        destruct He; split; try (left; split; lia); intros; simplify_eq; lia.
    + destruct (0 <? syncing) eqn:E3; [|done].
      destruct (qb e) as [b|] eqn:Eb; [destruct (0 <? ref b) eqn:Er; [|done]|];
        destruct He; split; try (right; split; lia); intros; simplify_eq; lia.
Qed.

Lemma heap_take_S (h : list Qent) n e :
  (n < length h)%nat -> take (S n) (<[n := e]> h) ≡ₚ e :: take n h.
Proof.
  intros. rewrite (take_S_r _ _ e) by (by apply list_lookup_insert_eq).
  rewrite take_insert_ge by lia. by rewrite Permutation_app_comm.
Qed.

Lemma qput_ok ref syncing q e g :
  queue_ok q -> entry_ok ref syncing e -> nheap q <> heapsz q ->
  exists q', qput ref syncing q e g = Ok (Some q') /\ queue_ok q' /\
             contents q' ≡ₚ setqgen e g :: contents q.
Proof.
  intros [Hl Hn Hh] He Hfull. rewrite qput_guards, decide_True, decide_False by done.
  destruct (qup_spec (S (nheap q)) (heap q) (nheap q) (S (nheap q)) (setqgen e g))
    as (h & -> & Hh' & Hl' & Hp); try lia.
  - intros j Hj Hs. pose proof (parent_lt j ltac:(lia)). cbv beta in Hs.
    specialize (Hh j ltac:(lia) ltac:(tauto)). read_heap.
  - intros H0 j Hj Hp. pose proof (parent_lt j ltac:(lia)). lia.
  - eexists. split; [done|]. split.
    + split; cbn; [congruence|lia|done].
    + unfold contents. cbn. rewrite Hp. apply heap_take_S. lia.
Qed.

Lemma heap_min h n j : heap_ok h n -> (j < n)%nat -> qle (h !!! 0%nat) (h !!! j).
Proof.
  intros Hh. induction j as [j IH] using lt_wf_ind. intros Hj.
  destruct (decide (j = 0%nat)) as [->|]; [apply qle_refl|].
  pose proof (parent_lt j ltac:(lia)).
  eapply qle_trans; [apply (IH (parent j)); lia|]. apply Hh; [lia|tauto].
Qed.

Lemma contents_split q :
  queue_ok q -> (0 < nheap q)%nat ->
  contents q ≡ₚ heap q !!! 0%nat :: take (nheap q - 1) (<[0%nat := heap q !!! (nheap q - 1)%nat]> (heap q)).
Proof.
  intros [Hl Hn Hh] H0. unfold contents. destruct (nheap q) as [|n]; [lia|].
  replace (S n - 1)%nat with n by lia. revert Hl. generalize (heap q) as h. intros h Hl.
  rewrite (take_S_r h n (h !!! n)) by (apply list_lookup_lookup_total_lt; lia).
  rewrite Permutation_app_comm. cbn [app].
  destruct n as [|n]; [done|].
  destruct h as [|x h]; [cbn in *; lia|]. cbn [take insert list_insert lookup_total list_lookup_total].
  apply perm_swap.
Qed.

Lemma qpop_ok q flag :
  queue_ok q -> (0 < nheap q)%nat ->
  exists q' e flag', qpop q flag = Ok (Some (q', e, flag')) /\ queue_ok q' /\
    contents q ≡ₚ e :: contents q' /\ Forall (qle e) (contents q).
Proof.
  intros Hq H0. pose proof (contents_split q Hq H0) as Hs. destruct Hq as [Hl Hn Hh].
  assert (Hmin : Forall (qle (heap q !!! 0%nat)) (contents q)).
  { apply Forall_lookup. intros i x Hx. unfold contents in Hx.
    apply lookup_take_Some in Hx as [Hx Hi]. apply list_lookup_total_correct in Hx as <-.
    by eapply heap_min. }
  unfold qpop. rewrite decide_False by lia. set (n := (nheap q - 1)%nat) in *.
  destruct (decide (n = 0%nat)) as [Hn0|Hn0]; rewrite ?bind_ok.
  - do 3 eexists. split; [done|]. split_and!; [|rewrite Hs; unfold contents; cbn; by rewrite Hn0|done].
    split; cbn; [done|lia|]. rewrite Hn0. intros ?; lia.
  - destruct (qdown_spec (S n) (<[0%nat := heap q !!! n]> (heap q)) n 0) as (h & -> & Hh' & Hl' & Hp);
      rewrite ?length_insert in *; try lia.
    + intros j Hj Hs'. cbv beta in Hs'. pose proof (parent_lt j ltac:(lia)).
      specialize (Hh j ltac:(lia) ltac:(tauto)). read_heap.
    + intros ?; lia.
    + rewrite bind_ok. do 3 eexists. split; [done|]. split_and!; [| |done].
      * split; cbn; [congruence|lia|done].
      * rewrite Hs. unfold contents. cbn. by rewrite Hp.
Qed.

(** * Runs of the queue *)

(** [reach cmax puts pops q]: the queue [q], made by qinit, has been given
    [puts] and has given [pops], the latest first. *)
Inductive reach (cmax : nat) : list Qent -> list Qent -> Syncq -> Prop :=
  | reach_init : reach cmax [] [] (qinit cmax)
  | reach_put puts pops q ref syncing e g q' :
      reach cmax puts pops q -> qput ref syncing q e g = Ok (Some q') ->
      reach cmax (setqgen e g :: puts) pops q'
  | reach_pop puts pops q flag q' e flag' :
      reach cmax puts pops q -> qpop q flag = Ok (Some (q', e, flag')) ->
      reach cmax puts (e :: pops) q'.

Lemma reach_inv cmax puts pops q :
  reach cmax puts pops q -> queue_ok q /\ heapsz q = cmax /\ puts ≡ₚ pops ++ contents q.
Proof.
  induction 1 as [|puts pops q ref syncing e g q' _ (Hq & Hsz & Hp) Hput
                  |puts pops q flag q' e flag' _ (Hq & Hsz & Hp) Hpop].
  - split_and!; [|done|done]. split; cbn; [by rewrite length_replicate|lia|]. intros j; lia.
  - rewrite qput_guards in Hput. case_decide as He; [|done]. case_decide as Hf; [done|].
    destruct (qput_ok ref syncing q e g Hq He Hf) as (q'' & E & Hq' & Hc).
    rewrite qput_guards, decide_True, decide_False in E by done. rewrite E in Hput.
    inv_ok. simplify_eq. split_and!; [done| |].
    + inv_ok. by simplify_eq/=.
    + rewrite Hc, Hp. apply Permutation_middle.
  - destruct (decide (nheap q = 0%nat)) as [H0|H0];
      [by unfold qpop in Hpop; rewrite decide_True in Hpop|].
    destruct (qpop_ok q flag Hq ltac:(lia)) as (q'' & e' & fl & E & Hq' & Hc & _).
    assert (heapsz q'' = heapsz q) as Hz.
    { unfold qpop in E. rewrite decide_False in E by done. inv_ok. by simplify_eq. }
    rewrite E in Hpop. simplify_eq. split_and!; [done..|].
    rewrite Hp, Hc. symmetry. apply (Permutation_middle pops).
Qed.

(** [e'] must reach the disk before [e]. *)
Definition qlt (e' e : Qent) : Prop :=
  qgen e' < qgen e \/ qgen e' = qgen e /\ qop e' < qop e.

#[global] Instance qlt_dec e' e : Decision (qlt e' e) := _.

(** * What the queue promises *)

(** C30: The sync queue is a bounded priority queue.  In a well-formed queue
    qput stops the kernel exactly on the entries it asserts against, waits
    exactly when the queue is full, and otherwise adds its entry to the
    contents, with the generation it read; qpop waits exactly when the queue
    is empty, and otherwise takes away an entry that no other precedes, and
    clears the queued flag of its block and of no other.  Both leave the
    queue well-formed, and neither loop runs away. *)
Theorem syncq_correct q :
  queue_ok q ->
  (forall ref syncing e g,
     if decide (entry_ok ref syncing e) then
       if decide (nheap q = heapsz q) then qput ref syncing q e g = Ok None
       else exists q', qput ref syncing q e g = Ok (Some q') /\ queue_ok q' /\
                       contents q' ≡ₚ setqgen e g :: contents q
     else qput ref syncing q e g = Fail Abort) /\
  (forall flag,
     if decide (contents q = []) then qpop q flag = Ok None
     else exists q' e flag', qpop q flag = Ok (Some (q', e, flag')) /\ queue_ok q' /\
            contents q ≡ₚ e :: contents q' /\ Forall (qle e) (contents q') /\
            forall b, flag' b = if decide (qb e = Some b) then setflag (flag b) 0 Bqueued else flag b).
Proof.
  intros Hq. split.
  - intros ref syncing e g. case_decide as He; [case_decide as Hf|].
    + by rewrite qput_guards, !decide_True.
    + by apply qput_ok.
    + by rewrite qput_guards, decide_False.
  - intros flag. assert (contents q = [] <-> nheap q = 0%nat) as H0.
    { unfold contents. destruct Hq as [Hl Hn _]. rewrite <- length_zero_iff_nil, length_take, Hl. lia. }
    case_decide as Hc.
    + unfold qpop. by rewrite decide_True by tauto.
    + assert (nheap q <> 0%nat) by tauto.
      destruct (qpop_ok q flag Hq ltac:(lia)) as (q' & e & flag' & E & Hq' & Hp & Hmin).
      exists q', e, flag'. split_and!; [done..| |].
      * rewrite Hp in Hmin. by inversion Hmin.
      * unfold qpop in E. rewrite decide_False in E by tauto. inv_ok. simplify_eq.
        intros b. destruct (qb (heap q !!! 0%nat)) as [b'|]; [|done].
        destruct (decide (Some b' = Some b)); simplify_eq;
          [apply fn_lookup_insert|apply fn_lookup_insert_ne; congruence].
Qed.

Definition ex_q : Syncq :=
  mkSyncq [mkQent 1 (mkBptr 16384 0 0) None Qfree; inhabitant] 1 2.

Lemma syncq_correct_witness :
  queue_ok ex_q /\
  exists q', qput (fun _ => 1) 0 ex_q (mkQent 0 (mkBptr 32768 0 0) (Some 3%nat) Qwrite) 1 = Ok (Some q') /\
             queue_ok q' /\
             contents q' ≡ₚ [mkQent 1 (mkBptr 32768 0 0) (Some 3%nat) Qwrite; mkQent 1 (mkBptr 16384 0 0) None Qfree].
Proof.
  assert (Hq : queue_ok ex_q) by (split; cbn; [done|lia|intros j; cbn; lia]).
  split; [exact Hq|].
  exact (proj1 (syncq_correct ex_q Hq) (fun _ => 1) 0 (mkQent 0 (mkBptr 32768 0 0) (Some 3%nat) Qwrite) 1).
Defined.

(** C20: The order of the disk.  However puts and pops interleave, when an
    entry leaves the queue every entry that was put and that precedes it, of
    an earlier generation or of the same generation and an earlier kind
    (fences before writes before frees), has left the queue before.  So a
    fence that leaves tells that all that was put before its generation is
    done, and a free is logged only when the writes of its generation are. *)
Theorem syncq_order cmax puts pops q flag q' e flag' :
  reach cmax puts pops q -> qpop q flag = Ok (Some (q', e, flag')) ->
  filter (fun e' => qlt e' e) puts ≡ₚ filter (fun e' => qlt e' e) pops.
Proof.
  intros (Hq & _ & Hp)%reach_inv Hpop.
  destruct (decide (nheap q = 0%nat)) as [H0|H0];
    [by unfold qpop in Hpop; rewrite decide_True in Hpop|].
  destruct (qpop_ok q flag Hq ltac:(lia)) as (q'' & e'' & fl & E & _ & _ & Hmin).
  rewrite E in Hpop. simplify_eq. rewrite Hp, filter_app, (filter_none _ (contents q)); [by rewrite app_nil_r|].
  eapply Forall_impl; [exact Hmin|]. intros x. unfold qle, qlt. lia.
Qed.

Definition ex_w : Qent := mkQent 0 (mkBptr 32768 0 0) None Qwrite.
Definition ex_f : Qent := mkQent 0 (mkBptr 16384 0 0) None Qfree.

Lemma syncq_order_witness :
  exists q, reach 4 [setqgen ex_w 1; setqgen ex_f 1] [] q /\
  exists r, qpop q (fun _ => 0) = Ok (Some r) /\
  filter (fun e' => qlt e' r.1.2) [setqgen ex_w 1; setqgen ex_f 1] ≡ₚ [].
Proof.
  eexists. split.
  - eapply (reach_put 4 _ [] _ (fun _ => 0) 0 ex_w 1).
    + eapply (reach_put 4 _ [] _ (fun _ => 0) 0 ex_f 1); [apply reach_init|].
      vm_compute. reflexivity.
    + vm_compute. reflexivity.
  - eexists (_, _, _). split; [vm_compute; reflexivity|].
    refine (syncq_order 4 _ [] _ (fun _ => 0) _ _ _ _ _).
    + eapply (reach_put 4 _ [] _ (fun _ => 0) 0 ex_w 1).
      * eapply (reach_put 4 _ [] _ (fun _ => 0) 0 ex_f 1); [apply reach_init|].
        vm_compute. reflexivity.
      * vm_compute. reflexivity.
    + vm_compute. reflexivity.
Defined.
