(* ===== verification/Cache.v ===== *)
(** sys/src/9/gefs/cache.c, and the block handles of blk.c: the cache of
    blocks, a hash table of chained buffers and a list of those not in use.

    A buffer is named by its number below [nbuf]; the record [Cblk] is the part
    of struct Blk outside of the disk block itself: the links of the LRU list
    and of the hash chain, and the reference count.  The links are the
    pointers of the code, changed one store at a time in the order of the
    code.  Each operation is what one process does while it holds fs->lrulk;
    a wait for a buffer is [None].  A reference count is changed atomically,
    outside of that lock too, so the decrement of dropblk and the list
    operation after it are two steps, and so are what cachepluck does with the
    lock, [pluck_lk], and the reference it takes then.  The magic numbers and the debugging
    fields are left out.

    [cache_rel c L T] is the abstraction: [L] is the LRU list, the first to be
    reused last, and [T] maps the address of a cached block to its buffer. *)

From stdpp Require Import functions fin_maps.
From S2P Require Import Prelude Layout Hash Pack Node Blk.

(** * The code *)

Record Cblk := mkCblk { cnext : option nat; cprev : option nat; hnext : option nat; ref : Z; cblk : Mblk }.

Record Cache := mkCache {
  cbuf : nat -> Cblk; ncbuf : nat;
  chead : option nat; ctail : option nat;
  bcache : list (option nat)
}.

Definition baddr (b : Cblk) : Z := addr (bp (mb (cblk b))).
Definition bflg (b : Cblk) : Z := bflag (cblk b).

Definition wcnext (x : option nat) (b : Cblk) : Cblk := mkCblk x (cprev b) (hnext b) (ref b) (cblk b).
Definition wcprev (x : option nat) (b : Cblk) : Cblk := mkCblk (cnext b) x (hnext b) (ref b) (cblk b).
Definition whnext (x : option nat) (b : Cblk) : Cblk := mkCblk (cnext b) (cprev b) x (ref b) (cblk b).
Definition wref (x : Z) (b : Cblk) : Cblk := mkCblk (cnext b) (cprev b) (hnext b) x (cblk b).
Definition wblk (x : Mblk) (b : Cblk) : Cblk := mkCblk (cnext b) (cprev b) (hnext b) (ref b) x.
Definition wflag (x : Z) (b : Cblk) : Cblk :=
  let m := cblk b in
  wblk (mkMblk (mb m) (logsz m) (logh m) (logp m) (hdr m) x) b.

(** A store to the buffer [p]. *)
Definition upd (c : Cache) (p : nat) (f : Cblk -> Cblk) : Cache :=
  mkCache (<[p := f (cbuf c p)]> (cbuf c)) (ncbuf c) (chead c) (ctail c) (bcache c).
(** A store through a pointer that may be nil. *)
Definition updo (c : Cache) (o : option nat) (f : Cblk -> Cblk) : Cache :=
  match o with Some p => upd c p f | None => c end.
Definition whead (c : Cache) (x : option nat) : Cache := mkCache (cbuf c) (ncbuf c) x (ctail c) (bcache c).
Definition wtail (c : Cache) (x : option nat) : Cache := mkCache (cbuf c) (ncbuf c) (chead c) x (bcache c).
Definition wbkt (c : Cache) (i : nat) (x : option nat) : Cache :=
  mkCache (cbuf c) (ncbuf c) (chead c) (ctail c) (<[i := x]> (bcache c)).

Definition lrudel (c : Cache) (b : nat) : Cache :=
  let c := if decide (chead c = Some b) then whead c (cnext (cbuf c b)) else c in
  let c := if decide (ctail c = Some b) then wtail c (cprev (cbuf c b)) else c in
  let c := updo c (cnext (cbuf c b)) (wcprev (cprev (cbuf c b))) in
  let c := updo c (cprev (cbuf c b)) (wcnext (cnext (cbuf c b))) in
  let c := upd c b (wcnext None) in
  upd c b (wcprev None).

Definition lrutop (c : Cache) (b : nat) : res Cache :=
  check (checkflag (bflg (cbuf c b)) 0 Bstatic);;
  if negb (ref (cbuf c b) =? 0) then Ok c else
  let c := lrudel c b in
  let c := updo c (chead c) (wcprev (Some b)) in
  let c := if decide (ctail c = None) then wtail c (Some b) else c in
  let c := upd c b (wcnext (chead c)) in
  Ok (whead c (Some b)).

Definition lrubot (c : Cache) (b : nat) : res Cache :=
  check (checkflag (bflg (cbuf c b)) 0 Bstatic);;
  if negb (ref (cbuf c b) =? 0) then Ok c else
  let c := lrudel c b in
  let c := updo c (ctail c) (wcnext (Some b)) in
  let c := if decide (chead c = None) then whead c (Some b) else c in
  let c := upd c b (wcprev (ctail c)) in
  Ok (wtail c (Some b)).

(** h % fs->cmax: the bucket of an address. *)
Definition bucket (c : Cache) (a : Z) : nat := Z.to_nat (ihash (u64 a) mod zlen (bcache c)).

(** The bucket's first block; fs->bcache has fs->cmax buckets. *)
Definition bkthd (c : Cache) (a : Z) : option nat := bcache c !!! bucket c a.

(** The loop of cacheins over the chain from [o]. *)
Fixpoint nodup_chain (fuel : nat) (c : Cache) (b : nat) (o : option nat) : res unit :=
  match fuel, o with
  | _, None => Ok tt
  | O, _ => Fail Fuel
  | S fuel, Some bb =>
      check (bool_decide (b <> bb) && negb (baddr (cbuf c b) =? baddr (cbuf c bb)));;
      nodup_chain fuel c b (hnext (cbuf c bb))
  end.

Definition cacheins (c : Cache) (b : nat) : res Cache :=
  let a := baddr (cbuf c b) in
  check (checkflag (bflg (cbuf c b)) 0 (Z.lor Bstatic Bcached));;
  let c := upd c b (fun x => wflag (setflag (bflg x) Bcached 0) x) in
  check (bool_decide (hnext (cbuf c b) = None));;
  nodup_chain (S (ncbuf c)) c b (bkthd c a);;
  let c := upd c b (whnext (bkthd c a)) in
  Ok (wbkt c (bucket c a) (Some b)).

(** The loop of cachedel_lk: [p] is the block whose hnext points to [o], or
    nil when the bucket does. *)
Fixpoint delwalk (fuel : nat) (c : Cache) (a : Z) (p o : option nat) : res Cache :=
  match fuel, o with
  | _, None => Ok c
  | O, _ => Fail Fuel
  | S fuel, Some b =>
      if baddr (cbuf c b) =? a then
        check (checkflag (bflg (cbuf c b)) Bcached Bstatic);;
        let c := match p with
                 | None => wbkt c (bucket c a) (hnext (cbuf c b))
                 | Some p => upd c p (whnext (hnext (cbuf c b)))
                 end in
        let c := upd c b (whnext None) in
        Ok (upd c b (fun x => wflag (setflag (bflg x) 0 Bcached) x))
      else delwalk fuel c a (Some b) (hnext (cbuf c b))
  end.

Definition cachedel_lk (c : Cache) (a : Z) : res Cache :=
  if a =? -1 then Ok c else delwalk (S (ncbuf c)) c a None (bkthd c a).

Definition cachedel (c : Cache) (a : Z) : res Cache := cachedel_lk c a.

Definition holdblk (c : Cache) (b : nat) : Cache := upd c b (fun x => wref (ref x + 1) x).

(** The search of cacheget. *)
Fixpoint getwalk (fuel : nat) (c : Cache) (a : Z) (o : option nat) : res (option nat) :=
  match fuel, o with
  | _, None => Ok None
  | O, _ => Fail Fuel
  | S fuel, Some b => if baddr (cbuf c b) =? a then Ok (Some b) else getwalk fuel c a (hnext (cbuf c b))
  end.

Definition cacheget (c : Cache) (a : Z) : res (Cache * option nat) :=
  o ← getwalk (S (ncbuf c)) c a (bkthd c a);
  match o with
  | Some b => Ok (lrudel (holdblk c b) b, Some b)
  | None => Ok (c, None)
  end.

(** cachepluck, the part of it that has fs->lrulk, and then the reference. *)
Definition pluck_lk (c : Cache) : res (option (Cache * nat)) :=
  match ctail c with
  | None => Ok None
  | Some b =>
      check (ref (cbuf c b) =? 0);;
      c ← (if checkflag (bflg (cbuf c b)) Bcached 0 then cachedel_lk c (baddr (cbuf c b)) else Ok c);
      check (checkflag (bflg (cbuf c b)) 0 Bcached);;
      let c := lrudel c b in
      let c := upd c b (wflag 0) in
      let c := upd c b (whnext None) in
      Ok (Some (c, b))
  end.
Definition cachepluck (c : Cache) : res (option (Cache * nat)) :=
  r ← pluck_lk c;
  match r with
  | None => Ok None
  | Some (c, b) => Ok (Some (holdblk c b, b))
  end.

(** dropblk, in its two steps: the count, and where the block goes when it
    was the last reference. *)
Definition dropref (c : Cache) (b : nat) : Cache * bool :=
  (upd c b (fun x => wref (ref x - 1) x), ref (cbuf c b) - 1 =? 0).
Definition droplru (c : Cache) (b : nat) : res Cache :=
  if checkflag (bflg (cbuf c b)) Bfreed 0 then lrubot c b else lrutop c b.
Definition dropblk (c : Cache) (o : option nat) : res Cache :=
  match o with
  | None => Ok c
  | Some b => let '(c, last) := dropref c b in if last then droplru c b else Ok c
  end.

(** * Flags *)

Definition fcached (f : Z) : bool := Z.testbit f 3.
Definition fstatic (f : Z) : bool := Z.testbit f 6.
Definition ffreed (f : Z) : bool := Z.testbit f 2.

#[global] Arguments fcached : simpl never.
#[global] Arguments fstatic : simpl never.
#[global] Arguments ffreed : simpl never.

Lemma land_pow2 f n : 0 <= n -> Z.land f (2 ^ n) = if Z.testbit f n then 2 ^ n else 0.
Proof.
  intros Hn. apply Z.bits_inj'. intros i Hi. rewrite Z.land_spec, Z.pow2_bits_eqb by done.
  destruct (Z.eqb_spec n i) as [->|Hne].
  - destruct (Z.testbit f i); [by rewrite Z.pow2_bits_true|by rewrite Z.bits_0].
  - rewrite andb_false_r. destruct (Z.testbit f n); [by rewrite Z.pow2_bits_false|by rewrite Z.bits_0].
Qed.

Lemma check_cached f : checkflag f Bcached 0 = fcached f.
Proof. unfold checkflag. rewrite Z.lor_0_r. change Bcached with (2 ^ 3). rewrite land_pow2 by lia. unfold fcached. by destruct (Z.testbit _ _). Qed.

Lemma check_uncached f : checkflag f 0 Bcached = negb (fcached f).
Proof. unfold checkflag. rewrite Z.lor_0_l. change Bcached with (2 ^ 3). rewrite land_pow2 by lia. unfold fcached. by destruct (Z.testbit _ _). Qed.

Lemma check_unstatic f : checkflag f 0 Bstatic = negb (fstatic f).
Proof. unfold checkflag. rewrite Z.lor_0_l. change Bstatic with (2 ^ 6). rewrite land_pow2 by lia. unfold fstatic. by destruct (Z.testbit _ _). Qed.

Lemma check_freed f : checkflag f Bfreed 0 = ffreed f.
Proof. unfold checkflag. rewrite Z.lor_0_r. change Bfreed with (2 ^ 2). rewrite land_pow2 by lia. unfold ffreed. by destruct (Z.testbit _ _). Qed.

Lemma check_cached_unstatic f : checkflag f Bcached Bstatic = fcached f && negb (fstatic f).
Proof.
  unfold checkflag. rewrite Z.land_lor_distr_r. change Bcached with (2 ^ 3). change Bstatic with (2 ^ 6).
  rewrite !land_pow2 by lia. unfold fcached, fstatic. by destruct (Z.testbit _ 3), (Z.testbit _ 6).
Qed.

Lemma check_fresh f : checkflag f 0 (Z.lor Bstatic Bcached) = negb (fstatic f) && negb (fcached f).
Proof.
  unfold checkflag. rewrite Z.lor_0_l, Z.land_lor_distr_r. change Bcached with (2 ^ 3). change Bstatic with (2 ^ 6).
  rewrite !land_pow2 by lia. unfold fcached, fstatic. by destruct (Z.testbit _ 3), (Z.testbit _ 6).
Qed.

Lemma setflag_bit f s cl n : Z.testbit (setflag f s cl) n = Z.testbit f n && negb (Z.testbit cl n) || Z.testbit s n.
Proof. unfold setflag. by rewrite Z.lor_spec, Z.ldiff_spec. Qed.

Lemma setcached_bits f :
  fcached (setflag f Bcached 0) = true /\ fstatic (setflag f Bcached 0) = fstatic f /\
  fcached (setflag f 0 Bcached) = false /\ fstatic (setflag f 0 Bcached) = fstatic f.
Proof.
  unfold fcached, fstatic. rewrite !setflag_bit. cbn.
  rewrite ?andb_true_r, ?orb_false_r, ?orb_true_r, ?andb_false_r. done.
Qed.

(** * Doubly linked lists *)

Definition hdo (l : list nat) (nx : option nat) : option nat :=
  match l with [] => nx | b :: _ => Some b end.
Definition lao (pv : option nat) (l : list nat) : option nat :=
  match last l with Some b => Some b | None => pv end.

Fixpoint dll (m : nat -> Cblk) (pv : option nat) (l : list nat) (nx : option nat) : Prop :=
  match l with
  | [] => True
  | b :: l => cprev (m b) = pv /\ cnext (m b) = hdo l nx /\ dll m (Some b) l nx
  end.

Lemma hdo_None l : hdo l None = head l.
Proof. by destruct l. Qed.

Lemma lao_None l : lao None l = last l.
Proof. unfold lao. by destruct (last l). Qed.

Lemma lao_cons pv b l : lao pv (b :: l) = lao (Some b) l.
Proof. unfold lao. rewrite last_cons. by destruct (last l). Qed.

Lemma dll_app m pv l1 l2 nx :
  dll m pv (l1 ++ l2) nx <-> dll m pv l1 (hdo l2 nx) /\ dll m (lao pv l1) l2 nx.
Proof.
  revert pv. induction l1 as [|b l1 IH]; intros pv; cbn [app dll]; [unfold lao; cbn; tauto|].
  rewrite IH, lao_cons.
  assert (hdo (l1 ++ l2) nx = hdo l1 (hdo l2 nx)) as -> by (by destruct l1). tauto.
Qed.

(** A list keeps its links when stores change only its two ends. *)
Lemma dll_change m m' pv pv' l nx nx' :
  NoDup l -> dll m pv l nx ->
  (forall x, x ∈ l -> cprev (m' x) = if decide (head l = Some x) then pv' else cprev (m x)) ->
  (forall x, x ∈ l -> cnext (m' x) = if decide (last l = Some x) then nx' else cnext (m x)) ->
  dll m' pv' l nx'.
Proof.
  revert pv pv'. induction l as [|b l IH]; intros pv pv' Hnd Hl Hp Hn; [done|].
  destruct Hl as (Hpb & Hnb & Hl). apply NoDup_cons in Hnd as [Hb Hnd]. cbn [dll]. split_and!.
  - rewrite Hp by set_solver. by rewrite decide_True.
  - rewrite Hn by set_solver. destruct l as [|d l]; [by rewrite decide_True|].
    rewrite decide_False; [done|]. rewrite last_cons_cons. intros Hx%last_Some_elem_of. done.
  - apply (IH (Some b) (Some b)); [done..| |].
    + intros x Hx. rewrite Hp by set_solver. rewrite decide_False by (intros [=]; naive_solver).
      case_decide as Hh; [|done]. destruct l as [|d l]; [done|]. cbn in Hh. simplify_eq. by destruct Hl.
    + intros x Hx. rewrite Hn by set_solver. by destruct l; [set_solver|].
Qed.

(** * The LRU list *)

Record lru_rel (c : Cache) (L : list nat) : Prop := {
  lr_head : chead c = head L;
  lr_tail : ctail c = last L;
  lr_dll : dll (cbuf c) None L None;
  lr_nodup : NoDup L;
  lr_off b : b ∉ L -> cnext (cbuf c b) = None /\ cprev (cbuf c b) = None;
  lr_free b : b ∈ L -> ref (cbuf c b) = 0 /\ fstatic (bflg (cbuf c b)) = false
}.

(** [L] without [b]. *)
Definition without (b : nat) (L : list nat) : list nat := filter (fun x => x <> b) L.

Lemma without_split b l1 l2 : NoDup (l1 ++ b :: l2) -> without b (l1 ++ b :: l2) = l1 ++ l2.
Proof.
  intros (H1 & H2 & H3)%NoDup_app. apply NoDup_cons in H3 as [H3 _]. unfold without.
  rewrite filter_app, filter_cons_False by naive_solver.
  rewrite !filter_all; [done| |]; apply Forall_forall; intros x Hx ->; set_solver.
Qed.

Lemma without_out b L : b ∉ L -> without b L = L.
Proof. intros. apply filter_all, Forall_forall. intros x Hx ->. done. Qed.

Lemma elem_of_without x b L : x ∈ without b L <-> x ∈ L /\ x <> b.
Proof. unfold without. rewrite list_elem_of_filter. tauto. Qed.

(** Looks up buffers after stores. *)
Ltac read_buf :=
  repeat match goal with
  | |- context [<[?i := ?x]> ?f ?j] =>
      destruct (decide (i = j)); [subst; rewrite (fn_lookup_insert f)|rewrite (fn_lookup_insert_ne f) by done]
  end; cbn; try done.

(** [c'] differs from [c] at most in the links of the LRU list. *)
Definition same_body (c c' : Cache) : Prop :=
  (forall x, hnext (cbuf c' x) = hnext (cbuf c x) /\ ref (cbuf c' x) = ref (cbuf c x) /\
             cblk (cbuf c' x) = cblk (cbuf c x)) /\
  ncbuf c' = ncbuf c /\ bcache c' = bcache c.

#[global] Instance same_body_preorder : PreOrder same_body.
Proof.
  split; [done|]. intros c1 c2 c3 (H & Hn & Hb) (H' & Hn' & Hb'). split; [|split; congruence].
  intros x. destruct (H x) as (?&?&?), (H' x) as (?&?&?). split_and!; congruence.
Qed.

Lemma upd_links c p f :
  (forall x, hnext (f x) = hnext x /\ ref (f x) = ref x /\ cblk (f x) = cblk x) -> same_body c (upd c p f).
Proof.
  intros Hf. split; [|done]. intros x. cbn.
  destruct (decide (p = x)) as [->|]; [by rewrite fn_lookup_insert|by rewrite fn_lookup_insert_ne].
Qed.

Lemma updo_links c o f :
  (forall x, hnext (f x) = hnext x /\ ref (f x) = ref x /\ cblk (f x) = cblk x) -> same_body c (updo c o f).
Proof. destruct o; [apply upd_links|done]. Qed.

#[export] Hint Resolve upd_links updo_links : gefs.

Lemma lrudel_body c b : same_body c (lrudel c b).
Proof.
  unfold lrudel.
  set (c1 := if decide (chead c = Some b) then _ else c). assert (same_body c c1) as -> by (subst c1; by case_decide).
  set (c2 := if decide (ctail c1 = Some b) then _ else c1). assert (same_body c1 c2) as -> by (subst c2; by case_decide).
  do 2 (etrans; [|by apply upd_links]). etrans; [|by apply updo_links]. by apply updo_links.
Qed.

(** Reads a field after the stores [upd], [updo], and says which buffer it is. *)
Lemma upd_at c p f x : cbuf (upd c p f) x = if decide (p = x) then f (cbuf c x) else cbuf c x.
Proof. cbn. case_decide; subst; [by rewrite fn_lookup_insert|by rewrite fn_lookup_insert_ne]. Qed.

Lemma updo_at c o f x : cbuf (updo c o f) x = if decide (o = Some x) then f (cbuf c x) else cbuf c x.
Proof.
  destruct o as [p|]; cbn [updo]; [rewrite upd_at|by rewrite decide_False].
  repeat case_decide; simplify_eq; done.
Qed.

Lemma updo_head c o f : chead (updo c o f) = chead c.
Proof. by destruct o. Qed.
Lemma updo_tail c o f : ctail (updo c o f) = ctail c.
Proof. by destruct o. Qed.

Lemma lrudel_links c b :
  let c' := lrudel c b in
  cnext (cbuf c b) <> Some b -> cprev (cbuf c b) <> Some b ->
  chead c' = (if decide (chead c = Some b) then cnext (cbuf c b) else chead c) /\
  ctail c' = (if decide (ctail c = Some b) then cprev (cbuf c b) else ctail c) /\
  (forall x, cprev (cbuf c' x) =
     if decide (x = b) then None
     else if decide (cnext (cbuf c b) = Some x) then cprev (cbuf c b) else cprev (cbuf c x)) /\
  (forall x, cnext (cbuf c' x) =
     if decide (x = b) then None
     else if decide (cprev (cbuf c b) = Some x) then cnext (cbuf c b) else cnext (cbuf c x)).
Proof.
  intros c' Hn Hp. subst c'. unfold lrudel.
  set (c1 := if decide (chead c = Some b) then _ else c).
  assert (cbuf c1 = cbuf c /\ ctail c1 = ctail c) as [E1 T1] by (subst c1; by case_decide).
  set (c2 := if decide (ctail c1 = Some b) then _ else c1).
  assert (cbuf c2 = cbuf c /\ chead c2 = chead c1) as [E2 H2] by (subst c2; by case_decide).
  rewrite E2. set (c3 := updo c2 _ _).
  assert (cbuf c3 b = cbuf c b) as E3 by (subst c3; by rewrite updo_at, decide_False, E2).
  rewrite E3. split_and!.
  - cbn [chead upd]. rewrite updo_head. subst c3. rewrite updo_head, H2. subst c1. by case_decide.
  - cbn [ctail upd]. rewrite updo_tail. subst c3. rewrite updo_tail. subst c2. clear -T1 E1. repeat case_decide; cbn; congruence.
  - intros x. rewrite !upd_at, updo_at. subst c3. rewrite updo_at, E2.
    repeat case_decide; simplify_eq; done.
  - intros x. rewrite !upd_at, updo_at. subst c3. rewrite updo_at, E2.
    repeat case_decide; simplify_eq; done.
Qed.

Lemma lru_in c L l1 b l2 :
  lru_rel c L -> L = l1 ++ b :: l2 ->
  cprev (cbuf c b) = last l1 /\ cnext (cbuf c b) = head l2 /\
  dll (cbuf c) None l1 (Some b) /\ dll (cbuf c) (Some b) l2 None /\
  NoDup l1 /\ NoDup l2 /\ (forall x, x ∈ l1 -> ~ (x ∈ l2)) /\ ~ (b ∈ l1) /\ ~ (b ∈ l2).
Proof.
  intros HL ->. pose proof (lr_nodup _ _ HL) as (? & H2 & H3)%NoDup_app.
  apply NoDup_cons in H3 as [? ?].
  pose proof (lr_dll _ _ HL) as [Hl [Hp [Hn Hl2]]]%dll_app. rewrite lao_None in Hp. rewrite hdo_None in Hn.
  split_and!; try done; set_solver.
Qed.

Lemma lru_frame c c' L :
  lru_rel c L -> chead c' = chead c -> ctail c' = ctail c ->
  (forall x, cprev (cbuf c' x) = cprev (cbuf c x) /\ cnext (cbuf c' x) = cnext (cbuf c x)) ->
  (forall x, x ∈ L -> ref (cbuf c' x) = ref (cbuf c x) /\ fstatic (bflg (cbuf c' x)) = fstatic (bflg (cbuf c x))) ->
  lru_rel c' L.
Proof.
  intros [] Hh Ht Hl Hr. split; try congruence.
  - eapply dll_change; [done..| |]; intros x Hx; destruct (Hl x) as [Hx1 Hx2]; rewrite ?Hx1, ?Hx2; case_decide as E; try done.
    + destruct L; [done|]. cbn in E. simplify_eq. by destruct lr_dll0.
    + apply last_Some in E as [l' ->]. apply dll_app in lr_dll0 as (_ & _ & H & _). done.
  - intros b Hb. destruct (Hl b) as [-> ->]. auto.
  - intros b Hb. destruct (Hr b Hb) as [-> ->]. auto.
Qed.

Lemma lrudel_spec c L b : lru_rel c L -> lru_rel (lrudel c b) (without b L).
Proof.
  intros HL. pose proof (lrudel_body c b) as (Hbody & _ & _).
  destruct (decide (b ∈ L)) as [(l1 & l2 & EL)%list_elem_of_split|Hb].
  - destruct (lru_in c L l1 b l2 HL EL) as (Hp & Hn & H1 & H2 & Hnd1 & Hnd2 & Hdis & Hb1 & Hb2).
    destruct (lrudel_links c b) as (Hh & Ht & Hcp & Hcn);
      [rewrite Hn; by intros ?%head_Some_elem_of|rewrite Hp; by intros ?%last_Some_elem_of|].
    pose proof (lr_nodup _ _ HL) as Hnd0. subst L. rewrite without_split by done.
    rewrite Hp, Hn in *. destruct HL as [HLh HLt _ _ HLo HLf]. split.
    + rewrite Hh, HLh. destruct l1 as [|a l1]; cbn; [by rewrite decide_True|].
      rewrite decide_False; [done|]. intros [=->]. set_solver.
    + rewrite Ht, HLt, last_app_cons, last_app. destruct (decide (last (b :: l2) = Some b)) as [E|E].
      * destruct l2 as [|d l2]; [by destruct (last l1)|].
        rewrite last_cons_cons in E. apply last_Some_elem_of in E. done.
      * destruct l2 as [|d l2]; [done|]. rewrite last_cons_cons. by destruct (last (d :: l2)) eqn:?; [|by apply last_None in Heqo].
    + apply dll_app. split.
      * eapply dll_change; [done|exact H1| |]; intros x Hx; rewrite ?Hcp, ?Hcn, ?hdo_None;
          rewrite decide_False by (intros ->; done).
        -- rewrite decide_False by (intros ?%head_Some_elem_of; set_solver).
           destruct (decide (head l1 = Some x)) as [E|]; [|done]. destruct l1; [done|]. cbn in *. simplify_eq. by destruct H1.
        -- done.
      * rewrite lao_None. eapply dll_change; [done|exact H2| |]; intros x Hx; rewrite ?Hcp, ?Hcn;
          rewrite decide_False by (intros ->; done).
        -- done.
        -- rewrite decide_False by (intros ?%last_Some_elem_of; set_solver).
           destruct (decide (last l2 = Some x)) as [E|]; [|done]. apply last_Some in E as [l' ->]. by apply dll_app in H2 as (_ & _ & ? & _).
    + apply NoDup_app. split_and!; done.
    + intros x Hx. rewrite Hcp, Hcn. destruct (decide (x = b)); [done|].
      rewrite !decide_False; [apply HLo; set_solver|intros ?%head_Some_elem_of; set_solver|intros ?%last_Some_elem_of; set_solver].
    + intros x Hx. unfold bflg. destruct (Hbody x) as (_ & -> & ->). apply HLf. set_solver.
  - rewrite without_out by done. destruct (lr_off _ _ HL b Hb) as [Hn Hp].
    destruct (lrudel_links c b) as (Hh & Ht & Hcp & Hcn); [by rewrite Hn|by rewrite Hp|].
    apply (lru_frame c); [done|..].
    + rewrite Hh, (lr_head _ _ HL), decide_False by (by intros ?%head_Some_elem_of). done.
    + rewrite Ht, (lr_tail _ _ HL), decide_False by (by intros ?%last_Some_elem_of). done.
    + intros x. rewrite Hcp, Hcn, Hn, Hp, !(decide_False (P := None = Some x)) by done.
      destruct (decide (x = b)) as [->|]; auto.
    + intros x Hx. unfold bflg. by destruct (Hbody x) as (_ & -> & ->).
Qed.

(** The stores of lrutop and lrubot after lrudel. *)
Definition linktop (c : Cache) (b : nat) : Cache :=
  let c := updo c (chead c) (wcprev (Some b)) in
  let c := if decide (ctail c = None) then wtail c (Some b) else c in
  let c := upd c b (wcnext (chead c)) in
  whead c (Some b).

Definition linkbot (c : Cache) (b : nat) : Cache :=
  let c := updo c (ctail c) (wcnext (Some b)) in
  let c := if decide (chead c = None) then whead c (Some b) else c in
  let c := upd c b (wcprev (ctail c)) in
  wtail c (Some b).

Lemma linktop_body c b : same_body c (linktop c b).
Proof.
  unfold linktop. cbv zeta. set (c1 := updo c _ _).
  trans c1; [by apply updo_links|]. set (c2 := if decide (ctail c1 = None) then _ else c1).
  trans c2; [subst c2; by case_decide|]. by apply (upd_links c2).
Qed.

Lemma linkbot_body c b : same_body c (linkbot c b).
Proof.
  unfold linkbot. cbv zeta. set (c1 := updo c _ _).
  trans c1; [by apply updo_links|]. set (c2 := if decide (chead c1 = None) then _ else c1).
  trans c2; [subst c2; by case_decide|]. by apply (upd_links c2).
Qed.

Lemma linktop_links c b :
  let c' := linktop c b in
  chead c' = Some b /\ ctail c' = (if decide (ctail c = None) then Some b else ctail c) /\
  (forall x, cprev (cbuf c' x) = if decide (chead c = Some x) then Some b else cprev (cbuf c x)) /\
  (forall x, cnext (cbuf c' x) = if decide (b = x) then chead c else cnext (cbuf c x)).
Proof.
  cbv zeta. unfold linktop. cbv zeta. rewrite updo_tail.
  set (c2 := if decide (ctail c = None) then _ else _).
  assert (cbuf c2 = cbuf (updo c (chead c) (wcprev (Some b))) /\ chead c2 = chead c) as [E H].
  { subst c2. case_decide; cbn; by rewrite updo_head. }
  split_and!; [done| | |].
  - cbn. subst c2. case_decide; cbn; [done|]. by rewrite updo_tail.
  - intros x. cbn [cbuf whead]. rewrite upd_at, E, updo_at. repeat case_decide; done.
  - intros x. cbn [cbuf whead]. rewrite upd_at, E, updo_at, H. repeat case_decide; done.
Qed.

Lemma linkbot_links c b :
  let c' := linkbot c b in
  ctail c' = Some b /\ chead c' = (if decide (chead c = None) then Some b else chead c) /\
  (forall x, cnext (cbuf c' x) = if decide (ctail c = Some x) then Some b else cnext (cbuf c x)) /\
  (forall x, cprev (cbuf c' x) = if decide (b = x) then ctail c else cprev (cbuf c x)).
Proof.
  cbv zeta. unfold linkbot. cbv zeta. rewrite updo_head.
  set (c2 := if decide (chead c = None) then _ else _).
  assert (cbuf c2 = cbuf (updo c (ctail c) (wcnext (Some b))) /\ ctail c2 = ctail c) as [E H].
  { subst c2. case_decide; cbn; by rewrite updo_tail. }
  split_and!; [done| | |].
  - cbn. subst c2. case_decide; cbn; [done|]. by rewrite updo_head.
  - intros x. cbn [cbuf wtail]. rewrite upd_at, E, updo_at. repeat case_decide; done.
  - intros x. cbn [cbuf wtail]. rewrite upd_at, E, updo_at, H. repeat case_decide; done.
Qed.

Lemma lru_body c c' L b :
  same_body c c' -> lru_rel c L -> ref (cbuf c b) = 0 -> fstatic (bflg (cbuf c b)) = false ->
  forall x, x = b \/ x ∈ L -> ref (cbuf c' x) = 0 /\ fstatic (bflg (cbuf c' x)) = false.
Proof.
  intros [Hb _] HL Hr Hs x Hx. unfold bflg. destruct (Hb x) as (_ & -> & ->).
  destruct Hx as [->|Hx]; [done|]. by apply (lr_free _ _ HL).
Qed.

Lemma linktop_spec c L b :
  lru_rel c L -> b ∉ L -> ref (cbuf c b) = 0 -> fstatic (bflg (cbuf c b)) = false ->
  lru_rel (linktop c b) (b :: L).
Proof.
  intros HL Hb Hr Hs. destruct (linktop_links c b) as (Hh & Ht & Hp & Hn).
  pose proof (lru_body c _ L b (linktop_body c b) HL Hr Hs) as Hf.
  destruct (lr_off _ _ HL b Hb) as [Hbn Hbp]. destruct HL as [HLh HLt HLd HLnd HLo _].
  rewrite HLh, HLt in *. split.
  - done.
  - rewrite Ht. destruct (decide (last L = None)) as [E|E]; [apply last_None in E as ->; done|].
    destruct L as [|d L]; [done|]. by rewrite last_cons_cons.
  - cbn [dll]. rewrite Hp, Hn, hdo_None. rewrite decide_False by (by intros ?%head_Some_elem_of).
    rewrite decide_True by done. split_and!; [done..|].
    eapply dll_change; [done|exact HLd| |]; intros x Hx; rewrite ?Hp, ?Hn; [done|].
    rewrite decide_False by (intros ->; done). destruct (decide (last L = Some x)) as [E|]; [|done].
    apply last_Some in E as [l' ->]. by apply dll_app in HLd as (_ & _ & ? & _).
  - by constructor.
  - intros x [Hxb Hx]%not_elem_of_cons. rewrite Hp, Hn, !decide_False; [by apply HLo|by intros ?%head_Some_elem_of|congruence].
  - intros x Hx%elem_of_cons. by apply Hf.
Qed.

Lemma linkbot_spec c L b :
  lru_rel c L -> b ∉ L -> ref (cbuf c b) = 0 -> fstatic (bflg (cbuf c b)) = false ->
  lru_rel (linkbot c b) (L ++ [b]).
Proof.
  intros HL Hb Hr Hs. destruct (linkbot_links c b) as (Ht & Hh & Hn & Hp).
  pose proof (lru_body c _ L b (linkbot_body c b) HL Hr Hs) as Hf.
  destruct (lr_off _ _ HL b Hb) as [Hbn Hbp]. destruct HL as [HLh HLt HLd HLnd HLo _].
  rewrite HLh, HLt in *. split.
  - rewrite Hh. destruct L as [|d L]; [done|]. by rewrite decide_False.
  - by rewrite last_snoc.
  - apply dll_app. cbn [dll hdo]. rewrite Hp, Hn, lao_None.
    rewrite (decide_False (P := last L = Some b)) by (by intros ?%last_Some_elem_of).
    rewrite decide_True by done. split_and!; try done.
    eapply dll_change; [done|exact HLd| |]; intros x Hx; rewrite ?Hp, ?Hn; [|done].
    rewrite decide_False by (intros ->; done). destruct (decide (head L = Some x)) as [E|]; [|done].
    destruct L; [done|]. cbn in *. simplify_eq. by destruct HLd.
  - apply NoDup_app. split_and!; [done| |apply NoDup_singleton]. set_solver.
  - intros x Hx. rewrite Hp, Hn, !decide_False; [apply HLo; set_solver| |].
    + set_solver.
    + intros ?%last_Some_elem_of. set_solver.
  - intros x Hx%elem_of_app. apply Hf. set_solver.
Qed.

(** What a list operation leaves: the same blocks, and the list it should. *)
Lemma lrutop_spec c L b :
  lru_rel c L -> fstatic (bflg (cbuf c b)) = false ->
  exists c', lrutop c b = Ok c' /\ same_body c c' /\
    lru_rel c' (if decide (ref (cbuf c b) = 0) then b :: without b L else L).
Proof.
  intros HL Hs. unfold lrutop. rewrite check_unstatic, Hs. cbn [negb check]. rewrite bind_ok.
  destruct (decide (ref (cbuf c b) = 0)) as [Hr|Hr]; [|apply Z.eqb_neq in Hr; rewrite Hr; by exists c].
  rewrite Hr. cbn [Z.eqb negb]. exists (linktop (lrudel c b) b). split; [done|].
  pose proof (lrudel_body c b) as Hb. split; [etrans; [done|apply linktop_body]|].
  destruct Hb as [Hb _]. destruct (Hb b) as (_ & Hr' & Hc).
  apply linktop_spec; [by apply lrudel_spec|rewrite elem_of_without; tauto|congruence|].
  unfold bflg in *. by rewrite Hc.
Qed.

Lemma lrubot_spec c L b :
  lru_rel c L -> fstatic (bflg (cbuf c b)) = false ->
  exists c', lrubot c b = Ok c' /\ same_body c c' /\
    lru_rel c' (if decide (ref (cbuf c b) = 0) then without b L ++ [b] else L).
Proof.
  intros HL Hs. unfold lrubot. rewrite check_unstatic, Hs. cbn [negb check]. rewrite bind_ok.
  destruct (decide (ref (cbuf c b) = 0)) as [Hr|Hr]; [|apply Z.eqb_neq in Hr; rewrite Hr; by exists c].
  rewrite Hr. cbn [Z.eqb negb]. exists (linkbot (lrudel c b) b). split; [done|].
  pose proof (lrudel_body c b) as Hb. split; [etrans; [done|apply linkbot_body]|].
  destruct Hb as [Hb _]. destruct (Hb b) as (_ & Hr' & Hc).
  apply linkbot_spec; [by apply lrudel_spec|rewrite elem_of_without; tauto|congruence|].
  unfold bflg in *. by rewrite Hc.
Qed.

(** * The hash table *)

(** The blocks [l] linked by hnext from the pointer [o] to the pointer [e]. *)
Fixpoint seg (m : nat -> Cblk) (o : option nat) (l : list nat) (e : option nat) : Prop :=
  match l with
  | [] => o = e
  | b :: l => o = Some b /\ seg m (hnext (m b)) l e
  end.

Lemma seg_app m o l1 l2 e : seg m o (l1 ++ l2) e <-> exists o', seg m o l1 o' /\ seg m o' l2 e.
Proof.
  revert o. induction l1 as [|b l1 IH]; intros o; cbn [app seg]; [naive_solver|].
  rewrite IH. naive_solver.
Qed.

Lemma seg_frame m m' o l e : (forall x, x ∈ l -> hnext (m' x) = hnext (m x)) -> seg m o l e -> seg m' o l e.
Proof.
  revert o. induction l as [|b l IH]; intros o Hx; cbn [seg]; [done|]. intros [-> H].
  split; [done|]. rewrite Hx by set_solver. apply IH; [|done]. set_solver.
Qed.

Lemma seg_hd m o l e : seg m o l e -> o = hdo l e.
Proof. destruct l; cbn; naive_solver. Qed.

Record tab_rel (c : Cache) (T : gmap Z nat) : Prop := {
  tr_bkts : (0 < length (bcache c))%nat;
  tr_chain i : (i < length (bcache c))%nat ->
    exists l, seg (cbuf c) (bcache c !!! i) l None /\ NoDup l /\
    forall b, b ∈ l <-> T !! baddr (cbuf c b) = Some b /\ bucket c (baddr (cbuf c b)) = i;
  tr_tab a b : T !! a = Some b ->
    baddr (cbuf c b) = a /\ fcached (bflg (cbuf c b)) = true /\ fstatic (bflg (cbuf c b)) = false /\
    (b < ncbuf c)%nat /\ a <> -1;
  tr_cached b : fcached (bflg (cbuf c b)) = true -> T !! baddr (cbuf c b) = Some b;
  tr_hnext b : fcached (bflg (cbuf c b)) = false -> hnext (cbuf c b) = None
}.

(** Stores that leave the chains and the cached blocks as they are. *)
Lemma tab_frame c c' T :
  tab_rel c T -> bcache c' = bcache c -> ncbuf c' = ncbuf c ->
  (forall x, hnext (cbuf c' x) = hnext (cbuf c x) /\
             fcached (bflg (cbuf c' x)) = fcached (bflg (cbuf c x)) /\
             (fcached (bflg (cbuf c x)) = true ->
              baddr (cbuf c' x) = baddr (cbuf c x) /\ fstatic (bflg (cbuf c' x)) = fstatic (bflg (cbuf c x)))) ->
  tab_rel c' T.
Proof.
  intros [Hb Hc Ht Hca Hh] Eb En Hx.
  assert (Hk : forall a, bucket c' a = bucket c a) by (intros a; unfold bucket; by rewrite Eb).
  split; rewrite ?Eb; try done.
  - intros i Hi. destruct (Hc i Hi) as (l & Hs & Hnd & Hl). exists l. split_and!; [|done|].
    + eapply seg_frame; [|done]. intros x _. by destruct (Hx x).
    + intros b. rewrite Hl, Hk. destruct (Hx b) as (_ & Hf & Hf'). split; intros [H1 H2].
      * pose proof (Ht _ _ H1) as (_ & Hfc & _). destruct (Hf' Hfc) as [-> _]. done.
      * pose proof (Ht _ _ H1) as (_ & Hfc & _). destruct (Hf' Hfc) as [E _]. rewrite E in *. done.
  - intros a b Hab. destruct (Ht a b Hab) as (? & ? & ? & ? & ?). destruct (Hx b) as (_ & Hf & Hf').
    destruct (Hf' ltac:(done)) as [-> ->]. rewrite Hf, En. done.
  - intros b Hb'. destruct (Hx b) as (_ & Hf & Hf'). rewrite Hf in Hb'. destruct (Hf' Hb') as [-> _]. auto.
  - intros b Hb'. destruct (Hx b) as (-> & Hf & _). apply Hh. congruence.
Qed.

Lemma tab_body c c' T : tab_rel c T -> same_body c c' -> tab_rel c' T.
Proof.
  intros HT (Hb & En & Eb). apply (tab_frame c); try done. intros x. unfold bflg, baddr.
  by destruct (Hb x) as (-> & _ & ->).
Qed.

Lemma bucket_lt c a : (0 < length (bcache c))%nat -> (bucket c a < length (bcache c))%nat.
Proof.
  intros H. unfold bucket, zlen. pose proof (Z.mod_pos_bound (ihash (u64 a)) (Z.of_nat (length (bcache c)))). lia.
Qed.

Lemma nodup_below (l : list nat) n : NoDup l -> (forall x, x ∈ l -> (x < n)%nat) -> (length l <= n)%nat.
Proof.
  intros Hnd Hl. rewrite <- (length_seq n 0). apply submseteq_length, NoDup_submseteq; [done|].
  intros x Hx. apply elem_of_seq. specialize (Hl x Hx). lia.
Qed.

(** The chain of the bucket of [a], and the block in it at [a]. *)
Lemma tab_bucket c T a :
  tab_rel c T ->
  exists l, seg (cbuf c) (bkthd c a) l None /\ NoDup l /\ (length l <= ncbuf c)%nat /\
    (forall b, b ∈ l <-> T !! baddr (cbuf c b) = Some b /\ bucket c (baddr (cbuf c b)) = bucket c a) /\
    match T !! a with
    | Some b => exists l1 l2, l = l1 ++ b :: l2 /\ Forall (fun x => baddr (cbuf c x) <> a) l1
    | None => Forall (fun x => baddr (cbuf c x) <> a) l
    end.
Proof.
  intros HT. destruct (tr_chain _ _ HT (bucket c a)) as (l & Hs & Hnd & Hl); [apply bucket_lt, HT|].
  exists l. split_and!; [done|done| |done|].
  - apply nodup_below; [done|]. intros x [Hx _]%Hl. apply (tr_tab _ _ HT) in Hx. tauto.
  - destruct (T !! a) as [b|] eqn:E.
    + pose proof (tr_tab _ _ HT _ _ E) as (Ha & _).
      assert (Hb : b ∈ l) by (apply Hl; rewrite Ha; done).
      apply list_elem_of_split in Hb as (l1 & l2 & ->). exists l1, l2. split; [done|].
      apply Forall_forall. intros x Hx Hxa.
      assert (T !! baddr (cbuf c x) = Some x) as Hx' by (apply Hl; set_solver).
      rewrite Hxa in Hx'. simplify_eq. apply NoDup_app in Hnd as (_ & Hd & _). eapply Hd; [exact Hx|]. set_solver.
    + apply Forall_forall. intros x [Hx _]%Hl Hxa. congruence.
Qed.

Lemma getwalk_spec fuel c a o l :
  seg (cbuf c) o l None -> (length l <= fuel)%nat ->
  getwalk fuel c a o = Ok (head (filter (fun x => baddr (cbuf c x) = a) l)).
Proof.
  revert o l. induction fuel as [|fuel IH]; intros o l Hs Hl.
  - destruct l; cbn in *; [by subst|lia].
  - destruct l as [|b l]; cbn in Hs, Hl; [by subst|]. destruct Hs as [-> Hs]. cbn [getwalk].
    destruct (Z.eqb_spec (baddr (cbuf c b)) a) as [E|E].
    + by rewrite filter_cons_True.
    + rewrite filter_cons_False by done. apply IH; [done|lia].
Qed.

Lemma get_spec c T a : tab_rel c T -> getwalk (S (ncbuf c)) c a (bkthd c a) = Ok (T !! a).
Proof.
  intros HT. destruct (tab_bucket c T a HT) as (l & Hs & _ & Hl & _ & Hm).
  rewrite (getwalk_spec _ c a _ l Hs) by lia. f_equal. destruct (T !! a) as [b|] eqn:E.
  - destruct Hm as (l1 & l2 & -> & H1). apply (tr_tab _ _ HT) in E as (E & _).
    rewrite filter_app, filter_none by done. by rewrite filter_cons_True.
  - by rewrite filter_none.
Qed.

(** What cachedel_lk stores when it takes [b] out, the successor of [p]. *)
Definition delat (c : Cache) (a : Z) (p : option nat) (b : nat) : Cache :=
  let c := match p with
           | None => wbkt c (bucket c a) (hnext (cbuf c b))
           | Some p => upd c p (whnext (hnext (cbuf c b)))
           end in
  let c := upd c b (whnext None) in
  upd c b (fun x => wflag (setflag (bflg x) 0 Bcached) x).

Lemma delwalk_spec fuel c a p o l1 b l2 :
  seg (cbuf c) o (l1 ++ b :: l2) None -> (length (l1 ++ b :: l2) <= fuel)%nat ->
  Forall (fun x => baddr (cbuf c x) <> a) l1 -> baddr (cbuf c b) = a ->
  fcached (bflg (cbuf c b)) = true -> fstatic (bflg (cbuf c b)) = false ->
  delwalk fuel c a p o = Ok (delat c a (lao p l1) b).
Proof.
  intros Hs Hl H1 Hb Hc Hst. revert p o fuel Hs Hl.
  induction H1 as [|x l1 Hx H1 IH]; intros p o fuel Hs Hl; cbn [app seg length] in *;
    destruct Hs as [-> Hs]; destruct fuel as [|fuel]; try lia; cbn [delwalk].
  - apply Z.eqb_eq in Hb. rewrite Hb, check_cached_unstatic, Hc, Hst. done.
  - apply Z.eqb_neq in Hx. rewrite Hx, lao_cons. apply IH; [done|lia].
Qed.

Lemma delwalk_none fuel c a p o l :
  seg (cbuf c) o l None -> (length l <= fuel)%nat ->
  Forall (fun x => baddr (cbuf c x) <> a) l -> delwalk fuel c a p o = Ok c.
Proof.
  intros Hs Hl H1. revert p o fuel Hs Hl.
  induction H1 as [|x l1 Hx H1 IH]; intros p o fuel Hs Hl; cbn [seg length] in *.
  - subst. by destruct fuel.
  - destruct Hs as [-> Hs]; destruct fuel as [|fuel]; [lia|]. cbn [delwalk].
    apply Z.eqb_neq in Hx. rewrite Hx. apply IH; [done|lia].
Qed.

(** [c'] differs from [c] at most in the chains and in the flag Bcached. *)
Definition same_links (c c' : Cache) : Prop :=
  chead c' = chead c /\ ctail c' = ctail c /\ ncbuf c' = ncbuf c /\
  forall x, cprev (cbuf c' x) = cprev (cbuf c x) /\ cnext (cbuf c' x) = cnext (cbuf c x) /\
    ref (cbuf c' x) = ref (cbuf c x) /\ mb (cblk (cbuf c' x)) = mb (cblk (cbuf c x)) /\
    fstatic (bflg (cbuf c' x)) = fstatic (bflg (cbuf c x)).

Lemma lru_links c c' L : lru_rel c L -> same_links c c' -> lru_rel c' L.
Proof.
  intros HL (Hh & Ht & _ & Hx). apply (lru_frame c); try done; intros x; [|intros _]; destruct (Hx x) as (?&?&?&?&?); done.
Qed.

Lemma links_addr c c' x : same_links c c' -> baddr (cbuf c' x) = baddr (cbuf c x).
Proof. intros (_ & _ & _ & H). unfold baddr. by destruct (H x) as (_ & _ & _ & -> & _). Qed.

Lemma delat_links c a p b : same_links c (delat c a p b).
Proof.
  unfold delat. set (c1 := match p with None => _ | Some p => _ end).
  assert (Hp : same_links c c1).
  { subst c1. destruct p as [p|]; [|done]. split_and!; try done. intros x. unfold bflg. rewrite upd_at. by case_decide. }
  destruct Hp as (Hh & Ht & Hn & Hx). split_and!; try done. intros x. specialize (Hx x) as (?&?&?&?&?).
  unfold bflg in *. rewrite !upd_at. case_decide; cbn; [|done]. split_and!; try done.
  destruct (setcached_bits (bflag (cblk (cbuf c1 x)))) as (_ & _ & _ & Hs). unfold bflg in *. cbn. congruence.
Qed.

Lemma delat_fields c a p b x :
  p <> Some b ->
  let c' := delat c a p b in
  hnext (cbuf c' x) = (if decide (b = x) then None else
                       if decide (p = Some x) then hnext (cbuf c b) else hnext (cbuf c x)) /\
  bflg (cbuf c' x) = (if decide (b = x) then setflag (bflg (cbuf c x)) 0 Bcached else bflg (cbuf c x)) /\
  bcache c' = (match p with None => <[bucket c a := hnext (cbuf c b)]> (bcache c) | Some _ => bcache c end).
Proof.
  intros Hp c'. subst c'. unfold delat.
  destruct p as [p|]; (split_and!; [| |done]); cbv zeta; rewrite !upd_at; cbn [cbuf wbkt]; rewrite ?upd_at.
  all: repeat case_decide; simplify_eq; done.
Qed.

(** The chains after a block is taken out. *)
Lemma delat_chain c T a b l1 l2 :
  tab_rel c T -> T !! a = Some b ->
  seg (cbuf c) (bkthd c a) (l1 ++ b :: l2) None -> NoDup (l1 ++ b :: l2) ->
  let c' := delat c a (last l1) b in
  seg (cbuf c') (bkthd c' a) (l1 ++ l2) None.
Proof.
  intros HT Hab Hs (Hn1 & Hd & Hn2)%NoDup_app. apply NoDup_cons in Hn2 as [Hb2 Hn2].
  assert (Hb1 : b ∉ l1) by set_solver.
  assert (Hp : last l1 <> Some b) by (by intros ?%last_Some_elem_of).
  pose proof (fun x => delat_fields c a (last l1) b x Hp) as Hf. cbv zeta in *.
  apply seg_app in Hs as (o & Hs1 & Ho & Hs2).
  assert (Hlt : (bucket c a < length (bcache c))%nat) by (apply bucket_lt, HT).
  assert (Hbk : bucket (delat c a (last l1) b) a = bucket c a).
  { unfold bucket. destruct (Hf b) as (_ & _ & ->). destruct (last l1); [done|]. unfold zlen. by rewrite length_insert. }
  apply seg_app. exists (hnext (cbuf c b)). split.
  - unfold bkthd. rewrite Hbk. destruct (Hf b) as (_ & _ & ->).
    destruct l1 as [|y l1 _] using rev_ind; [cbn; by apply list_lookup_total_insert_eq|].
    rewrite last_snoc in *. apply seg_app in Hs1 as (o1 & Hs1 & -> & Hy). apply seg_app.
    apply NoDup_app in Hn1 as (_ & Hd1 & _).
    exists (Some y). split; [eapply seg_frame; [|exact Hs1]|].
    + intros x Hx. destruct (Hf x) as (-> & _). rewrite !decide_False; [done| |set_solver].
      intros [=->]. eapply Hd1; [exact Hx|]. set_solver.
    + cbn [seg]. split; [done|]. destruct (Hf y) as (-> & _). rewrite decide_False by set_solver. by rewrite decide_True.
  - eapply seg_frame; [|exact Hs2]. intros x Hx. destruct (Hf x) as (-> & _).
    rewrite !decide_False; [done| |set_solver]. intros ?%last_Some_elem_of. set_solver.
Qed.

Lemma delat_spec c T a b l1 l2 :
  tab_rel c T -> T !! a = Some b ->
  seg (cbuf c) (bkthd c a) (l1 ++ b :: l2) None -> NoDup (l1 ++ b :: l2) ->
  (forall x, x ∈ l1 ++ b :: l2 <-> T !! baddr (cbuf c x) = Some x /\ bucket c (baddr (cbuf c x)) = bucket c a) ->
  tab_rel (delat c a (last l1) b) (delete a T).
Proof.
  intros HT Hab Hs Hnd Hl. pose proof (delat_chain c T a b l1 l2 HT Hab Hs Hnd) as Hch.
  pose proof (delat_links c a (last l1) b) as HL. set (c' := delat c a (last l1) b) in *.
  destruct (tr_tab _ _ HT _ _ Hab) as (Eb & _).
  assert (Hn : NoDup (l1 ++ l2) /\ b ∉ l1 ++ l2).
  { apply NoDup_app in Hnd as (? & ? & [? ?]%NoDup_cons). split; [apply NoDup_app|]; set_solver. }
  assert (Hp : last l1 <> Some b) by (intros ?%last_Some_elem_of; set_solver).
  pose proof (fun x => delat_fields c a (last l1) b x Hp) as Hf. cbv zeta in Hf. fold c' in Hf.
  assert (Hlen : length (bcache c') = length (bcache c)).
  { destruct (Hf b) as (_ & _ & ->). destruct (last l1); [done|]. by rewrite length_insert. }
  assert (Hbk : forall z, bucket c' z = bucket c z) by (intros z; unfold bucket, zlen; by rewrite Hlen).
  assert (Hin : forall x, delete a T !! baddr (cbuf c' x) = Some x <-> T !! baddr (cbuf c x) = Some x /\ x <> b).
  { intros x. rewrite (links_addr c c' x HL), lookup_delete_Some. split; intros [H1 H2]; split; try done.
    - intros ->. congruence.
    - intros E. rewrite <- E in H1. congruence. }
  split.
  - rewrite Hlen. apply HT.
  - intros i Hi. rewrite Hlen in Hi. destruct (decide (i = bucket c a)) as [->|Hia].
    + exists (l1 ++ l2). split_and!; [unfold bkthd in Hch; by rewrite Hbk in Hch|tauto|].
      intros x. rewrite Hin, (links_addr c c' x HL), Hbk. specialize (Hl x). set_solver.
    + destruct (tr_chain _ _ HT i Hi) as (l & Hsi & Hndi & Hli). exists l.
      assert (Hout : forall x, x ∈ l -> x ∉ l1 ++ b :: l2).
      { intros x [_ H1]%Hli [_ H2]%Hl. congruence. }
      split_and!; [|done|].
      * assert (bcache c' !!! i = bcache c !!! i) as ->.
        { destruct (Hf b) as (_ & _ & ->). destruct (last l1); [done|]. by rewrite list_lookup_total_insert_ne. }
        eapply seg_frame; [|exact Hsi]. intros x Hx%Hout. destruct (Hf x) as (-> & _).
        rewrite !decide_False; [done|intros ?%last_Some_elem_of; set_solver|set_solver].
      * intros x. rewrite Hin, (links_addr c c' x HL), Hbk, Hli. split; [|tauto]. intros [H1 H2]. split_and!; try done.
        intros ->. congruence.
  - intros z x [Hz Hx]%lookup_delete_Some. destruct (tr_tab _ _ HT _ _ Hx) as (E & Hc & Hst & Hlt & Hm).
    assert (x <> b) by (intros ->; congruence).
    rewrite (links_addr c c' x HL). destruct HL as (_ & _ & Hnb & _). rewrite Hnb.
    destruct (Hf x) as (_ & -> & _). by rewrite decide_False.
  - intros x. destruct (Hf x) as (_ & E & _). rewrite E. case_decide as Hx.
    + by destruct (setcached_bits (bflg (cbuf c x))) as (_ & _ & -> & _).
    + intros Hc%(tr_cached _ _ HT). apply Hin. split; [done|congruence].
  - intros x. destruct (Hf x) as (E1 & E & _). rewrite E, E1. case_decide as Hx; [done|]. intros Hc.
    rewrite decide_False; [by apply (tr_hnext _ _ HT)|]. intros Hx1%last_Some_elem_of.
    assert (Hxl : x ∈ l1 ++ b :: l2) by set_solver. apply Hl in Hxl as [Hxl _].
    apply (tr_tab _ _ HT) in Hxl. destruct Hxl as (_ & Hxl & _). congruence.
Qed.

Lemma cachedel_spec c T a :
  tab_rel c T ->
  exists c', cachedel_lk c a = Ok c' /\ tab_rel c' (delete a T) /\ same_links c c' /\
    forall x, bflg (cbuf c' x) = if decide (T !! a = Some x) then setflag (bflg (cbuf c x)) 0 Bcached else bflg (cbuf c x).
Proof.
  intros HT. unfold cachedel_lk. destruct (T !! a) as [b|] eqn:E.
  - destruct (tr_tab _ _ HT _ _ E) as (Eb & Hc & Hst & _ & Hm). apply Z.eqb_neq in Hm. rewrite Hm.
    destruct (tab_bucket c T a HT) as (l & Hs & Hnd & Hl & Hin & Hsp). rewrite E in Hsp.
    destruct Hsp as (l1 & l2 & -> & H1).
    rewrite (delwalk_spec _ c a None _ l1 b l2) by (done || lia). rewrite lao_None.
    eexists. split; [done|]. split_and!; [by eapply delat_spec|apply delat_links|].
    intros x. destruct (delat_fields c a (last l1) b x) as (_ & -> & _);
      [|by repeat case_decide; simplify_eq].
    intros ?%last_Some_elem_of. apply NoDup_app in Hnd as (_ & Hd & _). set_solver.
  - assert (delete a T = T) as -> by (by apply delete_id).
    exists c. split; [|by split_and!]. destruct (Z.eqb_spec a (-1)); [done|].
    destruct (tab_bucket c T a HT) as (l & Hs & Hnd & Hl & Hin & Hsp). rewrite E in Hsp.
    rewrite (delwalk_none _ c a None _ l) by (done || lia). done.
Qed.

Lemma nodup_chain_spec fuel c b o l :
  seg (cbuf c) o l None -> (length l <= fuel)%nat -> b ∉ l ->
  nodup_chain fuel c b o = check (forallb (fun x => negb (baddr (cbuf c b) =? baddr (cbuf c x))) l).
Proof.
  revert o l. induction fuel as [|fuel IH]; intros o l Hs Hl Hb.
  - destruct l; cbn in *; [by subst|lia].
  - destruct l as [|x l]; cbn in Hs, Hl; [by subst|]. destruct Hs as [-> Hs]. cbn [nodup_chain forallb].
    rewrite bool_decide_true by set_solver. cbn [andb].
    destruct (negb _); [|done]. cbn [check andb]. rewrite bind_ok. apply IH; [done|lia|set_solver].
Qed.

(** What cacheins stores once its checks pass. *)
Definition insat (c : Cache) (a : Z) (b : nat) : Cache :=
  let c := upd c b (fun x => wflag (setflag (bflg x) Bcached 0) x) in
  let c := upd c b (whnext (bkthd c a)) in
  wbkt c (bucket c a) (Some b).

Lemma insat_links c a b : same_links c (insat c a b).
Proof.
  split_and!; try done. intros x. unfold insat, bflg. cbn [cbuf wbkt]. rewrite !upd_at.
  case_decide; cbn; [|done]. split_and!; try done. apply setcached_bits.
Qed.

Lemma insat_fields c a b x :
  let c' := insat c a b in
  hnext (cbuf c' x) = (if decide (b = x) then bkthd c a else hnext (cbuf c x)) /\
  bflg (cbuf c' x) = (if decide (b = x) then setflag (bflg (cbuf c x)) Bcached 0 else bflg (cbuf c x)) /\
  bcache c' = <[bucket c a := Some b]> (bcache c).
Proof. split_and!; [| |done]; unfold insat; cbn [cbuf wbkt]; rewrite !upd_at; by case_decide. Qed.

Lemma insat_spec c T b :
  let a := baddr (cbuf c b) in
  tab_rel c T -> T !! a = None -> a <> -1 -> (b < ncbuf c)%nat ->
  fcached (bflg (cbuf c b)) = false -> fstatic (bflg (cbuf c b)) = false ->
  tab_rel (insat c a b) (<[a := b]> T).
Proof.
  intros a HT Hn Hm Hlt Hc Hst.
  assert (Hout : forall z, T !! z <> Some b).
  { intros z Hz. apply (tr_tab _ _ HT) in Hz as (_ & Hz & _). congruence. }
  pose proof (insat_links c a b) as HL. pose proof (insat_fields c a b) as Hf. cbv zeta in Hf.
  set (c' := insat c a b) in *.
  assert (Hlen : length (bcache c') = length (bcache c)) by (destruct (Hf b) as (_ & _ & ->); by rewrite length_insert).
  assert (Hbk : forall z, bucket c' z = bucket c z) by (intros z; unfold bucket, zlen; by rewrite Hlen).
  pose proof (tr_bkts _ _ HT) as H0. pose proof (bucket_lt c a H0) as Hka.
  assert (Hin : forall x, <[a := b]> T !! baddr (cbuf c' x) = Some x <-> x = b \/ T !! baddr (cbuf c x) = Some x).
  { intros x. rewrite (links_addr c c' x HL), lookup_insert_Some. unfold a. split.
    - intros [[_ ->]|[_ ?]]; auto.
    - intros [->|Hx]; [by left|]. right. split; [|done]. intros E. subst a. rewrite E in Hn. congruence. }
  split.
  - by rewrite Hlen.
  - intros i Hi. rewrite Hlen in Hi. destruct (tr_chain _ _ HT i Hi) as (l & Hs & Hnd & Hl).
    assert (Hbl : b ∉ l) by (by intros [?%Hout _]%Hl).
    destruct (decide (i = bucket c a)) as [->|Hia].
    + exists (b :: l). split_and!; [| |].
      * destruct (Hf b) as (_ & _ & ->). rewrite list_lookup_total_insert_eq by done. cbn [seg]. split; [done|].
        destruct (Hf b) as (-> & _). rewrite decide_True by done.
        eapply seg_frame; [|exact Hs]. intros x Hx. destruct (Hf x) as (-> & _). by rewrite decide_False by set_solver.
      * by constructor.
      * intros x. rewrite elem_of_cons, Hin, Hl, Hbk, (links_addr c c' x HL). split; [|tauto].
        intros [->|[? ?]]; auto.
    + exists l. split_and!; [|done|].
      * destruct (Hf b) as (_ & _ & ->). rewrite list_lookup_total_insert_ne by done.
        eapply seg_frame; [|exact Hs]. intros x Hx. destruct (Hf x) as (-> & _). by rewrite decide_False by set_solver.
      * intros x. rewrite Hin, Hl, Hbk, (links_addr c c' x HL). split; [tauto|].
        intros [[->|?] E]; [by destruct Hia|done].
  - intros z x Hzx. rewrite (links_addr c c' x HL). destruct (Hf x) as (_ & -> & _).
    destruct HL as (_ & _ & Hnb & _). rewrite Hnb.
    apply lookup_insert_Some in Hzx as [[<- <-]|[_ Hzx]].
    + rewrite decide_True by done. destruct (setcached_bits (bflg (cbuf c b))) as (-> & -> & _). done.
    + rewrite decide_False by (intros ->; by eapply Hout). by apply (tr_tab _ _ HT).
  - intros x. destruct (Hf x) as (_ & -> & _). rewrite Hin. case_decide; [by left|].
    intros ?%(tr_cached _ _ HT). by right.
  - intros x. destruct (Hf x) as (-> & -> & _). case_decide; [|apply HT].
    by destruct (setcached_bits (bflg (cbuf c x))) as (-> & _).
Qed.

Lemma cacheins_spec c T b :
  let a := baddr (cbuf c b) in
  tab_rel c T -> a <> -1 -> (b < ncbuf c)%nat ->
  if decide (T !! a = None /\ fcached (bflg (cbuf c b)) = false /\ fstatic (bflg (cbuf c b)) = false) then
    cacheins c b = Ok (insat c a b) /\ tab_rel (insat c a b) (<[a := b]> T)
  else cacheins c b = Fail Abort.
Proof.
  intros a HT Hm Hlt. unfold cacheins. rewrite check_fresh. fold a.
  destruct (fstatic (bflg (cbuf c b))) eqn:Hst; [by rewrite decide_False by naive_solver|].
  destruct (fcached (bflg (cbuf c b))) eqn:Hc; [by rewrite decide_False by naive_solver|].
  cbn [negb andb check]. rewrite bind_ok. cbv zeta.
  set (c1 := upd c b _).
  assert (Hh : hnext (cbuf c1 b) = None).
  { subst c1. rewrite upd_at, decide_True by done. by apply (tr_hnext _ _ HT). }
  rewrite bool_decide_true by done. cbn [check]. rewrite bind_ok.
  destruct (tab_bucket c T a HT) as (l & Hs & Hnd & Hl & Hin & Hsp).
  assert (Hbl : b ∉ l).
  { intros [H _]%Hin. apply (tr_tab _ _ HT) in H. destruct H as (_ & ? & _). congruence. }
  assert (Haddr : forall x, baddr (cbuf c1 x) = baddr (cbuf c x)).
  { intros x. unfold c1, baddr. rewrite upd_at. by case_decide. }
  rewrite (nodup_chain_spec _ c1 b _ l); [|eapply seg_frame; [|exact Hs]|cbn; lia|done].
  2: { intros x _. unfold c1. rewrite upd_at. by case_decide. }
  rewrite Haddr. fold a.
  assert (Hall : forallb (fun x => negb (a =? baddr (cbuf c1 x))) l = bool_decide (T !! a = None)).
  { apply Bool.eq_iff_eq_true. rewrite bool_decide_eq_true, forallb_forall.
    setoid_rewrite Haddr. split.
    - intros Hx. destruct (T !! a) as [z|] eqn:E; [|done]. destruct Hsp as (l1 & l2 & -> & _).
      destruct (tr_tab _ _ HT _ _ E) as (E' & _).
      specialize (Hx z ltac:(apply list_elem_of_In; set_solver)). rewrite E' in Hx. lia.
    - intros E x Hx%list_elem_of_In. rewrite E in Hsp. rewrite Forall_forall in Hsp.
      specialize (Hsp x Hx). lia. }
  rewrite Hall. destruct (T !! a) as [z|] eqn:E.
  - rewrite bool_decide_false by done. by rewrite decide_False by naive_solver.
  - rewrite bool_decide_true, decide_True by done. cbn [check]. rewrite bind_ok.
    split; [done|]. by apply insat_spec.
Qed.

(** * The operations on the whole cache *)

Definition cache_rel (c : Cache) (L : list nat) (T : gmap Z nat) : Prop := lru_rel c L /\ tab_rel c T.

(** The buffers other than [b] have kept their block and their count. *)
Definition only (b : nat) (c c' : Cache) : Prop :=
  ncbuf c' = ncbuf c /\
  forall x, x <> b -> ref (cbuf c' x) = ref (cbuf c x) /\ cblk (cbuf c' x) = cblk (cbuf c x).

Lemma no_self c L b : lru_rel c L -> cnext (cbuf c b) <> Some b /\ cprev (cbuf c b) <> Some b.
Proof.
  intros HL. destruct (decide (b ∈ L)) as [(l1 & l2 & E)%list_elem_of_split|Hb].
  - destruct (lru_in c L l1 b l2 HL E) as (-> & -> & _ & _ & _ & _ & _ & H1 & H2).
    split; [by intros ?%head_Some_elem_of|by intros ?%last_Some_elem_of].
  - by destruct (lr_off _ _ HL b Hb) as [-> ->].
Qed.

(** lrudel of a block whose count or flags have just changed. *)
Lemma lrudel_upd c L b f :
  lru_rel c L -> (forall x, cnext (f x) = cnext x /\ cprev (f x) = cprev x) ->
  lru_rel (lrudel (upd c b f) b) (without b L).
Proof.
  intros HL Hf. destruct (no_self c L b HL) as [Hn Hp].
  assert (Hu : forall x, cnext (cbuf (upd c b f) x) = cnext (cbuf c x) /\ cprev (cbuf (upd c b f) x) = cprev (cbuf c x)).
  { intros x. rewrite upd_at. case_decide; [apply Hf|done]. }
  destruct (lrudel_links c b Hn Hp) as (Hh1 & Ht1 & Hp1 & Hn1).
  destruct (Hu b) as [Ebn Ebp].
  destruct (lrudel_links (upd c b f) b) as (Hh2 & Ht2 & Hp2 & Hn2); [by rewrite Ebn|by rewrite Ebp|].
  rewrite Ebn, Ebp in *. apply (lru_frame (lrudel c b)).
  - by apply lrudel_spec.
  - rewrite Hh2, Hh1. done.
  - rewrite Ht2, Ht1. done.
  - intros x. destruct (Hu x) as [En Ep]. by rewrite Hp1, Hp2, Hn1, Hn2, En, Ep.
  - intros x [_ Hx]%elem_of_without. unfold bflg.
    destruct (lrudel_body c b) as [H1 _]. destruct (lrudel_body (upd c b f) b) as [H2 _].
    destruct (H1 x) as (_ & -> & ->), (H2 x) as (_ & -> & ->). by rewrite upd_at, decide_False.
Qed.

Lemma lrudel_only c b : only b c (lrudel c b).
Proof. destruct (lrudel_body c b) as (H & Hn & _). split; [done|]. intros x _. by destruct (H x) as (_ & -> & ->). Qed.

Lemma upd_only c b f : only b c (upd c b f).
Proof. split; [done|]. intros x Hx. by rewrite upd_at, decide_False. Qed.

Lemma only_trans b c1 c2 c3 : only b c1 c2 -> only b c2 c3 -> only b c1 c3.
Proof.
  intros [Hn H] [Hn' H']. split; [congruence|]. intros x Hx.
  destruct (H x Hx), (H' x Hx). split; congruence.
Qed.

Lemma cacheget_spec c L T a :
  cache_rel c L T ->
  match T !! a with
  | None => cacheget c a = Ok (c, None)
  | Some b => exists c', cacheget c a = Ok (c', Some b) /\ cache_rel c' (without b L) T /\ only b c c' /\
                cblk (cbuf c' b) = cblk (cbuf c b) /\ ref (cbuf c' b) = ref (cbuf c b) + 1
  end.
Proof.
  intros [HL HT]. unfold cacheget. rewrite (get_spec c T a HT), bind_ok.
  destruct (T !! a) as [b|]; [|done]. eexists. split; [done|].
  destruct (lrudel_body (holdblk c b) b) as [Hb _]. destruct (Hb b) as (_ & Hr & Hm).
  split_and!; [split| | |].
  - by apply lrudel_upd.
  - apply (tab_body (holdblk c b)); [|apply lrudel_body]. apply (tab_frame c); try done.
    intros x. unfold holdblk. rewrite upd_at. by case_decide.
  - eapply only_trans; [apply upd_only|apply lrudel_only].
  - rewrite Hm. unfold holdblk. by rewrite upd_at, decide_True.
  - rewrite Hr. unfold holdblk. by rewrite upd_at, decide_True.
Qed.

(** The table without the buffer [b]. *)
Definition evict (T : gmap Z nat) (c : Cache) (b : nat) : gmap Z nat :=
  if fcached (bflg (cbuf c b)) then delete (baddr (cbuf c b)) T else T.

Lemma tab_reset c T b :
  tab_rel c T -> fcached (bflg (cbuf c b)) = false ->
  tab_rel (upd (upd c b (wflag 0)) b (whnext None)) T.
Proof.
  intros HT Hc. apply (tab_frame c); try done. intros x. unfold bflg, baddr. rewrite !upd_at.
  case_decide as E; [subst; cbn|done]. unfold bflg in Hc. split_and!; [by rewrite (tr_hnext _ _ HT)|done|by rewrite Hc].
Qed.

Lemma pluck_lk_spec c L T b :
  cache_rel c (L ++ [b]) T ->
  exists c', pluck_lk c = Ok (Some (c', b)) /\ cache_rel c' L (evict T c b) /\
    ncbuf c' = ncbuf c /\ ref (cbuf c' b) = 0 /\ bflg (cbuf c' b) = 0 /\
    forall x, x <> b -> ref (cbuf c' x) = ref (cbuf c x) /\ mb (cblk (cbuf c' x)) = mb (cblk (cbuf c x)) /\
                        bflg (cbuf c' x) = bflg (cbuf c x).
Proof.
  intros [HL HT]. unfold pluck_lk. rewrite (lr_tail _ _ HL), last_snoc.
  destruct (lr_free _ _ HL b) as [Hr Hst]; [set_solver|]. rewrite Hr. cbn [Z.eqb check]. rewrite bind_ok, check_cached.
  assert (exists c1, (if fcached (bflg (cbuf c b)) then cachedel_lk c (baddr (cbuf c b)) else Ok c) = Ok c1 /\
    tab_rel c1 (evict T c b) /\ same_links c c1 /\ fcached (bflg (cbuf c1 b)) = false /\
    forall x, x <> b -> bflg (cbuf c1 x) = bflg (cbuf c x)) as (c1 & -> & HT1 & Hl1 & Hc1 & Hf1).
  { unfold evict. destruct (fcached (bflg (cbuf c b))) eqn:Ec; [|by exists c].
    pose proof (tr_cached _ _ HT b Ec) as Hb.
    destruct (cachedel_spec c T (baddr (cbuf c b)) HT) as (c1 & E & HT1 & Hl & Hf). exists c1. split_and!; try done.
    - rewrite Hf, decide_True by done. apply setcached_bits.
    - intros x Hx. rewrite Hf, decide_False; congruence. }
  rewrite bind_ok, check_uncached, Hc1. cbn [negb check]. rewrite bind_ok.
  pose proof (lru_links c c1 _ HL Hl1) as HL1.
  pose proof (lrudel_spec c1 _ b HL1) as HL2.
  assert (Hw : without b (L ++ [b]) = L).
  { pose proof (lr_nodup _ _ HL) as Hnd. rewrite without_split by done. apply app_nil_r. }
  rewrite Hw in HL2.
  destruct (lrudel_body c1 b) as (Hb2 & Hn2 & _). destruct Hl1 as (_ & _ & Hn1 & Hl1).
  assert (HbL : b ∉ L) by (pose proof (lr_nodup _ _ HL) as (_ & H & _)%NoDup_app; set_solver).
  eexists. split; [done|]. split_and!; [split| | | |].
  - apply (lru_frame (lrudel c1 b)); try done.
    + intros x. rewrite !upd_at. by case_decide.
    + intros x Hx. rewrite !upd_at.
      destruct (decide (b = x)) as [->|]; done.
  - apply tab_reset; [by apply (tab_body c1); [|apply lrudel_body]|].
    unfold bflg. by destruct (Hb2 b) as (_ & _ & ->).
  - change (ncbuf (lrudel c1 b) = ncbuf c). congruence.
  - rewrite !upd_at. destruct (decide (b = b)); [|done].
    change (ref (cbuf (lrudel c1 b) b) = 0). destruct (Hb2 b) as (_ & -> & _).
    destruct (Hl1 b) as (_ & _ & -> & _). lia.
  - rewrite !upd_at. by destruct (decide (b = b)).
  - intros x Hx. unfold bflg. rewrite !upd_at. destruct (decide (b = x)); [congruence|].
    destruct (Hb2 x) as (_ & -> & ->). destruct (Hl1 x) as (_ & _ & -> & -> & _). split_and!; try done.
    by apply Hf1.
Qed.

Lemma pluck_lk_wait c T : cache_rel c [] T -> pluck_lk c = Ok None.
Proof. intros [HL _]. unfold pluck_lk. by rewrite (lr_tail _ _ HL). Qed.

(** A reference to a buffer that is not on the list. *)
Lemma hold_rel c L T b : cache_rel c L T -> b ∉ L -> cache_rel (holdblk c b) L T.
Proof.
  intros [HL HT] Hb. split.
  - apply (lru_frame c); try done; intros x; unfold holdblk; rewrite upd_at; [|intros Hx]; case_decide; subst; done.
  - apply (tab_frame c); try done. intros x. unfold holdblk, bflg, baddr. rewrite upd_at. by case_decide.
Qed.

Lemma cachepluck_spec c L T b :
  cache_rel c (L ++ [b]) T ->
  exists c', cachepluck c = Ok (Some (c', b)) /\ cache_rel c' L (evict T c b) /\
    ncbuf c' = ncbuf c /\ ref (cbuf c' b) = 1 /\ bflg (cbuf c' b) = 0.
Proof.
  intros HR. destruct (pluck_lk_spec c L T b HR) as (c1 & E & HR1 & Hn & Hr & Hf & _).
  assert (b ∉ L) as HbL by (pose proof (lr_nodup _ _ (proj1 HR)) as (_ & H & _)%NoDup_app; set_solver).
  exists (holdblk c1 b). unfold cachepluck. rewrite E, bind_ok. split; [done|]. split; [by apply hold_rel|].
  unfold holdblk, bflg in *. rewrite upd_at, decide_True by done. cbn. split_and!; [done|lia|done].
Qed.

Lemma cachepluck_wait c T : cache_rel c [] T -> cachepluck c = Ok None.
Proof. intros HR. unfold cachepluck. by rewrite (pluck_lk_wait c T HR). Qed.

Lemma droplru_spec c L T b :
  cache_rel c L T -> fstatic (bflg (cbuf c b)) = false ->
  exists c', droplru c b = Ok c' /\ same_body c c' /\
    cache_rel c' (if decide (ref (cbuf c b) = 0) then
                    if ffreed (bflg (cbuf c b)) then without b L ++ [b] else b :: without b L
                  else L) T.
Proof.
  intros [HL HT] Hst. unfold droplru. rewrite check_freed. destruct (ffreed _).
  - destruct (lrubot_spec c L b HL Hst) as (c' & E & Hb & HL'). exists c'. split_and!; try done. split; [done|]. by eapply tab_body.
  - destruct (lrutop_spec c L b HL Hst) as (c' & E & Hb & HL'). exists c'. split_and!; try done. split; [done|]. by eapply tab_body.
Qed.

(** * The cache of a new file system *)

(** A block as mallocz gives it, with its address set. *)
Definition zblk : Mblk :=
  mkMblk (mkBlk Tdat 0 0 0 0 (replicate (Z.to_nat Blksz) 0) Zb) 0 0 (mkBptr 0 0 0) [] 0.

(** The loop of initfs that makes the blocks, from the [i]th on. *)
Fixpoint initblks (k : nat) (c : Cache) (i : nat) : res Cache :=
  match k with
  | O => Ok c
  | S k =>
      let c := mkCache (<[i := mkCblk None None None 0 zblk]> (cbuf c)) (S (ncbuf c)) (chead c) (ctail c) (bcache c) in
      c ← lrutop c i;
      initblks k c (S i)
  end.

Definition initfs (cmax : nat) : res Cache :=
  initblks cmax (mkCache (fun _ => mkCblk None None None 0 zblk) 0 None None (replicate cmax None)) 0.

Lemma initblks_spec k c i L T :
  cache_rel c L T -> ncbuf c = i -> (forall x, x ∈ L <-> (x < i)%nat) ->
  (forall x, ref (cbuf c x) = 0 /\ cblk (cbuf c x) = zblk) ->
  exists c', initblks k c i = Ok c' /\ cache_rel c' (rev (seq i k) ++ L) T /\ ncbuf c' = (i + k)%nat /\
    (forall x, ref (cbuf c' x) = 0 /\ cblk (cbuf c' x) = zblk).
Proof.
  revert c i L. induction k as [|k IH]; intros c i L [HL HT] Hn Hin Hz; cbn [initblks].
  - exists c. split_and!; [done|done|lia|done].
  - set (c1 := mkCache _ (S (ncbuf c)) _ _ _).
    assert (Hi : i ∉ L) by (rewrite Hin; lia).
    assert (Hat : forall x, cbuf c1 x = if decide (i = x) then mkCblk None None None 0 zblk else cbuf c x).
    { intros x. cbn. case_decide; subst; [apply fn_lookup_insert|by apply fn_lookup_insert_ne]. }
    assert (HL1 : lru_rel c1 L).
    { apply (lru_frame c); try done.
      - intros x. rewrite Hat. case_decide; [subst x|done]. by destruct (lr_off _ _ HL i Hi) as [-> ->].
      - intros x Hx. rewrite Hat, decide_False by (intros ->; done). done. }
    assert (HT1 : tab_rel c1 T).
    { destruct HT as [Hb Hc Ht Hca Hh].
      assert (Hsame : forall x, hnext (cbuf c1 x) = hnext (cbuf c x) /\ baddr (cbuf c1 x) = baddr (cbuf c x) /\
                                bflg (cbuf c1 x) = bflg (cbuf c x)).
      { intros x. rewrite Hat. unfold baddr, bflg. case_decide; [|done]. destruct (Hz x) as [_ ->].
        cbn [hnext cblk]. split_and!; try done. rewrite Hh; [done|]. unfold bflg. by destruct (Hz x) as [_ ->]. }
      split; try done.
      - intros j Hj. destruct (Hc j Hj) as (l & Hs & Hnd & Hl). exists l. split_and!; try done.
        + eapply seg_frame; [|exact Hs]. intros x _. apply Hsame.
        + intros x. destruct (Hsame x) as (_ & -> & _). apply Hl.
      - intros a x Hax. destruct (Ht a x Hax) as (? & ? & ? & ? & ?). destruct (Hsame x) as (_ & -> & ->).
        split_and!; try done. cbn. lia.
      - intros x. destruct (Hsame x) as (_ & -> & ->). apply Hca.
      - intros x. destruct (Hsame x) as (-> & _ & ->). apply Hh. }
    assert (Hz1 : forall x, ref (cbuf c1 x) = 0 /\ cblk (cbuf c1 x) = zblk).
    { intros x. rewrite Hat. case_decide; [done|apply Hz]. }
    destruct (lrutop_spec c1 L i HL1) as (c2 & -> & Hb2 & HL2).
    { unfold bflg. by destruct (Hz1 i) as [_ ->]. }
    destruct (Hz1 i) as [Hr _]. rewrite decide_True, without_out in HL2 by done. rewrite bind_ok.
    assert (Hz2 : forall x, ref (cbuf c2 x) = 0 /\ cblk (cbuf c2 x) = zblk).
    { intros x. destruct Hb2 as [Hb2 _]. destruct (Hb2 x) as (_ & -> & ->). apply Hz1. }
    destruct (IH c2 (S i) (i :: L)) as (c' & -> & Hr' & Hn' & Hz'); [split| | |done|].
    + done.
    + by apply (tab_body c1).
    + destruct Hb2 as (_ & -> & _). cbn. by rewrite Hn.
    + intros x. rewrite elem_of_cons, Hin. lia.
    + exists c'. split_and!; [done| |lia|done]. cbn [seq rev]. by rewrite <- app_assoc.
Qed.

Lemma initfs_spec cmax :
  (0 < cmax)%nat ->
  exists c, initfs cmax = Ok c /\ cache_rel c (rev (seq 0 cmax)) ∅ /\ ncbuf c = cmax /\
    (forall x, ref (cbuf c x) = 0 /\ cblk (cbuf c x) = zblk).
Proof.
  intros Hm. unfold initfs.
  destruct (initblks_spec cmax (mkCache (fun _ => mkCblk None None None 0 zblk) 0 None None (replicate cmax None)) 0 [] ∅)
    as (c & E & Hr & Hn & Hz); [split|done|set_solver by lia|done|].
  - split; try done. constructor.
  - split; try done; cbn.
    + by rewrite length_replicate.
    + intros i Hi. rewrite length_replicate in Hi. exists [].
      rewrite lookup_total_replicate_2 by done. split_and!; [done|constructor|]. set_solver.
  - exists c. rewrite app_nil_r in Hr. done.
Qed.

(** * What the cache promises *)

(** C18: The cache is a table from addresses to buffers with a list of the
    buffers not in use, oldest last.  In a well-formed cache: cacheget finds
    the buffer the table has for the address, and only that, takes a
    reference and takes it off the list; cacheins enters a block and stops
    the kernel when the address is in the table already, or when the block
    is; cachedel takes an address out; cachepluck waits exactly when the list
    is empty, and otherwise gives the buffer at the end of the list, out of
    the list and the table, with one reference and no flags; lrutop and
    lrubot move a block that has no references to the front or the end, and
    do nothing to one that has.  The pointers of the list and of the chains
    stay consistent, and no walk of a chain runs away. *)
Theorem cache_refines c L T :
  cache_rel c L T ->
  (forall a, match T !! a with
     | None => cacheget c a = Ok (c, None)
     | Some b => exists c', cacheget c a = Ok (c', Some b) /\ cache_rel c' (without b L) T /\ only b c c' /\
                   cblk (cbuf c' b) = cblk (cbuf c b) /\ ref (cbuf c' b) = ref (cbuf c b) + 1
     end) /\
  (forall b, let a := baddr (cbuf c b) in a <> -1 -> (b < ncbuf c)%nat ->
     if decide (T !! a = None /\ fcached (bflg (cbuf c b)) = false /\ fstatic (bflg (cbuf c b)) = false) then
       exists c', cacheins c b = Ok c' /\ cache_rel c' L (<[a := b]> T) /\ same_links c c'
     else cacheins c b = Fail Abort) /\
  (forall a, exists c', cachedel c a = Ok c' /\ cache_rel c' L (delete a T) /\ same_links c c') /\
  match last L with
  | None => cachepluck c = Ok None
  | Some b => exists c', cachepluck c = Ok (Some (c', b)) /\ cache_rel c' (without b L) (evict T c b) /\
                ref (cbuf c' b) = 1 /\ bflg (cbuf c' b) = 0
  end /\
  (forall b, fstatic (bflg (cbuf c b)) = false ->
     (exists c', lrutop c b = Ok c' /\ same_body c c' /\
        cache_rel c' (if decide (ref (cbuf c b) = 0) then b :: without b L else L) T) /\
     (exists c', lrubot c b = Ok c' /\ same_body c c' /\
        cache_rel c' (if decide (ref (cbuf c b) = 0) then without b L ++ [b] else L) T)).
Proof.
  intros HR. pose proof HR as [HL HT]. split_and!.
  - intros a. by apply cacheget_spec.
  - intros b a Hm Hb. pose proof (cacheins_spec c T b HT Hm Hb) as Hi. cbv zeta in Hi. fold a in Hi.
    case_decide; [|done]. destruct Hi as [-> Hi]. eexists. split; [done|].
    split; [split; [by eapply lru_links; [|apply insat_links]|done]|apply insat_links].
  - intros a. destruct (cachedel_spec c T a HT) as (c' & E & HT' & Hl & _). exists c'.
    split; [done|]. split; [split; [by eapply lru_links|done]|done].
  - destruct (last L) as [b|] eqn:E.
    + apply last_Some in E as [L' ->]. destruct (cachepluck_spec c L' T b HR) as (c' & Ec & HR' & _ & Hr & Hf).
      exists c'. rewrite without_split by apply HL. rewrite app_nil_r. done.
    + apply last_None in E as ->. by eapply cachepluck_wait.
  - intros b Hb. split.
    + destruct (lrutop_spec c L b HL Hb) as (c' & ? & ? & ?). exists c'. split_and!; try done. split; [done|by eapply tab_body].
    + destruct (lrubot_spec c L b HL Hb) as (c' & ? & ? & ?). exists c'. split_and!; try done. split; [done|by eapply tab_body].
Qed.

Lemma cache_refines_witness :
  exists c c', initfs 3 = Ok c /\ cache_rel c [2; 1; 0]%nat ∅ /\
    cachepluck c = Ok (Some (c', 0%nat)) /\ cache_rel c' [2; 1]%nat ∅.
Proof.
  destruct (initfs_spec 3 ltac:(lia)) as (c & E & HR & _ & Hz).
  destruct (cache_refines c _ _ HR) as (_ & _ & _ & (c' & Hp & HR' & _) & _).
  exists c, c'. split_and!; [exact E|exact HR|exact Hp|].
  unfold evict, bflg in HR'. destruct (Hz 0%nat) as [_ Hz0]. cbn in HR'. rewrite Hz0 in HR'. exact HR'.
Defined.
