(* ===== verification/Handles.v ===== *)
(** sys/src/9/gefs/blk.c, the blocks in memory: getblk, newblk and newdblk on
    the cache, and the cache shared by processes.

    An operation that would wait for a buffer gives [Wait] and the cache as
    the wait finds it.  getblk catches the errors of readblk and changes
    fs->rdonly when it passes them on, so it returns them as values.

    The second half is a transition system: every interleaving of the steps
    processes take on the cache, each of them atomic under fs->lrulk or on
    one reference count.  cachepluck takes its reference after it has released
    fs->lrulk: between the two a dropblk that is late with its list operation
    finds no reference and puts the plucked buffer back on the list
    ([cache_race]).  The runs without such an overtaking ([calm]) keep what the
    cache promises. *)

From stdpp Require Import functions fin_maps.
From S2P Require Import Prelude Layout Hash Pack Node Blk Cache.

(** * The code *)

Definition GBtry : Z := 8.

Inductive got := Got (b : nat) | Nil | Wait | Raised (s : string).

Definition setgen (m : Mblk) (g : Z) : Mblk :=
  let n := mb m in
  mkMblk (mkBlk (btyp n) (nval n) (bvalsz n) (nbuf n) (bufsz n) (data n) (mkBptr (addr (bp n)) (hash (bp n)) g))
         (logsz m) (logh m) (logp m) (hdr m) (bflag m).

(** The stores of readblk and getblk to the buffer: the links are set to nil. *)
Definition filled (m : Mblk) (x : Cblk) : Cblk := mkCblk None None None (ref x) m.

Section Getblk.
  Context (pread : Z -> Z -> option (list Z)).

Definition getblk (c : Cache) (rdonly : Z) (p : Bptr) (flg : Z) : res (Cache * Z * got) :=
  '(c, o) ← cacheget c (addr p);
  match o with
  | Some b =>
      check (checkflag (bflg (cbuf c b)) 0 Bfreed);;
      check (gen (bp (mb (cblk (cbuf c b)))) =? gen p);;
      Ok (c, rdonly, Got b)
  | None =>
      r ← cachepluck c;
      match r with
      | None => Ok (c, rdonly, Wait)
      | Some (c, b) =>
          match readblk pread (cblk (cbuf c b)) p flg with
          | Ok m =>
              c ← cacheins (upd c b (filled (setgen m (gen p)))) b;
              Ok (c, rdonly, Got b)
          | Fail (Error s) =>
              if negb (Z.land flg GBtry =? 0) then Ok (c, rdonly, Nil) else Ok (c, rdonly + 1, Raised s)
          | Fail f => Fail f
          end
      end
  end.
End Getblk.

(** newblk, given the address [a] that blkalloc returned; initblk looks the
    address up and takes a reference only to stop the kernel. *)
Definition newblk (c : Cache) (a memgen : Z) (ty : btype) : res (Cache * got) :=
  r ← cachepluck c;
  match r with
  | None => Ok (c, Wait)
  | Some (c, b) =>
      '(_, o) ← cacheget c a;
      m ← initblk (cblk (cbuf c b)) a memgen ty (bool_decide (is_Some o));
      Ok (upd c b (wblk m), Got b)
  end.

Definition newdblk (c : Cache) (a memgen : Z) : res (Cache * got) := newblk c a memgen Tdat.

(** * Blocks read and made *)

#[local] Transparent readblk.

Lemma readblk_addr pread b0 p flg m :
  readblk pread b0 p flg = Ok m -> addr (bp (mb m)) = addr p /\ bflag m = bflag b0.
Proof.
  unfold readblk, parseblk. intros H. inv_ok. match goal with x : Z * Z |- _ => destruct x end.
  match goal with H : hdfields _ _ ?t _ = Ok _ |- _ => destruct t; cbn in H end;
    inv_ok; subst; (case_match; [discriminate|]); inv_ok; by subst.
Qed.

Lemma check_unfreed f : checkflag f 0 Bfreed = negb (ffreed f).
Proof.
  unfold checkflag. rewrite Z.lor_0_l. change Bfreed with (2 ^ 2). rewrite land_pow2 by lia.
  unfold ffreed. by destruct (Z.testbit _ _).
Qed.

(** A store to a buffer that is in neither the list nor the table. *)
Lemma fill_rel c L T b f :
  cache_rel c L T -> b ∉ L -> fcached (bflg (cbuf c b)) = false ->
  (forall x, cnext (f x) = None /\ cprev (f x) = None /\ hnext (f x) = None) \/
  (forall x, cnext (f x) = cnext x /\ cprev (f x) = cprev x /\ hnext (f x) = hnext x) ->
  fcached (bflg (f (cbuf c b))) = false ->
  cache_rel (upd c b f) L T.
Proof.
  intros [HL HT] Hb Hc Hf Hc'. destruct (lr_off _ _ HL b Hb) as [Hn Hp]. pose proof (tr_hnext _ _ HT b Hc) as Hh.
  assert (Hl : cnext (f (cbuf c b)) = None /\ cprev (f (cbuf c b)) = None /\ hnext (f (cbuf c b)) = None).
  { destruct Hf as [Hf|Hf]; [apply Hf|]. destruct (Hf (cbuf c b)) as (-> & -> & ->). done. }
  destruct Hl as (Hfn & Hfp & Hfh). split.
  - apply (lru_frame c); try done.
    + intros x. rewrite upd_at. case_decide; [subst; by rewrite Hfn, Hfp|done].
    + intros x Hx. rewrite upd_at, decide_False by (intros ->; done). done.
  - apply (tab_frame c); try done. intros x. rewrite upd_at. case_decide; [subst|done].
    split_and!; [by rewrite Hfh|by rewrite Hc'|by rewrite Hc].
Qed.

Lemma evict_lookup c T a b : tab_rel c T -> T !! a = None -> evict T c b !! a = None.
Proof. intros _ H. unfold evict. destruct (fcached _); [|done]. rewrite lookup_delete_None. by right. Qed.

Lemma setgen_same m g : addr (bp (mb (setgen m g))) = addr (bp (mb m)) /\ bflag (setgen m g) = bflag m.
Proof. done. Qed.

Lemma nodup_snoc c (L : list nat) b T : cache_rel c (L ++ [b]) T -> b ∉ L.
Proof. intros [HL _]. pose proof (lr_nodup _ _ HL) as (_ & H & _)%NoDup_app. set_solver. Qed.

(** getblk of a block that the cache does not have, with the buffer [b] to be
    had. *)
Lemma getblk_miss pread c L T b p flg rdonly c1 :
  cache_rel c (L ++ [b]) T -> T !! addr p = None -> addr p <> -1 -> (b < ncbuf c)%nat ->
  cachepluck c = Ok (Some (c1, b)) ->
  match readblk pread (cblk (cbuf c1 b)) p flg with
  | Ok m => exists c', getblk pread c rdonly p flg = Ok (c', rdonly, Got b) /\
      cache_rel c' L (<[addr p := b]> (evict T c b)) /\ ref (cbuf c' b) = 1 /\
      mb (cblk (cbuf c' b)) = mb (setgen m (gen p))
  | Fail (Error s) =>
      getblk pread c rdonly p flg =
        Ok (if Z.land flg GBtry =? 0 then (c1, rdonly + 1, Raised s) else (c1, rdonly, Nil)) /\
      cache_rel c1 L (evict T c b) /\ ref (cbuf c1 b) = 1
  | Fail f => getblk pread c rdonly p flg = Fail f
  end.
Proof.
  intros HR Hn Hm Hb Hp. pose proof (cacheget_spec c _ T (addr p) HR) as Hg. rewrite Hn in Hg.
  pose proof (nodup_snoc c L b T HR) as HbL.
  destruct (cachepluck_spec c L T b HR) as (c1' & Ep & HR1 & Hnb & Hr1 & Hf1).
  rewrite Hp in Ep. simplify_eq. unfold getblk. rewrite Hg, bind_ok. cbv beta iota. rewrite Hp, bind_ok.
  destruct (readblk _ _ _ _) as [m|f] eqn:Er; [|destruct f; try done; by destruct (Z.land flg GBtry =? 0)].
  apply readblk_addr in Er as [Ea Ef].
  assert (Hc1 : fcached (bflg (cbuf c1' b)) = false) by (by rewrite Hf1).
  assert (Hc2 : bflag m = 0) by (rewrite Ef; exact Hf1).
  set (c2 := upd c1' b (filled (setgen m (gen p)))).
  assert (HR2 : cache_rel c2 L (evict T c b)).
  { apply fill_rel; try done; [by left|]. unfold bflg. cbn. by rewrite Hc2. }
  assert (Hat : cbuf c2 b = filled (setgen m (gen p)) (cbuf c1' b)) by (unfold c2; by rewrite upd_at, decide_True).
  pose proof (cacheins_spec c2 (evict T c b) b (proj2 HR2)) as Hi. cbv zeta in Hi.
  assert (Hba : baddr (cbuf c2 b) = addr p) by (rewrite Hat; exact Ea).
  assert (Hbf : bflg (cbuf c2 b) = 0) by (rewrite Hat; exact Hc2).
  rewrite Hba, Hbf, decide_True in Hi; [|split_and!; [by apply evict_lookup; [apply HR|]|done|done]].
  destruct Hi as [-> Hi]; [done|change (b < ncbuf c1')%nat; lia|]. rewrite bind_ok.
  eexists. split; [done|]. destruct (insat_links c2 (addr p) b) as (Hl1 & Hl2 & Hl3 & Hl4).
  split_and!; [split; [|done]| |].
  - eapply lru_links; [exact (proj1 HR2)|apply insat_links].
  - destruct (Hl4 b) as (_ & _ & -> & _). rewrite Hat. exact Hr1.
  - destruct (Hl4 b) as (_ & _ & _ & -> & _). by rewrite Hat.
Qed.

(** C31: getblk.  With a well-formed cache: a block of the cache is given with
    one more reference and nothing is read, and the kernel stops when the
    block is one that was freed or is of another generation; else getblk waits
    exactly when no buffer is free, takes the buffer at the end of the list,
    and enters the block that readblk made of the device in the table.  When
    the read fails GBtry gives nil, and without it the file system turns
    read-only and the error is passed on; in both cases the buffer keeps its
    one reference, outside of the list and of the table: nobody holds it, and
    it is lost to the cache. *)
Theorem getblk_correct pread c L T rdonly p flg :
  cache_rel c L T -> (forall x, x ∈ L -> (x < ncbuf c)%nat) -> addr p <> -1 ->
  match T !! addr p with
  | Some b =>
      let ok := negb (ffreed (bflg (cbuf c b))) && (gen (bp (mb (cblk (cbuf c b)))) =? gen p) in
      if ok then exists c', getblk pread c rdonly p flg = Ok (c', rdonly, Got b) /\
        cache_rel c' (without b L) T /\ only b c c' /\
        cblk (cbuf c' b) = cblk (cbuf c b) /\ ref (cbuf c' b) = ref (cbuf c b) + 1
      else getblk pread c rdonly p flg = Fail Abort
  | None =>
      match last L with
      | None => getblk pread c rdonly p flg = Ok (c, rdonly, Wait)
      | Some b => exists c1, cachepluck c = Ok (Some (c1, b)) /\
          match readblk pread (cblk (cbuf c1 b)) p flg with
          | Ok m => exists c', getblk pread c rdonly p flg = Ok (c', rdonly, Got b) /\
              cache_rel c' (without b L) (<[addr p := b]> (evict T c b)) /\ ref (cbuf c' b) = 1 /\
              mb (cblk (cbuf c' b)) = mb (setgen m (gen p))
          | Fail (Error s) =>
              getblk pread c rdonly p flg =
                Ok (if Z.land flg GBtry =? 0 then (c1, rdonly + 1, Raised s) else (c1, rdonly, Nil)) /\
              cache_rel c1 (without b L) (evict T c b) /\ ref (cbuf c1 b) = 1
          | Fail f => getblk pread c rdonly p flg = Fail f
          end
      end
  end.
Proof.
  intros HR Hlt Hm. pose proof (cacheget_spec c L T (addr p) HR) as Hg. destruct (T !! addr p) as [b|] eqn:E.
  - destruct Hg as (c' & Hg & HR' & Ho & Hb & Hr). unfold getblk. rewrite Hg, bind_ok. cbv beta iota.
    unfold bflg. rewrite Hb, check_unfreed. destruct (negb (ffreed _)); [|done].
    cbn [check andb]. rewrite bind_ok. destruct (_ =? _); [|done]. cbn [check]. rewrite bind_ok. by exists c'.
  - destruct (last L) as [b|] eqn:El.
    + apply last_Some in El as [L' ->]. destruct (cachepluck_spec c L' T b HR) as (c1 & Ep & _).
      exists c1. split; [done|]. rewrite without_split, app_nil_r by apply HR.
      apply getblk_miss; try done. apply Hlt. set_solver.
    + unfold getblk. rewrite Hg, bind_ok. cbv beta iota. apply last_None in El as ->.
      by rewrite (cachepluck_wait c T HR).
Qed.

Lemma getblk_correct_witness :
  exists c, initfs 2 = Ok c /\
  exists c1, cachepluck c = Ok (Some (c1, 0%nat)) /\
    getblk (fun _ _ => None) c 0 (mkBptr 16384 0 0) GBtry = Ok (c1, 0, Nil) /\
    cache_rel c1 [1%nat] ∅ /\ ref (cbuf c1 0%nat) = 1.
Proof.
  destruct (initfs_spec 2 ltac:(lia)) as (c & E & HR & Hn & Hz). exists c. split; [exact E|].
  destruct (getblk_correct (fun _ _ => None) c [1; 0]%nat ∅ 0 (mkBptr 16384 0 0) GBtry HR) as (c1 & Hp & Hg).
  - rewrite Hn. set_solver by lia.
  - done.
  - exists c1. split; [exact Hp|]. unfold readblk in Hg. cbn in Hg. destruct Hg as (Hg & HR1 & Hr).
    split_and!; [exact Hg| |exact Hr].
    unfold evict, bflg in HR1. destruct (Hz 0%nat) as [_ Hz0]. rewrite Hz0 in HR1. exact HR1.
Defined.

(** * Processes sharing the cache *)

(** The cache, the references that processes hold, one entry for each, the
    blocks that a process has dropped the last reference of and is about to
    put on the list, and the buffers that a process in cachepluck has taken
    off the list and has no reference of yet. *)
Record shared := mkShared { sc : Cache; held : list nat; pending : list nat; plucked : list nat }.

(** One step of some process, labelled with the buffer when it is the list
    step of a dropblk.  cachepluck is two steps, [st_pluck] with fs->lrulk and
    [st_take] after it was released; dropblk looks at Bfreed before it has the
    lock, so its list step may be lrutop or lrubot.  [st_fill] is any store a
    holder makes to a block: it keeps the flags Bcached and Bstatic, and the
    address of a block in the table. *)
Inductive cstep : option nat -> shared -> shared -> Prop :=
  | st_get c h p q a c' b :
      cacheget c a = Ok (c', Some b) -> cstep None (mkShared c h p q) (mkShared c' (b :: h) p q)
  | st_pluck c h p q c' b :
      pluck_lk c = Ok (Some (c', b)) -> cstep None (mkShared c h p q) (mkShared c' h p (b :: q))
  | st_take c h p q1 b q2 :
      cstep None (mkShared c h p (q1 ++ b :: q2)) (mkShared (holdblk c b) (b :: h) p (q1 ++ q2))
  | st_fill c h p q b m :
      b ∈ h -> fcached (bflag m) = fcached (bflg (cbuf c b)) -> fstatic (bflag m) = false ->
      (fcached (bflag m) = true -> addr (bp (mb m)) = baddr (cbuf c b)) ->
      cstep None (mkShared c h p q) (mkShared (upd c b (wblk m)) h p q)
  | st_ins c h p q b c' :
      b ∈ h -> baddr (cbuf c b) <> -1 -> cacheins c b = Ok c' -> cstep None (mkShared c h p q) (mkShared c' h p q)
  | st_del c h p q a c' :
      cachedel c a = Ok c' -> cstep None (mkShared c h p q) (mkShared c' h p q)
  | st_hold c h p q b :
      b ∈ h -> cstep None (mkShared c h p q) (mkShared (holdblk c b) (b :: h) p q)
  | st_drop c h1 b h2 p q c' last :
      dropref c b = (c', last) ->
      cstep None (mkShared c (h1 ++ b :: h2) p q) (mkShared c' (h1 ++ h2) (if last then b :: p else p) q)
  | st_lru c h p1 b p2 q c' :
      lrutop c b = Ok c' \/ lrubot c b = Ok c' ->
      cstep (Some b) (mkShared c h (p1 ++ b :: p2) q) (mkShared c' h (p1 ++ p2) q).

Definition sstep (s s' : shared) : Prop := exists l, cstep l s s'.

(** A step that does not put on the list a buffer that another process is
    plucking: nothing in the code rules this out, see [cache_race]. *)
Definition calm (s s' : shared) : Prop := exists l, cstep l s s' /\ forall b, l = Some b -> b ∉ plucked s.

Definition started (cmax : nat) (s : shared) : Prop :=
  exists c, initfs cmax = Ok c /\ s = mkShared c [] [] [].

(** The number of references to [b] in [h]. *)
Definition holds_of (b : nat) (h : list nat) : Z := zlen (filter (fun x => x = b) h).

(** The plucked buffers are nowhere else. *)
Definition apart (c : Cache) (L h q : list nat) : Prop :=
  NoDup q /\ forall b, b ∈ q -> (b ∉ L) /\ (b ∉ h) /\ fcached (bflg (cbuf c b)) = false.

Record shared_ok (s : shared) : Prop := {
  so_rel : exists L T, cache_rel (sc s) L T /\
    (forall b, (b < ncbuf (sc s))%nat <-> b ∈ L \/ b ∈ held s \/ b ∈ pending s \/ b ∈ plucked s) /\
    apart (sc s) L (held s) (plucked s);
  so_ref b : ref (cbuf (sc s) b) = holds_of b (held s);
  so_static b : fstatic (bflg (cbuf (sc s) b)) = false
}.

Lemma holds_of_cons b x h : holds_of b (x :: h) = holds_of b h + if decide (x = b) then 1 else 0.
Proof. unfold holds_of. rewrite filter_cons. case_decide; rewrite ?zlen_cons; lia. Qed.

Lemma holds_of_app b h1 h2 : holds_of b (h1 ++ h2) = holds_of b h1 + holds_of b h2.
Proof. unfold holds_of. by rewrite filter_app, zlen_app. Qed.

Lemma holds_of_pos b h : b ∈ h <-> 0 < holds_of b h.
Proof.
  unfold holds_of, zlen. split.
  - intros Hb. assert (b ∈ filter (fun x => x = b) h) as H by (by apply list_elem_of_filter).
    destruct (filter _ h); [set_solver|cbn; lia].
  - intros H. destruct (filter (fun x => x = b) h) as [|y l] eqn:E; [cbn in H; lia|].
    assert (y ∈ filter (fun x => x = b) h) as Hy by (rewrite E; set_solver).
    apply list_elem_of_filter in Hy as [-> ?]. done.
Qed.

Lemma holds_of_nil b h : b ∉ h -> holds_of b h = 0.
Proof. intros H. destruct (decide (0 < holds_of b h)) as [Hx%holds_of_pos|]; [done|]. unfold holds_of, zlen in *. lia. Qed.

Lemma free_unheld s L T b : shared_ok s -> cache_rel (sc s) L T -> b ∈ L -> b ∉ held s.
Proof.
  intros Hs [HL _] Hb Hh%holds_of_pos. destruct (lr_free _ _ HL b Hb) as [Hr _].
  rewrite (so_ref _ Hs) in Hr. lia.
Qed.

(** A step: what is left to show of the new state. *)
Lemma shared_intro c h p q c' h' p' q' L' T' :
  shared_ok (mkShared c h p q) -> cache_rel c' L' T' -> ncbuf c' = ncbuf c ->
  (forall b, (b < ncbuf c)%nat <-> b ∈ L' \/ b ∈ h' \/ b ∈ p' \/ b ∈ q') -> apart c' L' h' q' ->
  (forall x, ref (cbuf c' x) = ref (cbuf c x) + (holds_of x h' - holds_of x h)) ->
  (forall x, fstatic (bflg (cbuf c' x)) = false) ->
  shared_ok (mkShared c' h' p' q').
Proof.
  intros Hs HR Hn Hc Ha Hr Hst. split; cbn.
  - exists L', T'. split; [done|]. by rewrite Hn.
  - intros b. rewrite Hr. pose proof (so_ref _ Hs b) as H. cbn in H. lia.
  - done.
Qed.

(** The parts of [shared_ok]. *)
Ltac shared_parts Hs L T HR Hin Hnd Hap Hr Hst :=
  pose proof Hs as [(L & T & HR & Hin & Hnd & Hap) Hr Hst]; cbn [sc held pending plucked] in *.

Lemma step_get c h p q a c' b :
  shared_ok (mkShared c h p q) -> cacheget c a = Ok (c', Some b) -> shared_ok (mkShared c' (b :: h) p q).
Proof.
  intros Hs E. shared_parts Hs L T HR Hin Hnd Hap Hr0 Hst.
  pose proof (cacheget_spec c L T a HR) as Hg. destruct (T !! a) as [b'|] eqn:ET; [|congruence].
  destruct Hg as (c1 & E1 & HR1 & [Hn Ho] & Hb & Hr). rewrite E1 in E. simplify_eq.
  pose proof (tr_tab _ _ (proj2 HR) _ _ ET) as (_ & Hcb & _ & Hlt & _).
  eapply shared_intro; [done..| | | |].
  - intros x. rewrite Hin, elem_of_without, elem_of_cons. apply Hin in Hlt.
    destruct (decide (x = b)); subst; tauto.
  - split; [done|]. intros x Hx. destruct (Hap x Hx) as (H1 & H2 & H3).
    assert (x <> b) as Hxb by congruence. destruct (Ho x Hxb) as [_ Hm]. unfold bflg in *. rewrite Hm.
    rewrite elem_of_without. set_solver.
  - intros x. rewrite holds_of_cons. case_decide; [subst x; lia|]. destruct (Ho x) as [-> _]; [done|lia].
  - intros x. unfold bflg. destruct (decide (x = b)) as [->|Hx]; [rewrite Hb; apply Hst|].
    destruct (Ho x Hx) as [_ ->]. apply Hst.
Qed.

Lemma step_pluck c h p q c' b :
  shared_ok (mkShared c h p q) -> pluck_lk c = Ok (Some (c', b)) ->
  shared_ok (mkShared c' h p (b :: q)) /\ (b ∉ h) /\ (b ∉ q) /\ ref (cbuf c b) = 0.
Proof.
  intros Hs E. shared_parts Hs L T HR Hin Hnd Hap Hr0 Hst.
  destruct (last L) as [b'|] eqn:El; [|apply last_None in El as ->; by rewrite (pluck_lk_wait c T HR) in E].
  apply last_Some in El as [L' ->]. destruct (pluck_lk_spec c L' T b' HR) as (c1 & E1 & HR1 & Hn & Hr & Hf & Ho).
  rewrite E1 in E. simplify_eq. pose proof (nodup_snoc c L' b T HR) as HbL.
  assert (Hbh : b ∉ h) by (eapply (free_unheld _ _ _ b Hs HR); set_solver).
  assert (Hbq : b ∉ q) by (intros Hx; destruct (Hap b Hx); set_solver).
  destruct (lr_free _ _ (proj1 HR) b) as [Hr1 _]; [set_solver|]. split; [|done].
  eapply shared_intro; [done..| | | |].
  - intros x. rewrite Hin. set_solver.
  - split; [by constructor|]. intros x [->|Hx]%elem_of_cons; [by rewrite Hf|]. destruct (Hap x Hx) as (H1 & H2 & H3).
    destruct (Ho x) as (_ & _ & ->); [congruence|]. split_and!; [set_solver|done|done].
  - intros x. destruct (decide (x = b)) as [->|Hx]; [lia|]. destruct (Ho x Hx) as [-> _]. lia.
  - intros x. destruct (decide (x = b)) as [->|Hx]; [by rewrite Hf|]. destruct (Ho x Hx) as (_ & _ & ->). apply Hst.
Qed.

Lemma step_take c h p q1 b q2 :
  shared_ok (mkShared c h p (q1 ++ b :: q2)) -> shared_ok (mkShared (holdblk c b) (b :: h) p (q1 ++ q2)).
Proof.
  intros Hs. shared_parts Hs L T HR Hin Hnd Hap Hr0 Hst. destruct (Hap b) as (HbL & Hbh & Hbc); [set_solver|].
  assert (Hfl : forall x, bflg (cbuf (holdblk c b) x) = bflg (cbuf c x)).
  { intros x. unfold holdblk, bflg. rewrite upd_at. by case_decide. }
  rewrite NoDup_app, NoDup_cons in Hnd. destruct Hnd as (Hn1 & Hn12 & Hb2 & Hn2).
  eapply (shared_intro c h p (q1 ++ b :: q2) _ _ _ _ L T); [done|by apply hold_rel|done| | | |].
  - intros x. rewrite Hin. set_solver.
  - split; [apply NoDup_app; set_solver|]. intros x Hx. destruct (Hap x) as (H1 & H2 & H3); [set_solver|]. rewrite Hfl.
    split_and!; [done| |done]. intros [->|]%elem_of_cons; set_solver.
  - intros x. rewrite holds_of_cons. unfold holdblk. rewrite upd_at. case_decide; cbn; lia.
  - intros x. by rewrite Hfl.
Qed.

Lemma step_fill c h p q b m :
  shared_ok (mkShared c h p q) -> b ∈ h -> fcached (bflag m) = fcached (bflg (cbuf c b)) -> fstatic (bflag m) = false ->
  (fcached (bflag m) = true -> addr (bp (mb m)) = baddr (cbuf c b)) ->
  shared_ok (mkShared (upd c b (wblk m)) h p q).
Proof.
  intros Hs Hb Hc Hst Ha. shared_parts Hs L T HR Hin Hnd Hap Hr0 Hst'. pose proof HR as [HL HT].
  assert (HbL : b ∉ L) by (intros H; by eapply (free_unheld _ _ _ b Hs HR)).
  eapply (shared_intro c h p q _ h p q L T); [done|split|done|done| | |].
  - apply (lru_frame c); try done; intros x; rewrite upd_at; [|intros Hx]; case_decide; subst; done.
  - apply (tab_frame c); try done. intros x. unfold bflg, baddr. rewrite upd_at. case_decide; subst; [|done].
    cbn. unfold bflg in *. split_and!; [done|done|]. intros Hcc. rewrite Hst', Hst. split; [|done].
    apply Ha. congruence.
  - split; [done|]. intros x Hx. destruct (Hap x Hx) as (H1 & H2 & H3). unfold bflg. rewrite upd_at, decide_False by congruence. done.
  - intros x. rewrite upd_at. case_decide; cbn; lia.
  - intros x. unfold bflg. rewrite upd_at. case_decide; [done|apply Hst'].
Qed.

Lemma step_ins c h p q b c' :
  shared_ok (mkShared c h p q) -> b ∈ h -> baddr (cbuf c b) <> -1 -> cacheins c b = Ok c' ->
  shared_ok (mkShared c' h p q).
Proof.
  intros Hs Hb Hm E. shared_parts Hs L T HR Hin Hnd Hap Hr0 Hst.
  pose proof (cacheins_spec c T b (proj2 HR) Hm) as Hi. cbv zeta in Hi.
  case_decide; [|rewrite Hi in E by (apply Hin; auto); done].
  destruct Hi as [E' Hi]; [apply Hin; auto|]. rewrite E' in E. simplify_eq.
  destruct (insat_links c (baddr (cbuf c b)) b) as (Hh & Ht & Hn & Hx).
  eapply (shared_intro c h p q _ h p q L); [done|split; [|exact Hi]|done|done| | |].
  - eapply lru_links; [apply HR|apply insat_links].
  - split; [done|]. intros x Hxq. destruct (Hap x Hxq) as (H1 & H2 & H3). split_and!; [done|done|].
    unfold insat, bflg. cbn [cbuf wbkt]. rewrite !upd_at. assert (b <> x) by congruence. destruct (decide (b = x)); [done|]. exact H3.
  - intros x. destruct (Hx x) as (_ & _ & -> & _). lia.
  - intros x. destruct (Hx x) as (_ & _ & _ & _ & ->). apply Hst.
Qed.

Lemma step_del c h p q a c' :
  shared_ok (mkShared c h p q) -> cachedel c a = Ok c' -> shared_ok (mkShared c' h p q).
Proof.
  intros Hs E. shared_parts Hs L T HR Hin Hnd Hap Hr0 Hst.
  destruct (cachedel_spec c T a (proj2 HR)) as (c1 & E1 & HT & Hl & Hf).
  unfold cachedel in E. rewrite E1 in E. simplify_eq. pose proof Hl as (_ & _ & Hn & Hx).
  eapply (shared_intro c h p q _ h p q L); [done|split; [|exact HT]|done|done| | |].
  - eapply lru_links; [apply HR|done].
  - split; [done|]. intros x Hxq. destruct (Hap x Hxq) as (H1 & H2 & H3). split_and!; [done|done|].
    rewrite Hf. case_decide; [apply setcached_bits|done].
  - intros x. destruct (Hx x) as (_ & _ & -> & _). lia.
  - intros x. destruct (Hx x) as (_ & _ & _ & _ & ->). apply Hst.
Qed.

(** A change of the count of a block that is held. *)
Lemma step_count c h p q b k h' p' :
  shared_ok (mkShared c h p q) -> b ∈ h ->
  (forall x, (x < ncbuf c)%nat -> x ∈ h -> x ∈ h' \/ x ∈ p') -> (forall x, x ∈ h' -> x ∈ h) ->
  (forall x, x ∈ p -> x ∈ p') -> (forall x, x ∈ p' -> x = b \/ x ∈ p) ->
  (forall x, holds_of x h' - holds_of x h = if decide (b = x) then k else 0) ->
  shared_ok (mkShared (upd c b (fun x => wref (ref x + k) x)) h' p' q).
Proof.
  intros Hs Hb Hh1 Hh2 Hp1 Hp2 Hk. shared_parts Hs L T HR Hin Hnd Hap Hr0 Hst.
  assert (HbL : b ∉ L) by (intros H; by eapply (free_unheld _ _ _ b Hs HR)).
  assert (Hfl : forall x, bflg (cbuf (upd c b (fun x => wref (ref x + k) x)) x) = bflg (cbuf c x)).
  { intros x. unfold bflg. rewrite upd_at. by case_decide. }
  eapply (shared_intro c h p q _ h' p' q L T); [done|split|done| | | |].
  - apply (lru_frame c); [apply HR|done..| |]; intros x; rewrite upd_at; [|intros Hx]; case_decide; subst; done.
  - apply (tab_frame c); [apply HR|done..|]. intros x. unfold bflg, baddr. rewrite upd_at. by case_decide.
  - intros x. rewrite Hin. split.
    + intros Hx. pose proof (proj2 (Hin x) Hx). naive_solver.
    + intros [?|[?|[Hx|?]]]; auto. destruct (Hp2 x Hx) as [->|]; auto.
  - split; [done|]. intros x Hx. destruct (Hap x Hx) as (H1 & H2 & H3). rewrite Hfl. split_and!; auto.
  - intros x. rewrite upd_at, Hk. case_decide; cbn; lia.
  - intros x. by rewrite Hfl.
Qed.

Lemma step_drop c h1 b h2 p q c' l :
  shared_ok (mkShared c (h1 ++ b :: h2) p q) -> dropref c b = (c', l) ->
  shared_ok (mkShared c' (h1 ++ h2) (if l then b :: p else p) q).
Proof.
  intros Hs [= <- <-].
  assert (Hcount : forall x, holds_of x (h1 ++ h2) - holds_of x (h1 ++ b :: h2) = if decide (b = x) then -1 else 0).
  { intros x. rewrite !holds_of_app, holds_of_cons. case_decide; lia. }
  apply (step_count c (h1 ++ b :: h2) p q b (-1)); [done|set_solver| |set_solver| | |done].
  - intros x _ Hx. destruct (decide (x = b)) as [->|]; [|set_solver].
    pose proof (so_ref _ Hs b) as Hr. cbn in Hr. specialize (Hcount b). rewrite decide_True in Hcount by done.
    destruct (Z.eqb_spec (ref (cbuf c b) - 1) 0); [right; set_solver|]. left. apply holds_of_pos.
    apply holds_of_pos in Hx. lia.
  - intros x Hx. case_match; set_solver.
  - intros x Hx. case_match; set_solver.
Qed.

(** The list step of a drop, at either end of the list. *)
Lemma lru_step_spec c L T b c' :
  cache_rel c L T -> fstatic (bflg (cbuf c b)) = false -> lrutop c b = Ok c' \/ lrubot c b = Ok c' ->
  same_body c c' /\ exists L', cache_rel c' L' T /\
    if decide (ref (cbuf c b) = 0) then forall x, x ∈ L' <-> x = b \/ x ∈ L else L' = L.
Proof.
  intros [HL HT] Hst [E|E].
  - destruct (lrutop_spec c L b HL Hst) as (c1 & E1 & Hb & HL1). rewrite E1 in E. simplify_eq. split; [done|].
    eexists. split; [split; [exact HL1|by eapply tab_body]|]. case_decide; [|done].
    intros x. rewrite elem_of_cons, elem_of_without. destruct (decide (x = b)); tauto.
  - destruct (lrubot_spec c L b HL Hst) as (c1 & E1 & Hb & HL1). rewrite E1 in E. simplify_eq. split; [done|].
    eexists. split; [split; [exact HL1|by eapply tab_body]|]. case_decide; [|done].
    intros x. rewrite elem_of_app, elem_of_without, list_elem_of_singleton. destruct (decide (x = b)); tauto.
Qed.

Lemma step_lru c h p1 b p2 q c' :
  shared_ok (mkShared c h (p1 ++ b :: p2) q) -> lrutop c b = Ok c' \/ lrubot c b = Ok c' -> b ∉ q ->
  shared_ok (mkShared c' h (p1 ++ p2) q).
Proof.
  intros Hs E Hbq. shared_parts Hs L T HR Hin Hnd Hap Hr Hst.
  destruct (lru_step_spec c L T b c' HR (Hst b) E) as ((Hb & Hn & _) & L' & HR' & HL').
  eapply (shared_intro c h _ _ _ _ _ _ L'); [done|exact HR'|done| | | |].
  - intros x. rewrite Hin. case_decide as Hz; [rewrite HL'; set_solver|subst L'].
    assert (b ∈ h) by (apply holds_of_pos; rewrite Hr in Hz; unfold holds_of, zlen in *; lia). set_solver.
  - split; [done|]. intros x Hx. destruct (Hap x Hx) as (H1 & H2 & H3). unfold bflg. destruct (Hb x) as (_ & _ & ->).
    split_and!; [|done|done]. case_decide; [|by subst]. rewrite HL'. intros [->|?]; done.
  - intros x. destruct (Hb x) as (_ & -> & _). lia.
  - intros x. unfold bflg. destruct (Hb x) as (_ & _ & ->). apply Hst.
Qed.

Lemma calm_ok s s' : calm s s' -> shared_ok s -> shared_ok s'.
Proof.
  intros (l & Hst & Hcalm) Hs. destruct Hst; eauto using step_get, step_take, step_fill, step_ins, step_del, step_drop, step_lru.
  - by eapply step_pluck.
  - apply (step_count c h p q b 1); try set_solver.
    intros x. rewrite holds_of_cons. lia.
Qed.

Lemma started_ok cmax s : (0 < cmax)%nat -> started cmax s -> shared_ok s.
Proof.
  intros Hm (c & E & ->). destruct (initfs_spec cmax Hm) as (c' & E' & HR & Hn & Hz).
  rewrite E' in E. apply Ok_inj in E as <-. split; cbn [sc held pending plucked].
  - exists (rev (seq 0 cmax)), ∅. split; [done|]. split; [|split; [constructor|set_solver]]. intros b.
    rewrite Hn, list_elem_of_In, <- in_rev, in_seq, !elem_of_nil. lia.
  - intros b. by destruct (Hz b) as [-> _].
  - intros b. unfold bflg. by destruct (Hz b) as [_ ->].
Qed.

Lemma run_ok cmax s s' : (0 < cmax)%nat -> started cmax s -> rtc calm s s' -> shared_ok s'.
Proof.
  intros Hm Hs%started_ok; [|done]. induction 1 as [|s1 s2 s3 Hstep _ IH]; [done|].
  apply IH. by eapply calm_ok.
Qed.

(** C32: Processes sharing the cache.  From the cache initfs makes, in any
    interleaving of lookups, plucks, stores, insertions, deletions, holds and
    drops in which no dropblk puts a buffer on the list while another process
    is between the two steps of plucking it: cachepluck never finds a block in
    use at the end of the list, and gives only buffers that no process holds
    or is plucking; a buffer that is being plucked is nobody else's and no
    lookup finds it; a lookup, a pluck and the list step of a drop never stop
    the kernel; the count of a block is the number of references held; and no
    buffer is lost: each is on the list, held, about to be put on the list, or
    being plucked.  What the proviso excludes does happen: [cache_race]. *)
Theorem cache_shared cmax s s' :
  (0 < cmax)%nat -> started cmax s -> rtc calm s s' ->
  let c := sc s' in
  (forall c' b, pluck_lk c = Ok (Some (c', b)) -> (b ∉ held s') /\ (b ∉ plucked s') /\ ref (cbuf c b) = 0) /\
  (NoDup (plucked s') /\ forall b, b ∈ plucked s' -> (b ∉ held s') /\ forall a c', cacheget c a <> Ok (c', Some b)) /\
  (is_Ok (pluck_lk c) /\ (forall a, is_Ok (cacheget c a)) /\ (forall b, is_Ok (lrutop c b) /\ is_Ok (lrubot c b))) /\
  (forall b, ref (cbuf c b) = holds_of b (held s')) /\
  (exists L T, cache_rel c L T /\
     forall b, (b < ncbuf c)%nat <-> b ∈ L \/ b ∈ held s' \/ b ∈ pending s' \/ b ∈ plucked s').
Proof.
  intros Hm H0 Hrun c. pose proof (run_ok cmax s s' Hm H0 Hrun) as Hs. destruct s' as [c0 h p q]. cbn in c. subst c.
  shared_parts Hs L T HR Hin Hnd Hap Hr Hst. split_and!; try done; [| | | | |by exists L, T].
  - intros c' b Hp. by destruct (step_pluck c0 h p q c' b Hs Hp).
  - intros b Hb. destruct (Hap b Hb) as (_ & Hbh & Hbc). split; [done|]. intros a c' E.
    pose proof (cacheget_spec c0 L T a HR) as Hg. destruct (T !! a) as [b'|] eqn:ET; [|congruence].
    destruct Hg as (c1 & E1 & _). rewrite E1 in E. simplify_eq.
    destruct (tr_tab _ _ (proj2 HR) _ _ ET) as (_ & Hx & _). congruence.
  - destruct (last L) as [b|] eqn:E; [|apply last_None in E as ->; rewrite (pluck_lk_wait c0 T HR); by eexists].
    apply last_Some in E as [L' ->]. destruct (pluck_lk_spec c0 L' T b HR) as (c1 & E1 & _). by eexists.
  - intros a. pose proof (cacheget_spec c0 L T a HR) as Hg. destruct (T !! a); [|by eexists].
    destruct Hg as (c1 & E1 & _). by eexists.
  - intros b. destruct (lrutop_spec c0 L b (proj1 HR) (Hst b)) as (c1 & E1 & _).
    destruct (lrubot_spec c0 L b (proj1 HR) (Hst b)) as (c2 & E2 & _). split; by eexists.
Qed.

(** * Runs *)

(** Steps that can be evaluated, each of the process that came last to where
    it is: the reference, the drop or the pluck at the head of the list. *)
Inductive cact := Apluck | Atake | Asetaddr (a : Z) | Ains | Aget (a : Z) | Adrop | Alru.

Definition setaddr (a : Z) (m : Mblk) : Mblk :=
  let n := mb m in
  mkMblk (mkBlk (btyp n) (nval n) (bvalsz n) (nbuf n) (bufsz n) (data n) (mkBptr a (hash (bp n)) (gen (bp n))))
         (logsz m) (logh m) (logp m) (hdr m) 0.

Definition act (e : cact) (s : shared) : option shared :=
  let '(mkShared c h p q) := s in
  match e, h, p, q with
  | Apluck, _, _, _ => match pluck_lk c with Ok (Some (c, b)) => Some (mkShared c h p (b :: q)) | _ => None end
  | Atake, _, _, b :: q => Some (mkShared (holdblk c b) (b :: h) p q)
  | Asetaddr a, b :: _, _, _ =>
      if fcached (bflg (cbuf c b)) then None else Some (mkShared (upd c b (wblk (setaddr a (cblk (cbuf c b))))) h p q)
  | Ains, b :: _, _, _ =>
      if baddr (cbuf c b) =? -1 then None
      else match cacheins c b with Ok c => Some (mkShared c h p q) | _ => None end
  | Aget a, _, _, _ => match cacheget c a with Ok (c, Some b) => Some (mkShared c (b :: h) p q) | _ => None end
  | Adrop, b :: h, _, _ => let '(c, last) := dropref c b in Some (mkShared c h (if last then b :: p else p) q)
  | Alru, _, b :: p, _ => match lrutop c b with Ok c => Some (mkShared c h p q) | _ => None end
  | _, _, _, _ => None
  end.

(** Whether the step is calm. *)
Definition calmly (e : cact) (s : shared) : bool :=
  match e, pending s with Alru, b :: _ => bool_decide (b ∉ plucked s) | _, _ => true end.

Fixpoint acts (es : list cact) (s : shared) : option shared :=
  match es with [] => Some s | e :: es => s' ← act e s; acts es s' end.
Fixpoint calmlys (es : list cact) (s : shared) : bool :=
  match es with
  | [] => true
  | e :: es => calmly e s && match act e s with Some s => calmlys es s | None => false end
  end.

Lemma act_step e s s' : act e s = Some s' -> exists l, cstep l s s' /\ (calmly e s = true -> forall b, l = Some b -> b ∉ plucked s).
Proof.
  destruct s as [c h p q]. destruct e; cbn [act]; intros H; repeat case_match; simplify_eq;
    lazymatch goal with |- exists l, cstep l (mkShared _ _ (_ :: _) _) _ /\ _ => idtac | _ => exists None; split; [|done] end.
  - by apply st_pluck.
  - by apply (st_take c h p [] _ _).
  - apply st_fill; [apply list_elem_of_here|done..].
  - eapply st_ins; [apply list_elem_of_here|by apply Z.eqb_neq|done].
  - by eapply st_get.
  - match goal with H : dropref c ?b = _ |- cstep _ (mkShared _ (_ :: ?h) _ _) _ => by apply (st_drop c [] b h p q _ true) end.
  - match goal with H : dropref c ?b = _ |- cstep _ (mkShared _ (_ :: ?h) _ _) _ => by apply (st_drop c [] b h p q _ false) end.
  - match goal with |- context [mkShared _ _ (?b :: ?p) _] => exists (Some b) end.
    split; [eapply (st_lru c h [] _ _ _); by left|]. intros Hc b [= <-]. by apply bool_decide_eq_true in Hc.
Qed.

Lemma acts_run es : forall s s', acts es s = Some s' -> rtc sstep s s' /\ (calmlys es s = true -> rtc calm s s').
Proof.
  induction es as [|e es IH]; intros s s' H; cbn in H; [by simplify_eq|].
  destruct (act e s) as [s1|] eqn:E; [|done]. cbn in H. destruct (IH s1 s' H) as [R C].
  destruct (act_step e s s1 E) as (l & Hl & Hc). split; [eapply rtc_l; [by exists l|done]|].
  cbn. rewrite E. intros [H1 H2]%andb_prop. eapply rtc_l; [exists l; eauto|auto].
Qed.

(** A run of a cache of one buffer: a process reads block 4096 into it and
    drops it, a second one looks the block up and drops it too, and with both
    about to put the buffer on the list, one of them does. *)
Definition ex_twice : list cact := [Apluck; Atake; Asetaddr 4096; Ains; Adrop; Aget 4096; Adrop; Alru].

Definition ex_fresh : shared :=
  match initfs 1 with
  | Ok c => mkShared c [] [] []
  | Fail _ => mkShared (mkCache (fun _ => mkCblk None None None 0 zblk) 0 None None []) [] [] []
  end.

Lemma ex_fresh_started : started 1 ex_fresh.
Proof. destruct (initfs_spec 1 ltac:(lia)) as (c & E & _). exists c. unfold ex_fresh. by rewrite E. Qed.

(** What a run that can be evaluated shows. *)
Lemma acts_look {A} (f : shared -> A) es s x :
  f <$> acts es s = Some x -> exists s', f s' = x /\ rtc sstep s s' /\ (calmlys es s = true -> rtc calm s s').
Proof.
  destruct (acts es s) as [s'|] eqn:E; [|done]. intros [= <-]. exists s'. split; [done|by apply acts_run].
Qed.

(** After that, with the buffer at the end of the list, a third process plucks
    it, and before it has its reference the drop still under way puts the
    buffer back on the list.  Then a fourth process is given the same buffer,
    or, when the third has its reference, stops the kernel. *)
Lemma cache_race :
  exists s0 s1 s2, started 1 s0 /\ rtc sstep s0 s1 /\ plucked s1 = [0; 0]%nat /\
    rtc sstep s0 s2 /\ held s2 = [0]%nat /\ pluck_lk (sc s2) = Fail Abort.
Proof.
  destruct (acts_look plucked (ex_twice ++ [Apluck; Alru; Apluck]) ex_fresh [0; 0]%nat) as (s1 & H1 & R1 & _); [by vm_compute|].
  destruct (acts_look (fun s => (held s, match pluck_lk (sc s) with Fail Abort => true | _ => false end))
              (ex_twice ++ [Apluck; Alru; Atake]) ex_fresh ([0]%nat, true)) as (s2 & H2 & R2 & _); [by vm_compute|].
  injection H2 as H2 H3. exists ex_fresh, s1, s2. split_and!; try done; [apply ex_fresh_started|].
  by destruct (pluck_lk (sc s2)) as [|[]].
Qed.

(** In a calm run the reader has the buffer to itself. *)
Lemma cache_shared_witness :
  calmlys (ex_twice ++ [Alru; Apluck]) ex_fresh = true /\
  exists s, rtc calm ex_fresh s /\ plucked s = [0]%nat /\ pending s = [] /\ (0%nat ∉ held s) /\
    forall a c', cacheget (sc s) a <> Ok (c', Some 0%nat).
Proof.
  split; [vm_compute; reflexivity|].
  destruct (acts_look (fun s => (plucked s, pending s)) (ex_twice ++ [Alru; Apluck]) ex_fresh ([0]%nat, []))
    as (s & E & _ & R); [vm_compute; reflexivity|]. injection E as E1 E2.
  specialize (R ltac:(vm_compute; reflexivity)). exists s.
  destruct (cache_shared 1 ex_fresh s ltac:(lia) ex_fresh_started R) as (_ & (_ & Hp) & _).
  destruct (Hp 0%nat) as [Hh Hg]; [rewrite E1; apply list_elem_of_here|].
  split; [exact R|]. split; [exact E1|]. split; [exact E2|]. split; [exact Hh|exact Hg].
Defined.
