(* ===== verification/Epoch.v ===== *)
(** sys/src/9/gefs/blk.c, the reclamation of what processes may still be
    reading: limbo, epochstart, epochend and epochclean.

    A worker reads shared structures between epochstart and epochend.  What
    has been unlinked goes to the limbo list of the current epoch, one of
    three, and is released when the epoch has gone round.  limbo is called by
    any process, inside an epoch or not: by workers, by the sweeper after its
    epoch, and by epochclean when it releases a DFclose entry, whose closesnap
    may put the tree in limbo again.

    The model is a transition system in which every atomic access of the code
    (agetl, aswapl, acasp, aswapp, aincl) is a step of its own, so that a
    process can be overtaken anywhere: a worker between reading the epoch and
    announcing it, limbo between reading the epoch, pushing on its list and
    counting the entry, and epochclean between its looks at two workers.  A
    call of limbo is not tied to its process: a worker may even leave its
    epoch before the call has ended, which the code never does.  The number
    of workers is fixed, and of what a release does to an object only the call
    of limbo is modelled.

    The fields [wsince], [wtime], [egen], [etime], [count] and [now] are not
    in the code: [count] is the number of times the epoch has changed and
    [now] orders the starts of the workers and the calls of limbo.  No step
    depends on them. *)

From S2P Require Import Prelude.

Section Epoch.
  (** What is put in limbo: a block, a tree, a mount, ... *)
  Context {obj : Type}.

(** * The code *)

Definition Eactive : Z := Z.shiftl 1 30.

Inductive dfop := DFblk | DFbp | DFmnt | DFtree | DFclose | DFdlist.

(** An entry of a limbo list, with the epoch whose list it is for. *)
Record lentry := mkLentry { lop : dfop; eobj : obj; eslot : Z; egen : Z; etime : Z }.

(** Where a worker is: outside, inside epochstart with the epoch it read, or
    inside. *)
Inductive wpc := Out | Starting (ge : Z) | In.

Record worker := mkWorker { lepoch : Z; pc : wpc; wsince : Z; wtime : Z }.

(** epochclean, by the holder of fs->epochlk: looking at worker [i], with the
    count of limbo and the epoch it read; or with the list taken. *)
Inductive cpc := Looking (c ge : Z) (i : nat) | Taken (ge : Z).

(** [calls] are the calls of limbo that have read the epoch and not pushed
    their entry; [pushed] is how many have pushed it and not counted it.
    [torelease] is what the cleaners took and have yet to release; [disposed]
    is how many they have released and not counted off. *)
Record epochs := mkEpochs {
  epoch : Z; workers : list worker; calls : list lentry; pushed : nat; limbos : list (list lentry); nlimbo : Z;
  cleaner : option cpc; torelease : list lentry; disposed : nat; released : list lentry;
  count : Z; now : Z
}.

Definition slot (s : epochs) (ge : Z) : list lentry := limbos s !!! Z.to_nat ge.

Definition set_worker (s : epochs) (i : nat) (w : worker) : epochs :=
  mkEpochs (epoch s) (<[i := w]> (workers s)) (calls s) (pushed s) (limbos s) (nlimbo s) (cleaner s) (torelease s) (disposed s)
           (released s) (count s) (now s).
Definition set_calls (s : epochs) (l : list lentry) : epochs :=
  mkEpochs (epoch s) (workers s) l (pushed s) (limbos s) (nlimbo s) (cleaner s) (torelease s) (disposed s)
           (released s) (count s) (now s).
Definition set_cleaner (s : epochs) (c : option cpc) : epochs :=
  mkEpochs (epoch s) (workers s) (calls s) (pushed s) (limbos s) (nlimbo s) c (torelease s) (disposed s)
           (released s) (count s) (now s).
Definition tick (s : epochs) : epochs :=
  mkEpochs (epoch s) (workers s) (calls s) (pushed s) (limbos s) (nlimbo s) (cleaner s) (torelease s) (disposed s)
           (released s) (count s) (now s + 1).

(** epochstart: the epoch is read, and later announced. *)
Inductive epochstart (i : nat) : epochs -> epochs -> Prop :=
  | start_read s w :
      workers s !! i = Some w -> pc w = Out ->
      epochstart i s (set_worker s i (mkWorker (lepoch w) (Starting (epoch s)) (wsince w) (wtime w)))
  | start_announce s w ge :
      workers s !! i = Some w -> pc w = Starting ge ->
      epochstart i s (tick (set_worker s i (mkWorker (Z.lor ge Eactive) In (count s) (now s)))).

Inductive epochend (i : nat) : epochs -> epochs -> Prop :=
  | end_ s w :
      workers s !! i = Some w -> pc w = In ->
      epochend i s (set_worker s i (mkWorker (Z.ldiff (lepoch w) Eactive) Out (wsince w) (wtime w))).

(** limbo: the epoch is read; the compare and swap of its list succeeds, and
    the entry is pushed, or fails, and the epoch is read again; the entry is
    counted. *)
Definition entry (s : epochs) (op : dfop) (o : obj) (t : Z) : lentry := mkLentry op o (epoch s) (count s) t.
Inductive limbo : epochs -> epochs -> Prop :=
  | limbo_read s op o : limbo s (tick (set_calls s (entry s op o (now s) :: calls s)))
  | limbo_retry s l1 e l2 :
      calls s = l1 ++ e :: l2 ->
      limbo s (set_calls s (l1 ++ entry s (lop e) (eobj e) (etime e) :: l2))
  | limbo_push s l1 e l2 :
      calls s = l1 ++ e :: l2 ->
      limbo s (mkEpochs (epoch s) (workers s) (l1 ++ l2) (S (pushed s)) (<[Z.to_nat (eslot e) := e :: slot s (eslot e)]> (limbos s))
                 (nlimbo s) (cleaner s) (torelease s) (disposed s) (released s) (count s) (now s))
  | limbo_count s n :
      pushed s = S n ->
      limbo s (mkEpochs (epoch s) (workers s) (calls s) n (limbos s) (nlimbo s + 1) (cleaner s) (torelease s) (disposed s)
                 (released s) (count s) (now s)).

(** The test of epochclean that holds the epoch back. *)
Definition blocks (e ge : Z) : bool := negb (Z.land e Eactive =? 0) && negb (e =? Z.lor ge Eactive).

(** The entry [e] is released, and [l] are left; when it is a tree that has to
    be closed and closesnap drops the last reference, the tree is put in
    limbo. *)
Definition disposal (s : epochs) (l : list lentry) (e : lentry) : epochs :=
  mkEpochs (epoch s) (workers s) (calls s) (pushed s) (limbos s) (nlimbo s) (cleaner s) l (S (disposed s))
           (e :: released s) (count s) (now s).
Definition closing (s : epochs) (l : list lentry) (e : lentry) : epochs :=
  let s := disposal s l e in tick (set_calls s (entry s DFtree (eobj e) (now s) :: calls s)).

(** epochclean.  [cmax] is the size of the cache; with few entries in limbo
    it gives up, else it sleeps and starts again. *)
Inductive epochclean (cmax : Z) : epochs -> epochs -> Prop :=
  | clean_lock s :
      cleaner s = None -> epochclean cmax s (set_cleaner s (Some (Looking (nlimbo s) (epoch s) 0)))
  | clean_next s c ge i w :
      cleaner s = Some (Looking c ge i) -> workers s !! i = Some w -> blocks (lepoch w) ge = false ->
      epochclean cmax s (set_cleaner s (Some (Looking c ge (S i))))
  | clean_giveup s c ge i w :
      cleaner s = Some (Looking c ge i) -> workers s !! i = Some w -> blocks (lepoch w) ge = true ->
      c < cmax / 4 -> epochclean cmax s (set_cleaner s None)
  | clean_again s c ge i w :
      cleaner s = Some (Looking c ge i) -> workers s !! i = Some w -> blocks (lepoch w) ge = true ->
      cmax / 4 <= c -> epochclean cmax s (set_cleaner s (Some (Looking (nlimbo s) (epoch s) 0)))
  | clean_take s c ge :
      cleaner s = Some (Looking c ge (length (workers s))) ->
      epochclean cmax s
        (let k := (ge + 1) mod 3 in
         mkEpochs (epoch s) (workers s) (calls s) (pushed s) (<[Z.to_nat k := []]> (limbos s)) (nlimbo s) (Some (Taken ge))
                  (torelease s ++ slot s k) (disposed s) (released s) (count s) (now s))
  | clean_advance s ge :
      cleaner s = Some (Taken ge) ->
      epochclean cmax s
        (mkEpochs ((ge + 1) mod 3) (workers s) (calls s) (pushed s) (limbos s) (nlimbo s) None (torelease s) (disposed s)
                  (released s) (count s + 1) (now s))
  | clean_release s l1 e l2 :
      torelease s = l1 ++ e :: l2 -> epochclean cmax s (disposal s (l1 ++ l2) e)
  | clean_close s l1 e l2 :
      torelease s = l1 ++ e :: l2 -> lop e = DFclose -> epochclean cmax s (closing s (l1 ++ l2) e)
  | clean_count s n :
      disposed s = S n ->
      epochclean cmax s
        (mkEpochs (epoch s) (workers s) (calls s) (pushed s) (limbos s) (nlimbo s - 1) (cleaner s) (torelease s) n
                  (released s) (count s) (now s)).

Inductive estep (cmax : Z) (s s' : epochs) : Prop :=
  | es_start i : epochstart i s s' -> estep cmax s s'
  | es_end i : epochend i s s' -> estep cmax s s'
  | es_limbo : limbo s s' -> estep cmax s s'
  | es_clean : epochclean cmax s s' -> estep cmax s s'.

(** fs, zeroed, with [n] workers. *)
Definition einit (n : nat) : epochs :=
  mkEpochs 0 (replicate n (mkWorker 0 Out 0 0)) [] 0 [[]; []; []] 0 None [] 0 [] 0 0.

(** * The invariant *)

Definition inside (w : worker) : Prop := pc w = In.

(** How far the epoch can be from a worker's start: two changes only when the
    worker announced an epoch it had read before the last but one. *)
Definition near (s : epochs) (w : worker) : Prop :=
  exists r, 0 <= r < 3 /\ lepoch w = Z.lor r Eactive /\
    (count s = wsince w \/ count s = wsince w + 1 \/ count s = wsince w + 2 /\ r = (wsince w + 1) mod 3).

(** A worker epochclean has looked at and let pass. *)
Definition passed (s : epochs) (w : worker) : Prop :=
  lepoch w = Z.lor (epoch s) Eactive \/ wsince w = count s.

Definition waiting (s : epochs) (e : lentry) : Prop :=
  e ∈ calls s \/
  (exists k l, limbos s !! k = Some l /\ e ∈ l).

Record epochs_ok (s : epochs) : Prop := {
  eo_epoch : epoch s = count s mod 3 /\ 0 <= count s /\ length (limbos s) = 3%nat;
  eo_out i w : workers s !! i = Some w -> ~ inside w ->
    Z.land (lepoch w) Eactive = 0 /\ forall ge, pc w = Starting ge -> 0 <= ge < 3;
  eo_in i w : workers s !! i = Some w -> inside w -> near s w /\ wtime w < now s;
  eo_looking c ge i : cleaner s = Some (Looking c ge i) -> ge = epoch s /\
    forall j w, (j < i)%nat -> workers s !! j = Some w -> inside w -> passed s w;
  eo_taken ge : cleaner s = Some (Taken ge) -> ge = epoch s /\
    forall j w, workers s !! j = Some w -> inside w -> passed s w;
  eo_slot k l e : limbos s !! k = Some l -> e ∈ l -> k = Z.to_nat (egen e mod 3);
  eo_calls e : e ∈ calls s -> eslot e = egen e mod 3;
  eo_gen e : waiting s e -> 0 <= egen e <= count s /\ etime e < now s;
  eo_reader e i w : waiting s e -> workers s !! i = Some w -> inside w -> wtime w <= etime e -> wsince w <= egen e;
  eo_past e : e ∈ torelease s ++ released s -> etime e < now s;
  eo_safe e i w : e ∈ torelease s ++ released s -> workers s !! i = Some w -> inside w -> etime e < wtime w
}.

Lemma eactive_set r : Z.land (Z.lor r Eactive) Eactive = Eactive.
Proof. apply Z.bits_inj'. intros n Hn. rewrite Z.land_spec, Z.lor_spec. destruct (Z.testbit r n), (Z.testbit Eactive n); done. Qed.

Lemma eactive_clear v : Z.land (Z.ldiff v Eactive) Eactive = 0.
Proof. apply Z.bits_inj'. intros n Hn. rewrite Z.land_spec, Z.ldiff_spec, Z.bits_0. destruct (Z.testbit v n), (Z.testbit Eactive n); done. Qed.

Lemma eactive_inj r r' : 0 <= r < 3 -> 0 <= r' < 3 -> Z.lor r Eactive = Z.lor r' Eactive -> r = r'.
Proof.
  intros H H'. assert (r = 0 \/ r = 1 \/ r = 2) as [-> | [-> | ->]] by lia;
    assert (r' = 0 \/ r' = 1 \/ r' = 2) as [-> | [-> | ->]] by lia; vm_compute; congruence.
Qed.

(** The workers after a store to worker [i]. *)
Lemma worker_at (l : list worker) i w j v :
  <[i := w]> l !! j = Some v -> i = j /\ v = w \/ i <> j /\ l !! j = Some v.
Proof. intros [[? [? ?]]|]%list_lookup_insert_Some; auto. Qed.

(** What a step that only replaces worker [i] must show. *)
Lemma worker_step s i w w' now' :
  epochs_ok s -> workers s !! i = Some w -> now s <= now' ->
  (~ inside w' -> Z.land (lepoch w') Eactive = 0 /\ forall ge, pc w' = Starting ge -> 0 <= ge < 3) ->
  (inside w' -> near s w' /\ wtime w' < now') ->
  (inside w' -> wsince w' = count s /\ wtime w' = now s) ->
  epochs_ok (mkEpochs (epoch s) (<[i := w']> (workers s)) (calls s) (pushed s) (limbos s) (nlimbo s) (cleaner s) (torelease s)
    (disposed s) (released s) (count s) now').
Proof.
  intros [] Hi Hnow Hout Hin Hst.
  assert (Hpass : forall j v, inside v -> <[i := w']> (workers s) !! j = Some v ->
    (forall j' v', j' = j -> workers s !! j' = Some v' -> inside v' -> passed s v') -> passed s v).
  { intros j v Hv [[<- ->]|[_ Hj]]%worker_at Hp; [|eauto]. right. by apply Hst. }
  split; cbn; try done.
  - intros j v [[<- ->]|[_ Hj]]%worker_at; eauto.
  - intros j v [[<- ->]|[_ Hj]]%worker_at Hv; [by apply Hin|]. destruct (eo_in0 j v Hj Hv). split; [done|lia].
  - intros c ge k Hc. destruct (eo_looking0 c ge k Hc) as [-> Hp]. split; [done|]. intros j v Hjk Hj Hv.
    apply (Hpass j v Hv Hj). intros j' v' ->. eauto.
  - intros ge Hc. destruct (eo_taken0 ge Hc) as [-> Hp]. split; [done|]. intros j v Hj Hv.
    apply (Hpass j v Hv Hj). intros j' v' ->. eauto.
  - intros e He. destruct (eo_gen0 e He). split; [done|lia].
  - intros e j v He [[<- ->]|[_ Hj]]%worker_at Hv Ht; [|eauto].
    destruct (Hst Hv) as [-> Ew]. destruct (eo_gen0 e He). lia.
  - intros e He. specialize (eo_past0 e He). lia.
  - intros e j v He [[<- ->]|[_ Hj]]%worker_at Hv; [|eauto].
    destruct (Hst Hv) as [_ ->]. by apply eo_past0.
Qed.

Lemma epoch_range s : epochs_ok s -> 0 <= epoch s < 3.
Proof. intros [(-> & _) _ _ _ _ _ _ _ _ _ _]. apply Z.mod_pos_bound. lia. Qed.

Lemma epochstart_ok i s s' : epochstart i s s' -> epochs_ok s -> epochs_ok s'.
Proof.
  destruct 1 as [s w Hw Hpc|s w ge Hw Hpc]; intros Hs.
  - apply (worker_step s i w); try done; cbn.
    intros _. split; [|intros ge [= <-]; by apply epoch_range].
    apply (eo_out _ Hs i w Hw). unfold inside. by rewrite Hpc.
  - destruct (eo_out _ Hs i w Hw) as [_ Hge]; [unfold inside; by rewrite Hpc|]. specialize (Hge ge Hpc).
    apply (worker_step s i w); try done; cbn; try lia.
    intros _. split; [|lia]. exists ge. cbn. auto.
Qed.

Lemma epochend_ok i s s' : epochend i s s' -> epochs_ok s -> epochs_ok s'.
Proof.
  destruct 1 as [s w Hw Hpc]; intros Hs. apply (worker_step s i w); try done; cbn.
  intros _. split; [apply eactive_clear|done].
Qed.

(** What a step that replaces the calls must show: an entry is there before,
    or is for the epoch as it is. *)
Lemma calls_step s l now' :
  epochs_ok s -> now s <= now' ->
  (forall e, e ∈ l -> e ∈ calls s \/ exists op o t, e = entry s op o t /\ t < now') ->
  epochs_ok (mkEpochs (epoch s) (workers s) l (pushed s) (limbos s) (nlimbo s) (cleaner s) (torelease s) (disposed s)
    (released s) (count s) now').
Proof.
  intros Hs Hnow Hl. pose proof Hs as [Heo Ho Hi Hlk Htk Hsl Hca Hge Hre Hpa Hsf].
  assert (Hwait : forall e, waiting (mkEpochs (epoch s) (workers s) l (pushed s) (limbos s) (nlimbo s) (cleaner s) (torelease s)
      (disposed s) (released s) (count s) now') e -> waiting s e \/ exists op o t, e = entry s op o t /\ t < now').
  { intros e [He|He]; [|left; by right]. destruct (Hl e He) as [?|?]; [left; by left|by right]. }
  split; cbn; try done.
  - intros j v Hj Hv. destruct (Hi j v Hj Hv). split; [done|lia].
  - intros e [He|(op & o & t & -> & _)]%Hl; [by apply Hca|]. cbn. apply Heo.
  - intros e [He|(op & o & t & -> & Ht)]%Hwait; [destruct (Hge e He); split; [done|lia]|]. cbn. destruct Heo as (_ & ? & _). lia.
  - intros e j v [He|(op & o & t & -> & Ht)]%Hwait Hj Hv Hvt; [eauto|]. cbn.
    destruct (Hi j v Hj Hv) as [(r & _ & _ & H) _]. lia.
  - intros e He. specialize (Hpa e He). lia.
Qed.

Lemma limbo_ok s s' : limbo s s' -> epochs_ok s -> epochs_ok s'.
Proof.
  destruct 1 as [s op o|s l1 e l2 H|s l1 e l2 H|s n H]; intros Hs.
  - apply (calls_step s); [done|cbn; lia|]. intros x [->|Hx]%elem_of_cons; [right|by left].
    exists op, o, (now s). split; [done|cbn; lia].
  - apply (calls_step s); [done|done|]. intros x Hx. rewrite H. rewrite elem_of_app, elem_of_cons in Hx |- *.
    destruct Hx as [?|[->|?]]; [by left; left| |by left; right; right]. right. exists (lop e), (eobj e), (etime e). split; [done|].
    apply (eo_gen _ Hs e). left. rewrite H. set_solver.
  - assert (He : e ∈ calls s) by (rewrite H; set_solver).
    assert (Hsub : forall x, x ∈ l1 ++ l2 -> x ∈ calls s) by (rewrite H; set_solver).
    pose proof (eo_calls _ Hs e He) as Hslot. destruct (eo_epoch _ Hs) as (Hee & Hc & Hl).
    assert (Hk : (Z.to_nat (eslot e) < length (limbos s))%nat).
    { rewrite Hl, Hslot. pose proof (Z.mod_pos_bound (egen e) 3). lia. }
    set (s' := mkEpochs _ _ _ _ _ _ _ _ _ _ _ _).
    assert (Hwait : forall x, waiting s' x -> waiting s x).
    { intros x [Hx|(k & l & Hkl & Hx)]; [left; by apply Hsub|].
      apply list_lookup_insert_Some in Hkl as [(<- & <- & _)|[_ Hkl]]; [|right; eauto].
      apply elem_of_cons in Hx as [->|Hx]; [by left|]. right. exists (Z.to_nat (eslot e)), (slot s (eslot e)).
      split; [|done]. by apply list_lookup_lookup_total_lt. }
    pose proof Hs as [Heo Ho Hi Hlk Htk Hsl Hca Hge Hre Hpa Hsf]. split; cbn; try done.
    + split_and!; [done|done|]. by rewrite length_insert.
    + intros k l x Hkl Hx. apply list_lookup_insert_Some in Hkl as [(<- & <- & _)|[_ Hkl]]; [|by eapply Hsl].
      apply elem_of_cons in Hx as [->|Hx]; [by rewrite Hslot|].
      eapply Hsl; [|exact Hx]. by apply list_lookup_lookup_total_lt.
    + intros x Hx. by apply Hca, Hsub.
    + intros x Hx%Hwait. by apply Hge.
    + intros x j v Hx%Hwait. by apply Hre.
  - destruct Hs. split; cbn; done.
Qed.

(** A worker that epochclean let pass is still near when the epoch changes. *)
Lemma near_advance s w s' :
  epochs_ok s -> near s w -> passed s w -> count s' = count s + 1 -> near s' w.
Proof.
  intros Hs (r & Hr & El & Hn) Hp Hc. exists r. split; [done|]. split; [done|]. rewrite Hc.
  destruct Hp as [E|E]; [|lia]. rewrite El in E. apply eactive_inj in E; [|done|by apply epoch_range].
  destruct (eo_epoch _ Hs) as (Ee & _). rewrite Ee in E. Z.div_mod_to_equations. lia.
Qed.

Lemma take_safe s c ge e :
  epochs_ok s -> cleaner s = Some (Looking c ge (length (workers s))) -> e ∈ slot s ((ge + 1) mod 3) ->
  waiting s e /\ forall i w, workers s !! i = Some w -> inside w -> etime e < wtime w.
Proof.
  intros Hs Hc He. destruct (eo_looking _ Hs c ge _ Hc) as [-> Hp]. destruct (eo_epoch _ Hs) as (Ee & Hc0 & Hl).
  pose proof (Z.mod_pos_bound (epoch s + 1) 3 ltac:(lia)) as Hk.
  assert (Hlk : limbos s !! Z.to_nat ((epoch s + 1) mod 3) = Some (slot s ((epoch s + 1) mod 3))).
  { apply list_lookup_lookup_total_lt. rewrite Hl. lia. }
  assert (Hw : waiting s e) by (right; eauto). split; [done|]. intros i w Hi Hin.
  destruct (decide (etime e < wtime w)) as [|Ht]; [done|exfalso].
  pose proof (eo_slot _ Hs _ _ e Hlk He) as Hslot. destruct (eo_gen _ Hs e Hw) as [Hg _].
  pose proof (eo_reader _ Hs e i w Hw Hi Hin ltac:(lia)) as Hr.
  destruct (eo_in _ Hs i w Hi Hin) as [(r & Hr3 & El & Hn) _].
  pose proof (Z.mod_pos_bound (egen e) 3 ltac:(lia)).
  assert (Hmod : (epoch s + 1) mod 3 = egen e mod 3) by lia. rewrite Ee in Hmod.
  assert (Hpw : passed s w) by (apply (Hp i w); [by apply lookup_lt_Some in Hi|done|done]).
  destruct Hpw as [E|E].
  - rewrite El in E. apply eactive_inj in E; [|done|by apply epoch_range]. rewrite Ee in E.
    Z.div_mod_to_equations. lia.
  - Z.div_mod_to_equations. lia.
Qed.

Lemma cleaner_step s c :
  epochs_ok s ->
  (forall n ge i, c = Some (Looking n ge i) -> ge = epoch s /\
     forall j w, (j < i)%nat -> workers s !! j = Some w -> inside w -> passed s w) ->
  (forall ge, c <> Some (Taken ge)) -> epochs_ok (set_cleaner s c).
Proof. intros Hs H1 H2. split; try apply Hs; cbn; [done|]. intros ge Hc. by destruct (H2 ge). Qed.

Lemma disposal_ok s l1 e l2 : torelease s = l1 ++ e :: l2 -> epochs_ok s -> epochs_ok (disposal s (l1 ++ l2) e).
Proof.
  intros H [? ? ? ? ? ? ? ? ? Hpa Hsf].
  assert (Hin : forall x, x ∈ (l1 ++ l2) ++ e :: released s -> x ∈ torelease s ++ released s) by (rewrite H; set_solver).
  split; cbn; try done; intros; eauto.
Qed.

Lemma epochclean_ok cmax s s' : epochclean cmax s s' -> epochs_ok s -> epochs_ok s'.
Proof.
  destruct 1 as [s H|s c ge i w H Hw Hb|s c ge i w H Hw Hb Hc|s c ge i w H Hw Hb Hc|s c ge H|s ge H|s l1 e l2 H|s l1 e l2 H Hop|s n H]; intros Hs.
  - apply cleaner_step; [done| |done]. intros n ge i [= <- <- <-]. split; [done|lia].
  - destruct (eo_looking _ Hs c ge i H) as [-> Hp].
    apply cleaner_step; [done| |done]. intros n ge' i' [= <- <- <-]. split; [done|].
    intros j v Hj Hv Hin. destruct (decide (j = i)) as [->|]; [|apply (Hp j v); [lia|done|done]].
    rewrite Hw in Hv. injection Hv as <-. left. destruct (eo_in _ Hs i w Hw Hin) as [(r & _ & El & _) _].
    unfold blocks in Hb. rewrite El, eactive_set in *. cbn [Eactive Z.shiftl Z.eqb negb andb] in Hb.
    apply negb_false_iff, Z.eqb_eq in Hb. done.
  - by apply cleaner_step.
  - apply cleaner_step; [done| |done]. intros n ge' i' [= <- <- <-]. split; [done|lia].
  - destruct (eo_looking _ Hs c ge _ H) as [Ege Hp]. pose proof (take_safe s c ge) as Hsafe.
    set (s' := mkEpochs _ _ _ _ _ _ _ _ _ _ _ _).
    assert (Hwait : forall x, waiting s' x -> waiting s x).
    { intros x [?|(k & l & Hkl & Hx)]; [by left|].
      apply list_lookup_insert_Some in Hkl as [(<- & <- & _)|[_ Hkl]]; [set_solver|]. right. eauto. }
    pose proof Hs as [Heo ? ? ? ? Hsl ? Hge Hre Hpa Hsf]. split; cbn; try done.
    + by rewrite length_insert.
    + intros ge' [= <-]. split; [done|]. intros j v Hj Hv. eapply (Hp j); eauto. by apply lookup_lt_Some in Hj.
    + intros k l x Hkl Hx. apply list_lookup_insert_Some in Hkl as [(<- & <- & _)|[_ Hkl]]; [set_solver|by eapply Hsl].
    + intros x Hx%Hwait. by apply Hge.
    + intros x j v Hx%Hwait. by apply Hre.
    + intros x Hx. rewrite <- app_assoc, !elem_of_app in Hx. destruct Hx as [Hx|[Hx|Hx]]; [apply Hpa; set_solver| |apply Hpa; set_solver].
      destruct (Hsafe x Hs H Hx) as [Hw _]. by apply Hge.
    + intros x j v Hx. rewrite <- app_assoc, !elem_of_app in Hx.
      destruct Hx as [Hx|[Hx|Hx]]; [apply Hsf; set_solver| |apply Hsf; set_solver].
      destruct (Hsafe x Hs H Hx) as [_ Hw]. apply Hw.
  - destruct (eo_taken _ Hs ge H) as [-> Hp]. pose proof Hs as [(Ee & Hc0 & Hl) ? Hinn ? ? ? ? Hge ? ? ?].
    split; cbn; try done.
    + split_and!; [|lia|done]. rewrite Ee. by rewrite Zplus_mod_idemp_l.
    + intros j v Hj Hv. destruct (Hinn j v Hj Hv) as [Hn ?]. split; [|done].
      eapply near_advance; eauto.
    + intros x Hx. destruct (Hge x Hx). lia.
  - by eapply disposal_ok.
  - eapply disposal_ok in Hs; [|exact H]. eapply (calls_step (disposal s (l1 ++ l2) e) _ (now s + 1)) in Hs; [exact Hs|cbn; lia|].
    intros x [->|Hx]%elem_of_cons; [right|by left]. exists DFtree, (eobj e), (now s). split; [done|cbn; lia].
  - destruct Hs. split; cbn; done.
Qed.

Lemma estep_ok cmax s s' : estep cmax s s' -> epochs_ok s -> epochs_ok s'.
Proof. destruct 1; eauto using epochstart_ok, epochend_ok, limbo_ok, epochclean_ok. Qed.

Lemma einit_ok n : epochs_ok (einit n).
Proof.
  assert (Hw : forall i w, replicate n (mkWorker 0 Out 0 0) !! i = Some w -> w = mkWorker 0 Out 0 0).
  { intros i w [-> _]%lookup_replicate. done. }
  split; cbn; try done; try (intros i w ->%Hw; done).
  - intros k l e Hk He. destruct k as [|[|[|k]]]; cbn in Hk; simplify_eq; set_solver.
  - intros e He. by apply elem_of_nil in He.
  - intros e [He|(k & l & Hk & He)]; [by apply elem_of_nil in He|].
    destruct k as [|[|[|k]]]; cbn in Hk; simplify_eq; set_solver.
  - intros e i w _ ->%Hw. done.
  - set_solver.
  - intros e i w H. set_solver.
Qed.

Lemma run_epochs_ok cmax n s : rtc (estep cmax) (einit n) s -> epochs_ok s.
Proof.
  intros H. assert (forall s0, epochs_ok s0 -> rtc (estep cmax) s0 s -> epochs_ok s) as Hx.
  { induction 2; eauto using estep_ok. }
  eapply Hx; [apply einit_ok|done].
Qed.

(** * Nothing is lost or released twice *)

(** All that limbo was ever called with, by where it is now; an entry is known
    by its object and the time of the call. *)
Definition key (e : lentry) : obj * Z := (eobj e, etime e).
Definition everything (s : epochs) : list (obj * Z) :=
  key <$> (calls s ++ mjoin (limbos s) ++ torelease s ++ released s).

(** What fs->nlimbo has to be. *)
Definition incount (s : epochs) : Z := zlen (mjoin (limbos s) ++ torelease s) + Z.of_nat (disposed s) - Z.of_nat (pushed s).

Lemma mjoin_insert {A} (l : list (list A)) i x y :
  l !! i = Some x -> mjoin (<[i := y]> l) ++ x ≡ₚ mjoin l ++ y.
Proof.
  revert i. induction l as [|z l IH]; intros [|i] H; cbn in H |- *; simplify_eq.
  - rewrite (Permutation_app_comm (x ++ _) y), <- app_assoc. by rewrite (Permutation_app_comm (mjoin l) x).
  - rewrite <- !app_assoc. by rewrite (IH i H).
Qed.

Record kept (s s' : epochs) : Prop := {
  k_new : everything s' ≡ₚ everything s \/ exists o, everything s' ≡ₚ (o, now s) :: everything s /\ now s < now s';
  k_now : now s <= now s';
  k_n : nlimbo s' - incount s' = nlimbo s - incount s
}.

Lemma kept_same s s' :
  everything s' ≡ₚ everything s -> now s' = now s -> nlimbo s' - incount s' = nlimbo s - incount s -> kept s s'.
Proof. intros H Hn Hl. split; [by left|lia|done]. Qed.

Lemma slot_at s k : epochs_ok s -> 0 <= k < 3 -> limbos s !! Z.to_nat k = Some (slot s k).
Proof. intros Hs Hk. destruct (eo_epoch _ Hs) as (_ & _ & Hl). apply list_lookup_lookup_total_lt. rewrite Hl. lia. Qed.

Lemma limbo_kept s s' : limbo s s' -> epochs_ok s -> kept s s'.
Proof.
  destruct 1 as [s op o|s l1 e l2 H|s l1 e l2 H|s n H]; intros Hs.
  - split; cbn; [|lia|done]. right. exists o. split; [done|lia].
  - apply kept_same; [|done|done]. unfold everything. cbn. rewrite H, <- !app_assoc, !fmap_app. done.
  - pose proof (eo_calls _ Hs e) as Hslot. rewrite Hslot by (rewrite H; set_solver). clear Hslot.
    pose proof (slot_at s (egen e mod 3) Hs ltac:(apply Z.mod_pos_bound; lia)) as Hl.
    pose proof (mjoin_insert _ _ _ (e :: slot s (egen e mod 3)) Hl) as Hm.
    assert (Hm' : mjoin (<[Z.to_nat (egen e mod 3) := e :: slot s (egen e mod 3)]> (limbos s)) ≡ₚ e :: mjoin (limbos s)).
    { apply (Permutation_app_inv_r (slot s (egen e mod 3))). rewrite Hm. cbn. symmetry. apply Permutation_middle. }
    apply kept_same; [|done|]; cbn.
    + unfold everything. cbn. apply fmap_Permutation. rewrite Hm', H, <- !app_assoc. apply Permutation_app_head. cbn.
      symmetry. apply Permutation_middle.
    + unfold incount, zlen. cbn. rewrite !length_app, Hm'. cbn. lia.
  - apply kept_same; [done|done|]. unfold incount. cbn. rewrite H. lia.
Qed.

Lemma disposal_kept s l1 e l2 : torelease s = l1 ++ e :: l2 -> kept s (disposal s (l1 ++ l2) e).
Proof.
  intros H. apply kept_same; [|done|]; cbn.
  - unfold everything. cbn. apply fmap_Permutation, Permutation_app_head, Permutation_app_head.
    rewrite H, <- !app_assoc. apply Permutation_app_head. symmetry. apply Permutation_middle.
  - unfold incount. cbn. rewrite H. unfold zlen. rewrite !length_app. cbn. lia.
Qed.

Lemma epochclean_kept cmax s s' : epochclean cmax s s' -> epochs_ok s -> kept s s'.
Proof.
  destruct 1 as [s H|s c ge i w H Hw Hb|s c ge i w H Hw Hb Hc|s c ge i w H Hw Hb Hc|s c ge H|s ge H|s l1 e l2 H|s l1 e l2 H Hop|s n H]; intros Hs;
    try (by apply kept_same).
  - pose proof (Z.mod_pos_bound (ge + 1) 3 ltac:(lia)) as Hk.
    pose proof (slot_at s _ Hs Hk) as Hl. pose proof (mjoin_insert _ _ _ [] Hl) as Hm. rewrite app_nil_r in Hm.
    assert (Hm' : mjoin (<[Z.to_nat ((ge + 1) mod 3) := []]> (limbos s)) ++ torelease s ++ slot s ((ge + 1) mod 3)
                  ≡ₚ mjoin (limbos s) ++ torelease s).
    { rewrite (Permutation_app_comm (torelease s)), app_assoc. by rewrite Hm. }
    apply kept_same; [|done|]; cbn.
    + unfold everything. cbn. apply fmap_Permutation, Permutation_app_head.
      rewrite !app_assoc, <- (app_assoc _ (torelease s)). by rewrite Hm'.
    + unfold incount, zlen. cbn. by rewrite Hm'.
  - by eapply disposal_kept.
  - destruct (disposal_kept s l1 e l2 H) as [[Hk|(o & _ & Hlt)] _ Hn]; [|cbn in Hlt; lia].
    split; cbn; [|lia|done]. right. exists (eobj e). split; [|lia]. unfold everything in *. cbn in *. by rewrite Hk.
  - apply kept_same; [done|done|]. unfold incount. cbn. rewrite H. lia.
Qed.

Lemma estep_kept cmax s s' : estep cmax s s' -> epochs_ok s -> kept s s'.
Proof.
  destruct 1 as [i H|i H|H|H]; intros Hs; [| |by apply limbo_kept|by eapply epochclean_kept].
  - destruct H; split; cbn; try done; try lia; by left.
  - destruct H; split; cbn; try done; by left.
Qed.

Lemma estep_everything cmax s s' :
  estep cmax s s' -> epochs_ok s -> everything s ⊆+ everything s'.
Proof.
  intros Hst Hs. destruct (estep_kept cmax s s' Hst Hs) as [[->|(o & -> & _)] _ _]; [done|]. by apply submseteq_cons.
Qed.

(** The rest of the invariant: the times of the calls are all different and
    past, and fs->nlimbo counts what is in limbo. *)
Definition books (s : epochs) : Prop :=
  NoDup (snd <$> everything s) /\ (forall k, k ∈ everything s -> k.2 < now s) /\
  nlimbo s = incount s.

Lemma estep_books cmax s s' : estep cmax s s' -> epochs_ok s -> books s -> books s'.
Proof.
  intros Hst Hs (Hnd & Hlt & Hn). destruct (estep_kept cmax s s' Hst Hs) as [Hk Hnow Hl].
  split_and!; [| |lia].
  - destruct Hk as [->|(o & -> & Hnow')]; [done|]. cbn. constructor; [|done].
    intros (k & E & Hin)%list_elem_of_fmap. specialize (Hlt k Hin). lia.
  - intros k Hin. destruct Hk as [E|(o & E & Hnow')]; rewrite E in Hin.
    + specialize (Hlt k Hin). lia.
    + apply elem_of_cons in Hin as [->|Hin]; [done|]. specialize (Hlt k Hin). lia.
Qed.

Lemma einit_books n : books (einit n).
Proof.
  unfold books. cbn. split_and!; [constructor|set_solver|done].
Qed.

Lemma run_books cmax s s' : rtc (estep cmax) s s' -> epochs_ok s -> books s -> epochs_ok s' /\ books s' /\ everything s ⊆+ everything s'.
Proof.
  induction 1 as [s|s1 s2 s3 Hst _ IH]; intros Hs Hb; [done|].
  destruct IH as (Hs3 & Hb3 & Hsub); [by eapply estep_ok|by eapply estep_books|].
  split_and!; [done..|]. etrans; [by eapply estep_everything|done].
Qed.

(** * A quiet file system is drained *)

(** Nobody is inside, in limbo or cleaning. *)
Definition quiet (s : epochs) : Prop :=
  cleaner s = None /\ Forall (fun w => pc w = Out) (workers s) /\ calls s = [] /\ pushed s = 0%nat /\
  torelease s = [] /\ disposed s = 0%nat.

Lemma quiet_blocks s w : epochs_ok s -> quiet s -> w ∈ workers s -> forall ge, blocks (lepoch w) ge = false.
Proof.
  intros Hs (_ & Hq & _) Hw ge. rewrite Forall_forall in Hq. specialize (Hq w Hw).
  apply list_elem_of_lookup in Hw as [i Hi]. destruct (eo_out _ Hs i w Hi) as [E _].
  - unfold inside. by rewrite Hq.
  - unfold blocks. by rewrite E.
Qed.

Section Drain.
  (** Whether closesnap drops the last reference of a tree. *)
  Context (lastref : obj -> bool) (cmax : Z).

(** epochclean by a process that nobody disturbs.  First the list is taken and
    the epoch changes. *)
Definition taken (s : epochs) : epochs :=
  let k := (epoch s + 1) mod 3 in
  mkEpochs k (workers s) (calls s) (pushed s) (<[Z.to_nat k := []]> (limbos s)) (nlimbo s) None (torelease s ++ slot s k) (disposed s)
           (released s) (count s + 1) (now s).

(** Then the entries of the list are released, and counted off, one by one;
    a tree that closesnap puts in limbo is pushed and counted first. *)
Definition closes (e : lentry) : bool := match lop e with DFclose => lastref (eobj e) | _ => false end.
Definition release1 (s : epochs) (e : lentry) (l : list lentry) : epochs :=
  let x := entry s DFtree (eobj e) (now s) in
  mkEpochs (epoch s) (workers s) (calls s) (pushed s)
    (if closes e then <[Z.to_nat (epoch s) := x :: slot s (epoch s)]> (limbos s) else limbos s)
    (if closes e then nlimbo s + 1 - 1 else nlimbo s - 1) (cleaner s) l (disposed s) (e :: released s) (count s)
    (if closes e then now s + 1 else now s).
Fixpoint releases (l : list lentry) (s : epochs) : epochs :=
  match l with [] => s | e :: l => releases l (release1 s e l) end.
Definition cleaned (s : epochs) : epochs := let s := taken s in releases (torelease s) s.

(** The steps of a process in epochclean, those of its calls of limbo
    included: no other call of limbo begins. *)
Definition cleanstep (s s' : epochs) : Prop := epochclean cmax s s' \/ limbo s s' /\ now s' = now s.

(** A list of which closesnap puts nothing in limbo. *)
Definition final (l : list lentry) : Prop := Forall (fun e => closes e = false) l.

Lemma look_all s c ge i :
  (forall w, w ∈ workers s -> blocks (lepoch w) ge = false) -> (i <= length (workers s))%nat ->
  rtc cleanstep (set_cleaner s (Some (Looking c ge (length (workers s) - i))))
                (set_cleaner s (Some (Looking c ge (length (workers s))))).
Proof.
  intros Hb. induction i as [|i IH]; intros Hi; [by replace (length (workers s) - 0)%nat with (length (workers s)) by lia|].
  destruct (lookup_lt_is_Some_2 (workers s) (length (workers s) - S i)) as [w Hw]; [lia|].
  eapply rtc_l; [|apply IH; lia].
  replace (length (workers s) - i)%nat with (S (length (workers s) - S i)) by lia. left.
  apply (clean_next cmax (set_cleaner s _) c ge _ w); [done|exact Hw|]. apply Hb. by eapply list_elem_of_lookup_2.
Qed.

Lemma taken_run s : epochs_ok s -> quiet s -> rtc cleanstep s (taken s).
Proof.
  intros Hs Hq. eapply rtc_l; [left; apply clean_lock; apply Hq|].
  etrans.
  - pose proof (look_all s (nlimbo s) (epoch s) (length (workers s))) as H.
    rewrite Nat.sub_diag in H. apply H; [|done]. intros w Hw. by eapply quiet_blocks.
  - eapply rtc_l; [left; by eapply clean_take|]. eapply rtc_l; [left; by eapply clean_advance|]. done.
Qed.

Lemma release1_run s e l : calls s = [] -> pushed s = 0%nat -> disposed s = 0%nat -> torelease s = e :: l ->
  rtc cleanstep s (release1 s e l).
Proof.
  intros Hc Hp Hd Ht. destruct s as [ep ws cs pu ls nl cl tr di re ct nw]. cbn in *. subst.
  unfold release1, slot, entry. cbn. destruct (closes e) eqn:Ec.
  - assert (lop e = DFclose) as Hop by (unfold closes in Ec; by destruct (lop e)).
    eapply rtc_l; [left; by apply (clean_close cmax _ [] e l)|]. unfold closing, disposal, tick, set_calls, entry. cbn.
    eapply rtc_l; [right; split; [by apply (limbo_push _ [] (mkLentry DFtree (eobj e) ep ct nw) [])|done]|]. unfold slot. cbn.
    eapply rtc_l; [right; split; [by apply limbo_count|done]|]. cbn.
    eapply rtc_l; [left; by apply clean_count|]. cbn. done.
  - eapply rtc_l; [left; by apply (clean_release cmax _ [] e l)|]. unfold disposal. cbn.
    eapply rtc_l; [left; by apply clean_count|]. cbn. done.
Qed.

(** What the releases leave. *)
Record drained (l : list lentry) (s s' : epochs) : Prop := {
  dr_run : rtc cleanstep s s';
  dr_epoch : epoch s' = epoch s;
  dr_workers : workers s' = workers s;
  dr_idle : cleaner s' = None /\ calls s' = [] /\ pushed s' = 0%nat /\ torelease s' = [] /\ disposed s' = 0%nat;
  dr_limbos : exists l', limbos s' = <[Z.to_nat (epoch s) := l' ++ slot s (epoch s)]> (limbos s) /\ final l' /\ (final l -> l' = [])
}.

Lemma releases_spec l : forall s, cleaner s = None -> calls s = [] -> pushed s = 0%nat -> disposed s = 0%nat -> torelease s = l ->
  (Z.to_nat (epoch s) < length (limbos s))%nat -> drained l s (releases l s).
Proof.
  induction l as [|e l IH]; intros s Hcl Hc Hp Hd Ht Hk; cbn [releases].
  - split; try done. exists []. split_and!; [|by constructor|done]. cbn [app]. unfold slot.
    symmetry. apply list_insert_id. by apply list_lookup_lookup_total_lt.
  - assert (drained l (release1 s e l) (releases l (release1 s e l))) as [D1 D2 D3 D4 (l' & El & Hf & Hn)].
    { apply IH; try done. cbn. case_match; [by rewrite length_insert|done]. }
    split; try done.
    + etrans; [by apply release1_run|exact D1].
    + cbn in El. unfold slot in El. cbn in El. destruct (closes e) eqn:Ec.
      * set (x := entry s DFtree (eobj e) (now s)) in *. rewrite list_lookup_total_insert_eq, list_insert_insert_eq in El by done.
        exists (l' ++ [x]). split_and!.
        -- rewrite El. unfold slot. by rewrite <- app_assoc.
        -- apply Forall_app. split; [done|]. by constructor.
        -- intros [H _]%Forall_cons. congruence.
      * exists l'. split_and!; [done..|]. intros [_ H]%Forall_cons. by apply Hn.
Qed.

(** One turn of epochclean on a quiet file system. *)
Lemma cleaned_spec s : epochs_ok s -> quiet s ->
  let k := (epoch s + 1) mod 3 in
  rtc cleanstep s (cleaned s) /\ quiet (cleaned s) /\ epoch (cleaned s) = k /\
  exists l', limbos (cleaned s) = <[Z.to_nat k := l']> (limbos s) /\ final l' /\ (final (slot s k) -> l' = []).
Proof.
  intros Hs Hq k. pose proof Hq as (Hcl & Hw & Hc & Hp & Ht & Hd). destruct (eo_epoch _ Hs) as (_ & _ & Hlen).
  pose proof (Z.mod_pos_bound (epoch s + 1) 3 ltac:(lia)) as Hk.
  unfold cleaned. destruct (releases_spec (torelease (taken s)) (taken s)) as [D1 D2 D3 D4 (l' & El & Hf & Hn)]; try done.
  { cbn. rewrite length_insert, Hlen. lia. }
  cbn zeta. set (s' := releases _ _) in *. split_and!; [|split_and!|done|].
  - etrans; [by apply taken_run|exact D1].
  - apply D4.
  - by rewrite D3.
  - apply D4.
  - apply D4.
  - apply D4.
  - apply D4.
  - exists l'. change (epoch (taken s)) with k in El. change (limbos (taken s)) with (<[Z.to_nat k := []]> (limbos s)) in El.
    change (torelease (taken s)) with (torelease s ++ slot s k) in Hn.
    assert (slot (taken s) k = []) as Esl by (apply list_lookup_total_insert_eq; rewrite Hlen; lia).
    rewrite Esl, app_nil_r, list_insert_insert_eq in El.
    split_and!; [done..|]. intros H. apply Hn. by rewrite Ht.
Qed.

Lemma cleanstep_ok s s' : cleanstep s s' -> epochs_ok s -> epochs_ok s'.
Proof. intros [?|[? _]]; [by eapply epochclean_ok|by apply limbo_ok]. Qed.

Lemma cleaned_ok s : epochs_ok s -> quiet s -> epochs_ok (cleaned s).
Proof.
  intros Hs Hq. destruct (cleaned_spec s Hs Hq) as (Hr & _). clear Hq. revert Hs. induction Hr; eauto using cleanstep_ok.
Qed.

(** Three turns go round the lists; after that, all that is left was put in
    limbo by closesnap, and three turns more leave nothing. *)
Lemma rounds s : epochs_ok s -> quiet s ->
  let s3 := Nat.iter 3 cleaned s in
  rtc cleanstep s s3 /\ quiet s3 /\ epochs_ok s3 /\ Forall final (limbos s3) /\
  (Forall final (limbos s) -> Forall (fun l => l = []) (limbos s3)).
Proof.
  intros Hs Hq. cbn [Nat.iter nat_rect]. set (s1 := cleaned s). set (s2 := cleaned s1). set (s3 := cleaned s2).
  destruct (cleaned_spec s Hs Hq) as (R1 & Q1 & E1 & l1 & L1 & F1 & N1). pose proof (cleaned_ok s Hs Hq) as O1.
  destruct (cleaned_spec s1 O1 Q1) as (R2 & Q2 & E2 & l2 & L2 & F2 & N2). pose proof (cleaned_ok s1 O1 Q1) as O2.
  destruct (cleaned_spec s2 O2 Q2) as (R3 & Q3 & E3 & l3 & L3 & F3 & N3). pose proof (cleaned_ok s2 O2 Q2) as O3.
  split; [by do 2 (etrans; [eassumption|])|]. split; [done|]. split; [done|].
  destruct (eo_epoch _ Hs) as (_ & _ & Hlen). pose proof (epoch_range s Hs) as Hr.
  destruct (limbos s) as [|x0 [|x1 [|x2 [|? ?]]]] eqn:El; try discriminate Hlen.
  fold s1 in L1, E1. fold s2 in L2, E2. fold s3 in L3. unfold slot in N1, N2, N3. clearbody s1 s2 s3.
  rewrite L2, L1, E2, E1 in N3. rewrite L1, E1 in N2. rewrite El in N1. rewrite L2, L1, E2, E1 in L3.
  assert (epoch s = 0 \/ epoch s = 1 \/ epoch s = 2) as [E|[E|E]] by lia; rewrite E in L3, N1, N2, N3;
    cbn in L3, N1, N2, N3; rewrite L3; (split; [by repeat constructor|]);
    intros [G0 [G1 [G2 _]%Forall_cons]%Forall_cons]%Forall_cons; repeat constructor; auto.
Qed.

Lemma cleanstep_run s s' : rtc cleanstep s s' -> rtc (estep cmax) s s'.
Proof. induction 1 as [|? ? ? [H|[H _]] _ IH]; [done| |]; eapply rtc_l; eauto using es_clean, es_limbo. Qed.

Lemma everything_drained s :
  quiet s -> books s -> Forall (fun l => l = []) (limbos s) -> nlimbo s = 0 /\ everything s = key <$> released s.
Proof.
  intros (_ & _ & Hc & Hp & Ht & Hd) (_ & _ & ->) He.
  assert (Hj : mjoin (limbos s) = []) by (induction He as [|l ls -> _ IH]; [done|exact IH]).
  unfold incount, everything. by rewrite Hc, Hp, Ht, Hd, Hj.
Qed.
End Drain.

(** * What the epochs promise *)

(** C19: Nothing is released that a worker can still be reading.  In every
    state that [n] workers, any number of calls of limbo, by any process and at
    any time, and any number of cleaners can reach, with their atomic accesses
    interleaved in any way: a worker that is between epochstart and epochend
    when an object is released, or at any time after, began after limbo was
    called for that object; no entry is released twice; fs->nlimbo is the
    number of entries in the three lists or about to be released, but for the
    ones pushed and not yet counted and the ones released and not yet counted
    off; and whatever was given to limbo stays accounted for in every later
    state. *)
Theorem epoch_safe cmax n s :
  rtc (estep cmax) (einit n) s ->
  (forall e i w, e ∈ torelease s ++ released s -> workers s !! i = Some w -> inside w -> etime e < wtime w) /\
  NoDup (snd <$> everything s) /\
  nlimbo s = zlen (mjoin (limbos s) ++ torelease s) + Z.of_nat (disposed s) - Z.of_nat (pushed s) /\
  (forall s', rtc (estep cmax) s s' -> everything s ⊆+ everything s').
Proof.
  intros Hr. destruct (run_books cmax _ s Hr (einit_ok n) (einit_books n)) as (Hs & Hb & _).
  pose proof Hb as (Hnd & _ & Hn). split_and!; [apply (eo_safe _ Hs)|done..|].
  intros s' Hr'. by eapply run_books.
Qed.

(** C33: Limbo is drained.  From every state that can be reached and in which
    no worker is inside, no call of limbo is under way and nobody cleans, six
    calls of epochclean by one process end in a state of that kind in which the
    three lists are empty, fs->nlimbo is 0, and all that was in limbo has been
    released, whatever trees closesnap puts back when a DFclose entry is
    released ([lastref] says for which); three calls are enough when no
    DFclose entry in limbo is of such a tree. *)
Theorem epoch_drains lastref cmax n s k :
  rtc (estep cmax) (einit n) s -> quiet s ->
  k = 6%nat \/ k = 3%nat /\ Forall (final lastref) (limbos s) ->
  let s' := Nat.iter k (cleaned lastref) s in
  rtc (cleanstep cmax) s s' /\ quiet s' /\ Forall (fun l => l = []) (limbos s') /\
  nlimbo s' = 0 /\ everything s ⊆+ key <$> released s'.
Proof.
  intros Hr Hq Hk s'. destruct (run_books cmax _ s Hr (einit_ok n) (einit_books n)) as (Hs & Hb & _).
  assert (rtc (cleanstep cmax) s s' /\ quiet s' /\ Forall (fun l => l = []) (limbos s')) as (R & Q & E).
  { destruct (rounds lastref cmax s Hs Hq) as (R1 & Q1 & O1 & F1 & E1). destruct Hk as [->|[-> Hf]].
    - destruct (rounds lastref cmax _ O1 Q1) as (R2 & Q2 & O2 & F2 & E2). rewrite <- Nat.iter_add in R2, Q2, E2.
      split; [by etrans|]. split; [done|]. by apply E2.
    - split; [done|]. split; [done|]. by apply E1. }
  destruct (run_books cmax s s' (cleanstep_run cmax s s' R) Hs Hb) as (_ & Hb' & Hsub).
  destruct (everything_drained s' Q Hb' E) as [Hn Ev]. rewrite Ev in Hsub. done.
Qed.
End Epoch.

Arguments lentry : clear implicits.
Arguments epochs : clear implicits.

(** A worker that closes one tree, 7, and leaves. *)
Definition ex_closed : epochs nat :=
  mkEpochs 0 [mkWorker 0 Out 0 0] [] 0 [[mkLentry DFclose 7%nat 0 0 1]; []; []] 1 None [] 0 [] 0 2.

Lemma ex_closed_run : rtc (estep 100) (einit 1) ex_closed.
Proof.
  eapply rtc_l; [apply (es_start _ _ _ 0); by apply (start_read 0 (einit 1) (mkWorker 0 Out 0 0))|].
  eapply rtc_l; [apply (es_start _ _ _ 0); by eapply start_announce|].
  eapply rtc_l; [apply es_limbo; by eapply (limbo_read _ DFclose 7%nat)|].
  eapply rtc_l; [apply es_limbo; by apply (limbo_push _ [] (mkLentry DFclose 7%nat 0 0 1) [])|].
  eapply rtc_l; [apply es_limbo; by eapply limbo_count|].
  eapply rtc_l; [apply (es_end _ _ _ 0); by eapply end_|].
  reflexivity.
Qed.

Lemma ex_closed_quiet : quiet ex_closed.
Proof. split_and!; try done. by repeat constructor. Qed.

(** The state in which the tree has just been closed, and put back in limbo,
    while a worker that began after its first call of limbo is inside. *)
Definition ex_reader : epochs nat :=
  mkEpochs 0 [mkWorker (Z.lor 2 Eactive) In 2 2] [mkLentry DFtree 7%nat 0 3 3] 0 [[]; []; []] 1 None [] 1
    [mkLentry DFclose 7%nat 0 0 1] 3 4.

Lemma ex_reader_run : rtc (estep 100) (einit 1) ex_reader.
Proof.
  etrans; [apply ex_closed_run|]. etrans.
  { pose proof (run_epochs_ok 100 1 _ ex_closed_run) as Hs.
    destruct (cleaned_spec (fun _ => false) 100 _ Hs ex_closed_quiet) as (R & Q & _).
    pose proof (cleaned_ok (fun _ => false) 100 _ Hs ex_closed_quiet) as Hs'.
    destruct (cleaned_spec (fun _ => false) 100 _ Hs' Q) as (R' & _).
    apply (cleanstep_run 100). etrans; [exact R|exact R']. }
  eapply rtc_l; [apply (es_start _ _ _ 0); by eapply start_read|].
  eapply rtc_l; [apply (es_start _ _ _ 0); by eapply start_announce|].
  eapply rtc_l; [apply es_clean; by eapply clean_lock|].
  eapply rtc_l; [apply es_clean; by eapply clean_next|].
  eapply rtc_l; [apply es_clean; by eapply clean_take|].
  eapply rtc_l; [apply es_clean; by eapply clean_advance|].
  eapply rtc_l; [apply es_clean; by apply (clean_close _ _ [] (mkLentry DFclose 7%nat 0 0 1) [])|].
  reflexivity.
Qed.

(** The worker inside began after limbo was called for the entry released. *)
Lemma epoch_safe_witness :
  released ex_reader = [mkLentry DFclose 7%nat 0 0 1] /\ 1 < 2 /\ NoDup (snd <$> everything ex_reader).
Proof.
  pose proof (epoch_safe 100 1 ex_reader ex_reader_run) as (Hr & Hn & _).
  split; [reflexivity|]. split; [|exact Hn].
  exact (Hr (mkLentry DFclose 7%nat 0 0 1) 0%nat (mkWorker (Z.lor 2 Eactive) In 2 2) ltac:(apply list_elem_of_here) eq_refl eq_refl).
Defined.

(** The tree is put back when it is closed, and is released at last. *)
Lemma epoch_drains_witness :
  let s' := Nat.iter 6 (cleaned (fun o => Nat.eqb o 7)) ex_closed in
  (rtc (cleanstep 100) ex_closed s' /\ quiet s' /\ Forall (fun l => l = []) (limbos s') /\
   nlimbo s' = 0 /\ everything ex_closed ⊆+ key <$> released s') /\
  lop <$> released s' = [DFtree; DFclose].
Proof.
  split; [|vm_compute; reflexivity].
  apply (epoch_drains (fun o => Nat.eqb o 7) 100 1 ex_closed 6 ex_closed_run ex_closed_quiet). by left.
Defined.
