(* ===== verification/Tree.v ===== *)
(** sys/src/9/gefs/tree.c, the tree: btlookup from the root to a leaf and back
    through the buffers.

    [fetch] is getblk on the pointers of a tree: the block at an address.  The
    lookup is proved against [sem], the meaning of an abstract tree: the value
    a key has in its leaf, changed by the messages for the key in the buffers
    on the way up to the root, each buffer's from the oldest on.  [rep] says
    that the blocks from a root hold an abstract tree. *)

From S2P Require Import Prelude Layout Hash Pack Node Msgs Blk.

(** * The code *)

Section Tree.
  Context (fetch : Bptr -> res Blk).

Definition getroot (t : Tree) : res (Blk * Z) := b ← fetch (tbp t); Ok (b, ht t).

(** The way down of btlookup: the blocks p[0], p[1], ... and what *r holds
    after the last search.  [n] levels are left. *)
Fixpoint descend (n : nat) (b : Blk) (key : list Z) (r : Kvp) : res (list Blk * Kvp) :=
  match n with
  | O => Ok ([b], r)
  | S n =>
      '(i, ov, _) ← blksearch b key;
      let r := default r ov in
      if i =? -1 then Ok ([b], r) else
      p ← unpackbp (v r);
      b' ← fetch p;
      '(l, r) ← descend n b' key r;
      Ok (b :: l, r)
  end.

(** The messages for the key from [j] on, applied to *r. *)
Fixpoint lookrun (fuel : nat) (b : Blk) (key : list Z) (nbuf : Z) (j : Z) (ok : bool) (r : Kvp) : res (bool * Kvp) :=
  if Node.nbuf b <=? j then Ok (ok, r) else
  match fuel with
  | O => Fail Fuel
  | S fuel =>
      m ← getmsg b j;
      if negb (keycmp key (mk m) =? 0) then Ok (ok, r) else
      '(ok, r) ← apply r m nbuf;
      lookrun fuel b key nbuf (j + 1) ok r
  end.

(** One level of the way up. *)
Definition lookbuf (b : Blk) (key : list Z) (nbuf : Z) (ok : bool) (r : Kvp) : res (bool * Kvp) :=
  '(j, om, same) ← bufsearch b key;
  if (j <? 0) || negb same then Ok (ok, r) else
  m ← of_option om Undef;
  '(ok, r) ←
    (if ok || (op m =? Oinsert) then apply r m nbuf
     else if negb (op m =? Oclearb) && negb (op m =? Oclobber) then Fail Abort
     else Ok (ok, r));
  lookrun (Z.to_nat (Node.nbuf b)) b key nbuf (j + 1) ok r.

(** The way up, from the lowest pivot to the root. *)
Fixpoint ascend (l : list Blk) (key : list Z) (nbuf : Z) (ok : bool) (r : Kvp) : res (bool * Kvp) :=
  match l with
  | [] => Ok (ok, r)
  | b :: l => '(ok, r) ← lookbuf b key nbuf ok r; ascend l key nbuf ok r
  end.

(** [r] is what the caller's *r holds; the memory of the path is always there. *)
Definition btlookup (t : Tree) (key : list Z) (r : Kvp) (nbuf : Z) : res (bool * Kvp) :=
  '(b, h) ← getroot t;
  '(p, r) ← descend (Z.to_nat h - 1) b key r;
  '(ok, r) ←
    match p !! (Z.to_nat h - 1)%nat with
    | Some b => '(_, ov, same) ← blksearch b key; Ok (same, default r ov)
    | None => Ok (false, r)
    end;
  r ← (if ok : bool then cpkvp r nbuf else Ok r);
  ascend (reverse (take (Z.to_nat h - 1) p)) key nbuf ok r.

(** * Abstract trees *)

#[warnings="-register-all"]
Inductive btree :=
  | Leaf (kvs : list Kvp)
  | Pivot (kids : list (list Z * btree)) (ms : list Msg).

Definition findkv (key : list Z) (kvs : list Kvp) : option Kvp :=
  head (filter (fun kv => k kv = key) kvs).

(** The child whose separator is the last not after the key. *)
Fixpoint route {A} (key : list Z) (kids : list (list Z * A)) : option A :=
  match kids with
  | [] => None
  | (s, t) :: kids =>
      if decide (key_le s key) then match route key kids with Some t' => Some t' | None => Some t end
      else None
  end.

Fixpoint sem (t : btree) (key : list Z) : res (option Kvp) :=
  match t with
  | Leaf kvs => Ok (findkv key kvs)
  | Pivot kids ms =>
      cur ← (fix go (kids : list (list Z * btree)) (dflt : res (option Kvp)) :=
               match kids with
               | [] => dflt
               | (s, t) :: kids => if decide (key_le s key) then go kids (sem t key) else dflt
               end) kids (Ok None);
      mrun cur (for_key key ms)
  end.

(** The blocks at and below [b] hold a tree of [h] levels. *)
Fixpoint rep (h : nat) (b : Blk) (t : btree) : Prop :=
  match h, t with
  | 1%nat, Leaf kvs =>
      btyp b = Tleaf /\ blk_repr b kvs [] /\ kvs_sorted kvs /\ Forall kv_good kvs
  | S h, Pivot kids ms =>
      btyp b = Tpivot /\ kids <> [] /\ msgs_sorted ms /\ Forall msg_good ms /\
      exists kvs, blk_repr b kvs ms /\ kvs_sorted kvs /\
        Forall2 (fun kv kid => k kv = kid.1 /\
          exists p b', unpackbp (v kv) = Ok p /\ fetch p = Ok b' /\ rep h b' kid.2) kvs kids
  | _, _ => False
  end.

Lemma sem_pivot kids ms key :
  sem (Pivot kids ms) key =
    (cur ← match route key kids with Some t => sem t key | None => Ok None end; mrun cur (for_key key ms)).
Proof.
  cbn [sem]. f_equal.
  assert (forall d, (fix go (kids : list (list Z * btree)) (dflt : res (option Kvp)) :=
               match kids with
               | [] => dflt
               | (s, t) :: kids => if decide (key_le s key) then go kids (sem t key) else dflt
               end) kids d = match route key kids with Some t => sem t key | None => d end) as H; [|by rewrite H].
  induction kids as [|[s t] kids IH]; intros d; [done|]. cbn [route].
  case_decide; [|done]. rewrite IH. by destruct (route key kids).
Qed.

(** * The way up *)

Lemma cpkvp_fits kv n : kv_small kv -> Kvmax <= n -> cpkvp kv n = Ok kv.
Proof. intros [? ?] Hn. unfold cpkvp. rewrite check_true; [done|]. unfold Kvmax in *. lia. Qed.

Lemma apply_fits kv m n : msg_small m -> Kvmax <= n -> apply kv m n = apply kv m Msgmax.
Proof.
  intros Hs Hn. unfold apply.
  rewrite !cpkvp_fits; [done|exact Hs|by vm_compute|exact Hs|done].
Qed.

(** apply on what *r holds, which is anything while the key has no value. *)
Lemma apply_look ok r m c n :
  mstep (cur_of ok r) m = Ok c -> msg_small m -> (ok = true -> k r = mk m) -> Kvmax <= n ->
  exists ok' r', apply r m n = Ok (ok', r') /\ cur_of ok' r' = c /\ (ok' = true -> k r' = mk m).
Proof.
  intros H Hs Hk Hn. rewrite apply_fits by done. destruct ok.
  - destruct (apply_mstep true r m c H Hs (eq_sym (Hk eq_refl))) as (ok' & r' & E & Hc & Hk').
    exists ok', r'. split_and!; [done..|]. intros _. rewrite Hk'. by apply Hk.
  - cbn in H. unfold apply. destruct (Z.eqb_spec (op m) Oclearb) as [->|]; cbn in *.
    { apply Ok_inj in H. by exists false, r. }
    destruct (Z.eqb_spec (op m) Oclobber) as [->|]; cbn in *.
    { apply Ok_inj in H. by exists false, r. }
    destruct (Z.eqb_spec (op m) Oinsert) as [->|]; cbn in *; [|done].
    apply Ok_inj in H. exists true, (msg_kvp m). by rewrite (cpkvp_small (msg_kvp m)) by exact Hs.
Qed.

(** In a sorted run whose first message is for another key than the least one
    looked for, there is none for it. *)
Lemma for_key_later key m ms :
  msgs_sorted (m :: ms) -> key_le key (mk m) -> mk m <> key -> for_key key (m :: ms) = [].
Proof.
  intros Hs Hle Hne. apply filter_none. unfold msgs_sorted, keys_sorted, msg_keys in Hs. cbn in Hs.
  apply StronglySorted_inv in Hs as [_ Hs]. constructor; [done|].
  rewrite Forall_fmap in Hs. eapply Forall_impl; [exact Hs|]. cbn. intros x Hx E. apply Hne.
  rewrite E in Hx. by apply (anti_symm key_le).
Qed.

Lemma msgs_sorted_tail m ms : msgs_sorted (m :: ms) -> msgs_sorted ms /\ Forall (fun x => key_le (mk m) (mk x)) ms.
Proof.
  unfold msgs_sorted, keys_sorted, msg_keys. cbn. intros [H1 H2]%StronglySorted_inv. by rewrite Forall_fmap in H2.
Qed.

Lemma lookrun_spec b kvs pre suf key n c :
  forall fuel ok r,
  blk_repr b kvs (pre ++ suf) -> btyp b = Tpivot -> msgs_sorted suf -> Forall msg_good suf ->
  Forall (fun m => key_le key (mk m)) suf ->
  mrun (cur_of ok r) (for_key key suf) = Ok c -> (ok = true -> k r = key) -> Kvmax <= n ->
  (length suf <= fuel)%nat ->
  exists ok' r', lookrun fuel b key n (zlen pre) ok r = Ok (ok', r') /\ cur_of ok' r' = c /\ (ok' = true -> k r' = key).
Proof.
  revert pre. induction suf as [|m suf IH]; intros pre fuel ok r R Ht Hs Hg Hle Hrun Hk Hn Hf;
    destruct fuel as [|fuel]; cbn [length lookrun] in *; try lia.
  - rewrite (repr_nbuf _ _ _ R), app_nil_r, Z.leb_refl. cbn in Hrun. apply Ok_inj in Hrun. eauto.
  - rewrite (repr_nbuf _ _ _ R), app_nil_r, Z.leb_refl. cbn in Hrun. apply Ok_inj in Hrun. eauto.
  - rewrite (repr_nbuf _ _ _ R), zlen_app, zlen_cons. pose proof (zlen_nonneg suf).
    destruct (Z.leb_spec (zlen pre + (1 + zlen suf)) (zlen pre)); [lia|].
    assert (getmsg b (zlen pre) = Ok m) as ->
      by (apply (getmsg_repr b kvs (pre ++ m :: suf) (length pre) m R Ht); by rewrite list_lookup_middle).
    rewrite bind_ok. apply Forall_cons in Hg as [Hgm Hg], Hle as [Hlm Hle].
    destruct (Z.eqb_spec (keycmp key (mk m)) 0) as [E%keycmp_eq|E]; cbn [negb].
    + subst key. unfold for_key in Hrun. rewrite filter_cons_True in Hrun by done. cbn [mrun] in Hrun.
      apply bind_Ok in Hrun as (c1 & Hm & Hrun).
      destruct (apply_look ok r m c1 n Hm) as (ok1 & r1 & -> & Hc1 & Hk1); [exact (proj1 Hgm)|done|done|].
      rewrite bind_ok. subst c1. apply msgs_sorted_tail in Hs as [Hs _].
      replace (zlen pre + 1) with (zlen (pre ++ [m])) by (rewrite zlen_app; done).
      apply (IH (pre ++ [m])); try done; [by rewrite <- app_assoc|lia].
    + rewrite for_key_later in Hrun; [|done|done|intros <-; apply E, keycmp_refl].
      cbn in Hrun. apply Ok_inj in Hrun. eauto.
Qed.

(** A sorted buffer around the first message not before a key. *)
Lemma buf_split key ms :
  msgs_sorted ms ->
  exists pre suf, ms = pre ++ suf /\ lowerb key (msg_keys ms) = length pre /\
    for_key key pre = [] /\ msgs_sorted suf /\ Forall (fun m => key_le key (mk m)) suf.
Proof.
  intros Hs. pose proof (lowerb_lookup key (msg_keys ms) Hs) as Hl. pose proof (lowerb_le key (msg_keys ms)) as Hle.
  set (n := lowerb key (msg_keys ms)) in *. unfold msg_keys in Hle. rewrite length_fmap in Hle.
  exists (take n ms), (drop n ms). split_and!.
  - by rewrite take_drop.
  - rewrite length_take. lia.
  - apply filter_none, Forall_lookup. intros i m Hi E. apply lookup_take_Some in Hi as [Hi Hin].
    assert (key_lt (mk m) key) as Hlt.
    { apply (Hl i); [|done]. unfold msg_keys. by rewrite list_lookup_fmap, Hi. }
    rewrite E in Hlt. apply key_lt_strict in Hlt. tauto.
  - unfold msgs_sorted, keys_sorted, msg_keys in *. rewrite fmap_drop.
    eapply StronglySorted_app_1_r. by rewrite take_drop.
  - apply Forall_lookup. intros i m Hi. rewrite lookup_drop in Hi.
    destruct (keycmp_cases key (mk m)) as [[_ H]|[[_ H]|[_ H]]]; [by apply key_lt_le|subst; reflexivity|].
    apply (Hl (n + i)%nat (mk m)) in H; [lia|]. unfold msg_keys. by rewrite list_lookup_fmap, Hi.
Qed.

Lemma lookbuf_spec b kvs ms key n ok r c :
  blk_repr b kvs ms -> btyp b = Tpivot -> msgs_sorted ms -> Forall msg_good ms ->
  mrun (cur_of ok r) (for_key key ms) = Ok c -> (ok = true -> k r = key) -> Kvmax <= n ->
  exists ok' r', lookbuf b key n ok r = Ok (ok', r') /\ cur_of ok' r' = c /\ (ok' = true -> k r' = key).
Proof.
  intros R Ht Hs Hg Hrun Hk Hn. pose proof (bufsearch_repr b kvs ms key R Ht Hs) as Hb.
  destruct (buf_split key ms Hs) as (pre & suf & E & Hlow & Hpre & Hss & Hle).
  unfold search_ref in Hb. rewrite Hlow in Hb. unfold lookbuf.
  assert (Hfk : for_key key ms = for_key key suf) by (rewrite E, for_key_app, Hpre; done).
  destruct (decide (msg_keys ms !! length pre = Some key)) as [Hd|Hd].
  - unfold msg_keys in Hd. rewrite list_lookup_fmap, fmap_Some in Hd. destruct Hd as (m & Hm & Hkm).
    destruct suf as [|m' suf]; [rewrite E, app_nil_r, lookup_ge_None_2 in Hm by lia; done|].
    assert (m' = m) as -> by (rewrite E, list_lookup_middle in Hm by done; congruence).
    rewrite Hb, bind_ok. cbv beta iota.
    destruct (Z.ltb_spec (Z.of_nat (length pre)) 0); [lia|]. cbn [orb negb].
    destruct (Z.leb_spec 0 (Z.of_nat (length pre))); [|lia]. rewrite Nat2Z.id, Hm. cbn [of_option]. rewrite bind_ok.
    rewrite Hfk in Hrun. unfold for_key in Hrun. rewrite filter_cons_True in Hrun by done. cbn [mrun] in Hrun.
    apply bind_Ok in Hrun as (c1 & Hst & Hrun). rewrite E in Hg, R. apply Forall_app in Hg as [_ Hg].
    apply Forall_cons in Hg as [Hgm Hg], Hle as [_ Hle]. apply msgs_sorted_tail in Hss as [Hss _].
    assert (exists ok1 r1,
      (if ok || (op m =? Oinsert) then apply r m n
       else if negb (op m =? Oclearb) && negb (op m =? Oclobber) then Fail Abort else Ok (ok, r)) = Ok (ok1, r1) /\
      cur_of ok1 r1 = c1 /\ (ok1 = true -> k r1 = key)) as (ok1 & r1 & -> & <- & Hk1).
    { destruct (ok || (op m =? Oinsert)) eqn:Eo.
      - rewrite Hkm in Hk |- *. by apply (apply_look ok); [|exact (proj1 Hgm)| |].
      - apply orb_false_iff in Eo as [-> Eo]. cbn in Hst. rewrite Eo in Hst.
        destruct ((op m =? Oclearb) || (op m =? Oclobber)) eqn:Ec; [|done]. apply Ok_inj in Hst. subst c1.
        exists false, r. split_and!; [|done|done].
        apply orb_true_iff in Ec as [-> | ->]; [done|]. by rewrite andb_false_r. }
    rewrite bind_ok. change (Z.of_nat (length pre)) with (zlen pre).
    replace (zlen pre + 1) with (zlen (pre ++ [m])) by (rewrite zlen_app; done).
    apply (lookrun_spec b kvs (pre ++ [m]) suf); try done; [by rewrite <- app_assoc|].
    rewrite (repr_nbuf _ _ _ R), zlen_app, zlen_cons. unfold zlen. lia.
  - rewrite Hb, bind_ok. cbv beta iota. rewrite orb_true_r.
    assert (for_key key suf = []) as Hnone.
    { destruct suf as [|m suf]; [done|]. apply for_key_later; [done|by apply Forall_cons in Hle as [? _]|].
      intros Hm. apply Hd. unfold msg_keys. rewrite E, fmap_app, lookup_app_r, length_fmap by (rewrite length_fmap; lia).
      rewrite Nat.sub_diag. cbn. by rewrite Hm. }
    rewrite Hfk, Hnone in Hrun. cbn in Hrun. apply Ok_inj in Hrun. eauto.
Qed.

(** * The way down *)

Lemma route_at {A} key (kids : list (list Z * A)) i s t :
  (forall j s' t', kids !! j = Some (s', t') -> (j <= i)%nat <-> key_le s' key) ->
  kids !! i = Some (s, t) -> route key kids = Some t.
Proof.
  revert i. induction kids as [|[s0 t0] kids IH]; intros i Hle Hi; [done|]. cbn [route].
  rewrite decide_True by (apply (Hle 0%nat s0 t0); [done|lia]). destruct i as [|i].
  - cbn in Hi. simplify_eq. destruct kids as [|[s1 t1] kids]; [done|]. cbn [route].
    rewrite decide_False; [done|]. intros H%(Hle 1%nat s1 t1); [lia|done].
  - rewrite (IH i); [done| |done]. intros j s' t' Hj. rewrite <- (Hle (S j) s' t' Hj). lia.
Qed.

Lemma route_none {A} key (kids : list (list Z * A)) :
  (forall j s t, kids !! j = Some (s, t) -> ~ key_le s key) -> route key kids = None.
Proof.
  destruct kids as [|[s t] kids]; [done|]. intros H. cbn [route]. rewrite decide_False; [done|]. by apply (H 0%nat s t).
Qed.

Lemma findkv_at key kvs i kv :
  kvs_sorted kvs -> kvs !! i = Some kv -> k kv = key -> findkv key kvs = Some kv.
Proof.
  intros Hs Hi <-. unfold findkv. rewrite <- (take_drop_middle kvs i kv Hi) in Hs |- *.
  unfold kvs_sorted, kv_keys in Hs. rewrite fmap_app in Hs. rewrite filter_app, filter_none, filter_cons_True; [done|done|].
  apply Forall_forall. intros x Hx E. apply (irreflexivity key_lt (k kv)). rewrite <- E at 1.
  eapply (StronglySorted_app_1_elem_of _ (k <$> take i kvs) (k <$> kv :: drop (S i) kvs)); [exact Hs| |left].
  apply list_elem_of_fmap. eauto.
Qed.

Lemma findkv_none key kvs : key ∉ kv_keys kvs -> findkv key kvs = None.
Proof.
  intros H. unfold findkv. rewrite filter_none; [done|]. apply Forall_forall. intros x Hx <-. apply H.
  apply list_elem_of_fmap. eauto.
Qed.

Lemma leaf_look b kvs ms key r :
  blk_repr b kvs ms -> kvs_sorted kvs ->
  exists i ov same, blksearch b key = Ok (i, ov, same) /\ cur_of same (default r ov) = findkv key kvs /\
    (same = true -> k (default r ov) = key /\ default r ov ∈ kvs).
Proof.
  intros R Hs. destruct (blksearch_sorted b kvs ms key R Hs) as (i & ov & same & E & Hin & Hle & -> & Hb).
  exists i, (if 0 <=? i then kvs !! Z.to_nat i else None), same. split; [done|]. destruct same.
  - pose proof (proj1 Hin eq_refl) as Hk. apply list_elem_of_fmap in Hk as (kv & -> & Hkv).
    pose proof Hkv as [j Hj]%list_elem_of_lookup.
    assert (Hji : Z.of_nat j <= i) by (apply (Hle j kv Hj); reflexivity).
    destruct (Z.leb_spec 0 i); [|lia]. destruct (lookup_lt_is_Some_2 kvs (Z.to_nat i)) as [kv' Hi]; [unfold zlen in Hb; lia|].
    assert (Hkk : key_le (k kv') (k kv)) by (apply (Hle (Z.to_nat i) kv'); [done|lia]).
    assert (kv' = kv) as ->.
    { destruct (decide (j = Z.to_nat i)) as [->|Hne]; [congruence|]. exfalso.
      apply (irreflexivity key_lt (k kv)). eapply key_lt_le_trans; [|exact Hkk].
      unfold kvs_sorted, kv_keys in Hs. rewrite <- (take_drop_middle kvs (Z.to_nat i) kv' Hi), fmap_app in Hs.
      eapply (StronglySorted_app_1_elem_of _ (k <$> take (Z.to_nat i) kvs)); [exact Hs| |left].
      apply list_elem_of_fmap. exists kv. split; [done|]. apply list_elem_of_lookup. exists j.
      apply lookup_take_Some. split; [done|lia]. }
    rewrite Hi. cbn. split; [|done]. symmetry. by eapply findkv_at.
  - split; [|done]. symmetry. apply findkv_none. intros H. by apply Hin in H.
Qed.

Lemma ascend_app l1 l2 key n ok r :
  ascend (l1 ++ l2) key n ok r = ('(ok, r) ← ascend l1 key n ok r; ascend l2 key n ok r).
Proof.
  revert ok r. induction l1 as [|b l1 IH]; intros ok r; [done|]. cbn.
  destruct (lookbuf b key n ok r) as [[ok1 r1]|]; [|done]. cbn. apply IH.
Qed.

(** btlookup after it has the root. *)
Definition lookfrom (n : nat) (b : Blk) (key : list Z) (r : Kvp) (nbuf : Z) : res (bool * Kvp) :=
  '(p, r) ← descend n b key r;
  '(ok, r) ←
    match p !! n with
    | Some b => '(_, ov, same) ← blksearch b key; Ok (same, default r ov)
    | None => Ok (false, r)
    end;
  r ← (if ok : bool then cpkvp r nbuf else Ok r);
  ascend (reverse (take n p)) key nbuf ok r.

Lemma btlookup_from t key r nbuf b :
  fetch (tbp t) = Ok b -> btlookup t key r nbuf = lookfrom (Z.to_nat (ht t) - 1) b key r nbuf.
Proof. intros E. unfold btlookup, getroot. rewrite E. done. Qed.

(** One step down, and the buffer of the pivot on the way back. *)
Lemma lookfrom_down n b key r nbuf i kv same p b' :
  blksearch b key = Ok (i, Some kv, same) -> i <> -1 -> unpackbp (v kv) = Ok p -> fetch p = Ok b' ->
  lookfrom (S n) b key r nbuf = ('(ok, r) ← lookfrom n b' key kv nbuf; lookbuf b key nbuf ok r).
Proof.
  intros Es Hi Ep Ef. unfold lookfrom. cbn [descend]. rewrite Es, bind_ok. cbv beta iota.
  change (default r (Some kv)) with kv.
  apply Z.eqb_neq in Hi. rewrite Hi, Ep, bind_ok, Ef, bind_ok.
  destruct (descend n b' key kv) as [[l r1]|f]; [|done]. rewrite !bind_ok. cbv beta iota. cbn [lookup list_lookup take].
  change (list_lookup n l) with (l !! n).
  destruct (match l !! n with Some b0 => _ | None => _ end) as [[ok r2]|f]; [|done]. rewrite !bind_ok. cbv beta iota.
  destruct (if ok then cpkvp r2 nbuf else Ok r2) as [r3|f]; [|done]. rewrite !bind_ok.
  rewrite reverse_cons, ascend_app. destruct (ascend _ _ _ _ _) as [[ok4 r4]|f]; [|done]. rewrite !bind_ok. cbv beta iota.
  cbn [ascend]. by destruct (lookbuf b key nbuf ok4 r4) as [[? ?]|].
Qed.

Lemma lookfrom_stop n b key r nbuf ov same :
  blksearch b key = Ok (-1, ov, same) ->
  lookfrom (S n) b key r nbuf = lookbuf b key nbuf false (default r ov).
Proof.
  intros Es. unfold lookfrom. cbn [descend]. rewrite Es, bind_ok. cbv beta iota. rewrite Z.eqb_refl, bind_ok. cbv beta iota.
  change ([b] !! S n) with (@None Blk). cbv beta iota. rewrite !bind_ok. cbv beta iota. cbn [take].
  assert (take n (@nil Blk) = []) as -> by (by destruct n). cbn [reverse ascend rev_append].
  by destruct (lookbuf b key nbuf false (default r ov)) as [[? ?]|].
Qed.

Lemma lookfrom_spec n : forall b t r key c nbuf,
  rep (S n) b t -> sem t key = Ok c -> Kvmax <= nbuf ->
  exists ok r', lookfrom n b key r nbuf = Ok (ok, r') /\ cur_of ok r' = c /\ (ok = true -> k r' = key).
Proof.
  induction n as [|n IH]; intros b t r key c nbuf Hrep Hsem Hn.
  - destruct t as [kvs|kids ms]; [|cbn in Hrep; destruct Hrep as (_ & Hne & _ & _ & kvs & _ & _ & H2)].
    + destruct Hrep as (Ht & R & Hs & Hg). cbn in Hsem. apply Ok_inj in Hsem.
      destruct (leaf_look b kvs [] key r R Hs) as (i & ov & same & E & Hf & Hk).
      unfold lookfrom. cbn [descend]. rewrite bind_ok. cbv beta iota. cbn [lookup list_lookup]. rewrite E, !bind_ok.
      cbv beta iota. exists same, (default r ov). rewrite <- Hsem. split_and!; [|done|by intros H; apply Hk].
      destruct same; [|done]. rewrite cpkvp_fits; [done| |done].
      destruct (Hk eq_refl) as [_ Hin]. rewrite Forall_forall in Hg. by apply Hg.
    + destruct kids as [|kid kids]; [done|]. inversion H2 as [|kv ? kvs' ? (_ & p & b' & _ & _ & []) _].
  - destruct t as [kvs|kids ms]; [done|]. cbn [rep] in Hrep.
    destruct Hrep as (Ht & Hne & Hs & Hg & kvs & R & Hks & H2).
    rewrite sem_pivot in Hsem. apply bind_Ok in Hsem as (c0 & Hc0 & Hrun).
    destruct (blksearch_sorted b kvs ms key R Hks) as (i & ov & same & E & _ & Hle & -> & Hb).
    assert (Hkid : forall j s t, kids !! j = Some (s, t) -> exists kv, kvs !! j = Some kv /\ k kv = s).
    { intros j s t Hj. destruct (Forall2_lookup_r _ _ _ _ _ H2 Hj) as (kv & Hkv & Hk & _). eauto. }
    destruct (decide (i = -1)) as [->|Hi].
    + rewrite route_none in Hc0.
      2: { intros j s t (kv & Hkv & <-)%Hkid Hl. apply (Hle j kv Hkv) in Hl. lia. }
      apply Ok_inj in Hc0 as <-. rewrite (lookfrom_stop n b key r nbuf _ _ E). cbn [Z.leb Z.compare default].
      by apply (lookbuf_spec b kvs ms key nbuf false).
    + destruct (Z.leb_spec 0 i) as [Hi0|]; [|lia].
      destruct (lookup_lt_is_Some_2 kvs (Z.to_nat i)) as [kv Hkv]; [unfold zlen in Hb; lia|]. rewrite Hkv in E.
      destruct (Forall2_lookup_l _ _ _ _ _ H2 Hkv) as ([s t] & Hst & Hk & p & b' & Ep & Ef & Hrep').
      rewrite (route_at key kids (Z.to_nat i) s t) in Hc0; [|
        intros j s' t' (kv' & Hkv' & <-)%Hkid; rewrite <- (Hle j kv' Hkv'); lia|done].
      rewrite (lookfrom_down n b key r nbuf i kv same p b') by done.
      destruct (IH b' t kv key c0 nbuf Hrep' Hc0 Hn) as (ok & r1 & -> & Hcur & Hk1). rewrite bind_ok.
      subst c0. by apply (lookbuf_spec b kvs ms key nbuf ok r1 c).
Qed.
End Tree.

(** * Lookups *)

(** C1: A lookup finds the value the tree means.  Where the blocks from the
    root of [t] hold the abstract tree [bt], and the messages for the key on
    the way are not broken, btlookup ends without stopping the kernel, says
    whether the key has a value, and leaves that value in *r: the value of
    its leaf changed by the buffered messages, lowest pivot first and oldest
    message first. *)
Theorem btlookup_correct fetch t b bt key r n c :
  fetch (tbp t) = Ok b -> 1 <= ht t -> rep fetch (Z.to_nat (ht t)) b bt -> sem bt key = Ok c -> Kvmax <= n ->
  exists ok r', btlookup fetch t key r n = Ok (ok, r') /\ (if ok then Some r' else None) = c /\ (ok = true -> k r' = key).
Proof.
  intros Hf Hh Hrep Hsem Hn. rewrite (btlookup_from fetch t key r n b Hf).
  apply (lookfrom_spec fetch (Z.to_nat (ht t) - 1) b bt); try done.
  by replace (S (Z.to_nat (ht t) - 1)) with (Z.to_nat (ht t)) by lia.
Qed.

(** A leaf, and a pivot above it with two messages for its first key. *)
Definition ex_kv1 : Kvp := mkKvp [Kobj; 1] [10].
Definition ex_leaf : Blk := build Tleaf (mkBptr 16384 0 1) [ex_kv1; mkKvp [Kobj; 2] [20]] [].
Definition ex_msgs : list Msg := [mkMsg Oclobber [Kobj; 1] []; mkMsg Oinsert [Kobj; 1] [11]].
Definition ex_ptr : list Z := pack 8 16384 ++ pack 8 0 ++ pack 8 1 ++ pack 2 0.
Definition ex_root : Blk := build Tpivot (mkBptr 32768 0 1) [mkKvp [Kobj; 1] ex_ptr] ex_msgs.
Definition ex_fetch (p : Bptr) : res Blk :=
  if addr p =? 16384 then Ok ex_leaf else if addr p =? 32768 then Ok ex_root else Fail (Error Eio).
Definition ex_tree : Tree := mkTree 1 1 2 0 1 0 0 0 (mkBptr 32768 0 1).
Definition ex_bt : btree := Pivot [([Kobj; 1], Leaf [ex_kv1; mkKvp [Kobj; 2] [20]])] ex_msgs.

Lemma ex_leaf_rep : rep ex_fetch 1 ex_leaf (Leaf [ex_kv1; mkKvp [Kobj; 2] [20]]).
Proof.
  destruct (build_repr Tleaf (mkBptr 16384 0 1) [ex_kv1; mkKvp [Kobj; 2] [20]] []) as (R & Ht & _);
    [by right|repeat constructor; done|constructor|by vm_compute|by vm_compute|].
  split_and!; [exact Ht|exact R| |].
  - repeat constructor; vm_compute; reflexivity.
  - repeat constructor; vm_compute; done.
Qed.

Lemma ex_root_rep : rep ex_fetch 2 ex_root ex_bt.
Proof.
  destruct (build_repr Tpivot (mkBptr 32768 0 1) [mkKvp [Kobj; 1] ex_ptr] ex_msgs) as (R & Ht & _);
    [by left|repeat constructor; done|repeat constructor; done|by vm_compute|by vm_compute|].
  split_and!; [exact Ht|done| | |].
  - repeat constructor; vm_compute; done.
  - repeat constructor; vm_compute; done.
  - eexists. split; [exact R|]. split; [repeat constructor|].
    constructor; [|constructor]. split; [done|]. exists (mkBptr 16384 0 1), ex_leaf.
    split; [by vm_compute|]. split; [done|]. exact ex_leaf_rep.
Qed.

Lemma btlookup_correct_witness :
  sem ex_bt [Kobj; 1] = Ok (Some (mkKvp [Kobj; 1] [11])) /\
  exists ok r', btlookup ex_fetch ex_tree [Kobj; 1] ex_kv1 Kvmax = Ok (ok, r') /\
    (if ok then Some r' else None) = Some (mkKvp [Kobj; 1] [11]) /\ (ok = true -> k r' = [Kobj; 1]).
Proof.
  split; [vm_compute; reflexivity|].
  apply (btlookup_correct ex_fetch ex_tree ex_root ex_bt);
    [reflexivity|vm_compute; discriminate|exact ex_root_rep|vm_compute; reflexivity|vm_compute; discriminate].
Defined.
