(* ===== verification/Upsert.v ===== *)
(** sys/src/9/gefs/tree.c, fastupsert: a batch of messages that fits is put in
    the buffer of a copy of the root.

    The messages are appended with setmsg, and then the slots of the buffer
    are moved so that each stands after the messages of its key and before
    those of greater keys.  The new block comes from newblk ([r0]); the lock
    of the tree is held around the store of its root, and t->dirty is left
    out. *)

From S2P Require Import Prelude Layout Hash Pack Node Msgs Blk Tree.

(** * The code *)

(** The loop that looks for the place of a key among the messages lo..hi. *)
Fixpoint upsearch (fuel : nat) (r : Blk) (key : list Z) (ri lo hi : Z) : res Z :=
  if hi <? lo then Ok (if ri =? -1 then hi + 1 else ri) else
  match fuel with
  | O => Fail Fuel
  | S fuel =>
      let mid := Z.quot (hi + lo) 2 in
      cmp ← getmsg r mid;
      let c := keycmp key (mk cmp) in
      if c =? -1 then upsearch fuel r key ri lo (mid - 1)
      else if c =? 0 then upsearch fuel r key (mid + 1) (mid + 1) hi
      else upsearch fuel r key ri (mid + 1) hi
  end.

Definition withdata (r : Blk) (d : list Z) : Blk :=
  mkBlk (btyp r) (nval r) (bvalsz r) (nbuf r) (bufsz r) d (bp r).

(** Slot [nb] goes to slot [ri], and those from there on move up by one. *)
Definition slotin (r : Blk) (nb ri : Z) : res Blk :=
  o ← UNPACK 2 (drop (Z.to_nat (Pivspc + 2 * nb)) (data r));
  bs ← READ (Z.to_nat (2 * (nb - ri))) (drop (Z.to_nat (Pivspc + 2 * ri)) (data r));
  let d := patch (data r) (Z.to_nat (Pivspc + 2 * ri + 2)) bs in
  Ok (withdata r (patch d (Z.to_nat (Pivspc + 2 * ri)) (pack 2 o))).

(** The second loop, from the message in slot [nb] on. *)
Fixpoint upslots (r : Blk) (nb : Z) (msg : list Msg) : res Blk :=
  match msg with
  | [] => Ok r
  | m :: msg =>
      ri ← upsearch (Z.to_nat nb) r (mk m) (-1) 0 (nb - 1);
      r ← slotin r nb ri;
      upslots r (nb + 1) msg
  end.

Definition withmb (r : Mblk) (n : Blk) : Mblk := mkMblk n (logsz r) (logh r) (logp r) (hdr r) (bflag r).

Definition setroot (t : Tree) (p : Bptr) (dh : Z) : Tree :=
  mkTree (nref t) (nlbl t) (ht t + dh) (tflag t) (tgen t) (pred t) (succ t) (base t) p.

(** The tree with its new root, the root's block as it is queued, and the
    block that is freed. *)
Definition fastupsert (t : Tree) (r0 b : Mblk) (msg : list Msg) : res (Tree * Mblk * Bptr) :=
  let r := dupblk r0 b in
  let nb := nbuf (mb r) in
  n ← setmsgs (mb r) msg;
  n ← upslots n nb msg;
  r ← finalize (withmb r n);
  Ok (setroot t (bp (mb r)) 0, r, bp (mb b)).

(** * The place of a message *)

(** Where the binary search stands. *)
Record up_inv (ks : list (list Z)) (key : list Z) (ri lo hi : Z) : Prop := {
  up_lo : 0 <= lo;
  up_hi : hi < zlen ks;
  up_le : lo <= hi + 1;
  up_ri : ri = -1 \/ ri = lo /\ forall i x, ks !! i = Some x -> lo <= Z.of_nat i -> key_le key x;
  up_below : forall i x, ks !! i = Some x -> Z.of_nat i < lo -> key_le x key;
  up_above : forall i x, ks !! i = Some x -> hi < Z.of_nat i -> key_lt key x
}.

Lemma upsearch_spec fuel r ks key ri lo hi :
  keys_sorted ks -> (forall i x, ks !! i = Some x -> exists m, getmsg r (Z.of_nat i) = Ok m /\ mk m = x) ->
  up_inv ks key ri lo hi -> hi + 1 - lo <= Z.of_nat fuel ->
  exists n, upsearch fuel r key ri lo hi = Ok (Z.of_nat n) /\ (n <= length ks)%nat /\
    (forall i x, ks !! i = Some x -> (i < n)%nat -> key_le x key) /\
    (forall i x, ks !! i = Some x -> (n <= i)%nat -> key_lt key x).
Proof.
  intros Hs Hget. revert ri lo hi. induction fuel as [|fuel IH]; intros ri lo hi I Hf; cbn [upsearch];
    (destruct (Z.ltb_spec hi lo) as [Hd|Hd]; [|try lia]).
  1, 2: destruct I as [I1 I2 I3 I4 I5 I6]; exists (Z.to_nat lo); split_and!;
    [f_equal; destruct (Z.eqb_spec ri (-1)); [lia|destruct I4 as [?|[? _]]; lia]
    |unfold zlen in *; lia|intros i x Hx Hi; apply (I5 i x Hx); lia|intros i x Hx Hi; apply (I6 i x Hx); lia].
  destruct I as [I1 I2 I3 I4 I5 I6]. rewrite Z.quot_div_nonneg by lia. set (mid := (hi + lo) / 2).
  assert (Hmid : lo <= mid <= hi) by (unfold mid; Z.div_mod_to_equations; lia).
  destruct (lookup_lt_is_Some_2 ks (Z.to_nat mid)) as [x Hx]; [unfold zlen in *; lia|].
  destruct (Hget _ _ Hx) as (m & Hm & Hmx). rewrite Z2Nat.id in Hm by lia. rewrite Hm, bind_ok, Hmx.
  assert (Hbefore : forall i y, ks !! i = Some y -> Z.of_nat i <= mid -> key_le y x)
    by (intros i y Hy Hi; eapply sorted_le_lookup; [exact Hs|exact Hy|exact Hx|lia]).
  assert (Hafter : forall i y, ks !! i = Some y -> mid <= Z.of_nat i -> key_le x y)
    by (intros i y Hy Hi; eapply sorted_le_lookup; [exact Hs|exact Hx|exact Hy|lia]).
  destruct (keycmp_cases key x) as [[-> Hlt]|[[-> ->]|[-> Hgt]]]; cbn [Z.eqb Pos.eqb]; apply IH; try lia; split; try lia; auto.
  - intros i y Hy Hi. destruct (decide (hi < Z.of_nat i)); [eauto|].
    eapply key_lt_le_trans; [exact Hlt|]. apply (Hafter i y); [done|lia].
  - right. split; [done|]. intros i y Hy Hi. apply (Hafter i y); [done|lia].
  - intros i y Hy Hi. apply (Hbefore i y); [done|lia].
  - destruct I4 as [I4|[I4 I7]]; [by left|]. exfalso.
    assert (key_le key x) as H by (apply (I7 (Z.to_nat mid)); [done|lia]).
    apply (irreflexivity key_lt key). by eapply key_le_lt_trans.
  - intros i y Hy Hi. etrans; [apply (Hbefore i y); [done|lia]|]. by apply key_lt_le.
Qed.

(** * Moving a slot *)

(** A slot of the area that was moved as a whole. *)
Lemma slot_at_moved d d' base spc used i j e :
  slot_at d base spc used i e ->
  slice d' (Z.to_nat (base + 2 * Z.of_nat j)) 2 = slice d (Z.to_nat (base + 2 * Z.of_nat i)) 2 ->
  (forall o n, base + spc - used <= Z.of_nat o -> slice d' o n = slice d o n) ->
  0 <= base -> 0 <= spc - used -> slot_at d' base spc used j e.
Proof.
  intros (o & Ho1 & Ho2 & Hs & He) Hm Hrest Hb Hu. exists o. split_and!; [done|done|congruence|].
  rewrite Hrest; [done|]. lia.
Qed.

Lemma slice_slice d a n b m : (b + m <= n)%nat -> slice (slice d a n) b m = slice d (a + b) m.
Proof.
  intros H. unfold slice. replace n with (b + (n - b))%nat by lia.
  rewrite <- take_drop_commute, take_take, drop_drop. f_equal. lia.
Qed.

(** The bytes of the area after slot [nb] has gone to slot [ri]. *)
Definition rotated (d : list Z) (base nb ri : Z) : list Z :=
  patch (patch d (Z.to_nat (base + 2 * ri + 2)) (slice d (Z.to_nat (base + 2 * ri)) (Z.to_nat (2 * (nb - ri)))))
        (Z.to_nat (base + 2 * ri)) (slice d (Z.to_nat (base + 2 * nb)) 2).

Lemma slice_patch_in d off bs o n :
  (off + length bs <= length d)%nat -> (off <= o)%nat -> (o + n <= off + length bs)%nat ->
  slice (patch d off bs) o n = slice bs (o - off) n.
Proof.
  intros H1 H2 H3. replace o with (off + (o - off))%nat at 1 by lia.
  rewrite <- (slice_slice (patch d off bs) off (length bs) (o - off) n) by lia.
  by rewrite slice_patch_same.
Qed.

Lemma rotated_slots d base nb ri :
  0 <= base -> 0 <= ri <= nb -> base + 2 * nb + 2 <= zlen d ->
  let d' := rotated d base nb ri in
  zlen d' = zlen d /\
  (forall o n, (Z.of_nat (o + n) <= base + 2 * ri \/ base + 2 * nb + 2 <= Z.of_nat o) -> slice d' o n = slice d o n) /\
  slice d' (Z.to_nat (base + 2 * ri)) 2 = slice d (Z.to_nat (base + 2 * nb)) 2 /\
  (forall i, ri <= i < nb -> slice d' (Z.to_nat (base + 2 * (i + 1))) 2 = slice d (Z.to_nat (base + 2 * i)) 2).
Proof.
  intros Hb Hri Hd. cbv zeta. unfold rotated, zlen in *.
  set (n := Z.to_nat (2 * (nb - ri))). set (o1 := Z.to_nat (base + 2 * ri)).
  replace (Z.to_nat (base + 2 * ri + 2)) with (o1 + 2)%nat by lia.
  assert (Hl : length (slice d o1 n) = n) by (apply length_slice; lia).
  assert (Hl2 : length (slice d (Z.to_nat (base + 2 * nb)) 2) = 2%nat) by (apply length_slice; lia).
  assert (Hp : length (patch d (o1 + 2) (slice d o1 n)) = length d) by (apply length_patch; lia).
  split_and!.
  - rewrite length_patch; lia.
  - intros o k [Ho|Ho].
    + rewrite !slice_patch_before by lia. done.
    + rewrite !slice_patch_after by lia. done.
  - rewrite slice_patch_in by lia. rewrite Nat.sub_diag, slice_slice by lia. f_equal. lia.
  - intros i Hi. rewrite slice_patch_after by lia. rewrite slice_patch_in by lia.
    rewrite slice_slice by lia. f_equal. lia.
Qed.

Lemma area_rotated d base spc used A B e C :
  area d base spc used (A ++ B ++ e :: C) -> 0 <= base -> base + spc <= zlen d ->
  area (rotated d base (zlen (A ++ B)) (zlen A)) base spc used (A ++ e :: B ++ C).
Proof.
  intros (Hu & Hfit & Hslots) Hb Hd. rewrite !zlen_app, zlen_cons in *.
  pose proof (zlen_nonneg A). pose proof (zlen_nonneg B). pose proof (zlen_nonneg C).
  destruct (rotated_slots d base (zlen A + zlen B) (zlen A)) as (_ & Hout & Hnew & Hmv); [done|lia|lia|].
  set (d' := rotated d base (zlen A + zlen B) (zlen A)) in *.
  assert (Hent : forall o n, base + spc - used <= Z.of_nat o -> slice d' o n = slice d o n)
    by (intros o n Ho; apply Hout; lia).
  split_and!; [done|rewrite zlen_app, zlen_cons, zlen_app; lia|].
  intros i x Hx. destruct (decide (i < length A)%nat) as [Hi|Hi].
  - rewrite lookup_app_l in Hx by done.
    apply (slot_at_moved d d' base spc used i i x); try done; [|apply Hout; unfold zlen in *; lia|lia].
    apply Hslots. by rewrite lookup_app_l.
  - rewrite lookup_app_r in Hx by lia. destruct (i - length A)%nat as [|j] eqn:Ei.
    + cbn in Hx. simplify_eq. replace i with (length A) by lia.
      apply (slot_at_moved d d' base spc used (length (A ++ B)) (length A) x); try done; [| |lia].
      * apply Hslots. rewrite app_assoc. by rewrite list_lookup_middle.
      * unfold zlen in Hnew. rewrite length_app, Nat2Z.inj_add. exact Hnew.
    + change ((B ++ C) !! j = Some x) in Hx. destruct (decide (j < length B)%nat) as [Hj|Hj].
      * rewrite lookup_app_l in Hx by done. replace i with (length A + j + 1)%nat by lia.
        apply (slot_at_moved d d' base spc used (length A + j) (length A + j + 1) x); try done; [| |lia].
        -- apply Hslots. rewrite lookup_app_r by lia. replace (length A + j - length A)%nat with j by lia.
           by rewrite lookup_app_l.
        -- specialize (Hmv (Z.of_nat (length A + j)) ltac:(unfold zlen; lia)).
           replace (Z.of_nat (length A + j + 1)) with (Z.of_nat (length A + j) + 1) by lia. exact Hmv.
      * rewrite lookup_app_r in Hx by lia.
        apply (slot_at_moved d d' base spc used i i x); try done; [|apply Hout; unfold zlen in *; lia|lia].
        apply Hslots. rewrite lookup_app_r by lia. rewrite lookup_app_r by lia.
        rewrite Ei. replace (S j - length B)%nat with (S (j - length B)) by lia. done.
Qed.

Lemma area_same d d' base spc used es :
  area d base spc used es -> 0 <= base ->
  (forall o n, base <= Z.of_nat o -> Z.of_nat (o + n) <= base + spc -> slice d' o n = slice d o n) ->
  area d' base spc used es.
Proof.
  intros (Hu & Hfit & Hslots) Hb Hsame. split_and!; [done|done|]. intros i e Hi.
  destruct (Hslots i e Hi) as (o & Ho1 & Ho2 & Hs & He). apply lookup_lt_Some in Hi. unfold zlen in *.
  exists o. unfold zlen. split_and!; [done|done| |]; rewrite Hsame; try done; lia.
Qed.

Lemma slotin_repr r kvs A B m C :
  blk_repr r kvs (A ++ B ++ m :: C) -> btyp r = Tpivot ->
  exists r', slotin r (zlen (A ++ B)) (zlen A) = Ok r' /\ blk_repr r' kvs (A ++ m :: B ++ C) /\
    btyp r' = Tpivot /\ bp r' = bp r.
Proof.
  intros R Ht. pose proof (repr_bufs _ _ _ R Ht) as Ha. destruct (data_room _ _ _ R) as [_ Hroom].
  destruct (Hroom Ht) as [Hsp Hd]. destruct layout_sizes as (_ & HP & HB & _).
  rewrite !fmap_app, fmap_cons in Ha. pose proof Ha as (Hu & Hfit & Hslots).
  rewrite !zlen_app, zlen_cons in Hfit. unfold zlen in Hfit. rewrite !length_fmap in Hfit.
  destruct (Hslots (length (A ++ B)) (enc_msg m)) as (o & Ho1 & Ho2 & Hso & _).
  { rewrite app_assoc, <- fmap_app, list_lookup_middle by (by rewrite length_fmap). done. }
  destruct (drop_slice _ _ _ _ Hso) as [rest Hrest]; [by rewrite length_pack|].
  pose proof (zlen_enc_msg m). pose proof (emsz_pos m).
  assert (Ho : u16 o = o) by (apply pack16_u16; unfold is_u16; lia).
  assert (HlAB : Z.of_nat (length (A ++ B)) = zlen A + zlen B) by (rewrite length_app; unfold zlen; lia).
  rewrite HlAB in Hso, Hrest. rewrite zlen_app. set (d' := rotated (data r) Pivspc (zlen A + zlen B) (zlen A)).
  assert (Hbound : zlen A + zlen B + 1 <= zlen (A ++ B ++ m :: C)).
  { rewrite !zlen_app, zlen_cons. pose proof (zlen_nonneg C). lia. }
  pose proof (repr_buffill _ _ _ R Ht). pose proof (msgs_size_nonneg (A ++ B ++ m :: C)).
  pose proof (zlen_nonneg A). pose proof (zlen_nonneg B).
  exists (withdata r d'). unfold slotin. split_and!; [| |done|done].
  - rewrite Hrest, UNPACK_pack, bind_ok. unfold READ.
    rewrite decide_True by (rewrite length_drop; unfold zlen in *; lia). rewrite bind_ok. do 2 f_equal. unfold d', rotated.
    f_equal. rewrite Hso. f_equal. exact Ho.
  - destruct (rotated_slots (data r) Pivspc (zlen A + zlen B) (zlen A)) as (Hlen & Hout & _ & _); [lia|lia|lia|].
    fold d' in Hlen, Hout.
    assert (Hperm : A ++ m :: B ++ C ≡ₚ A ++ B ++ m :: C) by (apply Permutation_app_head, Permutation_middle).
    pose proof R as [R1 R2 R3 R4 R5 R6 R7 R8 R9 R10]. split; cbn [withdata btyp data nval bvalsz nbuf bufsz]; try done.
    + congruence.
    + rewrite R5. unfold zlen. by rewrite Hperm.
    + by rewrite R6, Hperm.
    + intros Hl. rewrite Ht in Hl. done.
    + by rewrite Hperm.
    + apply (area_same (data r)); [exact R9|lia|]. intros p n _ Hp. apply Hout. unfold bspc in *. cbn in Hp. lia.
    + intros _. rewrite fmap_app, fmap_cons, fmap_app. pose proof (area_rotated _ _ _ _ _ _ _ _ Ha ltac:(lia) Hd) as Hr.
      rewrite zlen_app in Hr. unfold zlen in Hr. rewrite !length_fmap in Hr. exact Hr.
Qed.

(** * The buffer of the new root *)

Lemma for_key_insert key A m B :
  Forall (fun x => key_lt (mk m) (mk x)) B ->
  for_key key (A ++ m :: B) = for_key key (A ++ B) ++ for_key key [m].
Proof.
  intros HB. rewrite !for_key_app. change (m :: B) with ([m] ++ B). rewrite for_key_app, <- app_assoc. f_equal.
  destruct (decide (mk m = key)) as [E|E].
  - assert (for_key key B = []) as ->; [|by rewrite app_nil_r].
    apply filter_none. eapply Forall_impl; [exact HB|]. cbn. intros x Hx Ex. rewrite E, Ex in Hx.
    by apply (irreflexivity key_lt key).
  - assert (for_key key [m] = []) as -> by (apply filter_none; by repeat constructor). by rewrite app_nil_r.
Qed.

Lemma msgs_sorted_insert A m B :
  msgs_sorted (A ++ B) -> Forall (fun x => key_le (mk x) (mk m)) A -> Forall (fun x => key_lt (mk m) (mk x)) B ->
  msgs_sorted (A ++ m :: B).
Proof.
  unfold msgs_sorted, keys_sorted, msg_keys. rewrite !fmap_app, fmap_cons. intros Hs HA HB.
  assert (HB' : Forall (key_le (mk m)) (mk <$> B)).
  { rewrite Forall_fmap. eapply Forall_impl; [exact HB|]. intros x. apply key_lt_le. }
  apply StronglySorted_app_2.
  - intros x y Hx Hy. apply elem_of_cons in Hy as [->|Hy].
    + apply list_elem_of_fmap in Hx as (z & -> & Hz). rewrite Forall_forall in HA. by apply HA.
    + by eapply StronglySorted_app_1_elem_of.
  - by eapply StronglySorted_app_1_l.
  - constructor; [by eapply StronglySorted_app_1_r|done].
Qed.

Lemma upslots_spec msg : forall r kvs S0,
  blk_repr r kvs (S0 ++ msg) -> btyp r = Tpivot -> msgs_sorted S0 ->
  exists r' S', upslots r (zlen S0) msg = Ok r' /\ blk_repr r' kvs S' /\ btyp r' = Tpivot /\ bp r' = bp r /\
    msgs_sorted S' /\ S' ≡ₚ S0 ++ msg /\ forall key, for_key key S' = for_key key S0 ++ for_key key msg.
Proof.
  induction msg as [|m msg IH]; intros r kvs S0 R Ht Hs.
  - exists r, S0. rewrite app_nil_r in *. split_and!; try done. intros key. by rewrite app_nil_r.
  - cbn [upslots].
    destruct (upsearch_spec (Z.to_nat (zlen S0)) r (msg_keys S0) (mk m) (-1) 0 (zlen S0 - 1)) as (n & E & Hn & Hlo & Hhi).
    + done.
    + intros i x Hx. unfold msg_keys in Hx. rewrite list_lookup_fmap, fmap_Some in Hx. destruct Hx as (y & Hy & ->).
      exists y. split; [|done]. apply (getmsg_repr r kvs (S0 ++ m :: msg)); try done. by apply lookup_app_l_Some.
    + unfold zlen, msg_keys. split; unfold zlen; rewrite ?length_fmap; try lia; try (by left); try solve [intros; lia];
        intros i x Hx; apply lookup_lt_Some in Hx; rewrite length_fmap in Hx; lia.
    + unfold zlen. lia.
    + unfold msg_keys in Hn. rewrite length_fmap in Hn.
      set (A := take n S0). set (B := drop n S0).
      assert (HS0 : S0 = A ++ B) by (symmetry; apply take_drop).
      assert (HlA : zlen A = Z.of_nat n) by (unfold zlen, A; rewrite length_take; lia).
      assert (HA : Forall (fun x => key_le (mk x) (mk m)) A).
      { apply Forall_lookup. intros i x Hx. apply lookup_take_Some in Hx as [Hx Hi].
        apply (Hlo i); [|done]. unfold msg_keys. by rewrite list_lookup_fmap, Hx. }
      assert (HB : Forall (fun x => key_lt (mk m) (mk x)) B).
      { apply Forall_lookup. intros i x Hx. unfold B in Hx. rewrite lookup_drop in Hx.
        apply (Hhi (n + i)%nat); [|lia]. unfold msg_keys. by rewrite list_lookup_fmap, Hx. }
      clearbody A B. subst S0. rewrite E, bind_ok, <- HlA. rewrite <- app_assoc in R.
      destruct (slotin_repr r kvs A B m msg R Ht) as (r1 & -> & R1 & Ht1 & Hbp1). rewrite bind_ok.
      assert (HA1 : A ++ m :: B ++ msg = (A ++ m :: B) ++ msg) by (by rewrite <- app_assoc).
      rewrite HA1 in R1.
      destruct (IH r1 kvs (A ++ m :: B) R1 Ht1) as (r' & S' & E' & R' & Ht' & Hbp' & Hs' & Hp' & Hk').
      { by apply msgs_sorted_insert. }
      exists r', S'. split_and!; try done; [|congruence| |].
      * rewrite <- E'. f_equal. rewrite !zlen_app, zlen_cons. lia.
      * rewrite Hp', <- !app_assoc. apply Permutation_app_head. cbn [app]. apply Permutation_middle.
      * intros key. rewrite Hk', for_key_insert, <- app_assoc by done. f_equal.
        by rewrite <- for_key_app.
Qed.

(** * The new root *)

Lemma dup_repr r0 b kvs ms :
  length (hdr r0) = length (hdr b) -> btyp (mb r0) = btyp (mb b) -> blk_repr (mb b) kvs ms ->
  blk_repr (mb (dupblk r0 b)) kvs ms.
Proof.
  intros Hl Ht R. apply (repr_ext (mb b)); cbn; try done. rewrite Hl. unfold buf. by apply drop_app_length'.
Qed.

Lemma total_msgsz_slots ms : total_msgsz ms = 2 * zlen ms + msgs_size ms.
Proof.
  induction ms as [|m ms IH]; [done|]. rewrite total_msgsz_cons, IH, msgs_size_cons, zlen_cons. unfold emsz. lia.
Qed.

Lemma fastupsert_repr t r0 b kvs ms msg :
  blk_repr (mb b) kvs ms -> btyp (mb b) = Tpivot -> msgs_sorted ms ->
  length (hdr r0) = length (hdr b) -> btyp (mb r0) = Tpivot ->
  filledbuf (mb b) (zlen msg) (total_msgsz msg) = Ok false -> Forall (fun m => 0 <= op m < 128) msg ->
  exists r ms', fastupsert t r0 b msg = Ok (setroot t (bp (mb r)) 0, r, bp (mb b)) /\
    blk_repr (mb r) kvs ms' /\ btyp (mb r) = Tpivot /\ addr (bp (mb r)) = addr (bp (mb r0)) /\
    gen (bp (mb r)) = gen (bp (mb r0)) /\
    msgs_sorted ms' /\ ms' ≡ₚ ms ++ msg /\ forall key, for_key key ms' = for_key key ms ++ for_key key msg.
Proof.
  intros R Ht Hs Hh Ht0 Hf Ho. pose proof (dup_repr r0 b kvs ms Hh (eq_trans Ht0 (eq_sym Ht)) R) as R0.
  unfold filledbuf in Hf. rewrite bool_decide_true in Hf by done. cbn [check] in Hf. rewrite bind_ok in Hf.
  apply Ok_inj, Z.ltb_ge in Hf. rewrite (repr_nbuf _ _ _ R), (repr_bufsz _ _ _ R), total_msgsz_slots in Hf.
  pose proof (zlen_nonneg msg).
  destruct (setmsgs_repr msg (mb (dupblk r0 b)) kvs ms R0) as (n1 & E1 & R1 & Ht1 & Hb1).
  { exact Ht0. } { exact Ho. } { rewrite zlen_app, msgs_size_app. lia. }
  cbn [dupblk mb btyp] in Ht1. rewrite Ht0 in Ht1.
  destruct (upslots_spec msg n1 kvs ms R1 Ht1 Hs) as (n2 & ms' & E2 & R2 & Ht2 & Hb2 & Hs2 & Hp2 & Hk2).
  unfold fastupsert. cbv zeta. assert (nbuf (mb (dupblk r0 b)) = zlen ms) as -> by apply (repr_nbuf _ _ _ R).
  rewrite E1, bind_ok, E2, bind_ok. unfold finalize. cbn [withmb mb]. rewrite Ht2, bind_ok.
  eexists _, ms'. split; [done|]. split_and!; try done.
  - apply (repr_ext n2); done.
  - cbn. rewrite Hb2, Hb1. done.
  - cbn. rewrite Hb2, Hb1. done.
Qed.

(** [fetch'] still has what [fetch] has. *)
Definition extends (fetch fetch' : Bptr -> res Blk) : Prop := forall p b, fetch p = Ok b -> fetch' p = Ok b.

Lemma rep_mono fetch fetch' : extends fetch fetch' -> forall h b t, rep fetch h b t -> rep fetch' h b t.
Proof.
  intros He. induction h as [|h IH]; intros b t; [by destruct t|].
  destruct t as [kvs|kids ms]; [by destruct h|]. cbn [rep].
  destruct h as [|h]; intros (Ht & Hne & Hs & Hg & kvs & R & Hks & H2);
    (split_and!; [done..|]); exists kvs; (split_and!; [done..|]);
    (eapply Forall2_impl; [exact H2|]); intros kv kid (Hk & p & b' & Ep & Ef & Hr); split; try done;
    exists p, b'; split_and!; auto.
Qed.

Lemma rep_pivot fetch h b kids ms ms' b' :
  rep fetch h b (Pivot kids ms) -> btyp b' = Tpivot -> (forall kvs, blk_repr b kvs ms -> blk_repr b' kvs ms') ->
  msgs_sorted ms' -> Forall msg_good ms' -> rep fetch h b' (Pivot kids ms').
Proof.
  intros Hr Ht Hb Hs Hg. destruct h as [|h]; [done|]. cbn [rep] in *.
  destruct h as [|h]; destruct Hr as (_ & Hne & _ & _ & kvs & R & Hks & H2); (split_and!; [done..|]);
    exists kvs; split_and!; auto.
Qed.

Lemma kvs_unique b kvs kvs' ms ms' : blk_repr b kvs ms -> blk_repr b kvs' ms' -> kvs = kvs'.
Proof.
  intros R R'. assert (Hl : length kvs = length kvs').
  { pose proof (repr_nval _ _ _ R). pose proof (repr_nval _ _ _ R'). unfold zlen in *. lia. }
  apply list_eq. intros i. destruct (kvs !! i) as [kv|] eqn:E.
  - destruct (lookup_lt_is_Some_2 kvs' i) as [kv' E']; [apply lookup_lt_Some in E; lia|].
    pose proof (getval_repr b kvs ms i kv R E). pose proof (getval_repr b kvs' ms' i kv' R' E'). congruence.
  - apply lookup_ge_None in E. symmetry. apply lookup_ge_None. lia.
Qed.

(** C3: An update is seen by the lookups after it.  fastupsert, called as
    btupsert1 does with a batch that fits the root's buffer, ends without
    stopping the kernel; the new root takes the address newblk gave, the old
    one is freed, and every key means what it meant before changed by the
    batch's messages for it, in their order.  So with the new root's block in
    place, btlookup of any key gives its old value with those messages
    applied, and the buffer is sorted and holds nothing else. *)
Theorem fastupsert_lookup fetch t r0 b kids ms msg :
  let bt := Pivot kids ms in
  1 <= ht t -> rep fetch (Z.to_nat (ht t)) (mb b) bt ->
  length (hdr r0) = length (hdr b) -> btyp (mb r0) = Tpivot ->
  filledbuf (mb b) (zlen msg) (total_msgsz msg) = Ok false -> Forall msg_good msg ->
  exists r ms', fastupsert t r0 b msg = Ok (setroot t (bp (mb r)) 0, r, bp (mb b)) /\
    addr (bp (mb r)) = addr (bp (mb r0)) /\ gen (bp (mb r)) = gen (bp (mb r0)) /\
    rep fetch (Z.to_nat (ht t)) (mb r) (Pivot kids ms') /\ ms' ≡ₚ ms ++ msg /\
    forall fetch' key c c' kv n,
      extends fetch fetch' -> fetch' (bp (mb r)) = Ok (mb r) ->
      sem bt key = Ok c -> mrun c (for_key key msg) = Ok c' -> Kvmax <= n ->
      exists ok kv', btlookup fetch' (setroot t (bp (mb r)) 0) key kv n = Ok (ok, kv') /\
        (if ok then Some kv' else None) = c'.
Proof.
  intros bt Hh Hrep Hl Ht0 Hf Hg.
  assert (exists kvs, blk_repr (mb b) kvs ms /\ btyp (mb b) = Tpivot /\ msgs_sorted ms /\ Forall msg_good ms) as (kvs & R & Ht & Hs & Hgm).
  { destruct (Z.to_nat (ht t)) as [|h]; [done|]. cbn [rep] in Hrep. destruct h as [|h];
      destruct Hrep as (? & ? & ? & ? & kvs & ? & ?); by exists kvs. }
  destruct (fastupsert_repr t r0 b kvs ms msg R Ht Hs Hl Ht0 Hf) as (r & ms' & E & R' & Ht' & Ha & Hgen & Hs' & Hp & Hk).
  { eapply Forall_impl; [exact Hg|]. by intros m (_ & ? & _). }
  assert (Hgood : Forall msg_good ms') by (rewrite Hp; by apply Forall_app).
  assert (Hrep' : rep fetch (Z.to_nat (ht t)) (mb r) (Pivot kids ms')).
  { apply (rep_pivot fetch _ (mb b) kids ms); try done. intros kvs2 R2. by rewrite (kvs_unique _ _ _ _ _ R2 R). }
  exists r, ms'. split_and!; try done. intros fetch' key c c' kv n He Hr Hsem Hrun Hn.
  assert (Hsem' : sem (Pivot kids ms') key = Ok c').
  { unfold bt in Hsem. rewrite sem_pivot in *. apply bind_Ok in Hsem as (c0 & -> & Hsem).
    rewrite bind_ok, Hk, mrun_app, Hsem. done. }
  rewrite (btlookup_from fetch' _ key kv n (mb r)) by done. cbn [setroot ht].
  destruct (lookfrom_spec fetch' (Z.to_nat (ht t + 0) - 1) (mb r) (Pivot kids ms') kv key c' n) as (ok & kv' & -> & Hc & _);
    [|done|done|by exists ok, kv'].
  replace (S (Z.to_nat (ht t + 0) - 1)) with (Z.to_nat (ht t)) by lia. by eapply rep_mono.
Qed.

Definition ex_rootblk : Mblk := mkMblk ex_root 0 0 Zb (replicate 10 0) 0.
Definition ex_newblk : Mblk :=
  mkMblk (blank Tpivot (replicate (Z.to_nat Pivsz) 0) (mkBptr 49152 0 2)) 0 0 Zb (replicate 10 0) 0.
Definition ex_batch : list Msg := [mkMsg Oinsert [Kobj; 2] [21]; mkMsg Oclobber [Kobj; 1] []].

Lemma fastupsert_lookup_witness :
  sem ex_bt [Kobj; 1] = Ok (Some (mkKvp [Kobj; 1] [11])) /\
  exists r, fastupsert ex_tree ex_newblk ex_rootblk ex_batch = Ok (setroot ex_tree (bp (mb r)) 0, r, mkBptr 32768 0 1) /\
    addr (bp (mb r)) = 49152.
Proof.
  split; [vm_compute; reflexivity|].
  destruct (fastupsert_lookup ex_fetch ex_tree ex_newblk ex_rootblk [([Kobj; 1], Leaf [ex_kv1; mkKvp [Kobj; 2] [20]])]
              ex_msgs ex_batch) as (r & ms' & E & Ha & _).
  - vm_compute. discriminate.
  - exact ex_root_rep.
  - reflexivity.
  - reflexivity.
  - vm_compute. reflexivity.
  - repeat constructor; vm_compute; done.
  - exists r. split; [exact E|exact Ha].
Defined.
