(* ===== verification/Scan.v ===== *)
(** sys/src/9/gefs/tree.c, scans: btnewscan, btenter, btnext and btexit.

    A scan walks the entries of a tree that start with a prefix, by key.  It
    keeps a cursor in every block of a path: the next value and the next
    message of the buffer.  btnext takes the least key any cursor of the path
    is at, collects what the leaf and the buffers hold for it, the lowest
    first, and passes over keys whose messages end in a removal.  A scan can
    be left and entered again, and goes on after the last entry it gave.

    As in Tree.v, [fetch] is getblk and the memory of the path is always
    there; the references the path holds on its blocks are those of
    Handles.v and are left out.  Every caller passes the scan's own kv to
    btnext, so the result is kept there.  The offset, overflow and present
    fields of a Scan belong to the callers. *)

From S2P Require Import Prelude Layout Hash Pack Node Msgs Blk Tree.

(** * The code *)

Record Scanp := mkScanp { pbi : Z; pvi : Z; pblk : option Blk }.

Record Scan := mkScan {
  sfirst : bool; sdone : bool; sht : Z; skv : Kvp; spfx : list Z; spath : option (list Scanp)
}.

Definition btnewscan (pfx : list Z) : res Scan :=
  if zlen pfx <=? Keymax then
    key ← cpkey pfx Kvmax;
    Ok (mkScan true false 0 (mkKvp key []) pfx None)
  else Fail Undef.

Section Scan.
  Context (fetch : Bptr -> res Blk).

(** ** Entering *)

(** Past the messages for the key of [m]. *)
Fixpoint skiprun (fuel : nat) (b : Blk) (m : Msg) (i : Z) : res Z :=
  if nbuf b <=? i then Ok i else
  match fuel with
  | O => Fail Fuel
  | S fuel =>
      c ← getmsg b i;
      if negb (keycmp (mk m) (mk c) =? 0) then Ok i else skiprun fuel b m (i + 1)
  end.

(** Where the buffer's cursor starts. *)
Definition enterbuf (b : Blk) (key : list Z) (first : bool) : res Z :=
  '(i, om, same) ← bufsearch b key;
  if i =? -1 then Ok (i + 1)
  else if negb same || negb first then
    m ← of_option om Undef;
    skiprun (Z.to_nat (nbuf b)) b m i
  else Ok i.

(** The levels from [i] down, [n] of them: [b] is the block searched and [ob]
    what p[i].b is. *)
Fixpoint enter (n : nat) (key : list Z) (first : bool) (b : Blk) (ob : option Blk) : res (list Scanp) :=
  match n with
  | O => Ok []
  | S n =>
      '(vi, ov, same) ← blksearch b key;
      if decide (btyp b = Tpivot) then
        '(vi, v0) ← (if vi =? -1 then v0 ← getval b (vi + 1); Ok (vi + 1, v0) else v0 ← of_option ov Undef; Ok (vi, v0));
        bi ← enterbuf b key first;
        p ← unpackbp (v v0);
        b' ← fetch p;
        if decide (n = 0%nat) then Fail Undef else
        l ← enter n key first b' (Some b');
        Ok (mkScanp bi vi ob :: l)
      else
        l ← enter n key first b None;
        Ok (mkScanp 0 (if (vi =? -1) || negb same || negb first then vi + 1 else vi) ob :: l)
  end.

Definition btenter (t : Tree) (s : Scan) : res Scan :=
  if sdone s then Ok s else
  '(b, h) ← getroot fetch t;
  p ← enter (Z.to_nat h) (k (skv s)) (sfirst s) b (Some b);
  Ok (mkScan false (sdone s) h (skv s) (spfx s) (Some p)).

Definition btexit (s : Scan) : Scan :=
  mkScan (sfirst s) (sdone s) 0 (skv s) (spfx s) None.

(** ** The next entry *)

Definition pmore (p : Scanp) : bool :=
  match pblk p with Some b => (pvi p <? nval b) || (pbi p <? nbuf b) | None => false end.

(** Leave the blocks that have nothing more, from the leaf up.  The number is
    [start]: the levels that are left, 0 when the root has nothing more. *)
Fixpoint loadup (top : bool) (l : list Scanp) : list Scanp * nat :=
  match l with
  | [] => ([], 0%nat)
  | p :: l =>
      let '(l', start) := loadup false l in
      if decide (start = 0%nat) then
        let p := match l with [] => p | _ => mkScanp (pbi p) (pvi p + 1) (pblk p) end in
        if pmore p then (p :: l', 1%nat)
        else ((if top then p else mkScanp 0 0 None) :: l', 0%nat)
      else (p :: l', S start)
  end.

(** The blocks below [p], each the child its parent's cursor is at. *)
Fixpoint loadkids (p : Scanp) (l : list Scanp) : res (list Scanp) :=
  match l with
  | [] => Ok []
  | q :: l =>
      b ← of_option (pblk p) Undef;
      kv ← getval b (pvi p);
      bp ← unpackbp (v kv);
      b' ← fetch bp;
      let q := mkScanp (pbi q) (pvi q) (Some b') in
      l ← loadkids q l;
      Ok (q :: l)
  end.

(** What a key starts as that has no value: it must be inserted or removed. *)
Definition first_ok (m : Msg) : res bool :=
  if op m =? Oinsert then Ok true
  else if (op m =? Oclobber) || (op m =? Oclearb) then Ok false
  else Fail (Broke Efs).

(** The lowest entry: a value of the leaf, or a message of the last level. *)
Definition lowest (p : list Scanp) (start : nat) : res (list Scanp * Msg * bool * Z) :=
  q ← of_option (p !! (start - 1)%nat) Undef;
  b ← of_option (pblk q) Undef;
  if pvi q <? nval b then
    l ← loadkids q (drop start p);
    let p := take start p ++ l in
    q ← of_option (last p) Undef;
    b ← of_option (pblk q) Undef;
    kv ← getval b (pvi q);
    Ok (p, mkMsg Oinsert (k kv) (v kv), true, -1)
  else
    m ← getmsg b (pbi q);
    ok ← first_ok m;
    Ok (p, m, ok, Z.of_nat start - 1).

(** A message of a level above with a lesser key; [i] is the first level's index. *)
Fixpoint pick (i : Z) (l : list Scanp) (m : Msg) (ok : bool) (bufsrc : Z) : res (Msg * bool * Z) :=
  match l with
  | [] | [_] => Ok (m, ok, bufsrc)
  | p :: l =>
      '(m, ok, bufsrc) ← pick (i + 1) l m ok bufsrc;
      match pblk p with
      | None => Ok (m, ok, bufsrc)
      | Some b =>
          if pbi p =? nbuf b then Ok (m, ok, bufsrc) else
          n ← getmsg b (pbi p);
          if keycmp (mk n) (mk m) <? 0 then ok ← first_ok n; Ok (n, ok, i)
          else Ok (m, ok, bufsrc)
      end
  end.

Definition bump (bufsrc : Z) (l : list Scanp) : list Scanp :=
  if bufsrc =? -1 then alter (fun p => mkScanp (pbi p) (pvi p + 1) (pblk p)) (length l - 1)%nat l
  else alter (fun p => mkScanp (pbi p + 1) (pvi p) (pblk p)) (Z.to_nat bufsrc) l.

(** The messages of a level for the key of *r, applied to it. *)
Fixpoint drainrun (fuel : nat) (b : Blk) (bi : Z) (ok : bool) (r : Kvp) : res (Z * bool * Kvp) :=
  if nbuf b <=? bi then Ok (bi, ok, r) else
  match fuel with
  | O => Fail Fuel
  | S fuel =>
      m ← getmsg b bi;
      if negb (keycmp (k r) (mk m) =? 0) then Ok (bi, ok, r) else
      '(ok, r) ← apply r m Kvmax;
      drainrun fuel b (bi + 1) ok r
  end.

Fixpoint drain (l : list Scanp) (ok : bool) (r : Kvp) : res (list Scanp * bool * Kvp) :=
  match l with
  | [] | [_] => Ok (l, ok, r)
  | p :: l =>
      '(l, ok, r) ← drain l ok r;
      match pblk p with
      | None => Ok (p :: l, ok, r)
      | Some b =>
          '(bi, ok, r) ← drainrun (Z.to_nat (nbuf b)) b (pbi p) ok r;
          Ok (mkScanp bi (pvi p) (pblk p) :: l, ok, r)
      end
  end.

Definition outside (pfx key : list Z) : bool :=
  (zlen key <? zlen pfx) || negb (memcmp key pfx (length pfx) =? 0).

(** btnext up to its goto Again: [None] when it returns 0. *)
Definition pass (s : Scan) : res (Scan * option bool) :=
  match spath s with
  | None => Ok (s, None)
  | Some p =>
      if sdone s then Ok (s, None) else
      let '(p, start) := loadup true p in
      if decide (start = 0%nat) then
        if decide (length p = 0%nat) then Fail Undef
        else Ok (mkScan (sfirst s) true (sht s) (skv s) (spfx s) (Some p), None)
      else
      '(p, m, ok, bufsrc) ← lowest p start;
      '(m, ok, bufsrc) ← pick 0 p m ok bufsrc;
      if outside (spfx s) (mk m) then
        Ok (mkScan (sfirst s) true (sht s) (skv s) (spfx s) (Some p), None)
      else
      r ← cpkvp (msg_kvp m) Kvmax;
      '(p, ok, r) ← drain (bump bufsrc p) ok r;
      Ok (mkScan (sfirst s) (sdone s) (sht s) r (spfx s) (Some p), Some ok)
  end.

Fixpoint btnext (fuel : nat) (s : Scan) : res (Scan * bool) :=
  match fuel with
  | O => Fail Fuel
  | S fuel =>
      '(s, o) ← pass s;
      match o with
      | None => Ok (s, false)
      | Some true => Ok (s, true)
      | Some false => btnext fuel s
      end
  end.
End Scan.

(** ** A caller's reading *)

Section Read.
  Context (fetch : Bptr -> res Blk) (t : Tree) (fuel : nat).

(** At most [n] entries. *)
Fixpoint readn (n : nat) (s : Scan) : res (list Kvp * Scan) :=
  match n with
  | O => Ok ([], s)
  | S n =>
      '(s, more) ← btnext fetch fuel s;
      if more : bool then '(l, s') ← readn n s; Ok (skv s :: l, s') else Ok ([], s)
  end.

(** Reads of the sizes given, the scan left after each. *)
Fixpoint reads (ns : list nat) (s : Scan) : res (list Kvp) :=
  match ns with
  | [] => Ok []
  | n :: ns =>
      s ← btenter fetch t s;
      '(l, s) ← readn n s;
      l' ← reads ns (btexit s);
      Ok (l ++ l')
  end.
End Read.

(** * Prefixes *)

Lemma memcmp_prefix pfx : forall key, (length pfx <= length key)%nat ->
  memcmp key pfx (length pfx) = 0 <-> pfx `prefix_of` key.
Proof.
  induction pfx as [|x pfx IH]; intros [|y key] Hl; cbn in *; try lia.
  - split; [intros _; apply prefix_nil|done].
  - split; [intros _; apply prefix_nil|done].
  - destruct (Z.eqb_spec y x) as [->|Hne].
    + rewrite IH by lia. split; [apply prefix_cons|apply prefix_cons_inv_2].
    + split; [by destruct (y <? x)|]. intros H%prefix_cons_inv_1. congruence.
Qed.

Lemma outside_prefix pfx key : outside pfx key = false <-> pfx `prefix_of` key.
Proof.
  unfold outside. rewrite orb_false_iff, negb_false_iff, Z.eqb_eq, Z.ltb_ge. unfold zlen. split.
  - intros [H1 H2]. apply memcmp_prefix; [lia|done].
  - intros H. pose proof (prefix_length _ _ H). rewrite memcmp_prefix by lia. split; [lia|done].
Qed.

(** The keys with a prefix are next to each other. *)
Lemma prefix_between pfx : forall a b, key_le pfx a -> key_le a b -> pfx `prefix_of` b -> pfx `prefix_of` a.
Proof.
  unfold key_le. induction pfx as [|x pfx IH]; intros a b H1 H2 H3; [apply prefix_nil|].
  destruct H3 as [l ->]. destruct a as [|y a]; [by vm_compute in H1|]. cbn [app] in H2.
  rewrite keycmp_cons in H1, H2. destruct (Z.eqb_spec x y) as [->|Hne].
  - rewrite Z.eqb_refl in H2. apply prefix_cons. eapply IH; [done|exact H2|]. by exists l.
  - destruct (Z.eqb_spec y x); [congruence|]. destruct (Z.ltb_spec x y), (Z.ltb_spec y x); lia.
Qed.

Lemma prefix_key_le pfx key : pfx `prefix_of` key -> key_le pfx key.
Proof.
  intros [l ->]. unfold key_le. rewrite <- (app_nil_r pfx) at 1. rewrite keycmp_app_l. by destruct l.
Qed.

(** * Where a scan is *)

(** What is left of a scan: the keys after one, or those from one on. *)
Definition cut : Type := list Z * bool.
Definition past (c : cut) (key : list Z) : Prop := if c.2 then key_lt c.1 key else key_le c.1 key.

#[global] Instance past_dec c key : Decision (past c key).
Proof. unfold past. destruct c.2; apply _. Defined.

Lemma past_up c a b : past c a -> key_le a b -> past c b.
Proof.
  unfold past. destruct c as [x []]; cbn; intros H1 H2; [by eapply key_lt_le_trans|by etrans].
Qed.

Lemma past_after c a b : past c a -> past (a, true) b -> past c b.
Proof. intros H1 H2%key_lt_le. by eapply past_up. Qed.

Lemma not_past_down c a b : ~ past c b -> key_le a b -> ~ past c a.
Proof. intros H1 H2 H3. apply H1. by eapply past_up. Qed.

Lemma not_past_after c a b : past c a -> ~ past c b -> ~ past (a, true) b.
Proof. intros H1 H2 H3. apply H2. by eapply past_after. Qed.

Lemma not_past_le c a b : past c a -> ~ past c b -> key_lt b a.
Proof.
  intros H1 H2. destruct (keycmp_cases a b) as [[_ H]|[[_ ->]|[_ H]]]; [|done|done].
  exfalso. apply H2. eapply past_up; [done|by apply key_lt_le].
Qed.

(** * The keys of a tree *)

Fixpoint tkeys (t : btree) : list (list Z) :=
  match t with
  | Leaf kvs => kv_keys kvs
  | Pivot kids ms => msg_keys ms ++ flat_map (fun kid => tkeys kid.2) kids
  end.

Lemma tkeys_pivot kids ms key :
  key ∈ tkeys (Pivot kids ms) <-> key ∈ msg_keys ms \/ exists s t, (s, t) ∈ kids /\ key ∈ tkeys t.
Proof.
  cbn [tkeys]. rewrite elem_of_app. f_equiv. rewrite list_elem_of_In, in_flat_map. split.
  - intros ([s t] & H1 & H2). exists s, t. by rewrite !list_elem_of_In.
  - intros (s & t & H1 & H2). exists (s, t). by rewrite <- !list_elem_of_In.
Qed.

(** Every child's keys are between its separator and the next ones. *)
Definition bounded (kids : list (list Z * btree)) : Prop :=
  forall i s t key, kids !! i = Some (s, t) -> key ∈ tkeys t ->
    key_le s key /\ forall j s' t', kids !! j = Some (s', t') -> (i < j)%nat -> key_lt key s'.

(** A search tree: bounded at every pivot, and no leaf below one is empty. *)
Fixpoint ordered (t : btree) : Prop :=
  match t with
  | Leaf _ => True
  | Pivot kids ms =>
      bounded kids /\
      (fix go (kids : list (list Z * btree)) : Prop :=
         match kids with
         | [] => True
         | (_, t) :: kids => t <> Leaf [] /\ ordered t /\ go kids
         end) kids
  end.

Lemma ordered_pivot kids ms :
  ordered (Pivot kids ms) <-> bounded kids /\ Forall (fun kid => kid.2 <> Leaf [] /\ ordered kid.2) kids.
Proof.
  cbn [ordered]. f_equiv. induction kids as [|[s t] kids IH].
  - split; [constructor|done].
  - rewrite Forall_cons, <- IH. cbn. tauto.
Qed.

Lemma route_in {A} key (kids : list (list Z * A)) t : route key kids = Some t -> exists s, (s, t) ∈ kids.
Proof.
  revert t. induction kids as [|[s t0] kids IH]; intros t H; [done|]. cbn in H. case_decide; [|done].
  destruct (route key kids) as [t1|].
  - injection H as <-. destruct (IH t1 eq_refl) as [s' Hs]. exists s'. by right.
  - injection H as <-. exists s. left.
Qed.

Lemma btree_rect_kids (P : btree -> Prop) :
  (forall kvs, P (Leaf kvs)) -> (forall kids ms, Forall (fun kid => P kid.2) kids -> P (Pivot kids ms)) ->
  forall t, P t.
Proof.
  intros H1 H2. fix IH 1. intros [kvs|kids ms]; [apply H1|apply H2].
  induction kids as [|[s t] kids IHk]; constructor; [apply IH|exact IHk].
Qed.

(** A key that is not in a tree has no value there. *)
Lemma sem_none key t : key ∉ tkeys t -> sem t key = Ok None.
Proof.
  induction t as [kvs|kids ms IH] using btree_rect_kids; intros Hk.
  - cbn [sem]. by rewrite findkv_none.
  - rewrite sem_pivot. assert (for_key key ms = []) as ->.
    { apply filter_none, Forall_forall. intros m Hm E. apply Hk, tkeys_pivot. left. apply list_elem_of_fmap. eauto. }
    destruct (route key kids) as [t|] eqn:E; [|done]. apply route_in in E as [s Hs].
    rewrite Forall_forall in IH. assert (sem t key = Ok None) as ->; [|done].
    apply (IH _ Hs). intros Ht. apply Hk, tkeys_pivot. right. eauto.
Qed.

(** A search tree of which no message is broken. *)
Definition semok (t : btree) : Prop := forall key, is_Ok (sem t key).
Definition good (t : btree) : Prop := ordered t /\ semok t.

Definition kids_sorted (kids : list (list Z * btree)) : Prop := StronglySorted key_lt kids.*1.

(** What the child of a key means for it. *)
Definition below (kids : list (list Z * btree)) (key : list Z) : res (option Kvp) :=
  match route key kids with Some t => sem t key | None => Ok None end.

Lemma sem_below kids ms key : sem (Pivot kids ms) key = (cur ← below kids key; mrun cur (for_key key ms)).
Proof. apply sem_pivot. Qed.

Lemma route_here kpre s t kpost key :
  let kids := kpre ++ (s, t) :: kpost in
  bounded kids -> kids_sorted kids -> key ∈ tkeys t -> route key kids = Some t.
Proof.
  intros kids Hb Hs Hk.
  assert (kids !! length kpre = Some (s, t)) as Hi by (unfold kids; by rewrite list_lookup_middle).
  apply (route_at key kids (length kpre) s t); [|done]. intros j s' t' Hj.
  destruct (Hb _ _ _ _ Hi Hk) as [Hle Hlt]. split; intros H.
  - destruct (decide (j = length kpre)) as [->|Hne]; [congruence|]. apply key_lt_le.
    eapply key_lt_le_trans; [|exact Hle]. eapply (sorted_lookup _ kids.*1 j (length kpre)); [done|..|lia];
      by rewrite list_lookup_fmap, ?Hj, ?Hi.
  - destruct (decide (length kpre < j)%nat) as [Hlt'|]; [|lia]. exfalso.
    apply (irreflexivity key_lt key). eapply key_lt_le_trans; [|exact H]. by eapply Hlt.
Qed.

Section Below.
  Context (kids : list (list Z * btree)).
  Hypothesis Hb : bounded kids.

(** A key before the separators after a child has its value in the child, when
    the children before it do not hold it. *)
Lemma below_at kpre s t kpost key :
  kids = kpre ++ (s, t) :: kpost -> kids_sorted kids ->
  Forall (fun kid => key ∉ tkeys kid.2) kpre -> Forall (fun kid => key_lt key kid.1) kpost ->
  below kids key = sem t key.
Proof.
  intros E Hs Hpre Hpost. unfold below. destruct (decide (key ∈ tkeys t)) as [Hk|Hk].
  - subst kids. by rewrite (route_here kpre s t kpost key).
  - rewrite (sem_none key t Hk). destruct (route key kids) as [t'|] eqn:Er; [|done].
    apply route_in in Er as [s' Hin]. apply sem_none. rewrite E in Hin.
    apply elem_of_app in Hin as [Hin|[Hin|Hin]%elem_of_cons].
    + rewrite Forall_forall in Hpre. by apply (Hpre _ Hin).
    + by simplify_eq.
    + intros Hk'. rewrite Forall_forall in Hpost. pose proof (Hpost _ Hin) as Hlt. cbn in Hlt.
      assert ((s', t') ∈ kids) as [i Hi]%list_elem_of_lookup by (rewrite E; apply elem_of_app; right; by right).
      apply (irreflexivity key_lt key). eapply key_lt_le_trans; [exact Hlt|]. by apply (Hb _ _ _ _ Hi Hk').
Qed.

Lemma below_none key : Forall (fun kid => key ∉ tkeys kid.2) kids -> below kids key = Ok None.
Proof.
  intros H. unfold below. destruct (route key kids) as [t|] eqn:Er; [|done].
  apply route_in in Er as [s Hin]. rewrite Forall_forall in H. by apply sem_none, (H _ Hin).
Qed.

(** The values of a child: all keys the messages above let be looked up. *)
Lemma semok_kid ms s t : kids_sorted kids -> semok (Pivot kids ms) -> (s, t) ∈ kids -> semok t.
Proof.
  intros Hs Hok Hin key. destruct (decide (key ∈ tkeys t)) as [Hk|Hk]; [|rewrite (sem_none key t Hk); by eexists].
  destruct (Hok key) as [c Hc]. rewrite sem_below in Hc. apply bind_Ok in Hc as (c' & Hc' & _).
  apply list_elem_of_split in Hin as (kpre & kpost & E). unfold below in Hc'.
  subst kids. rewrite (route_here kpre s t kpost key Hb Hs Hk) in Hc'. by exists c'.
Qed.
End Below.

Lemma good_kid kids ms s t :
  kids_sorted kids -> good (Pivot kids ms) -> (s, t) ∈ kids -> good t /\ t <> Leaf [].
Proof.
  intros Hs [Ho Hok] Hin. apply ordered_pivot in Ho as [Hb Ho].
  rewrite Forall_forall in Ho. destruct (Ho _ Hin) as [Hne Ht]. split; [|done]. split; [done|].
  by eapply semok_kid.
Qed.

Lemma rep_kids_sorted fetch h b kids ms : rep fetch h b (Pivot kids ms) -> kids_sorted kids.
Proof.
  intros Hr. assert (exists kvs, kvs_sorted kvs /\ kids.*1 = kv_keys kvs) as (kvs & Hs & E).
  { destruct h as [|[|h]]; [done| |]; destruct Hr as (_ & _ & _ & _ & kvs & _ & Hs & H2); exists kvs; (split; [done|]).
    - clear -H2. induction H2 as [|kv kid kvs kids [Hk _] _ IH]; [done|]. cbn. by rewrite Hk, IH.
    - clear -H2. induction H2 as [|kv kid kvs kids [Hk _] _ IH]; [done|]. cbn. by rewrite Hk, IH. }
  unfold kids_sorted. by rewrite E.
Qed.

(** * Cursors *)

Definition nilp : Scanp := mkScanp 0 0 None.

Section Cursors.
  Context (fetch : Bptr -> res Blk).

(** A cursor in a leaf: [suf] are the values left. *)
Record leafat (c : cut) (p : Scanp) (t : btree) (suf : list Kvp) : Prop := {
  la_good : good t;
  la_block : exists b pre, pblk p = Some b /\ t = Leaf (pre ++ suf) /\ rep fetch 1 b t /\ pbi p = 0 /\
    pvi p = zlen pre /\ Forall (fun kv => ~ past c (k kv)) pre;
  la_past : Forall (fun kv => past c (k kv)) suf
}.

(** A cursor in a pivot of [n] levels: [suf] are the messages left. *)
Record pivat (c : cut) (n : nat) (p : Scanp) (b : Blk) (kids : list (list Z * btree)) (ms suf : list Msg) : Prop := {
  pa_good : good (Pivot kids ms);
  pa_blk : pblk p = Some b;
  pa_rep : rep fetch n b (Pivot kids ms);
  pa_msgs : exists pre, ms = pre ++ suf /\ pbi p = zlen pre /\ Forall (fun m => ~ past c (mk m)) pre;
  pa_past : Forall (fun m => past c (mk m)) suf
}.

Definition nonepast (c : cut) (kid : list Z * btree) : Prop := Forall (fun key => ~ past c key) (tkeys kid.2).

(** The child a cursor is at. *)
Definition kidat (c : cut) (p : Scanp) (kids : list (list Z * btree)) (t : btree) : Prop :=
  exists kpre s kpost, kids = kpre ++ (s, t) :: kpost /\ pvi p = zlen kpre /\
    Forall (nonepast c) kpre /\ Forall (fun kid => past c kid.1) kpost.

(** A pivot whose children are all done with. *)
Definition kidsdone (c : cut) (p : Scanp) (kids : list (list Z * btree)) (l : list Scanp) : Prop :=
  zlen kids <= pvi p /\ Forall (nonepast c) kids /\ l = replicate (length l) nilp.

(** Between calls: the path holds the keys past the cut. *)
Inductive cur (c : cut) : btree -> list Scanp -> Prop :=
  | cur_leaf t p suf : leafat c p t suf -> cur c t [p]
  | cur_kid p l b kids ms suf t' :
      pivat c (S (length l)) p b kids ms suf -> kidat c p kids t' -> cur c t' l -> cur c (Pivot kids ms) (p :: l)
  | cur_end p l b kids ms suf :
      pivat c (S (length l)) p b kids ms suf -> kidsdone c p kids l -> cur c (Pivot kids ms) (p :: l).

(** After loadup: [start] levels are left, the last of them has more. *)
Inductive semi (c : cut) : btree -> list Scanp -> nat -> Prop :=
  | semi_leaf t p kv suf : leafat c p t (kv :: suf) -> semi c t [p] 1
  | semi_kid p l b kids ms suf t' start :
      pivat c (S (length l)) p b kids ms suf -> kidat c p kids t' -> semi c t' l start ->
      semi c (Pivot kids ms) (p :: l) (S start)
  | semi_load p l b kids ms suf t' :
      pivat c (S (length l)) p b kids ms suf -> kidat c p kids t' -> Forall (past c) (tkeys t') ->
      l = replicate (length l) nilp -> semi c (Pivot kids ms) (p :: l) 1
  | semi_end p l b kids ms m suf :
      pivat c (S (length l)) p b kids ms (m :: suf) -> kidsdone c p kids l -> semi c (Pivot kids ms) (p :: l) 1.

(** The index of a source one level further down. *)
Definition down (i src : Z) : Z := if src =? -1 then -1 else src + i.

(** After lowest: the message it starts with, if it makes a value, and where it is. *)
Inductive ready (c : cut) : btree -> list Scanp -> Msg -> bool -> Z -> Prop :=
  | ready_leaf t p kv suf : leafat c p t (kv :: suf) -> ready c t [p] (mkMsg Oinsert (k kv) (v kv)) true (-1)
  | ready_kid p l b kids ms suf t' m ok src :
      pivat c (S (length l)) p b kids ms suf -> kidat c p kids t' -> ready c t' l m ok src ->
      ready c (Pivot kids ms) (p :: l) m ok (down 1 src)
  | ready_end p l b kids ms m suf ok :
      pivat c (S (length l)) p b kids ms (m :: suf) -> kidsdone c p kids l -> first_ok m = Ok ok ->
      ready c (Pivot kids ms) (p :: l) m ok 0.

(** After pick: the first item for the least key left. *)
Inductive chosen (c : cut) : btree -> list Scanp -> Msg -> bool -> Z -> Prop :=
  | chosen_leaf t p kv suf : leafat c p t (kv :: suf) -> chosen c t [p] (mkMsg Oinsert (k kv) (v kv)) true (-1)
  | chosen_kid p l b kids ms suf t' m ok src :
      pivat c (S (length l)) p b kids ms suf -> kidat c p kids t' -> chosen c t' l m ok src ->
      Forall (fun n => key_le (mk m) (mk n)) suf -> chosen c (Pivot kids ms) (p :: l) m ok (down 1 src)
  | chosen_here p l b kids ms m suf t' m' ok ok' src' :
      pivat c (S (length l)) p b kids ms (m :: suf) -> kidat c p kids t' -> ready c t' l m' ok' src' ->
      Forall (fun key => past c key -> key_lt (mk m) key) (tkeys t') -> first_ok m = Ok ok ->
      chosen c (Pivot kids ms) (p :: l) m ok 0
  | chosen_end p l b kids ms m suf ok :
      pivat c (S (length l)) p b kids ms (m :: suf) -> kidsdone c p kids l -> first_ok m = Ok ok ->
      chosen c (Pivot kids ms) (p :: l) m ok 0.

(** ** What the blocks hold *)

Lemma leafat_block c p t suf : leafat c p t suf ->
  exists b pre, pblk p = Some b /\ t = Leaf (pre ++ suf) /\ btyp b = Tleaf /\ blk_repr b (pre ++ suf) [] /\
    kvs_sorted (pre ++ suf) /\ Forall kv_good (pre ++ suf) /\ pbi p = 0 /\ pvi p = zlen pre /\
    Forall (fun kv => ~ past c (k kv)) pre.
Proof.
  intros [_ (b & pre & Hb & -> & (Ht & R & Hs & Hg) & Hbi & Hvi & Hpre) _]. exists b, pre. by split_and!.
Qed.

Lemma pivat_block c n p b kids ms suf : pivat c n p b kids ms suf ->
  btyp b = Tpivot /\ kids <> [] /\ msgs_sorted ms /\ Forall msg_good ms /\
  exists kvs, blk_repr b kvs ms /\
    Forall2 (fun kv kid => k kv = kid.1 /\
      exists p b', unpackbp (v kv) = Ok p /\ fetch p = Ok b' /\ rep fetch (n - 1) b' kid.2) kvs kids.
Proof.
  intros [_ _ Hr _ _]. destruct n as [|[|n]]; [done| |];
    destruct Hr as (Ht & Hne & Hs & Hg & kvs & R & _ & H2); split_and!; try done; by exists kvs.
Qed.

Lemma rep_pivot_level n b kids ms : rep fetch n b (Pivot kids ms) -> (2 <= n)%nat.
Proof.
  destruct n as [|[|n]]; [done| |lia]. intros (_ & Hne & _ & _ & kvs & _ & _ & H2).
  destruct kids as [|kid kids]; [done|]. inversion H2 as [|? ? ? ? (_ & ? & ? & _ & _ & []) _].
Qed.

Lemma pivat_levels c n p b kids ms suf : pivat c n p b kids ms suf -> (2 <= n)%nat.
Proof. intros H. exact (rep_pivot_level _ _ _ _ (pa_rep _ _ _ _ _ _ _ H)). Qed.

Lemma pivat_counts c n p b kids ms suf : pivat c n p b kids ms suf ->
  nval b = zlen kids /\ nbuf b = zlen ms /\ nbuf b = pbi p + zlen suf /\ 0 <= pbi p.
Proof.
  intros H. destruct (pivat_block _ _ _ _ _ _ _ H) as (_ & _ & _ & _ & kvs & R & H2).
  destruct (pa_msgs _ _ _ _ _ _ _ H) as (pre & E & Hbi & _).
  rewrite (repr_nval _ _ _ R), (repr_nbuf _ _ _ R), Hbi. split_and!; try done.
  - unfold zlen. f_equal. by eapply Forall2_length.
  - by rewrite E, zlen_app.
  - apply zlen_nonneg.
Qed.

Lemma pivat_get c n p b kids ms m suf : pivat c n p b kids ms (m :: suf) -> getmsg b (pbi p) = Ok m.
Proof.
  intros H. destruct (pivat_block _ _ _ _ _ _ _ H) as (Ht & _ & _ & _ & kvs & R & H2).
  destruct (pa_msgs _ _ _ _ _ _ _ H) as (pre & E & -> & _).
  apply (getmsg_repr b kvs ms (length pre) m R Ht). subst ms. by rewrite list_lookup_middle.
Qed.

Lemma pivat_sorted c n p b kids ms suf : pivat c n p b kids ms suf -> msgs_sorted suf /\ Forall msg_good suf.
Proof.
  intros H. destruct (pivat_block _ _ _ _ _ _ _ H) as (_ & _ & Hs & Hg & _).
  destruct (pa_msgs _ _ _ _ _ _ _ H) as (pre & -> & _ & _). split; [|by apply Forall_app in Hg as [_ ?]].
  unfold msgs_sorted, keys_sorted, msg_keys in *. rewrite fmap_app in Hs. by eapply StronglySorted_app_1_r.
Qed.

Lemma pivat_kid c n p b kids ms suf t : pivat c n p b kids ms suf -> kidat c p kids t ->
  good t /\ t <> Leaf [] /\ (forall key, key ∈ tkeys t -> key ∈ tkeys (Pivot kids ms)).
Proof.
  intros H (kpre & s & kpost & E & _). assert ((s, t) ∈ kids) as Hin by (rewrite E; apply elem_of_app; right; left).
  destruct (good_kid kids ms s t) as [Hg Hne]; [exact (rep_kids_sorted _ _ _ _ _ (pa_rep _ _ _ _ _ _ _ H))|exact (pa_good _ _ _ _ _ _ _ H)|done|].
  split_and!; try done. intros key Hk. apply tkeys_pivot. right. eauto.
Qed.

(** Separators after the cursor's child are after all keys of the child. *)
Lemma kidat_before c n p b kids ms suf t key kpre s kpost :
  pivat c n p b kids ms suf -> kids = kpre ++ (s, t) :: kpost -> key ∈ tkeys t ->
  Forall (fun kid => key_lt key kid.1) kpost.
Proof.
  intros H E Hk. apply Forall_forall. intros [s' t'] Hin.
  apply list_elem_of_lookup in Hin as [j Hj].
  pose proof (pa_good _ _ _ _ _ _ _ H) as [[Hb _]%ordered_pivot _].
  assert (kids !! length kpre = Some (s, t)) as Hi by (rewrite E; by rewrite list_lookup_middle).
  apply (Hb _ _ _ _ Hi Hk) with (S (length kpre) + j)%nat t'; [|lia].
  rewrite E, lookup_app_r by lia. by replace (S (length kpre) + j - length kpre)%nat with (S j) by lia.
Qed.

(** ** Leaving what is done with *)

Lemma ready_key c t l m ok src : ready c t l m ok src -> mk m ∈ tkeys t /\ past c (mk m).
Proof.
  induction 1 as [t p kv suf H|p l b kids ms suf t' m ok src Hp Hk _ [IH1 IH2]|p l b kids ms m suf ok Hp _ _].
  - destruct (leafat_block _ _ _ _ H) as (b & pre & _ & -> & _). apply la_past in H.
    apply Forall_cons in H as [H _]. split; [|done]. cbn. unfold kv_keys. rewrite fmap_app. apply elem_of_app. right. left.
  - split; [|done]. by apply (pivat_kid _ _ _ _ _ _ _ _ Hp Hk).
  - pose proof (pa_past _ _ _ _ _ _ _ Hp) as [H _]%Forall_cons.
    destruct (pa_msgs _ _ _ _ _ _ _ Hp) as (pre & -> & _). split; [|done].
    apply tkeys_pivot. left. unfold msg_keys. rewrite fmap_app. apply elem_of_app. right. left.
Qed.

Lemma pmore_leaf c p t suf : leafat c p t suf -> pmore p = bool_decide (suf <> []).
Proof.
  intros H. destruct (leafat_block _ _ _ _ H) as (b & pre & Hb & _ & _ & R & _ & _ & Hbi & Hvi & _).
  unfold pmore. rewrite Hb, (repr_nval _ _ _ R), (repr_nbuf _ _ _ R), Hbi, Hvi, zlen_app. cbn. rewrite orb_false_r.
  destruct suf as [|kv suf]; cbn [bool_decide]; [rewrite zlen_nil, Z.add_0_r; apply Z.ltb_irrefl|].
  rewrite zlen_cons. pose proof (zlen_nonneg suf). apply Z.ltb_lt. lia.
Qed.

Lemma pmore_piv c n p b kids ms suf vi : pivat c n p b kids ms suf ->
  pmore (mkScanp (pbi p) vi (pblk p)) = bool_decide (vi < zlen kids) || bool_decide (suf <> []).
Proof.
  intros H. destruct (pivat_counts _ _ _ _ _ _ _ H) as (Hv & _ & Hm & _).
  unfold pmore. cbn [pblk pvi pbi]. rewrite (pa_blk _ _ _ _ _ _ _ H), Hv, Hm. f_equal.
  - symmetry. by destruct (Z.ltb_spec vi (zlen kids)); [rewrite bool_decide_true|rewrite bool_decide_false by lia].
  - destruct suf as [|m suf]; cbn [bool_decide]; [rewrite zlen_nil, Z.add_0_r; apply Z.ltb_irrefl|].
    rewrite zlen_cons. pose proof (zlen_nonneg suf). apply Z.ltb_lt. lia.
Qed.

Lemma loadup_nils n : loadup false (replicate n nilp) = (replicate n nilp, 0%nat).
Proof.
  induction n as [|n IH]; [done|]. cbn [replicate loadup]. rewrite IH. cbn.
  destruct n; done.
Qed.

Lemma pivat_move c n p b kids ms suf vi : pivat c n p b kids ms suf ->
  pivat c n (mkScanp (pbi p) vi (pblk p)) b kids ms suf.
Proof. intros []. by split. Qed.

Lemma nonepast_keys c kids ms pre :
  Forall (nonepast c) kids -> Forall (fun m => ~ past c (mk m)) pre -> ms = pre ->
  Forall (fun key => ~ past c key) (tkeys (Pivot kids ms)).
Proof.
  intros Hk Hm ->. apply Forall_forall. intros key [Hin|(s & t & Hin & Hkey)]%tkeys_pivot.
  - apply list_elem_of_fmap in Hin as (m & -> & Hin). rewrite Forall_forall in Hm. by apply Hm.
  - rewrite Forall_forall in Hk. specialize (Hk _ Hin). unfold nonepast in Hk. rewrite Forall_forall in Hk. by apply Hk.
Qed.

(** A level whose child is done with. *)
Lemma loadup_kid c p l b kids ms suf t' :
  pivat c (S (length l)) p b kids ms suf -> kidat c p kids t' -> Forall (fun key => ~ past c key) (tkeys t') ->
  l = replicate (length l) nilp ->
  let p' := mkScanp (pbi p) (pvi p + 1) (pblk p) in
  if pmore p' then semi c (Pivot kids ms) (p' :: l) 1
  else Forall (fun key => ~ past c key) (tkeys (Pivot kids ms)).
Proof.
  intros Hp (kpre & s & kpost & E & Hvi & Hpre & Hpost) Hn Hl p'.
  assert (Forall (nonepast c) (kpre ++ [(s, t')])) as Hpre'.
  { apply Forall_app. split; [done|]. constructor; [exact Hn|constructor]. }
  pose proof (pivat_move _ _ _ _ _ _ _ (pvi p + 1) Hp) as Hp'. unfold p' in *.
  rewrite (pmore_piv _ _ _ _ _ _ _ _ Hp).
  destruct kpost as [|[s2 t2] kpost].
  - rewrite bool_decide_false by (rewrite E, Hvi, zlen_app, zlen_cons, zlen_nil; lia). cbn [orb].
    destruct suf as [|m suf]; cbn [bool_decide].
    + destruct (pa_msgs _ _ _ _ _ _ _ Hp) as (pre & Em & _ & Hm). rewrite app_nil_r in Em.
      eapply nonepast_keys; [by rewrite E|exact Hm|done].
    + eapply semi_end; [exact Hp'|]. split; [|by rewrite E].
      cbn [pvi]. rewrite E, Hvi, zlen_app. done.
  - rewrite bool_decide_true by (rewrite E, Hvi, zlen_app, !zlen_cons; pose proof (zlen_nonneg kpost); lia). cbn [orb].
    apply Forall_cons in Hpost as [Hs2 Hpost]. eapply semi_load; [exact Hp'| | |exact Hl].
    + exists (kpre ++ [(s, t')]), s2, kpost. split_and!; [by rewrite E, <- app_assoc| |done|done].
      cbn [pvi]. rewrite Hvi, zlen_app. done.
    + pose proof (pa_good _ _ _ _ _ _ _ Hp) as [[Hb _]%ordered_pivot _]. apply Forall_forall. intros key Hkey.
      eapply past_up; [exact Hs2|]. cbn.
      apply (Hb (length (kpre ++ [(s, t')])) s2 t2 key); [|done].
      rewrite E. change ((s, t') :: (s2, t2) :: kpost) with ([(s, t')] ++ (s2, t2) :: kpost).
      by rewrite app_assoc, list_lookup_middle.
Qed.

Lemma loadup_spec c t l : cur c t l -> forall top,
  exists l' start, loadup top l = (l', start) /\ length l' = length l /\
    ((start = 0%nat /\ Forall (fun key => ~ past c key) (tkeys t) /\ (top = false -> l' = replicate (length l) nilp)) \/
     semi c t l' start).
Proof.
  induction 1 as [t p suf H|p l b kids ms suf t' Hp Hk Hc IH|p l b kids ms suf Hp (Hvi & Hn & Hl)]; intros top.
  - cbn [loadup]. rewrite decide_True by done. cbv zeta. rewrite (pmore_leaf _ _ _ _ H). destruct suf as [|kv suf]; cbn [bool_decide].
    + eexists _, _. split; [done|]. split; [done|]. left. split; [done|]. split; [|by intros ->].
      destruct (leafat_block _ _ _ _ H) as (b & pre & _ & -> & _ & _ & _ & _ & _ & _ & Hpre).
      cbn. rewrite app_nil_r. unfold kv_keys. by rewrite Forall_fmap.
    + eexists _, _. split; [done|]. split; [done|]. right. by eapply semi_leaf.
  - destruct (IH false) as (l' & start & E & Hlen & Hs). cbn [loadup]. rewrite E.
    assert (l <> []) as Hl by (by inversion Hc). destruct l as [|q l]; [done|].
    destruct Hs as [(-> & Hn & Hl')|Hs].
    + rewrite decide_True by done. specialize (Hl' eq_refl).
      pose proof (loadup_kid c p l' b kids ms suf t') as HK. rewrite Hlen in HK.
      specialize (HK Hp Hk Hn Hl'). cbv zeta in HK |- *. destruct (pmore _).
      * eexists _, _. split; [done|]. cbn [length] in *. split; [lia|]. by right.
      * eexists _, _. split; [done|]. cbn [length] in *. split; [lia|]. left. split; [done|]. split; [done|].
        intros ->. by rewrite Hl'.
    + rewrite decide_False by (destruct Hs; lia). eexists _, _. split; [done|]. cbn [length] in *. split; [lia|].
      right. rewrite <- Hlen in Hp. by eapply semi_kid.
  - cbn [loadup]. rewrite Hl, loadup_nils, <- Hl. rewrite decide_True by done. pose proof (pivat_levels _ _ _ _ _ _ _ Hp).
    destruct l as [|q l]; [cbn in *; lia|]. cbv zeta. rewrite (pmore_piv _ _ _ _ _ _ _ _ Hp), bool_decide_false by lia. cbn [orb].
    destruct suf as [|m suf]; cbn [bool_decide].
    + eexists _, _. split; [done|]. split; [done|]. left. split; [done|]. split; [|by intros ->; rewrite Hl at 1].
      destruct (pa_msgs _ _ _ _ _ _ _ Hp) as (pre & Em & _ & Hm). rewrite app_nil_r in Em.
      by eapply nonepast_keys.
    + eexists _, _. split; [done|]. split; [done|]. right. eapply semi_end; [by apply pivat_move|]. split_and!; [cbn; lia|done|done].
Qed.

(** ** Going down *)

Lemma pivat_fetch c n p b kids ms suf t : pivat c (S n) p b kids ms suf -> kidat c p kids t ->
  exists kv bp b', getval b (pvi p) = Ok kv /\ unpackbp (v kv) = Ok bp /\ fetch bp = Ok b' /\ rep fetch n b' t.
Proof.
  intros H (kpre & s & kpost & E & Hvi & _). destruct (pivat_block _ _ _ _ _ _ _ H) as (_ & _ & _ & _ & kvs & R & H2).
  assert (kids !! length kpre = Some (s, t)) as Hi by (rewrite E; by rewrite list_lookup_middle).
  destruct (Forall2_lookup_r _ _ _ _ _ H2 Hi) as (kv & Hkv & _ & bp & b' & Hbp & Hb' & Hr).
  exists kv, bp, b'. rewrite Hvi. unfold zlen. rewrite (getval_repr _ _ _ _ _ R Hkv).
  rewrite Nat.sub_succ, Nat.sub_0_r in Hr. by split_and!.
Qed.

Lemma rep_leaf_level n b kvs : rep fetch n b (Leaf kvs) -> n = 1%nat.
Proof. by destruct n as [|[|n]]. Qed.

Lemma fresh_leafat c b kvs :
  good (Leaf kvs) -> rep fetch 1 b (Leaf kvs) -> Forall (past c) (tkeys (Leaf kvs)) ->
  leafat c (mkScanp 0 0 (Some b)) (Leaf kvs) kvs.
Proof.
  intros Hg Hr Hp. split; [done| |].
  - exists b, []. by split_and!.
  - cbn in Hp. unfold kv_keys in Hp. by rewrite Forall_fmap in Hp.
Qed.

Lemma fresh_pivat c n b kids ms :
  good (Pivot kids ms) -> rep fetch n b (Pivot kids ms) -> Forall (past c) (tkeys (Pivot kids ms)) ->
  pivat c n (mkScanp 0 0 (Some b)) b kids ms ms.
Proof.
  intros Hg Hr Hp. split; [done..| |].
  - by exists [].
  - cbn [tkeys] in Hp. apply Forall_app in Hp as [Hp _]. unfold msg_keys in Hp. by rewrite Forall_fmap in Hp.
Qed.

Lemma rep_nonempty n : forall b t, rep fetch n b t -> ordered t -> t <> Leaf [] -> exists key, key ∈ tkeys t.
Proof.
  induction n as [|n IH]; intros b t Hr Ho Hne; [done|].
  destruct t as [[|kv kvs]|kids ms]; [done|exists (k kv); left|].
  assert (exists s t b' kids', kids = (s, t) :: kids' /\ rep fetch n b' t) as (s & t & b' & kids' & -> & Hr').
  { destruct n as [|n]; destruct Hr as (_ & Hk & _ & _ & kvs & _ & _ & H2); destruct kids as [|[s t] kids]; try done;
      inversion H2 as [|? ? ? ? (_ & ? & b' & _ & _ & Hr) _]; subst; [done|]. by exists s, t, b', kids. }
  apply ordered_pivot in Ho as [_ [[Hne' Ho] _]%Forall_cons].
  destruct (IH b' t Hr' Ho Hne') as [key Hkey]. exists key. apply tkeys_pivot. right. exists s, t. split; [left|done].
Qed.

(** A pivot just loaded is at its first child. *)
Lemma first_kidat c n p b kids ms suf : pivat c (S n) p b kids ms suf -> pvi p = 0 ->
  Forall (past c) (tkeys (Pivot kids ms)) -> exists t, Forall (past c) (tkeys t) /\ kidat c p kids t.
Proof.
  intros H Hvi Hp. destruct (pivat_block _ _ _ _ _ _ _ H) as (_ & Hne & _ & _ & kvs & _ & H2).
  destruct kids as [|[s t] kids]; [done|]. exists t.
  inversion H2 as [|? ? ? ? (_ & ? & b' & _ & _ & Hr) _]; subst.
  destruct (good_kid _ _ s t (rep_kids_sorted _ _ _ _ _ (pa_rep _ _ _ _ _ _ _ H)) (pa_good _ _ _ _ _ _ _ H)) as [[Ho _] Hnt];
    [left|]. destruct (rep_nonempty _ _ _ Hr Ho Hnt) as [key Hk].
  cbn [tkeys flat_map snd] in Hp. apply Forall_app in Hp as [_ [Hp _]%Forall_app]. split; [exact Hp|].
  exists [], s, kids. split_and!; [done|done|constructor|].
  eapply Forall_impl; [by eapply (kidat_before c _ p b _ ms suf t key [] s kids)|].
  intros [s' t'] Hlt. cbn in *. rewrite Forall_forall in Hp.
  eapply past_up; [by apply Hp|by apply key_lt_le].
Qed.

Lemma loadkids_spec n : forall c p b kids ms suf t,
  pivat c (S n) p b kids ms suf -> kidat c p kids t -> Forall (past c) (tkeys t) ->
  exists l q lb kv, loadkids fetch p (replicate n nilp) = Ok l /\ length l = n /\
    ready c t l (mkMsg Oinsert (k kv) (v kv)) true (-1) /\
    last l = Some q /\ pblk q = Some lb /\ getval lb (pvi q) = Ok kv /\ pvi q < nval lb.
Proof.
  induction n as [|n IH]; intros c p b kids ms suf t Hp Hk Hall.
  { apply pivat_levels in Hp. lia. }
  destruct (pivat_fetch _ _ _ _ _ _ _ _ Hp Hk) as (kv & bp & b' & Eg & Ebp & Ef & Hr).
  destruct (pivat_kid _ _ _ _ _ _ _ _ Hp Hk) as (Hg & Hne & _).
  cbn [replicate loadkids]. rewrite (pa_blk _ _ _ _ _ _ _ Hp). cbn [of_option]. rewrite bind_ok, Eg, bind_ok, Ebp, bind_ok, Ef, bind_ok.
  cbn [pbi pvi nilp]. destruct t as [kvs|kids' ms'].
  - pose proof (rep_leaf_level _ _ _ Hr) as [= ->]. destruct kvs as [|kv0 kvs]; [done|].
    pose proof (fresh_leafat c b' _ Hg Hr Hall) as La.
    eexists [_], _, b', kv0. split; [done|]. split; [done|]. split; [by eapply ready_leaf|]. split_and!; [done|done| |];
      destruct (leafat_block _ _ _ _ La) as (b2 & pre & [= <-] & E & _ & R & _).
    + destruct Hr as (_ & R' & _). by apply (getval_repr b' (kv0 :: kvs) [] 0).
    + destruct Hr as (_ & R' & _). rewrite (repr_nval _ _ _ R'). cbn [pvi]. rewrite zlen_cons. pose proof (zlen_nonneg kvs). lia.
  - pose proof (fresh_pivat c _ b' _ _ Hg Hr Hall) as Hp'.
    destruct (first_kidat _ _ _ _ _ _ _ Hp' eq_refl Hall) as (t & Hall' & Hka).
    destruct (IH _ _ _ _ _ _ t Hp' Hka Hall') as (l & q & lb & kv' & El & Hlen & Hready & Hlast & Hq & Hget & Hlt).
    rewrite El, bind_ok. eexists (_ :: l), q, lb, kv'. split; [done|]. split; [cbn; lia|].
    split; [|split_and!; [by destruct l|done..]]. rewrite <- Hlen in Hp'.
    exact (ready_kid _ _ _ _ _ _ _ _ _ _ _ Hp' Hka Hready).
Qed.

(** ** The first item of a key *)

Lemma first_ok_step m c : mstep None m = Ok c -> exists ok, first_ok m = Ok ok /\ c = cur_of ok (msg_kvp m).
Proof.
  cbn [mstep]. unfold first_ok. intros H.
  destruct (Z.eqb_spec (op m) Oinsert) as [E|]; [rewrite E in H|].
  - cbn in H. apply Ok_inj in H as <-. by exists true.
  - destruct (op m =? Oclearb), (op m =? Oclobber); cbn in *; try done; apply Ok_inj in H as <-; by exists false.
Qed.

Lemma for_key_past c key pre suf :
  past c key -> Forall (fun m => ~ past c (mk m)) pre -> for_key key (pre ++ suf) = for_key key suf.
Proof.
  intros Hk Hpre. unfold for_key. rewrite filter_app, filter_none; [done|].
  eapply Forall_impl; [exact Hpre|]. by intros m Hm <-.
Qed.

(** What a pivot means for a key past the cut, from its cursor. *)
Lemma pivat_sem c n p b kids ms suf key : pivat c n p b kids ms suf -> past c key ->
  sem (Pivot kids ms) key = (cur ← below kids key; mrun cur (for_key key suf)).
Proof.
  intros H Hk. destruct (pa_msgs _ _ _ _ _ _ _ H) as (pre & -> & _ & Hpre).
  by rewrite sem_below, (for_key_past c key pre suf Hk Hpre).
Qed.

Lemma pivat_first c n p b kids ms m suf : pivat c n p b kids ms (m :: suf) -> below kids (mk m) = Ok None ->
  exists ok, first_ok m = Ok ok /\
    sem (Pivot kids ms) (mk m) = mrun (cur_of ok (msg_kvp m)) (for_key (mk m) suf).
Proof.
  intros H Hb. pose proof (pa_past _ _ _ _ _ _ _ H) as [Hm _]%Forall_cons.
  pose proof (pivat_sem _ _ _ _ _ _ _ _ H Hm) as E. rewrite Hb, bind_ok in E.
  unfold for_key in E. rewrite filter_cons_True in E by done. cbn [mrun] in E.
  destruct (pa_good _ _ _ _ _ _ _ H) as [_ Hok]. destruct (Hok (mk m)) as [c' Hc']. rewrite E in Hc'.
  apply bind_Ok in Hc' as (c1 & H1 & _). rewrite H1, bind_ok in E.
  apply first_ok_step in H1 as (ok & Hf & ->). by exists ok.
Qed.

Lemma done_below c p kids l key : kidsdone c p kids l -> past c key -> below kids key = Ok None.
Proof.
  intros (_ & Hn & _) Hk. apply below_none. eapply Forall_impl; [exact Hn|].
  intros kid Hkid Hin. unfold nonepast in Hkid. rewrite Forall_forall in Hkid. by apply (Hkid _ Hin).
Qed.

(** The child a cursor is at has the value of a key past the cut that is not
    after one of the child's. *)
Lemma kidat_below c n p b kids ms suf t key key' :
  pivat c n p b kids ms suf -> kidat c p kids t -> past c key -> key' ∈ tkeys t -> key_le key key' ->
  below kids key = sem t key.
Proof.
  intros H (kpre & s & kpost & E & _ & Hpre & _) Hk Hin Hle.
  pose proof (pa_good _ _ _ _ _ _ _ H) as [[Hb _]%ordered_pivot _].
  apply (below_at kids Hb kpre s t kpost); [done|exact (rep_kids_sorted _ _ _ _ _ (pa_rep _ _ _ _ _ _ _ H))| |].
  - eapply Forall_impl; [exact Hpre|]. intros kid Hkid Hk'. unfold nonepast in Hkid.
    rewrite Forall_forall in Hkid. by apply (Hkid _ Hk').
  - eapply Forall_impl; [by eapply kidat_before|]. intros kid. by apply key_le_lt_trans.
Qed.

(** ** The lowest entry *)

Lemma lowest_cons p l start : (1 <= start <= length l)%nat ->
  lowest fetch (p :: l) (S start) =
    ('(l, m, ok, src) ← lowest fetch l start; Ok (p :: l, m, ok, down 1 src)).
Proof.
  intros H. unfold lowest. destruct start as [|start]; [lia|]. cbn [Nat.sub lookup list_lookup drop take].
  rewrite Nat.sub_0_r. change (list_lookup start l) with (l !! start).
  destruct (l !! start) as [q|] eqn:Eq; [|done]. cbn [of_option]. rewrite !bind_ok.
  destruct (of_option (pblk q) Undef) as [b|]; [|done]. rewrite !bind_ok.
  destruct (pvi q <? nval b).
  - destruct (loadkids fetch q (drop (S start) l)) as [l'|]; [|done]. rewrite !bind_ok.
    assert (last (p :: take (S start) l ++ l') = last (take (S start) l ++ l')) as E.
    { destruct l as [|q0 l]; [done|]. done. }
    change ((p :: take (S start) l) ++ l') with (p :: take (S start) l ++ l'). rewrite E.
    destruct (of_option (last (take (S start) l ++ l')) Undef) as [q1|]; [|done]. rewrite !bind_ok.
    destruct (of_option (pblk q1) Undef) as [b1|]; [|done]. rewrite !bind_ok.
    destruct (getval b1 (pvi q1)) as [kv|]; [|done]. by rewrite !bind_ok.
  - destruct (getmsg b (pbi q)) as [m|]; [|done]. rewrite !bind_ok.
    destruct (first_ok m) as [ok|]; [|done]. rewrite !bind_ok. cbv beta iota.
    unfold down. destruct (Z.eqb_spec (Z.of_nat (S start) - 1) (-1)); [lia|]. repeat f_equal. lia.
Qed.

Lemma semi_start c t l start : semi c t l start -> (1 <= start <= length l)%nat.
Proof. induction 1; cbn; lia. Qed.

Lemma lowest_spec c t l start : semi c t l start ->
  exists l' m ok src, lowest fetch l start = Ok (l', m, ok, src) /\ length l' = length l /\ ready c t l' m ok src.
Proof.
  induction 1 as [t p kv suf H|p l b kids ms suf t' start Hp Hk Hs IH|p l b kids ms suf t' Hp Hk Hall Hl|p l b kids ms m suf Hp Hd].
  - destruct (leafat_block _ _ _ _ H) as (b & pre & Hb & -> & Ht & R & _ & _ & Hbi & Hvi & _).
    unfold lowest. cbn. rewrite Hb. cbn. rewrite (repr_nval _ _ _ R), Hvi, zlen_app, zlen_cons.
    pose proof (zlen_nonneg suf). destruct (Z.ltb_spec (zlen pre) (zlen pre + (1 + zlen suf))); [|lia].
    unfold zlen at 1.
    rewrite (getval_repr b (pre ++ kv :: suf) [] (length pre) kv R) by (by rewrite list_lookup_middle).
    rewrite bind_ok. eexists _, _, _, _. split; [done|]. split; [done|]. by eapply ready_leaf.
  - destruct IH as (l' & m & ok & src & E & Hlen & Hr). rewrite lowest_cons by (by eapply semi_start).
    rewrite E, bind_ok. eexists _, _, _, _. split; [done|]. split; [cbn; lia|]. rewrite <- Hlen in Hp. by eapply ready_kid.
  - pose proof Hp as Hp'. unfold lowest. cbn [Nat.sub lookup list_lookup of_option]. rewrite bind_ok, (pa_blk _ _ _ _ _ _ _ Hp).
    cbn [of_option]. rewrite bind_ok. destruct (pivat_counts _ _ _ _ _ _ _ Hp) as (Hv & _).
    destruct Hk as (kpre & s & kpost & E & Hvi & Hrest). rewrite Hv, Hvi, E, zlen_app, zlen_cons.
    pose proof (zlen_nonneg kpost). destruct (Z.ltb_spec (zlen kpre) (zlen kpre + (1 + zlen kpost))); [|lia].
    assert (kidat c p kids t') as Hk by (exists kpre, s, kpost; exact (conj E (conj Hvi Hrest))).
    destruct (loadkids_spec (length l) c p b kids ms suf t' Hp' Hk Hall) as (l' & q & lb & kv & El & Hlen & Hr & Hlast & Hq & Hget & _).
    change (drop 1 (p :: l)) with l. change (take 1 (p :: l)) with [p]. rewrite <- Hl in El. rewrite El, bind_ok.
    assert (last ([p] ++ l') = Some q) as Hlast' by (cbn; by destruct l').
    cbn [app] in *. rewrite Hlast'. cbn [of_option]. rewrite bind_ok, Hq. cbn [of_option]. rewrite bind_ok, Hget, bind_ok.
    eexists _, _, _, _. split; [done|]. split; [cbn; lia|]. rewrite <- E.
    rewrite <- Hlen in Hp. exact (ready_kid _ _ _ _ _ _ _ _ _ _ _ Hp Hk Hr).
  - unfold lowest. cbn [Nat.sub lookup list_lookup of_option]. rewrite bind_ok, (pa_blk _ _ _ _ _ _ _ Hp).
    cbn [of_option]. rewrite bind_ok. destruct (pivat_counts _ _ _ _ _ _ _ Hp) as (Hv & _).
    rewrite Hv. destruct (Z.ltb_spec (pvi p) (zlen kids)); [destruct Hd; lia|].
    rewrite (pivat_get _ _ _ _ _ _ _ _ Hp), bind_ok.
    destruct (pivat_first _ _ _ _ _ _ _ _ Hp) as (ok & Hf & _).
    { eapply done_below; [exact Hd|]. by pose proof (pa_past _ _ _ _ _ _ _ Hp) as [? _]%Forall_cons. }
    rewrite Hf, bind_ok. eexists _, _, _, _. split; [done|]. split; [done|]. by eapply ready_end.
Qed.

(** ** The least key *)

Lemma down_down i src : -1 <= src -> 0 <= i -> down i (down 1 src) = down (i + 1) src.
Proof. intros Hs Hi. unfold down. destruct (Z.eqb_spec src (-1)); cbn; [done|]. destruct (Z.eqb_spec (src + 1) (-1)); lia. Qed.

Lemma ready_src c t l m ok src : ready c t l m ok src -> -1 <= src.
Proof. induction 1; unfold down; [lia|destruct (_ =? _); lia|lia]. Qed.

Lemma chosen_src c t l m ok src : chosen c t l m ok src -> -1 <= src.
Proof. induction 1; unfold down; [lia|destruct (_ =? _); lia|lia|lia]. Qed.

Definition least (c : cut) (t : btree) (key : list Z) : Prop :=
  key ∈ tkeys t /\ past c key /\ Forall (fun x => past c x -> key_le key x) (tkeys t).

Lemma kv_sorted_head kv suf : StronglySorted key_lt (kv_keys (kv :: suf)) ->
  Forall (fun x => key_lt (k kv) (k x)) suf.
Proof. intros [_ H]%StronglySorted_inv. change (Forall (key_lt (k kv)) (k <$> suf)) in H. by rewrite Forall_fmap in H. Qed.

Lemma kvs_sorted_app_r a b : kvs_sorted (a ++ b) -> kvs_sorted b.
Proof. unfold kvs_sorted, kv_keys. rewrite fmap_app. apply StronglySorted_app_1_r. Qed.

(** The least key of a pivot is the least one of its messages and its child. *)
Lemma pivat_least c n p b kids ms suf key :
  pivat c n p b kids ms suf -> key ∈ tkeys (Pivot kids ms) -> past c key ->
  Forall (fun m => key_le key (mk m)) suf ->
  Forall (fun kid => Forall (fun x => past c x -> key_le key x) (tkeys kid.2)) kids ->
  least c (Pivot kids ms) key.
Proof.
  intros Hp Hin Hk Hsuf Hkids. split_and!; [done..|]. destruct (pa_msgs _ _ _ _ _ _ _ Hp) as (pre & E & _ & Hpre).
  apply Forall_forall. intros x [Hx|(s & t & Hx & Hx')]%tkeys_pivot Hpx.
  - apply list_elem_of_fmap in Hx as (m & -> & Hm). subst ms. apply elem_of_app in Hm as [Hm|Hm].
    + rewrite Forall_forall in Hpre. by destruct (Hpre _ Hm).
    + rewrite Forall_forall in Hsuf. by apply Hsuf.
  - rewrite Forall_forall in Hkids. specialize (Hkids _ Hx). rewrite Forall_forall in Hkids. by apply Hkids.
Qed.

Lemma kidat_least c n p b kids ms suf t key key' :
  pivat c n p b kids ms suf -> kidat c p kids t -> key' ∈ tkeys t -> key_le key key' ->
  Forall (fun x => past c x -> key_le key x) (tkeys t) ->
  Forall (fun kid => Forall (fun x => past c x -> key_le key x) (tkeys kid.2)) kids.
Proof.
  intros Hp (kpre & s & kpost & E & _ & Hpre & _) Hin Hle Ht.
  pose proof (kidat_before c n p b kids ms suf t key' kpre s kpost Hp E Hin) as Hpost.
  pose proof (pa_good _ _ _ _ _ _ _ Hp) as [[Hb _]%ordered_pivot _].
  rewrite E. apply Forall_app. split; [|constructor; [exact Ht|]].
  - eapply Forall_impl; [exact Hpre|]. intros kid Hn. eapply Forall_impl; [exact Hn|]. by intros x Hx ?.
  - apply Forall_forall. intros [s' t'] Hkid. apply Forall_forall. intros x Hx _. cbn in Hx.
    rewrite Forall_forall in Hpost. specialize (Hpost _ Hkid). cbn in Hpost. apply key_lt_le.
    eapply key_le_lt_trans; [exact Hle|]. eapply key_lt_le_trans; [exact Hpost|].
    assert ((s', t') ∈ kids) as [i Hi]%list_elem_of_lookup by (rewrite E; apply elem_of_app; right; by right).
    by apply (Hb _ _ _ _ Hi Hx).
Qed.

Lemma done_least c p kids l key : kidsdone c p kids l ->
  Forall (fun kid => Forall (fun x => past c x -> key_le key x) (tkeys kid.2)) kids.
Proof.
  intros (_ & H & _). eapply Forall_impl; [exact H|]. intros kid Hn. eapply Forall_impl; [exact Hn|]. by intros x Hx ?.
Qed.

Lemma suf_least m suf : msgs_sorted (m :: suf) -> Forall (fun n => key_le (mk m) (mk n)) (m :: suf).
Proof. intros H%msgs_sorted_tail. constructor; [done|apply H]. Qed.

Lemma pivat_head_in c n p b kids ms m suf : pivat c n p b kids ms (m :: suf) ->
  mk m ∈ tkeys (Pivot kids ms) /\ past c (mk m).
Proof.
  intros Hp. pose proof (pa_past _ _ _ _ _ _ _ Hp) as [H _]%Forall_cons. split; [|done].
  destruct (pa_msgs _ _ _ _ _ _ _ Hp) as (pre & -> & _).
  apply tkeys_pivot. left. unfold msg_keys. rewrite fmap_app. apply elem_of_app. right. left.
Qed.

Lemma chosen_least c t l m ok src : chosen c t l m ok src -> least c t (mk m).
Proof.
  induction 1 as [t p kv suf H|p l b kids ms suf t' m ok src Hp Hk Hc (Hin & Hpm & Hl) Hs
    |p l b kids ms m suf t' m' ok ok' src' Hp Hk Hr Hlt _|p l b kids ms m suf ok Hp Hd _].
  - destruct (leafat_block _ _ _ _ H) as (b & pre & _ & -> & _ & _ & Hs & _ & _ & _ & Hpre).
    pose proof (la_past _ _ _ _ H) as Hp. cbn [mk]. split_and!.
    + cbn. unfold kv_keys. rewrite fmap_app. apply elem_of_app. right. left.
    + by apply Forall_cons in Hp as [? _].
    + cbn. unfold kv_keys. rewrite Forall_fmap. apply Forall_app. split.
      * eapply Forall_impl; [exact Hpre|]. by intros x Hx ?.
      * constructor; [by intros _|]. apply kvs_sorted_app_r, kv_sorted_head in Hs.
        eapply Forall_impl; [exact Hs|]. intros x Hx _. by apply key_lt_le.
  - eapply pivat_least; [exact Hp| |done|done|by eapply kidat_least].
    by apply (pivat_kid _ _ _ _ _ _ _ _ Hp Hk).
  - destruct (pivat_head_in _ _ _ _ _ _ _ _ Hp) as [Hin Hpm].
    destruct (ready_key _ _ _ _ _ _ Hr) as [Hin' Hpm']. rewrite Forall_forall in Hlt.
    eapply pivat_least; [exact Hp|done|done| |].
    + apply suf_least. by apply (pivat_sorted _ _ _ _ _ _ _ Hp).
    + eapply kidat_least; [exact Hp|exact Hk|exact Hin'|by apply key_lt_le, Hlt|].
      apply Forall_forall. intros x Hx Hpx. by apply key_lt_le, Hlt.
  - destruct (pivat_head_in _ _ _ _ _ _ _ _ Hp) as [Hin Hpm].
    eapply pivat_least; [exact Hp|done|done| |by eapply done_least].
    apply suf_least. by apply (pivat_sorted _ _ _ _ _ _ _ Hp).
Qed.

Lemma ready_cons c t l m ok src : ready c t l m ok src -> exists p l', l = p :: l'.
Proof. intros []; eauto. Qed.

Lemma chosen_cons c t l m ok src : chosen c t l m ok src -> exists p l', l = p :: l'.
Proof. intros []; eauto. Qed.

Lemma pick_nils i n m ok src : pick i (replicate n nilp) m ok src = Ok (m, ok, src).
Proof.
  revert i. induction n as [|n IH]; intros i; [done|]. destruct n as [|n]; [done|].
  change (replicate (S (S n)) nilp) with (nilp :: replicate (S n) nilp).
  change (pick i (nilp :: replicate (S n) nilp) m ok src) with
    ('(m, ok, bufsrc) ← pick (i + 1) (replicate (S n) nilp) m ok src; Ok (m, ok, bufsrc)).
  by rewrite IH.
Qed.

Lemma pick_cons i p q l m ok src :
  pick i (p :: q :: l) m ok src =
    ('(m, ok, bufsrc) ← pick (i + 1) (q :: l) m ok src;
     match pblk p with
     | None => Ok (m, ok, bufsrc)
     | Some b =>
         if pbi p =? nbuf b then Ok (m, ok, bufsrc) else
         n ← getmsg b (pbi p);
         if keycmp (mk n) (mk m) <? 0 then ok ← first_ok n; Ok (n, ok, i)
         else Ok (m, ok, bufsrc)
     end).
Proof. done. Qed.

Lemma pick_spec c t l m ok src : ready c t l m ok src -> forall i, 0 <= i ->
  exists m' ok' src', pick i l m ok (down i src) = Ok (m', ok', down i src') /\ chosen c t l m' ok' src'.
Proof.
  induction 1 as [t p kv suf H|p l b kids ms suf t' m ok src Hp Hk Hr IH|p l b kids ms m suf ok Hp Hd Hf]; intros i Hi.
  - eexists _, _, _. split; [done|]. by eapply chosen_leaf.
  - pose proof (ready_src _ _ _ _ _ _ Hr) as Hsrc. rewrite down_down by done.
    destruct (IH (i + 1) ltac:(lia)) as (m' & ok' & src' & E & Hc). pose proof (chosen_src _ _ _ _ _ _ Hc) as Hsrc'.
    destruct (ready_cons _ _ _ _ _ _ Hr) as (q & l' & ->). rewrite pick_cons, E, bind_ok. cbv beta iota.
    rewrite (pa_blk _ _ _ _ _ _ _ Hp). destruct (pivat_counts _ _ _ _ _ _ _ Hp) as (_ & _ & Hm & _).
    destruct (chosen_least _ _ _ _ _ _ Hc) as (Hin & Hpm & Hl).
    destruct suf as [|n suf].
    + rewrite Hm, zlen_nil, Z.add_0_r, Z.eqb_refl. eexists _, _, (down 1 src'). rewrite down_down by done. split; [done|].
      eapply chosen_kid; [exact Hp|exact Hk|exact Hc|constructor].
    + rewrite zlen_cons in Hm. pose proof (zlen_nonneg suf). destruct (Z.eqb_spec (pbi p) (nbuf b)); [lia|].
      rewrite (pivat_get _ _ _ _ _ _ _ _ Hp), bind_ok. destruct (pivat_head_in _ _ _ _ _ _ _ _ Hp) as [_ Hpn].
      destruct (Z.ltb_spec (keycmp (mk n) (mk m')) 0) as [Hlt|Hge].
      * destruct (pivat_first _ _ _ _ _ _ _ _ Hp) as (ok1 & Hf & _).
        { rewrite (kidat_below _ _ _ _ _ _ _ _ _ _ Hp Hk Hpn Hin) by (by apply key_lt_le). apply sem_none. intros Hn.
          rewrite Forall_forall in Hl. apply (irreflexivity key_lt (mk n)). eapply key_lt_le_trans; [exact Hlt|]. by apply Hl. }
        rewrite Hf, bind_ok. eexists _, _, 0. split; [done|].
        eapply chosen_here; [exact Hp|exact Hk|exact Hr| |exact Hf].
        eapply Forall_impl; [exact Hl|]. intros x Hx Hpx. eapply key_lt_le_trans; [exact Hlt|]. by apply Hx.
      * eexists _, _, (down 1 src'). rewrite down_down by done. split; [done|].
        eapply chosen_kid; [exact Hp|exact Hk|exact Hc|].
        eapply Forall_impl; [apply suf_least, (pivat_sorted _ _ _ _ _ _ _ Hp)|]. cbn. intros x Hx. etrans; [|exact Hx].
        unfold key_le. rewrite keycmp_opp. lia.
  - pose proof (pivat_levels _ _ _ _ _ _ _ Hp) as Hlev. eexists _, _, 0. split; [|by eapply chosen_end].
    destruct Hd as (_ & _ & Hl). destruct l as [|q l]; [cbn in Hlev; lia|]. rewrite pick_cons, Hl.
    cbn [length]. rewrite pick_nils, bind_ok. cbv beta iota. rewrite (pa_blk _ _ _ _ _ _ _ Hp).
    destruct (pivat_counts _ _ _ _ _ _ _ Hp) as (_ & _ & Hm & _). rewrite zlen_cons in Hm. pose proof (zlen_nonneg suf).
    destruct (Z.eqb_spec (pbi p) (nbuf b)); [lia|]. rewrite (pivat_get _ _ _ _ _ _ _ _ Hp), bind_ok.
    by rewrite keycmp_refl.
Qed.

(** ** Collecting a key *)

Lemma run_split key suf : msgs_sorted suf -> Forall (fun m => key_le key (mk m)) suf ->
  exists suf', suf = for_key key suf ++ suf' /\ Forall (fun m => key_lt key (mk m)) suf'.
Proof.
  induction suf as [|m suf IH]; intros Hs Hle; [by exists []|]. apply Forall_cons in Hle as [Hm Hle].
  destruct (decide (mk m = key)) as [E|Hne].
  - destruct (IH (proj1 (msgs_sorted_tail _ _ Hs)) Hle) as (suf' & E' & H'). exists suf'. split; [|done].
    unfold for_key in *. rewrite filter_cons_True by done. cbn. by f_equal.
  - exists (m :: suf). rewrite for_key_later by done. split; [done|].
    pose proof (suf_least _ _ Hs) as Hall. eapply Forall_impl; [exact Hall|]. intros x Hx.
    eapply key_lt_le_trans; [|exact Hx]. apply key_lt_strict. split; [done|]. intros ->. by apply Hne.
Qed.

Lemma apply_key ok r m c : mstep (cur_of ok r) m = Ok c -> msg_small m -> k r = mk m ->
  exists ok' r', apply r m Kvmax = Ok (ok', r') /\ cur_of ok' r' = c /\ k r' = mk m.
Proof.
  intros H Hs Hk. destruct (apply_look ok r m c Kvmax H Hs (fun _ => Hk)) as (ok' & r' & E & Hc & _); [done|].
  exists ok', r'. split_and!; [done..|]. apply apply_shape in E as [[_ ->]|[(_ & _ & ->)|(_ & E & _)]]; [done|done|congruence].
Qed.

Lemma drainrun_spec b kvs key pre suf c : forall fuel ok r,
  blk_repr b kvs (pre ++ suf) -> btyp b = Tpivot -> msgs_sorted suf -> Forall msg_good suf ->
  Forall (fun m => key_le key (mk m)) suf -> k r = key ->
  mrun (cur_of ok r) (for_key key suf) = Ok c -> (length suf <= fuel)%nat ->
  exists ok' r', drainrun fuel b (zlen pre) ok r = Ok (zlen (pre ++ for_key key suf), ok', r') /\
    cur_of ok' r' = c /\ k r' = key.
Proof.
  revert pre. induction suf as [|m suf IH]; intros pre fuel ok r R Ht Hs Hg Hle Hk Hrun Hf;
    destruct fuel as [|fuel]; cbn [length drainrun] in *; try lia.
  - rewrite (repr_nbuf _ _ _ R), app_nil_r, Z.leb_refl. cbn in *. apply Ok_inj in Hrun. rewrite app_nil_r. eauto.
  - rewrite (repr_nbuf _ _ _ R), app_nil_r, Z.leb_refl. cbn in *. apply Ok_inj in Hrun. rewrite app_nil_r. eauto.
  - rewrite (repr_nbuf _ _ _ R), zlen_app, zlen_cons. pose proof (zlen_nonneg suf).
    destruct (Z.leb_spec (zlen pre + (1 + zlen suf)) (zlen pre)); [lia|].
    assert (getmsg b (zlen pre) = Ok m) as ->
      by (apply (getmsg_repr b kvs (pre ++ m :: suf) (length pre) m R Ht); by rewrite list_lookup_middle).
    rewrite bind_ok. apply Forall_cons in Hg as [Hgm Hg], Hle as [Hlm Hle]. rewrite Hk.
    destruct (Z.eqb_spec (keycmp key (mk m)) 0) as [E%keycmp_eq|E]; cbn [negb].
    + symmetry in E. unfold for_key in Hrun |- *. rewrite filter_cons_True in Hrun |- * by exact E. cbn [mrun] in Hrun.
      apply bind_Ok in Hrun as (c1 & Hm & Hrun).
      destruct (apply_key ok r m c1 Hm (proj1 Hgm)) as (ok1 & r1 & -> & Hc1 & Hk1); [congruence|].
      rewrite bind_ok. subst c1. apply msgs_sorted_tail in Hs as [Hs _].
      replace (zlen pre + 1) with (zlen (pre ++ [m])) by (rewrite zlen_app; done).
      destruct (IH (pre ++ [m]) fuel ok1 r1) as (ok2 & r2 & H2 & Hc2 & Hk2); try done;
        [by rewrite <- app_assoc|congruence|lia|].
      cbv beta iota. rewrite H2. exists ok2, r2. by rewrite <- app_assoc.
    + rewrite for_key_later in Hrun |- *; [|done|done|intros <-; apply E, keycmp_refl
        |done|done|intros <-; apply E, keycmp_refl].
      cbn in Hrun. apply Ok_inj in Hrun. rewrite app_nil_r. eauto.
Qed.

(** One level, past the first [d] of its messages for the key. *)
Lemma drain_level c n p b kids ms d suf key ok r cc :
  pivat c n p b kids ms (d ++ suf) -> Forall (fun m => mk m = key) d -> past c key ->
  Forall (fun m => key_le key (mk m)) suf -> k r = key -> mrun (cur_of ok r) (for_key key suf) = Ok cc ->
  exists bi ok' r' suf', drainrun (Z.to_nat (nbuf b)) b (pbi p + zlen d) ok r = Ok (bi, ok', r') /\
    cur_of ok' r' = cc /\ k r' = key /\ pivat (key, true) n (mkScanp bi (pvi p) (pblk p)) b kids ms suf'.
Proof.
  intros Hp Hd Hpk Hle Hk Hrun.
  destruct (pivat_block _ _ _ _ _ _ _ Hp) as (Ht & _ & _ & _ & kvs & R & _).
  destruct (pa_msgs _ _ _ _ _ _ _ Hp) as (pre & Em & Hbi & Hpre).
  destruct (pivat_sorted _ _ _ _ _ _ _ Hp) as [Hs Hg].
  assert (msgs_sorted suf) as Hss.
  { unfold msgs_sorted, keys_sorted, msg_keys in *. rewrite fmap_app in Hs. by eapply StronglySorted_app_1_r. }
  apply Forall_app in Hg as [_ Hg]. rewrite Em, app_assoc in R.
  destruct (drainrun_spec b kvs key (pre ++ d) suf cc (Z.to_nat (nbuf b)) ok r R Ht Hss Hg Hle Hk Hrun) as (ok' & r' & E & Hc & Hk').
  { rewrite (repr_nbuf _ _ _ R), zlen_app. unfold zlen. lia. }
  destruct (run_split key suf Hss Hle) as (suf' & Esuf & Hlt).
  exists (zlen ((pre ++ d) ++ for_key key suf)), ok', r', suf'. split_and!; [|done|done|].
  - by rewrite Hbi, <- zlen_app.
  - split; [apply Hp|apply Hp|apply Hp| |exact Hlt].
    exists ((pre ++ d) ++ for_key key suf). split_and!; [|done|].
    + rewrite Em, Esuf at 1. by rewrite <- !app_assoc.
    + assert (forall m, mk m = key -> ~ past (key, true) (mk m)) as Hirr by (intros m -> ?; by apply (irreflexivity key_lt key)).
      apply Forall_app. split; [apply Forall_app; split|].
      * eapply Forall_impl; [exact Hpre|]. intros m. by apply not_past_after.
      * eapply Forall_impl; [exact Hd|]. exact Hirr.
      * apply Forall_forall. intros m [Hm _]%list_elem_of_filter. by apply Hirr.
Qed.

Lemma nonepast_next c key kids : past c key -> Forall (nonepast c) kids -> Forall (nonepast (key, true)) kids.
Proof.
  intros Hk H. eapply Forall_impl; [exact H|]. intros kid Hn. eapply Forall_impl; [exact Hn|].
  intros x. by apply not_past_after.
Qed.

Lemma kidat_next c n p p' b kids ms suf t key key' :
  pivat c n p b kids ms suf -> kidat c p kids t -> past c key -> key' ∈ tkeys t -> key_le key key' ->
  pvi p' = pvi p -> kidat (key, true) p' kids t.
Proof.
  intros Hp (kpre & s & kpost & E & Hvi & Hpre & _) Hk Hin Hle Hv.
  exists kpre, s, kpost. split_and!; [done|by rewrite Hv|by eapply nonepast_next|].
  eapply Forall_impl; [by eapply kidat_before|]. intros kid. by apply key_le_lt_trans.
Qed.

Lemma kidsdone_next c p p' kids l key : kidsdone c p kids l -> past c key -> pvi p' = pvi p ->
  kidsdone (key, true) p' kids l.
Proof. intros (H1 & H2 & H3) Hk Hv. split_and!; [by rewrite Hv|by eapply nonepast_next|done]. Qed.

Lemma drain_nils n ok r : drain (replicate n nilp) ok r = Ok (replicate n nilp, ok, r).
Proof.
  induction n as [|n IH]; [done|]. destruct n as [|n]; [done|].
  change (drain (replicate (S (S n)) nilp) ok r) with
    ('(l, ok, r) ← drain (replicate (S n) nilp) ok r; Ok (nilp :: l, ok, r)).
  by rewrite IH.
Qed.

Lemma drain_cons p q l ok r b : pblk p = Some b ->
  drain (p :: q :: l) ok r =
    ('(l, ok, r) ← drain (q :: l) ok r;
     '(bi, ok, r) ← drainrun (Z.to_nat (nbuf b)) b (pbi p) ok r;
     Ok (mkScanp bi (pvi p) (pblk p) :: l, ok, r)).
Proof. intros E. change (drain (p :: q :: l)) with (fun ok r => '(l, ok, r) ← drain (q :: l) ok r;
      match pblk p with
      | None => Ok (p :: l, ok, r)
      | Some b =>
          '(bi, ok, r) ← drainrun (Z.to_nat (nbuf b)) b (pbi p) ok r;
          Ok (mkScanp bi (pvi p) (pblk p) :: l, ok, r)
      end). cbv beta. by rewrite E. Qed.

Lemma for_key_none_lt key suf : Forall (fun m => key_lt key (mk m)) suf -> for_key key suf = [].
Proof.
  intros H. apply filter_none. eapply Forall_impl; [exact H|]. intros m Hm <-. by apply (irreflexivity key_lt (mk m)).
Qed.

Lemma drain_level0 c n p b kids ms suf key ok r :
  pivat c n p b kids ms suf -> past c key -> Forall (fun m => key_lt key (mk m)) suf -> k r = key ->
  exists bi ok' r' suf', drainrun (Z.to_nat (nbuf b)) b (pbi p) ok r = Ok (bi, ok', r') /\
    cur_of ok' r' = cur_of ok r /\ k r' = key /\ pivat (key, true) n (mkScanp bi (pvi p) (pblk p)) b kids ms suf'.
Proof.
  intros Hp Hpk Hlt Hk. rewrite <- (Z.add_0_r (pbi p)).
  apply (drain_level c n p b kids ms [] suf key ok r (cur_of ok r)); try done.
  - eapply Forall_impl; [exact Hlt|]. intros x. apply key_lt_le.
  - by rewrite for_key_none_lt.
Qed.

Lemma suf_after c n p b kids ms suf key : pivat c n p b kids ms suf ->
  Forall (fun x => past c x -> key_lt key x) (tkeys (Pivot kids ms)) -> Forall (fun m => key_lt key (mk m)) suf.
Proof.
  intros Hp Hlt. pose proof (pa_past _ _ _ _ _ _ _ Hp) as Hpast. destruct (pa_msgs _ _ _ _ _ _ _ Hp) as (pre & -> & _).
  rewrite Forall_forall in Hlt. rewrite Forall_forall in Hpast. apply Forall_forall. intros x Hx.
  apply Hlt; [|by apply Hpast]. apply tkeys_pivot. left. unfold msg_keys. rewrite fmap_app. apply elem_of_app. right.
  apply list_elem_of_fmap. eauto.
Qed.

(** Levels that hold nothing for the key stay as they are. *)
Lemma drain_idle c t l m0 ok0 src0 key ok r : ready c t l m0 ok0 src0 -> past c key -> k r = key ->
  Forall (fun x => past c x -> key_lt key x) (tkeys t) ->
  exists l' ok' r', drain l ok r = Ok (l', ok', r') /\ length l' = length l /\ cur_of ok' r' = cur_of ok r /\
    k r' = key /\ cur (key, true) t l'.
Proof.
  intros H Hpk Hk. revert ok r Hk.
  induction H as [t p kv suf H|p l b kids ms suf t' m ok0 src Hp Hka Hr IH|p l b kids ms m suf ok0 Hp Hd Hf]; intros ok r Hk Hlt.
  - exists [p], ok, r. split_and!; try done. eapply cur_leaf. split; [apply H| |].
    + destruct (la_block _ _ _ _ H) as (b & pre & ? & ? & ? & ? & ? & Hpre). exists b, pre. split_and!; try done.
      eapply Forall_impl; [exact Hpre|]. intros x. by apply not_past_after.
    + destruct (leafat_block _ _ _ _ H) as (b & pre & _ & -> & _). pose proof (la_past _ _ _ _ H) as Hpast.
      cbn in Hlt. unfold kv_keys in Hlt. rewrite Forall_fmap in Hlt. apply Forall_app in Hlt as [_ Hlt].
      apply Forall_forall. intros x Hx. rewrite Forall_forall in Hlt, Hpast. by apply (Hlt x Hx), Hpast.
  - pose proof (pivat_kid _ _ _ _ _ _ _ _ Hp Hka) as (_ & _ & Hsub).
    destruct (IH ok r Hk) as (l' & ok1 & r1 & E & Hlen & Hc & Hk1 & Hcur).
    { rewrite Forall_forall in Hlt |- *. intros x Hx. by apply Hlt, Hsub. }
    destruct (ready_key _ _ _ _ _ _ Hr) as [Hin Hpm].
    assert (Forall (fun m => key_lt key (mk m)) suf) as Hsuf by (by eapply suf_after).
    destruct (drain_level0 c _ p b kids ms suf key ok1 r1 Hp Hpk Hsuf Hk1) as (bi & ok2 & r2 & suf' & E2 & Hc2 & Hk2 & Hp2).
    destruct (ready_cons _ _ _ _ _ _ Hr) as (q & l1 & ->). rewrite (drain_cons _ _ _ _ _ b) by apply Hp.
    rewrite E, bind_ok. cbv beta iota. rewrite E2, bind_ok.
    eexists _, _, _. split; [done|]. split; [cbn in *; lia|]. split; [congruence|]. split; [done|].
    rewrite <- Hlen in Hp2. eapply cur_kid; [exact Hp2| |exact Hcur].
    eapply kidat_next; [exact Hp|exact Hka|done|exact Hin| |done]. apply key_lt_le.
    rewrite Forall_forall in Hlt. apply Hlt; [by apply Hsub|done].
  - assert (Forall (fun m => key_lt key (mk m)) (m :: suf)) as Hsuf by (by eapply suf_after).
    destruct (drain_level0 c _ p b kids ms _ key ok r Hp Hpk Hsuf Hk) as (bi & ok2 & r2 & suf' & E2 & Hc2 & Hk2 & Hp2).
    pose proof (pivat_levels _ _ _ _ _ _ _ Hp) as Hlev. pose proof Hd as (_ & _ & Hl).
    destruct l as [|q l]; [cbn in Hlev; lia|]. rewrite (drain_cons _ _ _ _ _ b) by apply Hp.
    assert (drain (q :: l) ok r = Ok (q :: l, ok, r)) as -> by (rewrite Hl; apply drain_nils).
    rewrite bind_ok. cbv beta iota. rewrite E2, bind_ok. eexists _, _, _. split; [done|]. split; [done|]. split; [done|].
    split; [done|]. eapply cur_end; [exact Hp2|]. by eapply kidsdone_next.
Qed.

Lemma bump_down src p q l : -1 <= src -> bump (down 1 src) (p :: q :: l) = p :: bump src (q :: l).
Proof.
  intros H. unfold bump, down. destruct (Z.eqb_spec src (-1)) as [->|].
  { cbn [Z.eqb Pos.eqb length]. by replace (S (S (length l)) - 1)%nat with (S (S (length l) - 1)) by lia. }
  destruct (Z.eqb_spec (src + 1) (-1)); [lia|]. by replace (Z.to_nat (src + 1)) with (S (Z.to_nat src)) by lia.
Qed.

Lemma bump_length src l : length (bump src l) = length l.
Proof. unfold bump. destruct (src =? -1); apply length_alter. Qed.

Lemma drain_one b p q l src ok r :
  -1 <= src -> pblk p = Some b -> 
  drain (bump (down 1 src) (p :: q :: l)) ok r =
    ('(l, ok, r) ← drain (bump src (q :: l)) ok r;
     '(bi, ok, r) ← drainrun (Z.to_nat (nbuf b)) b (pbi p) ok r;
     Ok (mkScanp bi (pvi p) (pblk p) :: l, ok, r)).
Proof.
  intros Hs Hb. rewrite bump_down by done. pose proof (bump_length src (q :: l)) as Hl.
  destruct (bump src (q :: l)) as [|q' l']; [done|]. by apply drain_cons.
Qed.

(** A level whose message is the first item. *)
Lemma drain_first c n p b kids ms m suf ok ok1 r1 :
  pivat c n p b kids ms (m :: suf) -> below kids (mk m) = Ok None -> first_ok m = Ok ok ->
  cur_of ok1 r1 = cur_of ok (msg_kvp m) -> k r1 = mk m ->
  exists bi ok' r' suf', drainrun (Z.to_nat (nbuf b)) b (pbi p + 1) ok1 r1 = Ok (bi, ok', r') /\
    sem (Pivot kids ms) (mk m) = Ok (cur_of ok' r') /\ k r' = mk m /\
    pivat (mk m, true) n (mkScanp bi (pvi p) (pblk p)) b kids ms suf'.
Proof.
  intros Hp Hbel Hf Hc Hk. destruct (pivat_head_in _ _ _ _ _ _ _ _ Hp) as [_ Hpm].
  destruct (pivat_first _ _ _ _ _ _ _ _ Hp Hbel) as (ok' & Hf' & Hsem). rewrite Hf in Hf'. apply Ok_inj in Hf' as <-.
  destruct (pa_good _ _ _ _ _ _ _ Hp) as [_ Hok]. destruct (Hok (mk m)) as [cc Hcc]. rewrite Hsem in Hcc.
  pose proof (suf_least _ _ (proj1 (pivat_sorted _ _ _ _ _ _ _ Hp))) as [_ Hle]%Forall_cons.
  destruct (drain_level c n p b kids ms [m] suf (mk m) ok1 r1 cc Hp) as (bi & ok2 & r2 & suf' & E & Hc2 & Hk2 & Hp2); try done.
  - by constructor.
  - by rewrite Hc.
  - exists bi, ok2, r2, suf'. split_and!; [done|by rewrite Hsem, Hcc, Hc2|done|done].
Qed.

(** The key chosen is collected at all levels: *r is what the tree means for
    it, and the cursors are past it. *)
Lemma drain_spec c t l m ok src : chosen c t l m ok src ->
  exists l' ok' r', drain (bump src l) ok (msg_kvp m) = Ok (l', ok', r') /\ length l' = length l /\
    k r' = mk m /\ sem t (mk m) = Ok (cur_of ok' r') /\ cur (mk m, true) t l'.
Proof.
  induction 1 as [t p kv suf H|p l b kids ms suf t' m ok src Hp Hka Hc IH Hs
    |p l b kids ms m suf t' m' ok ok' src' Hp Hka Hr Hlt Hf|p l b kids ms m suf ok Hp Hd Hf].
  - destruct (leafat_block _ _ _ _ H) as (b & pre & Hb & -> & Ht & R & Hsort & Hg & Hbi & Hvi & Hpre).
    exists [mkScanp (pbi p) (pvi p + 1) (pblk p)], true, kv. cbn [mk].
    pose proof (la_past _ _ _ _ H) as [Hpk _]%Forall_cons. split_and!; [by destruct kv|done|done| |].
    + cbn [sem cur_of]. f_equal. apply (findkv_at _ _ (length pre)); [done|by rewrite list_lookup_middle|done].
    + apply (cur_leaf _ _ _ suf). pose proof (la_block _ _ _ _ H) as (b2 & _ & Hb2 & _). split; [apply H| |].
      * exists b, (pre ++ [kv]). rewrite <- app_assoc. split_and!; try done.
        -- cbn [pvi]. rewrite Hvi, zlen_app. done.
        -- apply Forall_app. split.
           ++ eapply Forall_impl; [exact Hpre|]. intros x. by apply not_past_after.
           ++ constructor; [|constructor]. by apply (irreflexivity key_lt).
      * apply kvs_sorted_app_r, kv_sorted_head in Hsort. exact Hsort.
  - pose proof (chosen_src _ _ _ _ _ _ Hc) as Hsrc. destruct IH as (l' & ok1 & r1 & E & Hlen & Hk1 & Hsem & Hcur).
    destruct (chosen_least _ _ _ _ _ _ Hc) as (Hin & Hpm & _).
    pose proof (pivat_sem _ _ _ _ _ _ _ _ Hp Hpm) as Ht.
    rewrite (kidat_below _ _ _ _ _ _ _ _ _ _ Hp Hka Hpm Hin) in Ht by done. rewrite Hsem, bind_ok in Ht.
    destruct (pa_good _ _ _ _ _ _ _ Hp) as [_ Hok]. destruct (Hok (mk m)) as [cc Hcc]. rewrite Ht in Hcc.
    destruct (drain_level c _ p b kids ms [] suf (mk m) ok1 r1 cc Hp) as (bi & ok2 & r2 & suf' & E2 & Hc2 & Hk2 & Hp2); try done.
    rewrite zlen_nil, Z.add_0_r in E2. destruct (chosen_cons _ _ _ _ _ _ Hc) as (q & l1 & ->).
    rewrite (drain_one b) by (done || apply Hp). rewrite E, bind_ok. cbv beta iota. rewrite E2, bind_ok.
    eexists _, _, _. split; [done|]. split; [cbn in *; lia|]. split; [done|]. split; [by rewrite Ht, Hcc, Hc2|].
    rewrite <- Hlen in Hp2. eapply cur_kid; [exact Hp2| |exact Hcur].
    eapply kidat_next; [exact Hp|exact Hka|done|exact Hin|done|done].
  - destruct (pivat_head_in _ _ _ _ _ _ _ _ Hp) as [_ Hpm]. destruct (ready_key _ _ _ _ _ _ Hr) as [Hin Hpm'].
    assert (key_lt (mk m) (mk m')) as Hmm by (rewrite Forall_forall in Hlt; by apply Hlt).
    assert (below kids (mk m) = Ok None) as Hbel.
    { rewrite (kidat_below _ _ _ _ _ _ _ _ _ _ Hp Hka Hpm Hin) by (by apply key_lt_le). apply sem_none. intros Hm.
      rewrite Forall_forall in Hlt. by apply (irreflexivity key_lt (mk m)), Hlt. }
    destruct (drain_idle _ _ _ _ _ _ (mk m) ok (msg_kvp m) Hr Hpm eq_refl Hlt) as (l' & ok1 & r1 & E & Hlen & Hc1 & Hk1 & Hcur).
    destruct (drain_first _ _ p b kids ms m suf ok ok1 r1 Hp Hbel Hf Hc1 Hk1) as (bi & ok2 & r2 & suf' & E2 & Hsem & Hk2 & Hp2).
    destruct (ready_cons _ _ _ _ _ _ Hr) as (q & l1 & ->). change (bump 0 (p :: q :: l1)) with (mkScanp (pbi p + 1) (pvi p) (pblk p) :: q :: l1).
    rewrite (drain_cons _ _ _ _ _ b) by apply Hp. rewrite E, bind_ok. cbn [pbi pvi pblk]. rewrite E2, bind_ok.
    eexists _, _, _. split; [done|]. split; [cbn in *; lia|]. split; [done|]. split; [done|].
    rewrite <- Hlen in Hp2. eapply cur_kid; [exact Hp2| |exact Hcur].
    eapply kidat_next; [exact Hp|exact Hka|done|exact Hin|by apply key_lt_le|done].
  - destruct (pivat_head_in _ _ _ _ _ _ _ _ Hp) as [_ Hpm].
    destruct (drain_first _ _ p b kids ms m suf ok ok (msg_kvp m) Hp (done_below _ _ _ _ _ Hd Hpm) Hf eq_refl eq_refl)
      as (bi & ok2 & r2 & suf' & E2 & Hsem & Hk2 & Hp2).
    pose proof (pivat_levels _ _ _ _ _ _ _ Hp) as Hlev. pose proof Hd as (_ & _ & Hl).
    destruct l as [|q l]; [cbn in Hlev; lia|].
    change (bump 0 (p :: q :: l)) with (mkScanp (pbi p + 1) (pvi p) (pblk p) :: q :: l).
    rewrite (drain_cons _ _ _ _ _ b) by apply Hp.
    assert (drain (q :: l) ok (msg_kvp m) = Ok (q :: l, ok, msg_kvp m)) as -> by (rewrite Hl; apply drain_nils).
    rewrite bind_ok. cbn [pbi pvi pblk]. rewrite E2, bind_ok. eexists _, _, _. split; [done|]. split; [done|]. split; [done|].
    split; [done|]. eapply cur_end; [exact Hp2|]. by eapply kidsdone_next.
Qed.

(** ** Where a scan starts *)

Lemma split_by {A} (P : A -> Prop) (l : list A) n :
  (n <= length l)%nat -> (forall j x, l !! j = Some x -> (j < n)%nat <-> ~ P x) -> (forall x, Decision (P x)) ->
  Forall (fun x => ~ P x) (take n l) /\ Forall P (drop n l).
Proof.
  intros Hn H Hdec. split; apply Forall_lookup; intros j x Hj.
  - apply lookup_take_Some in Hj as [Hj Hl]. by apply (H j x).
  - rewrite lookup_drop in Hj. destruct (Hdec x) as [|Hx]; [done|]. apply (H _ _ Hj) in Hx. lia.
Qed.

Lemma skiprun_spec b kvs m run suf : forall pre fuel,
  blk_repr b kvs (pre ++ run ++ suf) -> btyp b = Tpivot -> Forall (fun x => mk x = mk m) run ->
  (forall x suf', suf = x :: suf' -> mk x <> mk m) -> (length run + length suf <= fuel)%nat ->
  skiprun fuel b m (zlen pre) = Ok (zlen (pre ++ run)).
Proof.
  induction run as [|x run IH]; intros pre fuel R Ht Hrun Hsuf Hf.
  - rewrite app_nil_r. cbn [app] in R. destruct suf as [|x suf].
    + destruct fuel as [|fuel]; cbn [skiprun]; by rewrite (repr_nbuf _ _ _ R), app_nil_r, Z.leb_refl.
    + destruct fuel as [|fuel]; [cbn in Hf; lia|]. cbn [skiprun]. rewrite (repr_nbuf _ _ _ R), zlen_app, zlen_cons.
      pose proof (zlen_nonneg suf). destruct (Z.leb_spec (zlen pre + (1 + zlen suf)) (zlen pre)); [lia|].
      assert (getmsg b (zlen pre) = Ok x) as ->
        by (apply (getmsg_repr b kvs (pre ++ x :: suf) (length pre) x R Ht); by rewrite list_lookup_middle).
      rewrite bind_ok. destruct (Z.eqb_spec (keycmp (mk m) (mk x)) 0) as [E%keycmp_eq|]; [|done].
      by destruct (Hsuf x suf eq_refl).
  - apply Forall_cons in Hrun as [Hx Hrun]. destruct fuel as [|fuel]; [cbn in Hf; lia|].
    cbn [skiprun]. rewrite (repr_nbuf _ _ _ R), zlen_app, zlen_app, zlen_cons.
    pose proof (zlen_nonneg suf). pose proof (zlen_nonneg run).
    destruct (Z.leb_spec (zlen pre + (1 + zlen run + zlen suf)) (zlen pre)); [lia|].
    assert (getmsg b (zlen pre) = Ok x) as ->
      by (apply (getmsg_repr b kvs (pre ++ x :: run ++ suf) (length pre) x R Ht); by rewrite list_lookup_middle).
    rewrite bind_ok, Hx, keycmp_refl. cbn [Z.eqb negb].
    replace (zlen pre + 1) with (zlen (pre ++ [x])) by (rewrite zlen_app; done).
    rewrite (IH (pre ++ [x]) fuel); try done; [by rewrite <- app_assoc|by rewrite <- app_assoc|cbn in Hf; lia].
Qed.

Lemma past_both key first x : key_lt key x -> past (key, negb first) x.
Proof. intros H. destruct first; cbn; [by apply key_lt_le|done]. Qed.

Lemma not_past_both key first x : key_lt x key -> ~ past (key, negb first) x.
Proof. intros H H2. apply (irreflexivity key_lt x). destruct first; cbn in H2; [by eapply key_lt_le_trans|by etrans]. Qed.

Lemma enterbuf_spec b kvs ms key first :
  blk_repr b kvs ms -> btyp b = Tpivot -> msgs_sorted ms ->
  exists bi, enterbuf b key first = Ok bi /\
    exists pre suf, ms = pre ++ suf /\ bi = zlen pre /\
      Forall (fun m => ~ past (key, negb first) (mk m)) pre /\ Forall (fun m => past (key, negb first) (mk m)) suf.
Proof.
  intros R Ht Hs. pose proof (bufsearch_repr b kvs ms key R Ht Hs) as Hb.
  destruct (buf_split key ms Hs) as (pre & suf & E & Hlow & _ & Hss & Hle).
  assert (Forall (fun m => key_lt (mk m) key) pre) as Hlt.
  { apply Forall_lookup. intros i m Hi. pose proof (lowerb_lookup key (msg_keys ms) Hs i (mk m)) as Hl.
    apply Hl; [|rewrite Hlow; by eapply lookup_lt_Some]. unfold msg_keys. rewrite list_lookup_fmap, E, lookup_app_l by (by eapply lookup_lt_Some).
    by rewrite Hi. }
  assert (Forall (fun m => ~ past (key, negb first) (mk m)) pre) as Hpre
    by (eapply Forall_impl; [exact Hlt|]; intros m; apply not_past_both).
  unfold search_ref in Hb. rewrite Hlow in Hb. unfold enterbuf.
  destruct (decide (msg_keys ms !! length pre = Some key)) as [Hd|Hd].
  - rewrite Hb, bind_ok. cbv beta iota. destruct (Z.eqb_spec (Z.of_nat (length pre)) (-1)); [lia|]. cbn [negb orb].
    unfold msg_keys in Hd. rewrite list_lookup_fmap, fmap_Some in Hd. destruct Hd as (m & Hm & Hkm).
    destruct first; cbn [negb] in *.
    + exists (zlen pre). split; [done|]. by exists pre, suf.
    + destruct (Z.leb_spec 0 (Z.of_nat (length pre))); [|lia]. rewrite Nat2Z.id, Hm. cbn [of_option]. rewrite bind_ok.
      destruct (run_split key suf Hss Hle) as (suf' & Es & Hsuf').
      assert (Forall (fun x => mk x = mk m) (for_key key suf)) as Hrun.
      { apply Forall_forall. intros x [Hx _]%list_elem_of_filter. by rewrite Hx. }
      change (Z.of_nat (length pre)) with (zlen pre).
      rewrite (skiprun_spec b kvs m (for_key key suf) suf' pre).
      * eexists. split; [done|]. exists (pre ++ for_key key suf), suf'. split_and!; [|done| |done].
        -- by rewrite E, <- app_assoc, <- Es.
        -- apply Forall_app. split; [done|]. eapply Forall_impl; [exact Hrun|]. intros x -> Hx. cbn in Hx.
           rewrite Hkm in Hx. by apply (irreflexivity key_lt (mk m)).
      * by rewrite <- Es, <- E.
      * done.
      * done.
      * intros x s -> Hx. apply Forall_cons in Hsuf' as [Hsuf' _]. rewrite Hx, Hkm in Hsuf'. by apply (irreflexivity key_lt (mk m)).
      * rewrite (repr_nbuf _ _ _ R), E. unfold zlen. rewrite Nat2Z.id, length_app.
        assert (length suf = length (for_key key suf) + length suf')%nat as ->; [rewrite Es at 1; apply length_app|lia].
  - rewrite Hb, bind_ok. cbv beta iota.
    assert (Forall (fun m => key_lt key (mk m)) suf) as Hgt.
    { destruct suf as [|x suf]; [constructor|]. assert (key <> mk x) as Hne.
      { intros ->. apply Hd. unfold msg_keys. by rewrite list_lookup_fmap, E, list_lookup_middle. }
      apply Forall_cons in Hle as [Hx _]. eapply Forall_impl; [by apply suf_least|]. intros y.
      apply key_lt_le_trans. by apply key_lt_strict. }
    assert (Forall (fun m => past (key, negb first) (mk m)) suf) as Hsuf
      by (eapply Forall_impl; [exact Hgt|]; intros x; apply past_both).
    destruct pre as [|m pre _] using rev_ind.
    + cbn [length Z.of_nat Z.sub Z.opp Z.add Pos.add Z.eqb Pos.eqb]. exists 0. split; [done|]. by exists [], suf.
    + rewrite length_app. cbn [length]. destruct (Z.eqb_spec (Z.of_nat (length pre + 1) - 1) (-1)); [lia|]. cbn [negb orb].
      destruct (Z.leb_spec 0 (Z.of_nat (length pre + 1) - 1)); [|lia].
      replace (Z.to_nat (Z.of_nat (length pre + 1) - 1)) with (length pre) by lia.
      assert (ms !! length pre = Some m) as -> by (rewrite E, <- app_assoc; cbn [app]; by rewrite list_lookup_middle).
      cbn [of_option]. rewrite bind_ok.
      replace (Z.of_nat (length pre + 1) - 1) with (zlen pre) by (unfold zlen; lia).
      rewrite (skiprun_spec b kvs m [m] suf pre); [|by rewrite app_assoc, <- E|done|by constructor| |].
      * eexists. split; [done|]. by exists (pre ++ [m]), suf.
      * intros x s -> Hx. apply Forall_cons in Hgt as [Hgt _]. apply Forall_app in Hlt as [_ [Hlt _]%Forall_cons].
        rewrite Hx in Hgt. apply (irreflexivity key_lt (mk m)). by etrans.
      * rewrite (repr_nbuf _ _ _ R), E. unfold zlen. rewrite Nat2Z.id, !length_app. cbn. lia.
Qed.

Lemma kvs_sorted_weak kvs : kvs_sorted kvs -> keys_sorted (kv_keys kvs).
Proof.
  unfold kvs_sorted, keys_sorted. induction 1 as [|x l _ IH Hx]; constructor; [done|].
  eapply Forall_impl; [exact Hx|]. apply key_lt_le.
Qed.

(** The cursor of a leaf. *)
Lemma leaf_start b kvs key first :
  blk_repr b kvs [] -> kvs_sorted kvs ->
  exists i ov same, blksearch b key = Ok (i, ov, same) /\
    let vi := if (i =? -1) || negb same || negb first then i + 1 else i in
    exists pre suf, kvs = pre ++ suf /\ vi = zlen pre /\
      Forall (fun kv => ~ past (key, negb first) (k kv)) pre /\ Forall (fun kv => past (key, negb first) (k kv)) suf.
Proof.
  intros R Hs. pose proof (kvs_sorted_weak kvs Hs) as Hw. pose proof (blksearch_repr b kvs [] key R Hw) as Hb.
  pose proof (lowerb_lookup key (kv_keys kvs) Hw) as Hl. pose proof (lowerb_le key (kv_keys kvs)) as Hn.
  unfold search_ref in Hb. set (n := lowerb key (kv_keys kvs)) in *.
  assert (length (kv_keys kvs) = length kvs) as Hlen by apply length_fmap.
  assert (Hk : forall j kv, kvs !! j = Some kv -> kv_keys kvs !! j = Some (k kv)) by (intros j kv Hj; unfold kv_keys; by rewrite list_lookup_fmap, Hj).
  destruct (decide (kv_keys kvs !! n = Some key)) as [Hd|Hd]; eexists _, _, _; (split; [exact Hb|]); cbv zeta.
  - destruct (Z.eqb_spec (Z.of_nat n) (-1)); [lia|]. cbn [negb orb].
    assert (n < length kvs)%nat by (rewrite <- Hlen; by eapply lookup_lt_Some).
    exists (take (if first then n else S n) kvs), (drop (if first then n else S n) kvs).
    split; [by rewrite take_drop|]. split.
    { unfold zlen. rewrite length_take. destruct first; cbn [negb]; lia. }
    apply split_by; [destruct first; lia| |apply _]. intros j kv Hj%Hk. destruct first; cbn [negb past fst snd].
    + rewrite (Hl _ _ Hj). unfold key_lt, key_le. rewrite (keycmp_opp (k kv) key). lia.
    + split.
      * intros Hjn Hlt. destruct (decide (j = n)) as [->|]; [rewrite Hd in Hj; injection Hj as ->; by apply (irreflexivity key_lt (k kv))|].
        assert (key_lt (k kv) key) as Hlt' by (apply (Hl _ _ Hj); lia). apply (irreflexivity key_lt key). by etrans.
      * intros Hnot. destruct (decide (n < j)%nat) as [Hlt|]; [|lia]. exfalso. apply Hnot.
        by apply (sorted_lookup _ _ _ _ _ _ Hs Hd Hj).
  - assert ((if (Z.of_nat n - 1 =? -1) || negb false || negb first then Z.of_nat n - 1 + 1 else Z.of_nat n - 1) = zlen (take n kvs)) as ->.
    { cbn [negb]. rewrite orb_true_r. unfold zlen. rewrite length_take. cbn [orb]. lia. }
    exists (take n kvs), (drop n kvs). split; [by rewrite take_drop|]. split; [done|].
    apply split_by; [lia| |apply _]. intros j kv Hj%Hk. rewrite (Hl _ _ Hj). split; [apply not_past_both|].
    intros Hnot. destruct (keycmp_cases key (k kv)) as [[_ Hlt]|[[_ E]|[_ Hlt]]]; [|exfalso|done].
    { exfalso. by apply Hnot, past_both. }
    assert (n <= j)%nat as Hnj.
    { destruct (decide (n <= j)%nat); [done|]. exfalso. apply (irreflexivity key_lt key). rewrite E at 1. apply (Hl _ _ Hj). lia. }
    destruct (lookup_lt_is_Some_2 (kv_keys kvs) n) as [x Hx]; [apply lookup_lt_Some in Hj; lia|].
    apply Hd. rewrite Hx. f_equal. apply (anti_symm key_le).
    + destruct (decide (n = j)) as [->|]; [rewrite Hj in Hx; injection Hx as <-; by rewrite E|]. rewrite E. apply key_lt_le.
      eapply (sorted_lookup key_lt _ n j); [exact Hs|done|done|lia].
    + destruct (keycmp_cases key x) as [[_ H]|[[_ ->]|[_ H]]]; [by apply key_lt_le|done|]. apply (Hl _ _ Hx) in H. lia.
Qed.

(** The child the cursor of a pivot starts at: the last one whose separator is
    not after the key, or the first one. *)
Lemma pivot_start b kvs ms key : blk_repr b kvs ms -> kvs_sorted kvs -> kvs <> [] ->
  exists i ov same vi kv, blksearch b key = Ok (i, ov, same) /\
    (if i =? -1 then v0 ← getval b (i + 1); Ok (i + 1, v0) else v0 ← of_option ov Undef; Ok (i, v0)) = Ok (Z.of_nat vi, kv) /\
    kvs !! vi = Some kv /\ ((0 < vi)%nat -> key_le (k kv) key) /\
    (forall j kv', kvs !! j = Some kv' -> (vi < j)%nat -> key_lt key (k kv')).
Proof.
  intros R Hs Hne. destruct (blksearch_sorted b kvs ms key R Hs) as (i & ov & same & E & _ & Hle & -> & Hb).
  exists i, (if 0 <=? i then kvs !! Z.to_nat i else None), same. destruct (Z.eqb_spec i (-1)) as [->|Hi].
  - destruct kvs as [|kv kvs]; [done|]. exists 0%nat, kv. split; [exact E|]. change (-1 + 1) with (Z.of_nat 0).
    rewrite (getval_repr b (kv :: kvs) ms 0 kv R) by done. split; [done|]. split; [done|]. split; [lia|].
    intros j kv' Hj _. pose proof (Hle j kv' Hj) as Hj'.
    destruct (keycmp_cases key (k kv')) as [[_ H]|[[_ H]|[_ H%key_lt_le]]]; [done| |apply Hj' in H; lia].
    assert (key_le (k kv') key) as H'%Hj' by (rewrite <- H; reflexivity). lia.
  - destruct (lookup_lt_is_Some_2 kvs (Z.to_nat i)) as [kv Hkv]; [unfold zlen in Hb; lia|].
    exists (Z.to_nat i), kv. destruct (Z.leb_spec 0 i); [|lia]. rewrite Hkv in E |- *. split; [exact E|]. cbn [of_option].
    rewrite bind_ok. split; [by rewrite Z2Nat.id by lia|]. split; [done|]. split; [intros _; apply (Hle _ _ Hkv); lia|].
    intros j kv' Hj Hlt. pose proof (Hle j kv' Hj) as Hj'.
    destruct (keycmp_cases key (k kv')) as [[_ H1]|[[_ H1]|[_ H1%key_lt_le]]]; [done| |apply Hj' in H1; lia].
    assert (key_le (k kv') key) as H'%Hj' by (rewrite <- H1; reflexivity). lia.
Qed.

Lemma enter_spec n : forall b t key first, rep fetch (S n) b t -> good t ->
  exists l, enter fetch (S n) key first b (Some b) = Ok l /\ length l = S n /\ cur (key, negb first) t l.
Proof.
  induction n as [|n IH]; intros b t key first Hr Hg.
  - destruct t as [kvs|kids ms].
    2: { apply rep_pivot_level in Hr. lia. }
    pose proof Hr as (Ht & R & Hs & _). destruct (leaf_start b kvs key first R Hs) as (i & ov & same & E & pre & suf & -> & Hvi & Hpre & Hsuf).
    change (enter fetch 1 key first b (Some b)) with
      ('(vi, ov, same) ← blksearch b key;
       if decide (btyp b = Tpivot) then
         '(vi, v0) ← (if vi =? -1 then v0 ← getval b (vi + 1); Ok (vi + 1, v0) else v0 ← of_option ov Undef; Ok (vi, v0));
         bi ← enterbuf b key first; p ← unpackbp (v v0); b' ← fetch p; (Fail Undef : res (list Scanp))
       else Ok [mkScanp 0 (if (vi =? -1) || negb same || negb first then vi + 1 else vi) (Some b)]).
    rewrite E, bind_ok. cbv beta iota. rewrite decide_False by (by rewrite Ht). rewrite Hvi.
    eexists. split; [done|]. split; [done|]. apply (cur_leaf _ _ _ suf). split; [done| |done].
    exists b, pre. by split_and!.
  - destruct t as [kvs|kids ms]; [done|]. pose proof Hr as (Ht & Hne & Hms & Hmg & kvs & R & Hks & H2).
    assert (kvs <> []) as Hkv0 by (intros ->; by inversion H2; subst).
    destruct (pivot_start b kvs ms key R Hks Hkv0) as (i & ov & same & vi & kv & E & Evi & Hkv & Hlo & Hhi).
    destruct (enterbuf_spec b kvs ms key first R Ht Hms) as (bi & Ebi & pre & suf & Em & -> & Hpre & Hsuf).
    destruct (Forall2_lookup_l _ _ _ _ _ H2 Hkv) as ([s t] & Hst & Hk & p & b' & Ep & Ef & Hr').
    assert (pivat (key, negb first) (S (S n)) (mkScanp (zlen pre) (Z.of_nat vi) (Some b)) b kids ms suf) as Hp.
    { split; [done..| |done]. by exists pre. }
    assert (kidat (key, negb first) (mkScanp (zlen pre) (Z.of_nat vi) (Some b)) kids t) as Hka.
    { exists (take vi kids), s, (drop (S vi) kids). pose proof (lookup_lt_Some _ _ _ Hst). split_and!.
      - by rewrite take_drop_middle.
      - unfold zlen. rewrite length_take. cbn [pvi]. lia.
      - apply Forall_lookup. intros j [s' t'] Hj. apply lookup_take_Some in Hj as [Hj Hlt].
        apply Forall_forall. intros x Hx. apply not_past_both. destruct Hg as [[Hbd _]%ordered_pivot _].
        destruct (Hbd _ _ _ _ Hj Hx) as [_ Hnext]. eapply key_lt_le_trans; [by apply (Hnext vi s t)|].
        cbn in Hk. rewrite <- Hk. apply Hlo. lia.
      - apply Forall_lookup. intros j [s' t'] Hj. rewrite lookup_drop in Hj. apply past_both.
        destruct (Forall2_lookup_r _ _ _ _ _ H2 Hj) as (kv' & Hkv' & Hk' & _). cbn in Hk' |- *. rewrite <- Hk'.
        apply (Hhi _ _ Hkv'). lia. }
    destruct (pivat_kid _ _ _ _ _ _ _ _ Hp Hka) as (Hgt & _).
    destruct (IH b' t key first Hr' Hgt) as (l & El & Hlen & Hcur).
    assert (enter fetch (S (S n)) key first b (Some b) = Ok (mkScanp (zlen pre) (Z.of_nat vi) (Some b) :: l)) as Een.
    { remember (S n) as n'. cbn [enter]. rewrite E, bind_ok. cbv beta iota. rewrite decide_True by done.
      rewrite Evi, bind_ok. cbv beta iota. rewrite Ebi, bind_ok, Ep, bind_ok, Ef, bind_ok. rewrite decide_False by lia.
      by rewrite El, bind_ok. }
    eexists. split; [exact Een|]. split; [cbn; lia|]. rewrite <- Hlen in Hp. by eapply cur_kid.
Qed.

(** ** One pass, and btnext *)

Definition left (c : cut) (t : btree) : nat := length (filter (past c) (tkeys t)).

(** A scan of [t] that is entered, with the keys past [c] left. *)
Definition at_cut (c : cut) (t : btree) (s : Scan) : Prop :=
  sdone s = false /\ exists l, spath s = Some l /\ cur c t l.

(** The entries of a tree with a prefix, past a cut. *)
Definition live (t : btree) (pfx : list Z) (c : cut) (kv : Kvp) : Prop :=
  sem t (k kv) = Ok (Some kv) /\ pfx `prefix_of` k kv /\ past c (k kv).

Lemma sem_some_in t key kv : sem t key = Ok (Some kv) -> key ∈ tkeys t.
Proof.
  intros H. destruct (decide (key ∈ tkeys t)) as [|Hn]; [done|]. rewrite (sem_none key t Hn) in H. discriminate.
Qed.

Lemma left_less c t key : key ∈ tkeys t -> past c key -> (left (key, true) t < left c t)%nat.
Proof.
  intros Hin Hk. unfold left. induction (tkeys t) as [|x l IH]; [by apply elem_of_nil in Hin|].
  assert (length (filter (past (key, true)) l) <= length (filter (past c) l))%nat as Hle.
  { clear IH Hin. induction l as [|y l IHl]; [done|]. rewrite !filter_cons.
    destruct (decide (past (key, true) y)) as [Hy|]; [rewrite decide_True by (by eapply past_after); cbn; lia|].
    case_decide; cbn; lia. }
  rewrite !filter_cons. apply elem_of_cons in Hin as [<-|Hin].
  - rewrite decide_False by apply (irreflexivity key_lt). rewrite decide_True by done. cbn. lia.
  - specialize (IH Hin). destruct (decide (past (key, true) x)) as [Hy|]; [rewrite decide_True by (by eapply past_after); cbn; lia|].
    case_decide; cbn; lia.
Qed.

Lemma ready_small c t l m ok src : ready c t l m ok src -> kv_small (msg_kvp m).
Proof.
  induction 1 as [t p kv suf H|p l b kids ms suf t' m ok src Hp Hk _ IH|p l b kids ms m suf ok Hp _ _]; [|done|].
  - destruct (leafat_block _ _ _ _ H) as (b & pre & _ & _ & _ & _ & _ & Hg & _). apply Forall_app in Hg as [_ [[Hg _] _]%Forall_cons].
    by destruct kv.
  - destruct (pivat_sorted _ _ _ _ _ _ _ Hp) as [_ [[Hg _] _]%Forall_cons]. exact Hg.
Qed.

Lemma chosen_small c t l m ok src : chosen c t l m ok src -> kv_small (msg_kvp m).
Proof.
  induction 1 as [t p kv suf H|p l b kids ms suf t' m ok src Hp Hk _ IH|p l b kids ms m suf t' m' ok ok' src' Hp _ _ _ _|p l b kids ms m suf ok Hp _ _]; [|done| |].
  - destruct (leafat_block _ _ _ _ H) as (b & pre & _ & _ & _ & _ & _ & Hg & _). apply Forall_app in Hg as [_ [[Hg _] _]%Forall_cons].
    by destruct kv.
  - destruct (pivat_sorted _ _ _ _ _ _ _ Hp) as [_ [[Hg _] _]%Forall_cons]. exact Hg.
  - destruct (pivat_sorted _ _ _ _ _ _ _ Hp) as [_ [[Hg _] _]%Forall_cons]. exact Hg.
Qed.

Lemma pass_spec c t s :
  at_cut c t s -> (forall key, past c key -> key_le (spfx s) key) ->
  (exists s', pass fetch s = Ok (s', None) /\ sdone s' = true /\ spfx s' = spfx s /\ sfirst s' = sfirst s /\
     forall kv, ~ live t (spfx s) c kv) \/
  (exists s' ok, pass fetch s = Ok (s', Some ok) /\ at_cut (k (skv s'), true) t s' /\ spfx s' = spfx s /\ sfirst s' = sfirst s /\
     spfx s `prefix_of` k (skv s') /\ least c t (k (skv s')) /\ sem t (k (skv s')) = Ok (cur_of ok (skv s'))).
Proof.
  intros [Hd (l & Hl & Hcur)] Hpfx. unfold pass. rewrite Hl, Hd.
  destruct (loadup_spec c t l Hcur true) as (l1 & start & El & Hlen & Hs). rewrite El.
  assert (length l <> 0%nat) as Hl0 by (by inversion Hcur).
  destruct Hs as [(-> & Hn & _)|Hs].
  { left. rewrite decide_True by done. rewrite decide_False by lia. eexists. split; [done|]. split_and!; try done.
    intros kv (Hsem & _ & Hp). apply sem_some_in in Hsem. rewrite Forall_forall in Hn. by apply (Hn _ Hsem). }
  rewrite decide_False by (apply semi_start in Hs; lia).
  destruct (lowest_spec c t l1 start Hs) as (l2 & m & ok & src & -> & Hlen2 & Hr). rewrite bind_ok. cbv beta iota.
  destruct (pick_spec c t l2 m ok src Hr 0 ltac:(lia)) as (m' & ok' & src' & Ep & Hc).
  assert (forall x, down 0 x = x) as Hdown by (intros x; unfold down; destruct (Z.eqb_spec x (-1)); lia).
  rewrite !Hdown in Ep. rewrite Ep, bind_ok. cbv beta iota.
  pose proof (chosen_least _ _ _ _ _ _ Hc) as Hleast. pose proof Hleast as (Hin & Hpm & Hmin).
  destruct (outside (spfx s) (mk m')) eqn:Ho.
  - left. eexists. split; [done|]. split_and!; try done. intros kv (Hsem & Hpre & Hp).
    apply not_false_iff_true in Ho. apply Ho, outside_prefix. eapply prefix_between; [by apply Hpfx| |exact Hpre].
    rewrite Forall_forall in Hmin. apply Hmin; [by eapply sem_some_in|done].
  - right. rewrite (cpkvp_fits _ Kvmax (chosen_small _ _ _ _ _ _ Hc)) by done. rewrite bind_ok.
    destruct (drain_spec _ _ _ _ _ _ Hc) as (l3 & ok3 & r & Ed & Hlen3 & Hk & Hsem & Hcur3). rewrite Ed, bind_ok.
    eexists _, ok3. split; [done|]. cbn [skv spfx sfirst sdone spath]. rewrite Hk. split_and!; try done.
    + split; [done|]. by exists l3.
    + by apply outside_prefix.
Qed.

Lemma live_weaken t pfx c c' kv : (forall x, past c x -> past c' x) -> live t pfx c kv -> live t pfx c' kv.
Proof. intros H (H1 & H2 & H3). split_and!; [done..|]. by apply H. Qed.

(** btnext gives the least entry left, or says that there is none. *)
Lemma btnext_spec fuel : forall c t s,
  at_cut c t s -> (forall key, past c key -> key_le (spfx s) key) -> (left c t < fuel)%nat ->
  (exists s', btnext fetch fuel s = Ok (s', false) /\ sdone s' = true /\ spfx s' = spfx s /\ sfirst s' = sfirst s /\
     forall kv, ~ live t (spfx s) c kv) \/
  (exists s', btnext fetch fuel s = Ok (s', true) /\ at_cut (k (skv s'), true) t s' /\ spfx s' = spfx s /\ sfirst s' = sfirst s /\
     live t (spfx s) c (skv s') /\ forall kv, live t (spfx s) c kv -> key_le (k (skv s')) (k kv)).
Proof.
  induction fuel as [|fuel IH]; intros c t s Hat Hpfx Hf; [lia|]. cbn [btnext].
  destruct (pass_spec c t s Hat Hpfx) as [(s' & -> & Hd & Hp & Hfi & Hno)|(s' & ok & -> & Hat' & Hp & Hfi & Hpre & (Hin & Hpm & Hmin) & Hsem)].
  - left. exists s'. by split_and!.
  - rewrite bind_ok. cbv beta iota. destruct ok.
    + right. exists s'. split; [done|]. split_and!; try done. intros kv (Hs & _ & Hpk).
      rewrite Forall_forall in Hmin. apply Hmin; [by eapply sem_some_in|done].
    + assert (forall x, past (k (skv s'), true) x -> past c x) as Hweak by (intros x; by apply past_after).
      assert (forall kv, live t (spfx s) c kv -> live t (spfx s) (k (skv s'), true) kv) as Hskip.
      { intros kv (Hs & Hpk & Hpc). split_and!; [done..|]. rewrite Forall_forall in Hmin. apply key_lt_strict. split.
        - apply Hmin; [by eapply sem_some_in|done].
        - cbn. intros E. rewrite <- E in Hs. rewrite Hsem in Hs. discriminate. }
      destruct (IH (k (skv s'), true) t s' Hat') as [(s2 & E & Hd & Hp2 & Hf2 & Hno)|(s2 & E & Hat2 & Hp2 & Hf2 & Hlive & Hleast)].
      * rewrite Hp. intros key Hk. by apply Hpfx, Hweak.
      * pose proof (left_less c t _ Hin Hpm). lia.
      * left. exists s2. rewrite E. split_and!; [done|done|congruence|congruence|]. rewrite Hp in Hno.
        intros kv Hkv. by apply (Hno kv), Hskip.
      * right. exists s2. rewrite E. rewrite Hp in Hlive, Hleast. split_and!; [done|done|congruence|congruence| |].
        -- by eapply live_weaken.
        -- intros kv Hkv. by apply Hleast, Hskip.
Qed.

(** ** Reading a tree *)

(** The entries past a cut, in the order of their keys. *)
Definition entries (t : btree) (pfx : list Z) (c : cut) (L : list Kvp) : Prop :=
  StronglySorted key_lt (k <$> L) /\ forall kv, kv ∈ L <-> live t pfx c kv.

Lemma entries_nil t pfx c L : entries t pfx c L -> (forall kv, ~ live t pfx c kv) -> L = [].
Proof. intros [_ H] Hno. destruct L as [|kv L]; [done|]. destruct (Hno kv). apply H. left. Qed.

Lemma entries_empty t pfx c : (forall kv, ~ live t pfx c kv) -> entries t pfx c [].
Proof. intros Hno. split; [constructor|]. intros kv. split; [by intros ?%elem_of_nil|]. intros H. by destruct (Hno kv). Qed.

Lemma entries_cons t pfx c L kv :
  entries t pfx c L -> live t pfx c kv -> (forall kv', live t pfx c kv' -> key_le (k kv) (k kv')) ->
  exists L', L = kv :: L' /\ entries t pfx (k kv, true) L'.
Proof.
  intros [Hs HL] Hlive Hmin. pose proof (proj2 (HL kv) Hlive) as Hin. destruct L as [|x L]; [by apply elem_of_nil in Hin|].
  cbn in Hs. apply StronglySorted_inv in Hs as [Hs Hx]. change (Forall (key_lt (k x)) (k <$> L)) in Hx. rewrite Forall_fmap, Forall_forall in Hx.
  assert (x = kv) as ->.
  { apply elem_of_cons in Hin as [->|Hin]; [done|]. exfalso. apply (irreflexivity key_lt (k x)).
    eapply key_lt_le_trans; [by apply Hx|]. apply Hmin, HL. left. }
  exists L. split; [done|]. split; [exact Hs|]. intros y. split.
  - intros Hy. pose proof (proj1 (HL y) ltac:(by right)) as (H1 & H2 & _). split_and!; [done..|]. by apply Hx.
  - intros (H1 & H2 & H3). assert (live t pfx c y) as Hy by (split_and!; [done..|]; eapply past_after; [apply Hlive|exact H3]).
    apply HL, elem_of_cons in Hy as [->|]; [|done]. exfalso. by apply (irreflexivity key_lt (k kv)).
Qed.

Lemma entries_add t pfx c L kv :
  entries t pfx (k kv, true) L -> live t pfx c kv -> (forall kv', live t pfx c kv' -> key_le (k kv) (k kv')) ->
  entries t pfx c (kv :: L).
Proof.
  intros [Hs HL] Hlive Hmin. split.
  - cbn. constructor; [exact Hs|]. change (Forall (key_lt (k kv)) (k <$> L)). rewrite Forall_fmap. apply Forall_forall.
    intros x Hx. by apply HL in Hx as (_ & _ & Hx).
  - intros y. rewrite elem_of_cons, HL. split.
    + intros [->|(H1 & H2 & H3)]; [done|]. split_and!; [done..|]. eapply past_after; [apply Hlive|exact H3].
    + intros Hy. destruct (keycmp_cases (k kv) (k y)) as [[_ H]|[[_ H]|[_ H]]].
      * right. destruct Hy as (H1 & H2 & _). by split_and!.
      * left. destruct Hlive as (Hs1 & _), Hy as (Hs2 & _). rewrite H in Hs1. congruence.
      * exfalso. apply (irreflexivity key_lt (k y)). eapply key_lt_le_trans; [exact H|]. by apply Hmin.
Qed.

Section Reading.
  Context (t : Tree) (b : Blk) (bt : btree) (pfx : list Z) (fuel : nat).
  Hypothesis Hroot : fetch (tbp t) = Ok b.
  Hypothesis Hht : 1 <= ht t.
  Hypothesis Hrep : rep fetch (Z.to_nat (ht t)) b bt.
  Hypothesis Hgood : good bt.
  Hypothesis Hfuel : (length (tkeys bt) < fuel)%nat.

Lemma enough c : (left c bt < fuel)%nat.
Proof. unfold left. pose proof (length_filter (past c) (tkeys bt)). lia. Qed.

Lemma enter_root key first :
  exists l, enter fetch (Z.to_nat (ht t)) key first b (Some b) = Ok l /\ cur (key, negb first) bt l.
Proof.
  destruct (enter_spec (Z.to_nat (ht t) - 1) b bt key first) as (l & E & _ & Hc); [|done|].
  - by replace (S (Z.to_nat (ht t) - 1)) with (Z.to_nat (ht t)) by lia.
  - exists l. by replace (S (Z.to_nat (ht t) - 1)) with (Z.to_nat (ht t)) in E by lia.
Qed.

Definition from (c : cut) : Prop := forall key, past c key -> key_le pfx key.

Lemma from_after kv : pfx `prefix_of` k kv -> from (k kv, true).
Proof. intros H key Hk%key_lt_le. etrans; [by apply prefix_key_le|exact Hk]. Qed.

Lemma entries_exist n : forall c, (left c bt <= n)%nat -> from c -> exists L, entries bt pfx c L.
Proof.
  induction n as [n IH] using lt_wf_ind. intros c Hn Hfrom.
  destruct (enter_root c.1 (negb c.2)) as (l & _ & Hcur). rewrite negb_involutive in Hcur.
  assert (at_cut c bt (mkScan false false 0 (mkKvp [] []) pfx (Some l))) as Hat by (split; [done|exists l; split; [done|by destruct c]]).
  destruct (btnext_spec fuel c bt _ Hat Hfrom (enough c)) as [(s' & _ & _ & _ & _ & Hno)|(s' & _ & _ & _ & _ & Hlive & Hmin)].
  - exists []. by apply entries_empty.
  - cbn [spfx] in *. destruct Hlive as (Hs & Hp & Hk). pose proof (left_less c bt _ (sem_some_in _ _ _ Hs) Hk).
    destruct (IH (left (k (skv s'), true) bt) ltac:(lia) (k (skv s'), true)) as [L HL]; [done|by apply from_after|].
    exists (skv s' :: L). by apply entries_add.
Qed.

(** A scan that is not entered, with the keys past [c] to come. *)
Definition resumes (c : cut) (s : Scan) : Prop :=
  spfx s = pfx /\ from c /\
  (if sdone s then forall kv, ~ live bt pfx c kv else c = (k (skv s), negb (sfirst s))).

Lemma readn_spec n : forall c s L,
  at_cut c bt s -> spfx s = pfx -> sfirst s = false -> from c -> entries bt pfx c L ->
  exists s', readn fetch fuel n s = Ok (take n L, s') /\
    ((n = 0%nat /\ s' = s) \/ exists c', resumes c' s' /\ entries bt pfx c' (drop n L)).
Proof.
  induction n as [|n IH]; intros c s L Hat Hp Hf Hfrom HL; [exists s; split; [done|by left]|]. cbn [readn].
  assert (forall key, past c key -> key_le (spfx s) key) as Hfrom' by (by rewrite Hp).
  destruct (btnext_spec fuel c bt s Hat Hfrom' (enough c)) as [(s' & -> & Hd & Hp' & _ & Hno)|(s' & -> & Hat' & Hp' & Hf' & Hlive & Hmin)];
    rewrite bind_ok; cbv beta iota; rewrite Hp in *.
  - pose proof (entries_nil _ _ _ _ HL Hno) as ->. exists s'. split; [done|]. right. exists c. split; [|exact HL].
    split_and!; [done|done|]. by rewrite Hd.
  - destruct (entries_cons _ _ _ _ _ HL Hlive Hmin) as (L' & -> & HL').
    pose proof (from_after (skv s') (proj1 (proj2 Hlive))) as Hfr.
    destruct (IH _ s' L' Hat' Hp' ltac:(congruence) Hfr HL') as (s2 & -> & Hs2). rewrite bind_ok. cbv beta iota.
    exists s2. split; [done|]. right. destruct Hs2 as [[-> ->]|Hs2]; [|exact Hs2].
    exists (k (skv s'), true). split; [|exact HL']. split_and!; [done|done|].
    destruct Hat' as [-> _]. by rewrite Hf', Hf.
Qed.

Lemma readn_done n s : spath s = None -> readn fetch fuel n s = Ok ([], s).
Proof.
  intros Hs. destruct n as [|n]; [done|]. cbn [readn]. destruct fuel as [|fuel']; [lia|]. cbn [btnext].
  unfold pass. by rewrite Hs.
Qed.

Lemma reads_spec ns : forall c s L,
  resumes c s -> spath s = None -> entries bt pfx c L -> Forall (fun n => (0 < n)%nat) ns ->
  reads fetch t fuel ns s = Ok (take (list_sum ns) L).
Proof.
  induction ns as [|n ns IH]; intros c s L (Hp & Hfrom & Hc) Hpath HL Hns; [done|].
  apply Forall_cons in Hns as [Hn Hns]. cbn [reads]. unfold btenter. destruct (sdone s) eqn:Hd.
  - pose proof (entries_nil _ _ _ _ HL Hc) as ->. rewrite bind_ok, readn_done, bind_ok by done. cbv beta iota.
    rewrite (IH c (btexit s) []), bind_ok; [by rewrite !take_nil|split_and!; [done|done|by cbn; rewrite Hd]|done|done|done].
  - unfold getroot. rewrite Hroot, bind_ok, bind_ok. cbv beta iota.
    destruct (enter_root (k (skv s)) (sfirst s)) as (l & El & Hcur). rewrite El, bind_ok, bind_ok. rewrite <- Hc in Hcur.
    destruct (readn_spec n c (mkScan false false (ht t) (skv s) (spfx s) (Some l)) L) as (s' & -> & Hs'); try done.
    { split; [done|]. by exists l. }
    rewrite bind_ok. cbv beta iota. destruct Hs' as [[-> _]|(c' & Hres & HL')]; [lia|].
    rewrite (IH c' (btexit s') (drop n L)), bind_ok; [|exact Hres|done|done|done].
    f_equal. apply take_take_drop.
Qed.
End Reading.
End Cursors.

(** * Scans *)

(** C2: A scan gives every entry once, in order.  In a search tree none of
    whose messages is broken, read through btnewscan, btenter, btnext and
    btexit with any sizes of reads, and left and entered again between them,
    the results are the entries whose keys start with the prefix, each with
    the value that btlookup finds, by ascending keys and none twice or left
    out; and every call of btnext returns. *)
Theorem scan_correct fetch t b bt pfx :
  fetch (tbp t) = Ok b -> 1 <= ht t -> rep fetch (Z.to_nat (ht t)) b bt ->
  ordered bt -> (forall key, is_Ok (sem bt key)) -> zlen pfx <= Keymax ->
  exists L, StronglySorted key_lt (k <$> L) /\
    (forall kv, kv ∈ L <-> sem bt (k kv) = Ok (Some kv) /\ pfx `prefix_of` k kv) /\
    forall fuel ns, (length (tkeys bt) < fuel)%nat -> Forall (fun n => (0 < n)%nat) ns ->
      (s ← btnewscan pfx; reads fetch t fuel ns s) = Ok (take (list_sum ns) L).
Proof.
  intros Hroot Hht Hrep Ho Hok Hpfx. pose proof (conj Ho Hok : good bt) as Hgood.
  assert (from pfx (pfx, false)) as Hfrom by (by intros key).
  destruct (entries_exist fetch t b bt pfx (S (length (tkeys bt))) Hht Hrep Hgood ltac:(lia) _ (pfx, false) ltac:(reflexivity) Hfrom)
    as [L HL].
  exists L. split; [apply HL|]. split.
  { intros kv. rewrite (proj2 HL kv). split; [by intros (H1 & H2 & _)|]. intros [H1 H2]. split_and!; [done..|]. by apply prefix_key_le. }
  intros fuel ns Hf Hns. unfold btnewscan. rewrite (proj2 (Z.leb_le _ _)) by done. unfold cpkey.
  rewrite check_true by (apply Z.leb_le; etrans; [exact Hpfx|by vm_compute]). rewrite !bind_ok.
  apply (reads_spec fetch t b bt pfx fuel Hroot Hht Hrep Hgood Hf ns (pfx, false)); [|done|done|done].
  split_and!; [done|done|]. reflexivity.
Qed.

Lemma ex_bt_ordered : ordered ex_bt.
Proof.
  apply ordered_pivot. split.
  - intros [|[|i]] s t key Hi Hk; [|done|done]. injection Hi as <- <-. split; [|by intros [|[|j]] s' t' Hj ?; [lia|done|done]].
    cbn in Hk. apply elem_of_cons in Hk as [->|Hk]; [by vm_compute|]. apply list_elem_of_singleton in Hk as ->. by vm_compute.
  - constructor; [|constructor]. by split.
Qed.

Lemma ex_bt_ok key : is_Ok (sem ex_bt key).
Proof.
  unfold ex_bt. rewrite sem_pivot.
  assert (exists c, match route key [([Kobj; 1], Leaf [ex_kv1; mkKvp [Kobj; 2] [20]])] with Some t => sem t key | None => Ok None end = Ok c)
    as [c ->] by (cbn; case_decide; by eexists).
  rewrite bind_ok. unfold ex_msgs, for_key. destruct (decide ([Kobj; 1] = key)) as [<-|Hne].
  - destruct c; by eexists.
  - rewrite !filter_cons_False by done. by eexists.
Qed.

Lemma scan_correct_witness :
  exists L, StronglySorted key_lt (k <$> L) /\
    (forall kv, kv ∈ L <-> sem ex_bt (k kv) = Ok (Some kv) /\ [Kobj] `prefix_of` k kv) /\
    (forall fuel ns, (length (tkeys ex_bt) < fuel)%nat -> Forall (fun n => (0 < n)%nat) ns ->
      (s ← btnewscan [Kobj]; reads ex_fetch ex_tree fuel ns s) = Ok (take (list_sum ns) L)).
Proof.
  apply (scan_correct ex_fetch ex_tree ex_root ex_bt [Kobj]);
    [reflexivity|vm_compute; discriminate|exact ex_root_rep|exact ex_bt_ordered|exact ex_bt_ok|vm_compute; discriminate].
Defined.
