(* ===== verification/Split.v ===== *)
(** sys/src/9/gefs/tree.c, splitleaf: a leaf too full for the messages that go
    into it is rebuilt as two.

    When the messages are small enough to fit the half block splitleaf keeps
    for them, nothing is lost and neither half overflows.  It counts a value
    that a message replaces with the size it had before, though, so messages
    that grow values can overflow the left half when they are more than that:
    [splitleaf_overflow] is a leaf and a buffer of messages, each of the sizes
    gefs allows, on which setval's assertion fails. *)

From S2P Require Import Prelude Layout Hash Pack Node Msgs Leaf.

(** * The loop *)

(** The largest value with its slot. *)
Definition Valmax : Z := 6 + Kvmax.

Lemma valsz_max kv : kv_small kv -> valsz kv <= Valmax.
Proof. intros [H1 H2]. unfold valsz, Valmax, Kvmax. lia. Qed.

Section Split.
  Context (b : Blk) (src : msgsrc) (lo hi halfsz : Z) (kvs : list Kvp) (ms : list Msg).
  Hypothesis I : leafinput b src lo hi kvs ms.
  Hypothesis Hhalf : Z.quot Leafspc 2 - 1 <= halfsz <= Z.quot Leafspc 2.
  Hypothesis Hroom : total_msgsz ms + Valmax <= Z.quot Leafspc 2.

(** What the right half still has to take fits it. *)
Definition rightfits (kR kvs2 : list Kvp) (mR ms2 : list Msg) : Prop :=
  kvs_valsz (kR ++ kvs2) + total_msgsz (mR ++ ms2) <= Leafspc.

Record sinv (kvs1 kvs2 : list Kvp) (ms1 ms2 : list Msg) (outl outr : list Kvp) (s : splitst) : Prop := {
  sv_kvs : kvs = kvs1 ++ kvs2;
  sv_ms : ms = ms1 ++ ms2;
  sv_i : si s = zlen kvs1;
  sv_j : sj s = lo + zlen ms1;
  sv_full : sfull s = false;
  sv_spc : total_msgsz ms2 <= sspc s;
  sv_l : blk_repr (sl s) outl [] /\ btyp (sl s) = Tleaf;
  sv_r : blk_repr (sr s) outr [] /\ btyp (sr s) = Tleaf;
  sv_merged : merged kvs1 kvs2 ms1 ms2 (outl ++ outr) (sfrees s) (spull s);
  sv_left : sleft s = true -> outr = [] /\ kvs_valsz kvs1 <= scopied s <= kvs_valsz kvs1 + total_msgsz ms1;
  sv_right : sleft s = false -> exists kL kR mL mR, kvs1 = kL ++ kR /\ ms1 = mL ++ mR /\
    rightfits kR kvs2 mR ms2 /\ kvs_valsz outr <= kvs_valsz kR + total_msgsz mR
}.

Lemma leaf_fill : kvs_valsz kvs <= Leafspc.
Proof using I.
  destruct I. pose proof (repr_fill _ _ _ in_repr) as H. unfold bspc in H. rewrite decide_True in H by done. done.
Qed.

(** The groups of messages run. *)
Lemma group_run kvs1 kvs2 ms1 ms2 cur g kk out frees pull :
  kvs = kvs1 ++ option_list cur ++ kvs2 -> ms = ms1 ++ g ++ ms2 ->
  merged kvs1 (option_list cur ++ kvs2) ms1 (g ++ ms2) out frees pull ->
  (forall kv, cur = Some kv -> kv_good kv /\ k kv = kk) ->
  Forall (fun m => mk m = kk /\ msg_good m) g ->
  kk ∈ keys_of (option_list cur) g -> keys_below [kk] (keys_of kvs2 ms2) ->
  exists r, mrun cur g = Ok r.
Proof using I.
  intros Ek Em M Hc Hg Hin Hab. destruct (in_runs _ _ _ _ _ _ I kk) as [r Hr]. exists r.
  rewrite Ek, Em in Hr. destruct (step_whole kvs1 kvs2 ms1 ms2 g cur kk) as [E1 E2]; try done.
  - intros x y Hx Hy. apply list_elem_of_singleton in Hy as ->.
    apply (mg_below _ _ _ _ _ _ _ M); [done|]. apply keys_of_app. by left.
  - by rewrite E1, E2 in Hr.
Qed.

(** The choice of the half at the head of the loop. *)
Definition choose (s : splitst) : splitst :=
  if sleft s && ((si s =? nval b - 2) || ((2 <=? si s) && (halfsz <=? scopied s)))
  then mkSplitst (si s) (sj s) (sfull s) (Leafspc - (halfsz + Msgmax)) false
         (scopied s) (sl s) (sr s) (sm s) (spull s) (sfrees s)
  else s.

(** While the left half is filled, it has not reached its size. *)
Definition chosen (s : splitst) : Prop := sleft s = true -> si s < 2 \/ scopied s < halfsz.

Lemma two_values l : (length l <= 2)%nat -> Forall kv_good l -> kvs_valsz l <= 2 * Valmax.
Proof.
  intros Hl Hg. destruct l as [|x [|y [|z l]]]; cbn in Hl; try lia; rewrite ?Forall_cons in Hg.
  - by vm_compute.
  - destruct Hg as [Hx _]. rewrite kvs_valsz_one. pose proof (valsz_max x (proj1 Hx)). change Valmax with 774 in *. lia.
  - destruct Hg as (Hx & Hy & _). change [x; y] with ([x] ++ [y]). rewrite kvs_valsz_app, !kvs_valsz_one.
    pose proof (valsz_max x (proj1 Hx)). pose proof (valsz_max y (proj1 Hy)). lia.
Qed.

Lemma choose_spec kvs1 kvs2 ms1 ms2 outl outr s :
  sinv kvs1 kvs2 ms1 ms2 outl outr s ->
  sinv kvs1 kvs2 ms1 ms2 outl outr (choose s) /\ chosen (choose s).
Proof using I Hhalf Hroom.
  intros L. unfold choose, chosen. destruct (sleft s) eqn:El; cbn [andb]; [|split; [done|congruence]].
  destruct ((si s =? nval b - 2) || ((2 <=? si s) && (halfsz <=? scopied s))) eqn:E.
  - split; [|intros ?; done]. destruct (sv_left _ _ _ _ _ _ _ L El) as [Ho Hc].
    pose proof (sv_kvs _ _ _ _ _ _ _ L) as Ek. pose proof (sv_ms _ _ _ _ _ _ _ L) as Em.
    pose proof leaf_fill as Hf. rewrite Ek, kvs_valsz_app in Hf. pose proof Hroom as Hr. rewrite Em, total_msgsz_app in Hr.
    pose proof (total_msgsz_nonneg ms1). pose proof (total_msgsz_nonneg ms2).
    change Leafspc with 16378 in *. change (Z.quot 16378 2) with 8189 in *. change Valmax with 774 in *.
    split; cbn [si sj sfull sspc sleft scopied sl sr sm spull sfrees]; try apply L; [|done|].
    { change Msgmax with 769. lia. }
    intros _. exists kvs1, [], ms1, []. rewrite !app_nil_r. split_and!; try done; cbn [app].
    + unfold rightfits. cbn [app]. change Leafspc with 16378. apply orb_true_iff in E as [E|E]; [|lia].
      apply Z.eqb_eq in E. rewrite (sv_i _ _ _ _ _ _ _ L), (repr_nval _ _ _ (in_repr _ _ _ _ _ _ I)), Ek, zlen_app in E.
      pose proof (in_good _ _ _ _ _ _ I) as Hg. rewrite Ek in Hg. apply Forall_app in Hg as [_ Hg].
      pose proof (two_values kvs2 ltac:(unfold zlen in E; lia) Hg) as H2. change Valmax with 774 in H2. lia.
    + rewrite Ho. by vm_compute.
  - split; [done|]. intros _. apply orb_false_iff in E as [_ E]. apply andb_false_iff in E as [E|E]; lia.
Qed.

(** Writing out the result of a group. *)
Lemma copydone_opt n out c r :
  blk_repr n out [] -> btyp n = Tleaf -> cur_of (cok c) (ckv c) = r -> Forall kv_good (option_list r) ->
  kvs_valsz (out ++ option_list r) <= Leafspc ->
  exists n', copydone n c = Ok n' /\ blk_repr n' (out ++ option_list r) [] /\ btyp n' = Tleaf.
Proof.
  intros R Ht <- Hg Hz. unfold copydone. destruct (cok c); cbn [cur_of] in *.
  2: { exists n. split_and!; try done. by rewrite app_nil_r. }
  apply Forall_cons in Hg as [Hg _]. rewrite kvs_valsz_app, kvs_valsz_opt in Hz. cbn [cur_size] in Hz.
  destruct (setval_repr n out [] (ckv c)) as (n' & -> & R' & Ht' & _); try done.
  - apply Hg.
  - unfold bspc. rewrite decide_True by done. unfold kvs_valsz, valsz, kvsz in *. lia.
  - exists n'. split_and!; try done. congruence.
Qed.

Section Group.
  Context (kvs1 kvs2 : list Kvp) (ms1 ms2 g : list Msg) (cur : option Kvp) (kk : list Z).
  Context (outl outr : list Kvp) (s : splitst) (r : option Kvp).
  Hypothesis L : sinv kvs1 (option_list cur ++ kvs2) ms1 (g ++ ms2) outl outr s.
  Hypothesis Hch : chosen s.
  Hypothesis Hcur : forall kv, cur = Some kv -> kv_good kv /\ k kv = kk.
  Hypothesis Hg : Forall (fun m => mk m = kk /\ msg_good m) g.
  Hypothesis Hin : kk ∈ keys_of (option_list cur) g.
  Hypothesis Habove : keys_below [kk] (keys_of kvs2 ms2).
  Hypothesis Hr : mrun cur g = Ok r.

Lemma cur_max : cur_size cur <= Valmax.
Proof using Hcur.
  clear - Hcur. destruct cur as [kv|]; [|by vm_compute]. destruct (Hcur kv eq_refl) as [[H _] _]. by apply valsz_max.
Qed.

Lemma result_good : Forall kv_good (option_list r).
Proof using Hcur Hg Hr.
  clear - Hcur Hg Hr. destruct r as [kv|]; [|constructor]. constructor; [|constructor].
  by apply (mrun_key _ _ _ _ Hcur Hg Hr).
Qed.

(** There is room for the result in the half it goes to. *)
Lemma left_room : sleft s = true -> kvs_valsz (outl ++ option_list r) <= Leafspc.
Proof using I Hhalf Hroom L Hch Hcur Hg Hin Habove Hr.
  intros El. destruct (sv_left _ _ _ _ _ _ _ L El) as [Ho Hc]. pose proof (sv_merged _ _ _ _ _ _ _ L) as M.
  rewrite Ho, app_nil_r in M. pose proof (mg_size _ _ _ _ _ _ _ M) as Hz. pose proof (mrun_size _ _ _ Hr) as Hrs.
  pose proof cur_max. pose proof Hroom as Ht. rewrite (sv_ms _ _ _ _ _ _ _ L), !total_msgsz_app in Ht.
  pose proof (total_msgsz_nonneg ms2). rewrite kvs_valsz_app, kvs_valsz_opt.
  change Leafspc with 16378 in *. change (Z.quot 16378 2) with 8189 in *. change Valmax with 774 in *.
  destruct (Hch El) as [Hi|Hi]; [|lia].
  rewrite (sv_i _ _ _ _ _ _ _ L) in Hi. pose proof (in_good _ _ _ _ _ _ I) as Hgd.
  rewrite (sv_kvs _ _ _ _ _ _ _ L) in Hgd. apply Forall_app in Hgd as [Hgd _].
  pose proof (two_values kvs1 ltac:(unfold zlen in Hi; lia) Hgd) as H2. change Valmax with 774 in H2. lia.
Qed.

Lemma right_room kR mR :
  rightfits kR (option_list cur ++ kvs2) mR (g ++ ms2) -> kvs_valsz outr <= kvs_valsz kR + total_msgsz mR ->
  kvs_valsz (outr ++ option_list r) <= kvs_valsz (kR ++ option_list cur) + total_msgsz (mR ++ g) /\
  kvs_valsz (outr ++ option_list r) <= Leafspc.
Proof using Hr.
  intros Hf Hz. unfold rightfits in Hf. rewrite !kvs_valsz_app, !total_msgsz_app, !kvs_valsz_opt in *.
  pose proof (mrun_size _ _ _ Hr). pose proof (kvs_valsz_nonneg kvs2). pose proof (total_msgsz_nonneg ms2). lia.
Qed.

Lemma group_step c x p om spc :
  cur_of (cok c) (ckv c) = r -> 0 <= p <= total_msgsz g ->
  cur_size cur <= x <= cur_size cur + total_msgsz g -> total_msgsz ms2 <= spc ->
  exists n' outl' outr', copydone (split_dst s) c = Ok n' /\
    sinv (kvs1 ++ option_list cur) kvs2 (ms1 ++ g) ms2 outl' outr'
      (split_set s (si s + zlen (option_list cur)) (lo + zlen (ms1 ++ g)) false spc (scopied s + x) n' om
         (spull s + p) (sfrees s ++ mdrops cur g)).
Proof using I Hhalf Hroom L Hch Hcur Hg Hin Habove Hr.
  intros Hc Hp Hx Hspc.
  pose proof (merged_step kvs1 kvs2 ms1 ms2 g cur kk Hcur Hg Hin Habove _ _ _ p r (sv_merged _ _ _ _ _ _ _ L) Hr Hp) as M.
  pose proof result_good as Hrg. destruct (sv_l _ _ _ _ _ _ _ L) as [Rl Tl]. destruct (sv_r _ _ _ _ _ _ _ L) as [Rr Tr].
  assert (kvs = (kvs1 ++ option_list cur) ++ kvs2) as Ek by (rewrite <- app_assoc; apply L).
  assert (ms = (ms1 ++ g) ++ ms2) as Em by (rewrite <- app_assoc; apply L).
  assert (si s + zlen (option_list cur) = zlen (kvs1 ++ option_list cur)) as Ei
    by (rewrite (sv_i _ _ _ _ _ _ _ L), zlen_app; done).
  pose proof left_room as Hlr. pose proof right_room as Hrr.
  unfold split_dst, split_set. destruct (sleft s) eqn:El.
  - destruct (sv_left _ _ _ _ _ _ _ L El) as [-> Hcp].
    destruct (copydone_opt (sl s) outl c r Rl Tl Hc Hrg (Hlr eq_refl)) as (n' & Hn & R' & T').
    exists n', (outl ++ option_list r), []. split; [done|]. rewrite app_nil_r in M.
    split; cbn [si sj sfull sspc sleft scopied sl sr sm spull sfrees]; try done; [by rewrite app_nil_r|].
    intros _. split; [done|]. rewrite kvs_valsz_app, total_msgsz_app, kvs_valsz_opt. lia.
  - destruct (sv_right _ _ _ _ _ _ _ L El) as (kL & kR & mL & mR & E1 & E2 & Hf & Hz).
    destruct (Hrr kR mR Hf Hz) as [Hz' Hz2].
    destruct (copydone_opt (sr s) outr c r Rr Tr Hc Hrg Hz2) as (n' & Hn & R' & T').
    exists n', outl, (outr ++ option_list r). split; [done|]. rewrite <- app_assoc in M.
    split; cbn [si sj sfull sspc sleft scopied sl sr sm spull sfrees]; try done.
    intros _. exists kL, (kR ++ option_list cur), mL, (mR ++ g).
    rewrite E1, E2, !app_assoc. split_and!; try done. unfold rightfits in *. by rewrite <- !app_assoc.
Qed.
End Group.

(** One turn of the loop, in a half that has been chosen. *)
Definition ssteps (fuel : nat) (kvs2 : list Kvp) (ms2 : list Msg) (s : splitst) : Prop :=
  exists s' kvs1' kvs2' ms1' ms2' outl' outr',
    splitleaf_loop (S fuel) b src hi halfsz s = splitleaf_loop fuel b src hi halfsz s' /\
    sinv kvs1' kvs2' ms1' ms2' outl' outr' s' /\
    (length kvs2' + length ms2' < length kvs2 + length ms2)%nat.

Lemma sinv_sorted kvs1 kvs2 ms1 ms2 outl outr s :
  sinv kvs1 kvs2 ms1 ms2 outl outr s -> kvs_sorted kvs2 /\ msgs_sorted ms2 /\ Forall kv_good kvs2 /\ Forall msg_good ms2.
Proof using I Hroom.
  intros []. destruct I. subst. split_and!.
  - unfold kvs_sorted, kv_keys in *. rewrite fmap_app in *. by eapply StronglySorted_app_1_r.
  - unfold msgs_sorted, keys_sorted, msg_keys in *. rewrite fmap_app in *. by eapply StronglySorted_app_1_r.
  - by apply Forall_app in in_good as [_ ?].
  - by apply Forall_app in in_mgood as [_ ?].
Qed.

(** The head of the loop: the value, and what pullmsg says of the next message. *)
Lemma loop_head kvs1 kv kvs2 ms1 ms2 outl outr s :
  sinv kvs1 (kv :: kvs2) ms1 ms2 outl outr s ->
  exists s1, sinv kvs1 (kv :: kvs2) ms1 ms2 outl outr s1 /\ chosen s1 /\
    (nval b <=? si s) = false /\ getval b (si s1) = Ok kv /\ s1 = choose s /\
    match ms2 with
    | [] => pullmsg src hi (sj s1) (Some (k kv)) (sm s1) (sfull s1) (sspc s1) = Ok (-1, sm s1, false)
    | m :: _ => pullmsg src hi (sj s1) (Some (k kv)) (sm s1) (sfull s1) (sspc s1) = Ok (keycmp (k kv) (mk m), Some m, false)
    end.
Proof using I Hhalf Hroom.
  intros L0. destruct (choose_spec _ _ _ _ _ _ _ L0) as [L Hch]. exists (choose s). split_and!; try done.
  - rewrite (sv_i _ _ _ _ _ _ _ L0), (repr_nval _ _ _ (in_repr _ _ _ _ _ _ I)), (sv_kvs _ _ _ _ _ _ _ L0).
    rewrite zlen_app, zlen_cons. pose proof (zlen_nonneg kvs2). lia.
  - rewrite (sv_i _ _ _ _ _ _ _ L). eapply getval_repr; [apply I|]. rewrite (sv_kvs _ _ _ _ _ _ _ L).
    by apply list_lookup_middle.
  - rewrite (sv_full _ _ _ _ _ _ _ L), (sv_j _ _ _ _ _ _ _ L). pose proof (sv_ms _ _ _ _ _ _ _ L) as Em.
    destruct ms2 as [|m t].
    + unfold pullmsg. rewrite (in_hi _ _ _ _ _ _ I), Em, app_nil_r, Z.leb_refl, orb_true_r. done.
    + apply pullmsg_room with t; [rewrite <- Em; apply I|rewrite <- Em; apply I|].
      pose proof (sv_spc _ _ _ _ _ _ _ L) as Hs. rewrite total_msgsz_cons in Hs. pose proof (total_msgsz_nonneg t). lia.
Qed.

Lemma split_copy fuel kvs1 kv kvs2 ms1 ms2 outl outr s :
  sinv kvs1 (kv :: kvs2) ms1 ms2 outl outr s ->
  (forall m t, ms2 = m :: t -> key_lt (k kv) (mk m)) -> ssteps fuel (kv :: kvs2) ms2 s.
Proof using I Hhalf Hroom.
  intros L0 Hlt. destruct (loop_head _ _ _ _ _ _ _ _ L0) as (s1 & L & Hch & Hi & Hg & Es & Hp).
  destruct (sinv_sorted _ _ _ _ _ _ _ L) as (Sk & Sm & Gk & _). apply Forall_cons in Gk as [Gk _].
  assert (exists om, pullmsg src hi (sj s1) (Some (k kv)) (sm s1) (sfull s1) (sspc s1) = Ok (-1, om, false)) as [om Hpm].
  { destruct ms2 as [|m t]; [eauto|]. exists (Some m). rewrite Hp. specialize (Hlt m t eq_refl). unfold key_lt in Hlt.
    destruct (keycmp_range (k kv) (mk m)) as [-> |[?|?]]; [done|lia|lia]. }
  destruct (group_step kvs1 kvs2 ms1 ms2 [] (Some kv) (k kv) outl outr s1 (Some kv) L Hch) with
    (c := mkCopy 0 kv true None false 0 []) (x := valsz kv) (p := 0) (om := om) (spc := sspc s1)
    as (n' & ol & or & Hn & L'); try done.
  { intros ? [= <-]. done. } { left. }
  { apply below_of; [by apply below_kvs_tail|]. destruct ms2 as [|m t]; [apply below_nil|].
    apply below_msgs; [done|by eapply Hlt]. }
  { cbn [cur_size]. change (total_msgsz []) with 0. lia. } { apply L. }
  cbn in Hn. cbn [mdrops] in L'. rewrite app_nil_r, (app_nil_r (sfrees s1)), Z.add_0_r, <- (sv_j _ _ _ _ _ _ _ L) in L'.
  do 7 eexists. split_and!; [|exact L'|cbn; lia].
  cbn [splitleaf_loop]. rewrite Hi. fold (choose s). rewrite <- Es, Hg, bind_ok, Hpm, bind_ok.
  change (-1 =? -1) with true. cbv beta iota zeta. rewrite Hn, bind_ok. done.
Qed.

Lemma split_merge fuel kvs1 kv kvs2 ms1 m t outl outr s :
  sinv kvs1 (kv :: kvs2) ms1 (m :: t) outl outr s -> mk m = k kv -> (length t <= fuel)%nat ->
  ssteps fuel (kv :: kvs2) (m :: t) s.
Proof using I Hhalf Hroom.
  intros L0 Hk Hf. destruct (loop_head _ _ _ _ _ _ _ _ L0) as (s1 & L & Hch & Hi & Hg & Es & Hp).
  destruct (sinv_sorted _ _ _ _ _ _ _ L) as (Sk & Sm & Gk & Gm). apply Forall_cons in Gk as [Gk _].
  destruct (group_split m t Sm) as (g & c & -> & Hgk & Hgc & _).
  assert (Forall (fun m' => mk m' = k kv /\ msg_good m') (m :: g)) as Gg.
  { rewrite app_comm_cons in Gm. apply Forall_app in Gm as [Gm _].
    apply Forall_and. split; [|done]. rewrite <- Hk. by constructor. }
  assert (keys_below [k kv] (keys_of kvs2 c)) as Hab.
  { apply below_of; [by apply below_kvs_tail|]. by rewrite <- Hk. }
  assert (forall kv', Some kv = Some kv' -> kv_good kv' /\ k kv' = k kv) as Hcur by (intros ? [= <-]; done).
  destruct (group_run kvs1 kvs2 ms1 c (Some kv) (m :: g) (k kv) _ _ _ (sv_kvs _ _ _ _ _ _ _ L) (sv_ms _ _ _ _ _ _ _ L)
    (sv_merged _ _ _ _ _ _ _ L) Hcur Gg) as [r Hr]; [left|done|].
  pose proof (sv_spc _ _ _ _ _ _ _ L) as Hspc. rewrite total_msgsz_cons in Hspc.
  pose proof (msgsz_pos m). pose proof (sv_ms _ _ _ _ _ _ _ L) as Hms.
  destruct (mergecase_spec (S fuel) src lo hi (sspc s1) ms1 m g c r kv (spull s1) (sfrees s1))
    as (kv' & ok' & om' & Hmc & Hcr & Hom); try done.
  { rewrite <- Hms. apply I. } { rewrite <- Hms. apply I. }
  { apply below_head_ne. by rewrite <- Hk. }
  { lia. } { rewrite length_app in Hf. lia. }
  pose proof (total_msgsz_nonneg g). pose proof (total_msgsz_nonneg c).
  destruct (group_step kvs1 kvs2 ms1 c (m :: g) (Some kv) (k kv) outl outr s1 r L Hch Hcur Gg ltac:(left) Hab Hr) with
    (c := mkCopy (lo + zlen (ms1 ++ m :: g)) kv' ok' om' false (spull s1 + total_msgsz g)
       (sfrees s1 ++ mdrops (Some kv) (m :: g)))
    (x := valsz kv) (p := total_msgsz g) (om := om') (spc := sspc s1) as (n' & ol & or & Hn & L'); try done.
  { rewrite total_msgsz_cons. lia. }
  { cbn [cur_size]. rewrite total_msgsz_cons. lia. }
  { rewrite total_msgsz_app in Hspc. lia. }
  do 7 eexists. split_and!; [|exact L'|cbn; rewrite length_app; lia].
  cbn [splitleaf_loop]. rewrite Hi. fold (choose s). rewrite <- Es, Hg, bind_ok, Hp, bind_ok, Hk, keycmp_refl.
  change (0 =? -1) with false. change (0 =? 0) with true. cbv beta iota zeta.
  rewrite (sv_j _ _ _ _ _ _ _ L), Hmc, bind_ok, Hn, bind_ok. done.
Qed.

Lemma split_insert fuel kvs1 kv kvs2 ms1 m t outl outr s :
  sinv kvs1 (kv :: kvs2) ms1 (m :: t) outl outr s -> key_lt (mk m) (k kv) -> (length t <= fuel)%nat ->
  ssteps fuel (kv :: kvs2) (m :: t) s.
Proof using I Hhalf Hroom.
  intros L0 Hlt Hf. destruct (loop_head _ _ _ _ _ _ _ _ L0) as (s1 & L & Hch & Hi & Hg & Es & Hp).
  destruct (sinv_sorted _ _ _ _ _ _ _ L) as (Sk & Sm & Gk & Gm).
  destruct (group_split m t Sm) as (g & c & -> & Hgk & Hgc & _).
  assert (Forall (fun m' => mk m' = mk m /\ msg_good m') (m :: g)) as Gg.
  { rewrite app_comm_cons in Gm. apply Forall_app in Gm as [Gm _]. apply Forall_and. split; [|done]. by constructor. }
  assert (keys_below [mk m] (keys_of (kv :: kvs2) c)) as Hab by (apply below_of; [by apply below_kvs|done]).
  assert (forall kv', @None Kvp = Some kv' -> kv_good kv' /\ k kv' = mk m) as Hcur by done.
  destruct (group_run kvs1 (kv :: kvs2) ms1 c None (m :: g) (mk m) _ _ _ (sv_kvs _ _ _ _ _ _ _ L) (sv_ms _ _ _ _ _ _ _ L)
    (sv_merged _ _ _ _ _ _ _ L) Hcur Gg) as [r Hr]; [left|done|].
  pose proof (sv_spc _ _ _ _ _ _ _ L) as Hspc. pose proof (sv_ms _ _ _ _ _ _ _ L) as Hms.
  destruct (insertcase_spec (S fuel) src lo hi (sspc s1) ms1 m g c r (spull s1) (sfrees s1))
    as (kv' & ok' & om' & spc' & p & Hic & Hcr & Hom & Hspc' & Hpp); try done.
  { rewrite <- Hms. apply I. } { rewrite <- Hms. apply I. }
  { by apply below_head_ne. } { rewrite length_app in Hf. lia. }
  pose proof (total_msgsz_nonneg g). pose proof (valsz_msg m). pose proof (valsz_pos (msg_kvp m)).
  destruct (group_step kvs1 (kv :: kvs2) ms1 c (m :: g) None (mk m) outl outr s1 r L Hch Hcur Gg ltac:(left) Hab Hr) with
    (c := mkCopy (lo + zlen (ms1 ++ m :: g)) kv' ok' om' false (spull s1 + p) (sfrees s1 ++ mdrops None (m :: g)))
    (x := valsz (msg_kvp m)) (p := p) (om := om') (spc := spc') as (n' & ol & or & Hn & L'); try done.
  { cbn [cur_size]. rewrite total_msgsz_cons. lia. }
  { rewrite total_msgsz_app in Hspc'. lia. }
  change (zlen (option_list (@None Kvp))) with 0 in L'. rewrite app_nil_r, Z.add_0_r in L'.
  do 7 eexists. split_and!; [|exact L'|cbn; rewrite length_app; lia].
  cbn [splitleaf_loop]. rewrite Hi. fold (choose s). rewrite <- Es, Hg, bind_ok, Hp, bind_ok.
  unfold key_lt in Hlt. rewrite keycmp_opp in Hlt.
  destruct (keycmp_range (k kv) (mk m)) as [?|[?| ->]]; [lia|lia|].
  change (1 =? -1) with false. change (1 =? 0) with false. cbv beta iota zeta. cbn [of_option]. rewrite bind_ok.
  rewrite (sv_j _ _ _ _ _ _ _ L), Hic, bind_ok. cbv beta iota. rewrite Hn, bind_ok. done.
Qed.

Lemma splitleaf_loop_spec fuel : forall kvs1 kvs2 ms1 ms2 outl outr s,
  sinv kvs1 kvs2 ms1 ms2 outl outr s -> (length kvs2 + length ms2 <= fuel)%nat ->
  exists s' ms1' ms2' outl' outr', splitleaf_loop fuel b src hi halfsz s = Ok s' /\
    sinv kvs [] ms1' ms2' outl' outr' s'.
Proof using I Hhalf Hroom.
  induction fuel as [|fuel IH]; intros kvs1 kvs2 ms1 ms2 outl outr s L Hf.
  all: destruct kvs2 as [|kv kvs2]; [|cbn in Hf].
  1, 3: exists s, ms1, ms2, outl, outr; split; [|by rewrite (sv_kvs _ _ _ _ _ _ _ L), app_nil_r in *];
    pose proof (sv_i _ _ _ _ _ _ _ L) as Hi; pose proof (repr_nval _ _ _ (in_repr _ _ _ _ _ _ I)) as Hn;
    rewrite (sv_kvs _ _ _ _ _ _ _ L), app_nil_r in Hn; cbn [splitleaf_loop]; by rewrite Hi, Hn, Z.leb_refl.
  1: lia.
  assert (ssteps fuel (kv :: kvs2) ms2 s) as (s' & k1 & k2 & m1 & m2 & ol & or & -> & L' & Hl);
    [|eapply IH; [exact L'|cbn in Hl; lia]].
  destruct ms2 as [|m t]; [by eapply split_copy|]. cbn in Hf.
  destruct (keycmp_cases (k kv) (mk m)) as [[_ H]|[[_ H]|[_ H]]].
  - eapply split_copy; [exact L|]. by intros ? ? [= <- _].
  - eapply split_merge; [exact L|done|lia].
  - eapply split_insert; [exact L|done|lia].
Qed.
End Split.

(** * Theorems *)

(** C9: splitting a full leaf loses nothing.  For a well-formed leaf of at
    least four values that is too full for its messages, and messages that fit
    the half block kept for them, splitleaf terminates without an abort.  It
    pulls a prefix of the messages, all those not after the last key; the two
    blocks it fills hold, the left one the lesser keys, exactly the values the
    pulled messages, in their order, give to the leaf's; and the data blocks
    that come in are those that are stored in the halves or freed, each as
    often. *)
Theorem splitleaf_correct b src lo hi kvs ms psz l r :
  leafinput b src lo hi kvs ms -> filledleaf b psz = Ok true -> (4 <= length kvs)%nat ->
  total_msgsz ms + Valmax <= Z.quot Leafspc 2 ->
  blk_repr l [] [] -> btyp l = Tleaf -> blk_repr r [] [] -> btyp r = Tleaf ->
  exists o kl kr ms1 ms2, splitleaf b src lo hi psz l r = Ok o /\
    blk_repr (so_l o) kl [] /\ blk_repr (so_r o) kr [] /\
    kvs_sorted (kl ++ kr) /\ Forall kv_good (kl ++ kr) /\
    ms = ms1 ++ ms2 /\ so_npull o = zlen ms1 /\ 0 <= so_pullsz o <= total_msgsz ms1 /\
    keys_below (keys_of kvs ms1) (msg_keys ms2) /\
    (forall key, mrun (kvfind key kvs) (for_key key ms1) = Ok (kvfind key (kl ++ kr))) /\
    (Forall data_op ms1 -> kvs_ptrs kvs ++ msgs_ptrs ms1 ≡ₚ kvs_ptrs (kl ++ kr) ++ so_frees o).
Proof.
  intros I Hfill Hlen Hroom Rl Tl Rr Tr. pose proof (in_repr _ _ _ _ _ _ I) as R.
  unfold filledleaf in Hfill. inv_ok. unfold splitleaf.
  rewrite (repr_nval _ _ _ R), check_true by (unfold zlen; lia). rewrite bind_ok.
  set (halfsz := Z.min _ _).
  assert (Z.quot Leafspc 2 - 1 <= halfsz <= Z.quot Leafspc 2) as Hhalf.
  { unfold halfsz. rewrite (repr_nval _ _ _ R) in Hfill. change Leafspc with 16378 in *. change (Z.quot 16378 2) with 8189 in *.
    rewrite Z.quot_div_nonneg by lia. pose proof (Z.div_mod (2 * zlen kvs + bvalsz b + psz) 2).
    pose proof (Z.mod_pos_bound (2 * zlen kvs + bvalsz b + psz) 2). lia. }
  set (s0 := mkSplitst 0 lo false (Leafspc - (halfsz + Msgmax)) true 0 l r None 0 []).
  assert (sinv lo kvs ms [] kvs [] ms [] [] s0) as L.
  { split; cbn [s0 si sj sfull sspc sleft scopied sl sr sm spull sfrees]; try done; [by rewrite Z.add_0_r| |apply merged_start].
    change Leafspc with 16378 in *. change (Z.quot 16378 2) with 8189 in *. change Valmax with 774 in *. change Msgmax with 769. lia. }
  destruct (splitleaf_loop_spec b src lo hi halfsz kvs ms I Hhalf Hroom
    (Z.to_nat (zlen kvs + (hi - lo) + 1)) _ _ _ _ _ _ _ L) as (s & ms1 & ms2 & kl & kr & E & [Ek Em _ Ej _ _ [Rl' _] [Rr' _] M _ _]).
  { rewrite (in_hi _ _ _ _ _ _ I). unfold zlen. lia. }
  eexists _, kl, kr, ms1, ms2. rewrite E, bind_ok. split; [done|]. cbn [so_l so_r so_npull so_pullsz so_frees].
  destruct M. split_and!; try done; lia.
Qed.

(** * A leaf that overflows *)

(** Fifteen records of a byte, sixteen larger ones, one of the largest size
    and two more; the messages give the fifteen first ones 512 bytes each. *)
Definition rec (key : list Z) (n : nat) : Kvp := mkKvp (Kobj :: key) (replicate n 7).
Definition upto15 : list Z := [1; 2; 3; 4; 5; 6; 7; 8; 9; 10; 11; 12; 13; 14; 15].
Definition big_kvs : list Kvp :=
  ((fun i => rec [1; i] 1) <$> upto15) ++ ((fun i => rec [2; i] 512) <$> upto15) ++
  [rec [3] 215; rec (4 :: replicate 254 0) 512; rec [5] 1; rec [6] 1].
Definition big_ms : list Msg := (fun i => mkMsg Oinsert [Kobj; 1; i] (replicate 512 8)) <$> upto15.
Definition big_leaf : Blk := build Tleaf (mkBptr 65536 1 1) big_kvs [].
Definition big_parent : Blk := build Tpivot (mkBptr 131072 1 1) [rec [1; 1] 26] big_ms.
Definition fresh_leaf : Blk := build Tleaf (mkBptr 262144 1 1) [] [].

Lemma big_repr : blk_repr big_leaf big_kvs [] /\ btyp big_leaf = Tleaf.
Proof.
  destruct (build_repr Tleaf (mkBptr 65536 1 1) big_kvs []) as (R & T & _); [right; done|..|exact (conj R T)].
  - apply (bool_decide_unpack (Forall entry_ok big_kvs)). by vm_compute.
  - constructor.
  - by vm_compute.
  - by vm_compute.
Qed.

Lemma parent_repr : blk_repr big_parent [rec [1; 1] 26] big_ms /\ btyp big_parent = Tpivot.
Proof.
  destruct (build_repr Tpivot (mkBptr 131072 1 1) [rec [1; 1] 26] big_ms) as (R & T & _); [left; done|..|exact (conj R T)].
  - apply (bool_decide_unpack (Forall entry_ok [rec [1; 1] 26])). by vm_compute.
  - unfold big_ms. apply Forall_fmap, Forall_forall. by intros i _.
  - by vm_compute.
  - by vm_compute.
Qed.

Lemma mrun_inserts l : forall cur, Forall (fun m => op m = Oinsert /\ msg_small m) l -> is_Ok (mrun cur l).
Proof.
  induction l as [|m l IH]; intros cur H; [by eexists|]. apply Forall_cons in H as [[Ho Hs] H]. cbn [mrun].
  assert (exists c, mstep cur m = Ok c) as [c ->]; [|by apply IH].
  destruct cur as [kv|]; cbn [mstep]; [|rewrite Ho; by eexists].
  unfold apply. rewrite Ho. cbn. rewrite (cpkvp_small (msg_kvp m) Hs). by eexists.
Qed.

(** A test that keys ascend. *)
Fixpoint ascb (l : list (list Z)) : bool :=
  match l with
  | x :: l => match l with y :: _ => (keycmp x y <? 0) && ascb l | [] => true end
  | [] => true
  end.

Lemma ascb_sorted l : ascb l = true -> StronglySorted key_lt l.
Proof.
  intros H. apply Sorted_StronglySorted; [intros x y z; apply transitivity|].
  induction l as [|x l IH]; [constructor|]. destruct l as [|y l]; [repeat constructor|].
  cbn [ascb] in H. apply andb_true_iff in H as [H1 H2]. constructor; [by apply IH|]. constructor. by apply Z.ltb_lt.
Qed.

Lemma ascb_weak l : ascb l = true -> StronglySorted key_le l.
Proof.
  intros H%ascb_sorted. induction H as [|x l _ IH Hx]; [constructor|]. constructor; [done|].
  eapply Forall_impl; [exact Hx|]. intros y. apply key_lt_le.
Qed.

(** Records are of the sizes gefs allows. *)
Lemma rec_good key (vs : list Z) :
  zlen key <= 255 -> zlen vs <= Inlmax -> kv_good (mkKvp (Kobj :: key) vs).
Proof.
  intros Hk Hv. split; [split|split].
  - unfold nk. change (k (mkKvp (Kobj :: key) vs)) with (Kobj :: key). rewrite zlen_cons. change Keymax with 256. lia.
  - exact Hv.
  - unfold entry_ok. cbn [k head]. intros [=].
  - unfold isdata. cbn [k head]. rewrite bool_decide_false by (intros [=]). done.
Qed.

Lemma zlen_replicate (n : nat) (x : Z) : zlen (replicate n x) = Z.of_nat n.
Proof. unfold zlen. by rewrite length_replicate. Qed.

Lemma big_msg_good i : msg_good (mkMsg Oinsert [Kobj; 1; i] (replicate 512 8)).
Proof.
  assert (kv_good (mkKvp [Kobj; 1; i] (replicate 512 8))) as H.
  { apply rec_good; [done|]. rewrite zlen_replicate. change Inlmax with 512. lia. }
  split; [apply H|]. split; [by vm_compute|]. intros _. exact H.
Qed.

Lemma Forall_filter_keep {A} (P Q : A -> Prop) `{!forall x, Decision (P x)} (l : list A) :
  Forall Q l -> Forall Q (filter P l).
Proof. rewrite !Forall_forall. intros Hl x [_ Hx]%list_elem_of_filter. by apply Hl. Qed.

Lemma big_msgs_insert : Forall (fun m => op m = Oinsert /\ msg_small m) big_ms.
Proof.
  unfold big_ms. apply Forall_fmap, Forall_forall. intros i _. split; [reflexivity|exact (proj1 (big_msg_good i))].
Qed.

Lemma big_input : leafinput big_leaf (SrcBlk big_parent) 0 15 big_kvs big_ms.
Proof.
  destruct big_repr as [R T], parent_repr as [Rp Tp].
  assert (Forall msg_good big_ms) as Hg.
  { unfold big_ms. apply Forall_fmap, Forall_forall. intros i _. apply big_msg_good. }
  split; [exact R|exact T| | | | |exact Hg| |].
  - assert (forall key n, zlen key <= 255 -> (n <= 512)%nat -> kv_good (rec key n)) as Hr.
    { intros key n Hk Hn. apply rec_good; [done|]. rewrite zlen_replicate. change Inlmax with 512. lia. }
    apply Forall_app. split; [|apply Forall_app; split].
    + apply Forall_fmap, Forall_forall. intros i _. apply Hr; [done|lia].
    + apply Forall_fmap, Forall_forall. intros i _. apply Hr; [done|lia].
    + repeat (apply Forall_cons_2; [apply Hr; [rewrite ?zlen_cons, ?zlen_replicate, ?zlen_nil; lia|lia]|]). constructor.
  - apply ascb_sorted. by vm_compute.
  - apply (src_repr_blk big_parent [rec [1; 1] 26] [] big_ms []); [|exact Tp]. cbn [app]. rewrite app_nil_r. exact Rp.
  - by vm_compute.
  - apply (ascb_weak (msg_keys big_ms)). by vm_compute.
  - intros key. apply mrun_inserts. apply (Forall_filter_keep _ _ big_ms big_msgs_insert).
Qed.

(** C40: splitleaf can overflow.  A leaf and messages exist, well-formed and of
    the sizes gefs allows, the messages a full parent's buffer holds, on which
    the left half runs out of room and setval's assertion stops the kernel: the
    room splitleaf gives to a value is that of the value before its messages. *)
Theorem splitleaf_overflow :
  exists b src lo hi kvs ms l r,
    leafinput b src lo hi kvs ms /\ filledleaf b (total_msgsz ms) = Ok true /\ (4 <= length kvs)%nat /\
    total_msgsz ms <= Bufspc /\
    blk_repr l [] [] /\ btyp l = Tleaf /\ blk_repr r [] [] /\ btyp r = Tleaf /\
    splitleaf b src lo hi (total_msgsz ms) l r = Fail Abort.
Proof.
  destruct (build_repr Tleaf (mkBptr 262144 1 1) [] []) as (R & T & _);
    [right; done|constructor|constructor|by vm_compute|by vm_compute|].
  exists big_leaf, (SrcBlk big_parent), 0, 15, big_kvs, big_ms, fresh_leaf, fresh_leaf.
  split; [exact big_input|]. split; [vm_compute; reflexivity|]. split; [vm_compute; lia|].
  split; [by vm_compute|]. split; [exact R|]. split; [exact T|]. split; [exact R|]. split; [exact T|].
  vm_compute. reflexivity.
Qed.

(** ** A split *)

Definition split_ms : list Msg :=
  [mkMsg Oinsert [Kobj; 1; 3] [9]; mkMsg Oinsert [Kobj; 2; 20] [9]; mkMsg Oinsert [Kobj; 9] [1]].
Definition full_kvs : list Kvp :=
  ((fun i => rec [1; i] 512) <$> upto15) ++ ((fun i => rec [2; i] 512) <$> upto15) ++ [rec [3] 512; rec [4] 200].
Definition full_leaf : Blk := build Tleaf (mkBptr 65536 1 1) full_kvs [].

Lemma split_msgs_good : Forall (fun m => op m = Oinsert /\ msg_good m) split_ms.
Proof.
  assert (forall key vs, zlen key <= 255 -> zlen vs <= Inlmax -> msg_good (mkMsg Oinsert (Kobj :: key) vs)) as Hg.
  { intros key vs Hk Hv. pose proof (rec_good key vs Hk Hv) as G. split; [apply G|]. split; [by vm_compute|]. intros _. exact G. }
  repeat (apply Forall_cons_2; [split; [reflexivity|apply Hg; by vm_compute]|]). constructor.
Qed.

Lemma full_input : leafinput full_leaf (SrcIns split_ms) 0 3 full_kvs split_ms.
Proof.
  destruct (build_repr Tleaf (mkBptr 65536 1 1) full_kvs []) as (R & T & _);
    [right; done|apply (bool_decide_unpack (Forall entry_ok full_kvs)); by vm_compute|constructor|by vm_compute|by vm_compute|].
  split; [exact R|exact T| | |exact (src_repr_ins [] split_ms)| | | |].
  - assert (forall key n, zlen key <= 255 -> (n <= 512)%nat -> kv_good (rec key n)) as Hr.
    { intros key n Hk Hn. apply rec_good; [done|]. rewrite zlen_replicate. change Inlmax with 512. lia. }
    apply Forall_app. split; [|apply Forall_app; split].
    + apply Forall_fmap, Forall_forall. intros i _. apply Hr; [done|lia].
    + apply Forall_fmap, Forall_forall. intros i _. apply Hr; [done|lia].
    + repeat (apply Forall_cons_2; [apply Hr; [by vm_compute|lia]|]). constructor.
  - apply ascb_sorted. by vm_compute.
  - by vm_compute.
  - eapply Forall_impl; [exact split_msgs_good|]. by intros m [_ Hm].
  - apply (ascb_weak (msg_keys split_ms)). by vm_compute.
  - intros key. apply mrun_inserts, Forall_filter_keep.
    eapply Forall_impl; [exact split_msgs_good|]. intros m [Ho Hm]. exact (conj Ho (proj1 Hm)).
Qed.

Lemma splitleaf_correct_witness :
  exists o kl kr ms1 ms2, splitleaf full_leaf (SrcIns split_ms) 0 3 (total_msgsz split_ms) fresh_leaf fresh_leaf = Ok o /\
    blk_repr (so_l o) kl [] /\ blk_repr (so_r o) kr [] /\ kvs_sorted (kl ++ kr) /\
    split_ms = ms1 ++ ms2 /\ so_npull o = zlen ms1.
Proof.
  destruct (build_repr Tleaf (mkBptr 262144 1 1) [] []) as (R & T & _);
    [right; done|constructor|constructor|by vm_compute|by vm_compute|].
  destruct (splitleaf_correct full_leaf (SrcIns split_ms) 0 3 full_kvs split_ms (total_msgsz split_ms) fresh_leaf fresh_leaf
    full_input) as (o & kl & kr & ms1 & ms2 & H1 & H2 & H3 & H4 & _ & H6 & H7 & _);
    [vm_compute; reflexivity|apply Nat.leb_le; vm_compute; reflexivity|by vm_compute|exact R|exact T|exact R|exact T|].
  exists o, kl, kr, ms1, ms2. exact (conj H1 (conj H2 (conj H3 (conj H4 (conj H6 H7))))).
Defined.
