(* ===== verification/Flush.v ===== *)
(** sys/src/9/gefs/tree.c, the update of a tree as a whole: victim and
    keyvictim choose a child, flush rebuilds the blocks of a path from the leaf
    up, and btupsert1 repeats this until the messages are in the tree.

    The blocks come from [newblk], which is given how many were made before,
    and [fetch] reads those that were there.  The state is what the update
    has done: the blocks it made, those it queued for writing (enqueue) and
    the blocks it freed (freeblk, freebp), the last first.  A block that was
    queued is read back as it is.  An error is passed on; that btupsert1 then
    makes the file system read-only is left out, as are the references on
    blocks, t->dirty, the lock of the tree and the messages on the console.
    The order in which freepath frees is not kept. *)

From S2P Require Import Prelude Layout Hash Pack Node Msgs Leaf Pivot Blk Tree Upsert Scan.

(** * Choosing a child *)

(** struct Path, as it flows down.  [pins] is set in path[0] only. *)
Record Path := mkPath {
  pins : option (list Msg); pb : option Blk; pidx : Z; plo : Z; phi : Z; psz : Z
}.

(** The messages before a separator, or all that are left: the index after
    them and their size. *)
Fixpoint segment (fuel : nat) (b : Blk) (sep : option (list Z)) (j sz : Z) : res (Z * Z) :=
  if nbuf b <=? j then Ok (j, sz) else
  match fuel with
  | O => Fail Fuel
  | S fuel =>
      m ← getmsg b j;
      if match sep with Some key => 0 <=? keycmp (mk m) key | None => false end then Ok (j, sz)
      else segment fuel b sep (j + 1) (sz + msgsz m)
  end.

(** The loop over the children from [i] on. *)
Fixpoint victim_loop (cnt : nat) (b : Blk) (i j maxsz : Z) (p : Path) : res Path :=
  match cnt with
  | O => Ok p
  | S cnt =>
      sep ← (if i <? nval b then kv ← getval b i; Ok (Some (k kv)) else Ok None);
      '(j', cursz) ← segment (Z.to_nat (nbuf b)) b sep j 0;
      let '(maxsz, p) :=
        if maxsz <? cursz then (cursz, mkPath (pins p) (pb p) (i - 1) j j' cursz) else (maxsz, p) in
      victim_loop cnt b (i + 1) j' maxsz p
  end.

(** The path's entry is all zero before. *)
Definition victim (b : Blk) : res Path :=
  victim_loop (Z.to_nat (nval b)) b 1 0 0 (mkPath None (Some b) 0 0 0 0).

(** The child that holds [key], and the separator of the next child if there
    is one. *)
Definition keyvictim (b : Blk) (key : list Z) (nbuf' : Z) : res (Path * option Kvp) :=
  '(i, _, _) ← blksearch b key;
  let i := if i =? -1 then 0 else i in
  lk ← (if 0 <? i then kv ← getval b i; Ok (Some (k kv)) else Ok None);
  hk ← (if i + 1 <? nval b then kv ← getval b (i + 1); Ok (Some kv) else Ok None);
  next ← (match hk with Some kv => r ← cpkvp kv nbuf'; Ok (Some r) | None => Ok None end);
  lo ← (match lk with
        | Some key => '(lo, _) ← segment (Z.to_nat (nbuf b)) b (Some key) 0 0; Ok lo
        | None => Ok 0
        end);
  '(hi, sz) ← segment (Z.to_nat (nbuf b)) b (option_map k hk) lo 0;
  Ok (mkPath None (Some b) i lo hi sz, next).

(** * Flushing a path *)

Section Flush.
  Context (newblk : nat -> btype -> res Mblk).
  Context (fetchm : Bptr -> res Mblk).

Record fstate := mkFs { fnew : nat; fwr : list Mblk; ffree : list Bptr }.

Definition fsalloc (s : fstate) (ty : btype) : res (fstate * Mblk) :=
  m ← newblk (fnew s) ty; Ok (mkFs (S (fnew s)) (fwr s) (ffree s), m).
Definition fsfree (s : fstate) (p : Bptr) : fstate := mkFs (fnew s) (fwr s) (p :: ffree s).
Definition fsfrees (s : fstate) (l : list Bptr) : fstate := mkFs (fnew s) (fwr s) (reverse l ++ ffree s).
Definition fsenqueue (s : fstate) (m : Mblk) : res (fstate * Mblk) :=
  m ← finalize m; Ok (mkFs (fnew s) (m :: fwr s) (ffree s), m).

(** getblk: a block queued by this update, or one that was there. *)
Definition fsget (s : fstate) (p : Bptr) : res Mblk :=
  match filter (fun m => bp (mb m) = p) (fwr s) with m :: _ => Ok m | [] => fetchm p end.

Definition freed_opt (s : fstate) (o : option Blk) : fstate :=
  match o with Some b => fsfree s (bp b) | None => s end.

Definition setb (s : fstate) (dst : option Blk) (m : Mblk) : res (fstate * option Blk) :=
  let s := freed_opt s dst in
  if nval (mb m) =? 0 then Ok (fsfree s (bp (mb m)), None)
  else '(s, m) ← fsenqueue s m; Ok (s, Some (mb m)).

(** Two blocks filled by a split or a rotation. *)
Definition setbs (s : fstate) (dl : option Blk) (ml : Mblk) (nl : Blk) (mr : Mblk) (nr : Blk)
    : res (fstate * option Blk * option Blk) :=
  '(s, l) ← setb s dl (withmb ml nl);
  '(s, r) ← setb s None (withmb mr nr);
  Ok (s, l, r).

Definition src_of (p : Path) : res msgsrc :=
  match pins p with Some ms => Ok (SrcIns ms) | None => b ← of_option (pb p) Undef; Ok (SrcBlk b) end.

(** ** The leaf *)

Definition flushleaf (s : fstate) (pup : Path) (b : Blk) : res (fstate * kid) :=
  src ← src_of pup;
  full ← filledleaf b (psz pup);
  if negb full then
    '(s, m) ← fsalloc s (btyp b);
    o ← updateleaf b src (plo pup) (phi pup) (mb m);
    '(s, nl) ← setb (fsfrees s (lo_frees o)) None (withmb m (lo_blk o));
    Ok (s, mkKid POmod nl None (lo_npull o) (lo_pullsz o))
  else
    '(s, ml) ← fsalloc s (btyp b);
    '(s, mr) ← fsalloc s (btyp b);
    o ← splitleaf b src (plo pup) (phi pup) (psz pup) (mb ml) (mb mr);
    '(s, nl, nr) ← setbs (fsfrees s (so_frees o)) None ml (so_l o) mr (so_r o);
    Ok (s, mkKid POsplit nl nr (so_npull o) (so_pullsz o)).

(** ** Balancing *)

(** rotmerge, with the blocks it makes: the child afterwards if it changed. *)
Definition dorotmerge (s : fstate) (pp : kid) (a b : Blk) : res (fstate * option kid) :=
  c ← rotmerge a b;
  match c with
  | BalNone => Ok (s, None)
  | BalMerge =>
      '(s, m) ← fsalloc s (btyp a);
      d ← merge a b (mb m);
      '(s, nl) ← setb s (knl pp) (withmb m d);
      Ok (s, Some (mkKid POmerge nl (knr pp) (knpull pp) (kpullsz pp)))
  | BalRotate half =>
      '(s, ml) ← fsalloc s (btyp a);
      '(s, mr) ← fsalloc s (btyp a);
      '(l, r) ← rotate a b half (mb ml) (mb mr);
      '(s, nl, nr) ← setbs s (knl pp) ml l mr r;
      Ok (s, Some (mkKid POrot nl nr (knpull pp) (kpullsz pp)))
  end.

(** The neighbour at entry [i] of [b], if it and [fill] bytes fit one block. *)
Definition neighbour (s : fstate) (b : Blk) (i fill : Z) (ty : btype) : res (option Blk) :=
  kv ← getval b i;
  '(p, f) ← getptr kv;
  let spc := if decide (ty = Tleaf) then Leafspc else Pivspc in
  if f + fill <? spc then m ← fsget s p; Ok (Some (mb m)) else Ok None.

(** The child, p->midx and p->s afterwards. *)
Definition trybalance (s : fstate) (b : Blk) (idx : Z) (pp : option kid)
    : res (fstate * option kid * Z * option Blk) :=
  let same := (s, pp, idx, None) in
  match pp with
  | None => Ok same
  | Some c =>
      match knl c with
      | None => Ok same
      | Some m =>
          if (idx =? -1) || negb (bool_decide (kop c = POmod) || bool_decide (kop c = POmerge)) then Ok same else
          fill ← blkfill m;
          ol ← (if 0 <=? idx - 1 then neighbour s b (idx - 1) fill (btyp m) else Ok None);
          match ol with
          | Some l =>
              '(s, o) ← dorotmerge s c l m;
              Ok (match o with Some c => (s, Some c, idx - 1, Some l) | None => (s, pp, idx, None) end)
          | None =>
              or ← (if idx + 1 <? nval b then neighbour s b (idx + 1) fill (btyp m) else Ok None);
              match or with
              | Some r =>
                  '(s, o) ← dorotmerge s c m r;
                  Ok (match o with Some c => (s, Some c, idx, Some r) | None => (s, pp, idx, None) end)
              | None => Ok same
              end
          end
      end
  end.

(** ** The pivots *)

(** What flush leaves: the child rp (its nl and npull), the nl of every entry
    of the path from path[0] on, and the siblings (p->s). *)
Record flushed := mkFlushed { frp : option (option Blk * Z); fnls : list (option Blk); fsib : list Blk }.

(** The new root above a split one. *)
Definition newroot (s : fstate) (c : kid) : res (fstate * Blk) :=
  '(s, m) ← fsalloc s Tpivot;
  '(n, _) ← copyup (mb m) c 0;
  '(s, m) ← fsenqueue s (withmb m n);
  Ok (s, mb m).

(** The pivots of the path, from the lowest up to path[1]; [nls] are the new
    blocks below, without that of the child [pp]. *)
Fixpoint flushpiv (l : list Path) (s : fstate) (pp : option kid) (rp : option (option Blk * Z))
    (nls : list (option Blk)) (sib : list Blk) : res (fstate * flushed) :=
  let below := match pp with Some c => knl c :: nls | None => nls end in
  match l with
  | [] => Fail Undef
  | [p0] =>
      c ← of_option pp Undef;
      match knl c, knr c with
      | Some _, Some _ =>
          '(s, n) ← newroot s c;
          Ok (s, mkFlushed (Some (Some n, knpull c)) (Some n :: below) sib)
      | _, _ => Ok (s, mkFlushed rp (None :: below) sib)
      end
  | p :: ((pup :: l') as l1) =>
      b ← of_option (pb p) Undef;
      src ← src_of pup;
      full ← filledpiv b 2;
      if negb full then
        '(s, pp, midx, sb) ← trybalance s b (pidx p) pp;
        let sib := match sb with Some x => x :: sib | None => sib end in
        let below := match pp with Some c => knl c :: nls | None => nls end in
        let drop := match l', pp with
          | [], Some c =>
              match knl c, knr c with
              | Some _, None =>
                  (knpull c =? nbuf b) &&
                  (bool_decide (kop c = POmerge) && (nval b =? 2) || bool_decide (kop c = POmod) && (nval b =? 1))
              | _, _ => false
              end
          | _, _ => false
          end in
        match drop, pp with
        | true, Some c => Ok (s, mkFlushed (Some (knl c, 0)) (None :: None :: below) sib)
        | _, _ =>
            '(s, m) ← fsalloc s (btyp b);
            '(n, np, ps) ← updatepiv b src (plo pup) (phi pup) midx (plo p) 0 pp (mb m);
            '(s, nl) ← setb s None (withmb m n);
            flushpiv l1 s (Some (mkKid POmod nl None np ps)) (Some (nl, np)) below sib
        end
      else
        '(s, ml) ← fsalloc s (btyp b);
        '(s, mr) ← fsalloc s (btyp b);
        '(n1, n2) ← splitpiv b (pidx p) (plo p) pp (mb ml) (mb mr);
        '(s, nl, nr) ← setbs s None ml n1 mr n2;
        flushpiv l1 s (Some (mkKid POsplit nl nr 0 0)) rp below sib
  end.

(** [path] is path[npath-1] first. *)
Definition flush (s : fstate) (path : list Path) : res (fstate * flushed) :=
  match path with
  | p :: ((pup :: _) as l) =>
      b ← of_option (pb p) Undef;
      if decide (btyp b = Tleaf) then
        '(s, c) ← flushleaf s pup b;
        flushpiv l s (Some c)
          (if bool_decide (kop c = POmod) then Some (knl c, knpull c) else None) [] []
      else flushpiv path s None None [] []
  | _ => Fail Abort
  end.

(** * btupsert1 *)

(** The way down from [b] with room for [n] more entries; [path] is the last
    first.  [deep] is the key of btdrain and the size of its buffer. *)
Fixpoint godown (n : nat) (s : fstate) (b : Blk) (nmsg : Z) (deep : option (list Z * Z)) (next : option Kvp)
    (path : list Path) : res (list Path * option Kvp) :=
  let stop := Ok (mkPath None (Some b) (-1) (-1) (-1) 0 :: path, next) in
  if negb (bool_decide (btyp b = Tpivot)) then stop else
  sz ← of_option (psz <$> head path) Undef;
  filled ← filledbuf b nmsg sz;
  if negb (bool_decide (is_Some deep)) && (1 <? nval b) && negb filled then stop else
  '(p, next) ← match deep with
    | Some (key, nbuf') => '(p, o) ← keyvictim b key nbuf'; Ok (p, match o with Some kv => Some kv | None => next end)
    | None => p ← victim b; Ok (p, next)
    end;
  sep ← getval b (pidx p);
  q ← unpackbp (v sep);
  m ← fsget s q;
  match n with
  | O => Fail Abort
  | S n => godown n s (mb m) nmsg deep next (p :: path)
  end.

(** The change of height, by the first of path[0..2] with a new block. *)
Definition heightdiff (nls : list (option Blk)) : res Z :=
  match nls with
  | Some _ :: _ => Ok 1
  | None :: Some _ :: _ => Ok 0
  | None :: None :: Some _ :: _ => Ok (-1)
  | _ => Fail Abort
  end.

Definition freepath (s : fstate) (path : list Path) (sib : list Blk) : fstate :=
  fsfrees s (omap (fun p => bp <$> pb p) path ++ (bp <$> sib)).

(** From Again on, once: the tree, the messages pulled so far, and if it is done. *)
Definition upsert1 (s : fstate) (t : Tree) (msg : list Msg) (deep : option (list Z * Z)) (next : option Kvp)
    (npull : Z) : res (fstate * Tree * option Kvp * Z * bool) :=
  let sz := total_msgsz msg in
  let nmsg := zlen msg in
  rm ← fsget s (tbp t);
  let b := mb rm in
  if bool_decide (is_Some deep) && bool_decide (btyp b = Tleaf) then Ok (s, t, None, nmsg, true) else
  filled ← (if bool_decide (btyp b = Tpivot) then filledbuf b nmsg sz else Ok true);
  if negb (bool_decide (is_Some deep)) && (npull =? 0) && bool_decide (btyp b = Tpivot) && (1 <? nval b) && negb filled then
    '(s, m) ← fsalloc s (btyp b);
    '(t, r, old) ← fastupsert t m rm msg;
    Ok (mkFs (fnew s) (r :: fwr s) (old :: ffree s), t, next, nmsg, true)
  else
    '(path, next) ← godown (Z.to_nat (ht t)) s b nmsg deep next [mkPath (Some msg) None (-1) npull nmsg sz];
    '(s, f) ← flush s path;
    rp ← of_option (frp f) Undef;
    dh ← heightdiff (fnls f);
    rb ← of_option (fst rp) Undef;
    let degen := bool_decide (btyp rb = Tpivot) && (nval rb =? 1) in
    let t := setroot t (bp rb) dh in
    let npull := npull + snd rp in
    Ok (freepath s path (fsib f), t, next, npull, (npull =? nmsg) && negb degen).

Fixpoint upsert_again (fuel : nat) (s : fstate) (t : Tree) (msg : list Msg) (deep : option (list Z * Z))
    (next : option Kvp) (npull : Z) : res (fstate * Tree * option Kvp) :=
  match fuel with
  | O => Fail Fuel
  | S fuel =>
      '(s, t, next, npull, fin) ← upsert1 s t msg deep next npull;
      if fin : bool then Ok (s, t, next) else upsert_again fuel s t msg deep next npull
  end.

Definition btupsert1 (fuel : nat) (t : Tree) (msg : list Msg) (deep : option (list Z * Z))
    : res (fstate * Tree * option Kvp) :=
  let msg := stablesort msg in
  check (forallb (fun m => (zlen (mk m) <=? Keymax) && (zlen (mv m) <=? Inlmax)) msg);;
  upsert_again fuel (mkFs 0 [] []) t msg deep None 0.

Definition btupsert (fuel : nat) (t : Tree) (msg : list Msg) : res (fstate * Tree) :=
  '(s, t, _) ← btupsert1 fuel t msg None; Ok (s, t).

Definition btdrain (fuel : nat) (t : Tree) (key : list Z) (nbuf' : Z) : res (fstate * Tree * option Kvp) :=
  btupsert1 fuel t [] (Some (key, nbuf')).
End Flush.

(** * Properties of the choice *)

(** The messages for a child: before the next separator. *)
Definition before (sep : option (list Z)) (m : Msg) : Prop :=
  match sep with Some key => key_lt (mk m) key | None => True end.

#[global] Instance before_dec sep m : Decision (before sep m).
Proof. destruct sep; cbn; apply _. Defined.

Lemma sorted_before sep ms : msgs_sorted ms ->
  exists a c, ms = a ++ c /\ Forall (before sep) a /\ Forall (fun m => ~ before sep m) c.
Proof.
  intros Hs. destruct sep as [key|]; [|exists ms, []; rewrite app_nil_r; split_and!; [done|by apply Forall_true|done]].
  induction ms as [|m ms IH]; [by exists [], []|]. destruct (decide (key_lt (mk m) key)) as [Hm|Hm].
  - destruct (IH (proj1 (msgs_sorted_tail _ _ Hs))) as (a & c & -> & Ha & Hc). exists (m :: a), c. split_and!; [done| |done]. by constructor.
  - exists [], (m :: ms). split_and!; [done|constructor|]. constructor; [done|].
    eapply Forall_impl; [apply (msgs_sorted_tail _ _ Hs)|]. cbn. intros x Hx Hlt. apply Hm. by eapply key_le_lt_trans.
Qed.

Lemma segment_spec b kvs sep a : forall pre c fuel sz,
  blk_repr b kvs (pre ++ a ++ c) -> btyp b = Tpivot -> Forall (before sep) a ->
  (forall m c', c = m :: c' -> ~ before sep m) -> (length a + length c <= fuel)%nat ->
  segment fuel b sep (zlen pre) sz = Ok (zlen (pre ++ a), sz + total_msgsz a).
Proof.
  induction a as [|m a IH]; intros pre c fuel sz R Ht Ha Hc Hf.
  - rewrite app_nil_r. change (total_msgsz []) with 0. rewrite Z.add_0_r. cbn [app] in R. destruct c as [|m c].
    + destruct fuel; cbn [segment]; by rewrite (repr_nbuf _ _ _ R), app_nil_r, Z.leb_refl.
    + destruct fuel as [|fuel]; [cbn in Hf; lia|]. cbn [segment]. rewrite (repr_nbuf _ _ _ R), zlen_app, zlen_cons.
      pose proof (zlen_nonneg c). destruct (Z.leb_spec (zlen pre + (1 + zlen c)) (zlen pre)); [lia|].
      rewrite (getmsg_middle _ _ _ _ _ R Ht), bind_ok. specialize (Hc m c eq_refl).
      destruct sep as [key|]; [|by destruct Hc]. cbn in Hc. unfold key_lt in Hc. by destruct (Z.leb_spec 0 (keycmp (mk m) key)); [|lia].
  - apply Forall_cons in Ha as [Hm Ha]. destruct fuel as [|fuel]; [cbn in Hf; lia|]. cbn [segment].
    rewrite (repr_nbuf _ _ _ R), !zlen_app, zlen_cons. pose proof (zlen_nonneg a). pose proof (zlen_nonneg c).
    destruct (Z.leb_spec (zlen pre + (1 + (zlen a) + zlen c)) (zlen pre)); [lia|].
    cbn [app] in R. rewrite (getmsg_middle _ _ _ _ _ R Ht), bind_ok.
    assert ((match sep with Some key => 0 <=? keycmp (mk m) key | None => false end) = false) as ->.
    { destruct sep as [key|]; [|done]. cbn in Hm. unfold key_lt in Hm. by apply Z.leb_gt. }
    replace (zlen pre + 1) with (zlen (pre ++ [m])) by (rewrite zlen_app; done).
    rewrite (IH (pre ++ [m]) c); [|by rewrite <- app_assoc|done|done|done|cbn in Hf; lia].
    rewrite total_msgsz_cons, !zlen_app, zlen_cons, zlen_nil. do 2 f_equal; lia.
Qed.

(** The messages of the buffer for child [i] of [kvs]: those from its
    separator on, the first child's from the start, up to the next one. *)
Definition for_child (kvs : list Kvp) (i : nat) (ms : list Msg) : list Msg :=
  filter (fun m => (i = 0%nat \/ ~ before (k <$> kvs !! i) m) /\ before (k <$> kvs !! S i) m) ms.

Lemma for_child_seg kvs i d a c :
  (i = 0%nat -> d = []) -> Forall (before (k <$> kvs !! i)) d ->
  Forall (fun m => (i = 0%nat \/ ~ before (k <$> kvs !! i) m) /\ before (k <$> kvs !! S i) m) a ->
  Forall (fun m => ~ before (k <$> kvs !! S i) m) c ->
  for_child kvs i (d ++ a ++ c) = a.
Proof.
  intros H0 Hd Ha Hc. unfold for_child. rewrite !filter_app, (filter_all _ a), (filter_none _ c), app_nil_r by
    (first [exact Ha|eapply Forall_impl; [exact Hc|]; by intros m Hm [_ ?]]).
  rewrite filter_none; [done|]. destruct i as [|i]; [by rewrite H0|].
  eapply Forall_impl; [exact Hd|]. by intros m Hm [[?|?] _].
Qed.

Lemma before_next kvs i m : kvs_sorted kvs -> before (k <$> kvs !! i) m -> before (k <$> kvs !! S i) m.
Proof.
  intros Hs. destruct (kvs !! S i) as [kv'|] eqn:E'; cbn; [|done].
  destruct (kvs !! i) as [kv|] eqn:E; cbn.
  - intros H. etrans; [exact H|]. eapply (sorted_lookup key_lt (kv_keys kvs) i (S i)); [exact Hs|..|lia];
      unfold kv_keys; by rewrite list_lookup_fmap, ?E, ?E'.
  - apply lookup_lt_Some in E'. apply lookup_ge_None in E. lia.
Qed.

Section Victim.
  Context (b : Blk) (kvs : list Kvp) (ms : list Msg).
  Hypothesis R : blk_repr b kvs ms.
  Hypothesis Ht : btyp b = Tpivot.
  Hypothesis Hks : kvs_sorted kvs.
  Hypothesis Hms : msgs_sorted ms.

(** The path's entry is for child [c]: the range of the buffer that holds its
    messages, and their size. *)
Definition picked (p : Path) (c : nat) : Prop :=
  pins p = None /\ pb p = Some b /\ pidx p = Z.of_nat c /\ exists pre post, ms = pre ++ for_child kvs c ms ++ post /\
    plo p = zlen pre /\ phi p = plo p + zlen (for_child kvs c ms) /\ psz p = total_msgsz (for_child kvs c ms).

(** The messages before child [i], and the rest. *)
Definition upto (i : nat) (d r : list Msg) : Prop :=
  ms = d ++ r /\ (if decide (i = 0%nat) then d = [] else
    Forall (before (k <$> kvs !! i)) d /\ Forall (fun m => ~ before (k <$> kvs !! i) m) r).

Lemma upto_next i d r : upto i d r ->
  exists c, r = for_child kvs i ms ++ c /\ upto (S i) (d ++ for_child kvs i ms) c /\
    Forall (before (k <$> kvs !! S i)) (for_child kvs i ms) /\ Forall (fun m => ~ before (k <$> kvs !! S i) m) c.
Proof.
  intros [E Hd]. assert (msgs_sorted r) as Hr.
  { clear -E Hms. unfold msgs_sorted, keys_sorted, msg_keys in *. rewrite E, fmap_app in Hms. by eapply StronglySorted_app_1_r. }
  destruct (sorted_before (k <$> kvs !! S i) r Hr) as (a & c & -> & Ha & Hc).
  assert (for_child kvs i ms = a) as Efc.
  { rewrite E. destruct (decide (i = 0%nat)) as [->|Hi].
    - subst d. apply for_child_seg; [done|constructor| |done]. eapply Forall_impl; [exact Ha|]. intros m Hm. split; [by left|done].
    - destruct Hd as [Hd Hac]. apply Forall_app in Hac as [Hn _]. apply for_child_seg; [done|done| |done].
      rewrite Forall_forall in Ha, Hn |- *. intros m Hm. split; [right; by apply Hn|by apply Ha]. }
  rewrite Efc. exists c. split_and!; [done| |done|done]. split; [by rewrite <- app_assoc|].
  rewrite decide_False by done. split; [|done]. apply Forall_app. split; [|done].
  destruct (decide (i = 0%nat)) as [->|Hi]; [subst d; constructor|]. eapply Forall_impl; [apply Hd|]. intros m. by apply before_next.
Qed.

Lemma victim_loop_spec cnt : forall i d r maxsz p,
  (i + cnt = length kvs)%nat -> upto i d r ->
  ((maxsz = 0 /\ p = mkPath None (Some b) 0 0 0 0) \/ exists c, (c < i)%nat /\ picked p c /\ psz p = maxsz) ->
  (forall c, (c < i)%nat -> total_msgsz (for_child kvs c ms) <= maxsz) -> 0 <= maxsz ->
  exists p' maxsz', victim_loop cnt b (Z.of_nat i + 1) (zlen d) maxsz p = Ok p' /\ 0 <= maxsz' /\
    ((maxsz' = 0 /\ p' = mkPath None (Some b) 0 0 0 0) \/ exists c, (c < length kvs)%nat /\ picked p' c /\ psz p' = maxsz') /\
    (forall c, (c < length kvs)%nat -> total_msgsz (for_child kvs c ms) <= maxsz').
Proof.
  induction cnt as [|cnt IH]; intros i d r maxsz p Hi Hu Hp Hmax H0.
  - assert (i = length kvs) as -> by lia. exists p, maxsz. by split_and!.
  - cbn [victim_loop]. destruct (upto_next i d r Hu) as (c & -> & Hu' & Ha & Hc).
    rewrite (repr_nval _ _ _ R). pose proof Hu as [Ems _].
    assert ((if Z.of_nat i + 1 <? zlen kvs then kv ← getval b (Z.of_nat i + 1); Ok (Some (k kv)) else Ok None) = Ok (k <$> kvs !! S i)) as ->.
    { replace (Z.of_nat i + 1) with (Z.of_nat (S i)) by lia. destruct (Z.ltb_spec (Z.of_nat (S i)) (zlen kvs)) as [Hlt|Hge].
      - destruct (lookup_lt_is_Some_2 kvs (S i)) as [kv Hkv]; [unfold zlen in Hlt; lia|]. rewrite (getval_repr _ _ _ _ _ R Hkv), Hkv. done.
      - rewrite lookup_ge_None_2 by (unfold zlen in Hge; lia). done. }
    rewrite bind_ok. set (a := for_child kvs i ms) in *.
    rewrite (segment_spec b kvs (k <$> kvs !! S i) a d c); [|by rewrite <- Ems|done|done| |].
    2: { intros m c' ->. by apply Forall_cons in Hc as [? _]. }
    2: { rewrite (repr_nbuf _ _ _ R), Ems. unfold zlen. rewrite Nat2Z.id, !length_app. lia. }
    rewrite bind_ok. cbv beta iota. rewrite Z.add_0_l. replace (Z.of_nat i + 1 - 1) with (Z.of_nat i) by lia.
    pose proof (total_msgsz_nonneg a) as Hta.
    assert (picked (mkPath (pins p) (pb p) (Z.of_nat i) (zlen d) (zlen (d ++ a)) (total_msgsz a)) i) as Hpk.
    { split_and!; cbn; try (destruct Hp as [[_ ->]|(c0 & _ & (H1 & H2 & _) & _)]; done).
      exists d, c. split_and!; [done|done| |done]. cbn. fold a. rewrite zlen_app. lia. }
    destruct (Z.ltb_spec maxsz (total_msgsz a)) as [Hlt|Hge].
    + destruct (IH (S i) (d ++ a) c (total_msgsz a) (mkPath (pins p) (pb p) (Z.of_nat i) (zlen d) (zlen (d ++ a)) (total_msgsz a))) as (p' & mx & E & H);
        [lia|done| | |lia|].
      * right. exists i. split_and!; [lia|done|done].
      * intros c0 Hc0. destruct (decide (c0 = i)) as [->|]; [done|]. etrans; [apply Hmax; lia|lia].
      * exists p', mx. split; [|done]. rewrite <- E. f_equal. lia.
    + destruct (IH (S i) (d ++ a) c maxsz p) as (p' & mx & E & H); [lia|done| | |lia|].
      * destruct Hp as [Hp|(c0 & ? & ?)]; [by left|right]. exists c0. split; [lia|done].
      * intros c0 Hc0. destruct (decide (c0 = i)) as [->|]; [done|]. apply Hmax. lia.
      * exists p', mx. split; [|done]. rewrite <- E. f_equal. lia.
Qed.
End Victim.

(** C23: victim chooses the child with the most to flush.  On a pivot with
    sorted entries and a sorted buffer it ends without a fault, and the entry
    of the path it fills is for one child: the range of the buffer is exactly
    the messages for that child, the size theirs, and no other child's
    messages are larger. *)
Theorem victim_correct b kvs ms :
  blk_repr b kvs ms -> btyp b = Tpivot -> kvs_sorted kvs -> msgs_sorted ms -> kvs <> [] ->
  exists p c, victim b = Ok p /\ (c < length kvs)%nat /\ pb p = Some b /\ pidx p = Z.of_nat c /\
    (exists pre post, ms = pre ++ for_child kvs c ms ++ post /\ plo p = zlen pre /\ phi p = plo p + zlen (for_child kvs c ms)) /\
    psz p = total_msgsz (for_child kvs c ms) /\
    forall c', (c' < length kvs)%nat -> total_msgsz (for_child kvs c' ms) <= psz p.
Proof.
  intros R Ht Hks Hms Hne.
  assert (0 < length kvs)%nat by (destruct kvs; [done|cbn; lia]).
  destruct (victim_loop_spec b kvs ms R Ht Hks Hms (length kvs) 0 [] ms 0 (mkPath None (Some b) 0 0 0 0)) as (p & mx & E & H0 & Hp & Hmax);
    [done|by split|by left|lia|lia|].
  unfold victim. rewrite (repr_nval _ _ _ R). unfold zlen at 1. rewrite Nat2Z.id. change (0 + 1) with 1 in E.
  change (zlen (@nil Msg)) with 0 in E. change (Z.of_nat 0 + 1) with 1 in E. rewrite E.
  destruct Hp as [[-> ->]|(c & Hc & (Hpi & Hpb & Hpx & pre & post & Ems & Hlo & Hhi & Hsz) & <-)].
  - assert (for_child kvs 0 ms = []) as E0.
    { pose proof (Hmax 0%nat ltac:(lia)) as Hz. destruct (for_child kvs 0 ms) as [|m l]; [done|]. rewrite total_msgsz_cons in Hz.
      pose proof (total_msgsz_nonneg l). unfold msgsz in Hz. pose proof (zlen_nonneg (mk m)). pose proof (zlen_nonneg (mv m)). lia. }
    exists (mkPath None (Some b) 0 0 0 0), 0%nat. rewrite E0. split_and!; try done. by exists [], ms.
  - exists p, c. split_and!; try done. by exists pre, post.
Qed.

(** keyvictim's entry is for the child that holds the key, and it gives the
    separator of the next child. *)
Theorem keyvictim_correct b kvs ms key n :
  blk_repr b kvs ms -> btyp b = Tpivot -> kvs_sorted kvs -> msgs_sorted ms -> kvs <> [] ->
  Forall kv_small kvs -> Kvmax <= n ->
  exists p c, keyvictim b key n = Ok (p, kvs !! S c) /\ (c < length kvs)%nat /\ picked b kvs ms p c /\
    ((0 < c)%nat -> exists kv, kvs !! c = Some kv /\ key_le (k kv) key) /\
    forall j kv, kvs !! j = Some kv -> (c < j)%nat -> key_lt key (k kv).
Proof.
  intros R Ht Hks Hms Hne Hsm Hn.
  destruct (pivot_start b kvs ms key R Hks Hne) as (i & ov & same & c & kv & Es & Ei & Hkv & Hlo & Hhi).
  assert (Hi : (if i =? -1 then 0 else i) = Z.of_nat c).
  { destruct (Z.eqb_spec i (-1)) as [->|]; apply bind_Ok in Ei as (v0 & _ & Ei); apply Ok_inj in Ei; injection Ei as Ei _; lia. }
  assert (c < length kvs)%nat as Hc by (by eapply lookup_lt_Some).
  unfold keyvictim. rewrite Es, bind_ok. cbv beta iota zeta. rewrite Hi.
  assert ((if Z.of_nat c + 1 <? nval b then kv ← getval b (Z.of_nat c + 1); Ok (Some kv) else Ok None) = Ok (kvs !! S c)) as Hnext.
  { rewrite (repr_nval _ _ _ R). replace (Z.of_nat c + 1) with (Z.of_nat (S c)) by lia.
    destruct (Z.ltb_spec (Z.of_nat (S c)) (zlen kvs)).
    - destruct (lookup_lt_is_Some_2 kvs (S c)) as [kv' Hkv']; [unfold zlen in *; lia|]. by rewrite (getval_repr _ _ _ _ _ R Hkv'), Hkv'.
    - by rewrite lookup_ge_None_2 by (unfold zlen in *; lia). }
  assert (exists pre r, upto kvs ms c pre r /\
    (lk ← (if 0 <? Z.of_nat c then kv ← getval b (Z.of_nat c); Ok (Some (k kv)) else Ok None);
     match lk with Some key => '(lo, _) ← segment (Z.to_nat (nbuf b)) b (Some key) 0 0; Ok lo | None => Ok 0 end) = Ok (zlen pre))
    as (pre & r & Hu & Elo).
  { destruct c as [|c]; [exists [], ms; by split|]. destruct (Z.ltb_spec 0 (Z.of_nat (S c))); [|lia].
    rewrite (getval_repr _ _ _ _ _ R Hkv), !bind_ok.
    destruct (sorted_before (Some (k kv)) ms Hms) as (a & r & E & Ha & Hr). exists a, r. split.
    - split; [done|]. rewrite decide_False, Hkv by done. by split.
    - assert (segment (Z.to_nat (nbuf b)) b (Some (k kv)) 0 0 = Ok (zlen a, 0 + total_msgsz a)) as ->; [|done].
      apply (segment_spec b kvs (Some (k kv)) a [] r); [by rewrite <- E|done|done| |].
      + intros m r' ->. by apply Forall_cons in Hr as [? _].
      + rewrite (repr_nbuf _ _ _ R), E. unfold zlen. rewrite Nat2Z.id, length_app. lia. }
  destruct (upto_next kvs ms Hks Hms c pre r Hu) as (post & -> & _ & Ha & Hpost). destruct Hu as [E _].
  set (a := for_child kvs c ms) in *.
  assert (segment (Z.to_nat (nbuf b)) b (option_map k (kvs !! S c)) (zlen pre) 0 = Ok (zlen (pre ++ a), 0 + total_msgsz a)) as Eseg.
  { apply (segment_spec b kvs (k <$> kvs !! S c) a pre post); [by rewrite <- E|done|done| |].
    - intros m r' ->. by apply Forall_cons in Hpost as [? _].
    - rewrite (repr_nbuf _ _ _ R), E. unfold zlen. rewrite Nat2Z.id, !length_app. lia. }
  apply bind_Ok in Elo as (lk & -> & Elo). rewrite bind_ok, Hnext, bind_ok.
  assert ((match kvs !! S c with Some kv => r ← cpkvp kv n; Ok (Some r) | None => Ok None end) = Ok (kvs !! S c)) as ->.
  { destruct (kvs !! S c) as [kv'|] eqn:E'; [|done]. rewrite (cpkvp_fits kv' n); [done| |done].
    rewrite Forall_forall in Hsm. apply Hsm, list_elem_of_lookup. eauto. }
  rewrite bind_ok, Elo, bind_ok, Eseg, bind_ok. cbv beta iota.
  eexists _, c. split; [reflexivity|]. split_and!; [done| |by intros ?; exists kv; split; [|apply Hlo]|done].
  split_and!; [done|done|done|]. exists pre, post. split_and!; [done|done| |done]. cbn. rewrite zlen_app. fold a. lia.
Qed.

Lemma victim_correct_witness :
  exists p c, victim ex_pa = Ok p /\ (c < length ex_ka)%nat /\ psz p = total_msgsz (for_child ex_ka c ex_ma).
Proof.
  destruct (build_repr Tpivot ex_b0 ex_ka ex_ma) as (R & Ht & _);
    [by left|repeat constructor; done|repeat constructor; done|by vm_compute|by vm_compute|].
  destruct (victim_correct ex_pa ex_ka ex_ma R Ht) as (p & c & E & Hc & _ & _ & _ & Hsz & _).
  - repeat constructor.
  - repeat constructor; vm_compute; done.
  - discriminate.
  - exists p, c. exact (conj E (conj Hc Hsz)).
Defined.
