(* ===== verification/Check.v ===== *)
(** sys/src/9/gefs/check.c: checktree, the check of a tree.

    [checktree] counts what it finds wrong; what it prints, and the counts it
    keeps of the blocks it has reached, are left out.  The depth that is left
    is a number of levels, none of which is the code's h < 0.  getblk, the free
    list (isfree) and the oldest generation to look at are parameters: getblk
    passes its errors on, and [None] is its nil. *)

From S2P Require Import Prelude Layout Hash Pack Node Msgs.

Section Check.
  Context (isfree : Z -> res bool) (getblk : Bptr -> res (option Blk)) (pred : Z).
  (** The blocks below, in a key range, and the number of what is wrong there. *)
  Context (below : Blk -> option (list Z) -> option (list Z) -> res Z).

Definition tally (c : bool) : Z := if c then 1 else 0.

(** Whether the key is at or past the end of the range. *)
Definition past (key : list Z) (hi : option (list Z)) : bool :=
  match hi with Some hi => 0 <=? keycmp key hi | None => false end.

(** The child at [x], whose range ends at [y]: whether it could be looked at,
    and the faults. *)
Definition checkkid (x y : Kvp) : res (bool * Z) :=
  '(p, fill) ← getptr x;
  fr ← isfree (addr p);
  if gen p <=? pred then Ok (true, tally fr) else
  o ← getblk p;
  match o with
  | None => Ok (false, tally fr + 1)
  | Some c =>
      f ← blkfill c;
      r ← below c (Some (k x)) (Some (k y));
      Ok (true, tally fr + tally (negb (f =? fill)) + tally (negb (r =? 0)))
  end.

(** The loop over the values from [i] on; [x] is the one before, or the last
    one before whose child could be read. *)
Fixpoint checkvals (cnt : nat) (b : Blk) (hi : option (list Z)) (i : Z) (x : Kvp) (fail : Z) : res (Kvp * Z) :=
  match cnt with
  | O => Ok (x, fail)
  | S cnt =>
      y ← getval b i;
      '(looked, n) ← (if bool_decide (btyp b = Tpivot) then checkkid x y else Ok (true, 0));
      let fail := fail + tally (past (k y) hi) + n in
      if looked : bool then
        let r := keycmp (k x) (k y) in
        checkvals cnt b hi (i + 1) y (fail + tally ((r =? 0) || (r =? 1)))
      else checkvals cnt b hi (i + 1) x fail
  end.

(** The last child, at [x]; its range starts at the last value, [y]. *)
Definition checklast (x y : Kvp) : res Z :=
  '(p, _) ← getptr x;
  fr ← isfree (addr p);
  if gen p <=? pred then Ok (tally fr) else
  o ← getblk p;
  match o with
  | None => Ok (tally fr + 1)
  | Some c => r ← below c (Some (k y)) None; Ok (tally fr + tally (negb (r =? 0)))
  end.

(** The fields an Owstat message may change. *)
Definition Owall : Z :=
  Z.lor Owsize (Z.lor Owmode (Z.lor Owmtime (Z.lor Owatime (Z.lor Owuid (Z.lor Owgid Owmuid))))).

Definition Nmsgtype : Z := 9.

Definition checkop (m : Msg) : res Z :=
  if op m =? Owstat then
    match mv m with
    | [] => Fail Undef
    | o :: _ => Ok (tally (negb (Z.ldiff o Owall =? 0)))
    end
  else Ok (tally ((op m <=? 0) || (Nmsgtype <=? op m))).

(** The loop over the messages from [i] on; [mx] is the one before, [y] the
    last value. *)
Fixpoint checkmsgs (cnt : nat) (b : Blk) (hi : option (list Z)) (y : Kvp) (i : Z) (mx : Msg) (fail : Z) : res Z :=
  match cnt with
  | O => Ok fail
  | S cnt =>
      my ← getmsg b i;
      n ← checkop my;
      let fail := fail + n + tally (match hi with Some hi => 0 <? keycmp (k y) hi | None => false end) in
      if keycmp (mk mx) (mk my) =? 1 then Ok (fail + 1)
      else checkmsgs cnt b hi y (i + 1) my fail
  end.
End Check.

Fixpoint checktree (isfree : Z -> res bool) (getblk : Bptr -> res (option Blk)) (pred : Z) (debug : bool)
    (n : nat) (b : Blk) (lo hi : option (list Z)) : res Z :=
  match n with
  | O => Ok 1
  | S h =>
      let fail := tally (bool_decide (btyp b = Tleaf) && negb (h =? 0)%nat) +
                  tally (bool_decide (btyp b = Tleaf) && negb (h =? 0)%nat && (nval b <? 2) && debug) in
      x ← getval b 0;
      let fail := fail + tally (match lo with Some lo => 0 <? keycmp lo (k x) | None => false end) in
      '(x, fail) ← checkvals isfree getblk pred (checktree isfree getblk pred debug h) (Z.to_nat (nval b - 1)) b hi 1 x fail;
      if bool_decide (btyp b = Tpivot) then
        y ← getval b (nval b - 1);
        f ← checklast isfree getblk pred (checktree isfree getblk pred debug h) x y;
        let fail := fail + f in
        if 0 <? nbuf b then
          mx ← getmsg b 0;
          checkmsgs (Z.to_nat (nbuf b - 1)) b hi y 1 mx (fail + tally (past (mk mx) hi))
        else Ok fail
      else Ok fail
  end.
