(* ===== verification/Lost.v ===== *)
(** A tree on which btupsert loses messages.

    updatepiv pulls messages from the parent into the buffer of the pivot it
    rebuilds, whether or not the pivot has children left, and setb frees a
    block without children though there are messages in its buffer.  When the
    buffer of the root is flushed twice in one update into a pivot whose
    children are emptied one after the other, the messages pulled with the
    last child are lost.  [lost_tree] is such a tree: every pivot has two
    children, the pointers carry the fills of their blocks, and checktree of
    check.c finds nothing wrong with it. *)

From S2P Require Import Prelude Layout Hash Pack Node Msgs Leaf Pivot Blk Tree Upsert Scan Split Flush Check.

(** * Blocks in memory *)

Definition memblk (t : btype) (a : Z) (kvs : list Kvp) (ms : list Msg) : Mblk :=
  mkMblk (build t (mkBptr a 0 1) kvs ms) 0 0 Zb (replicate (Z.to_nat (hdsz t)) 0) 0.

(** The entry of a parent for the block [m], with its fill. *)
Definition ptr_to (m : Mblk) : list Z :=
  pack 8 (addr (bp (mb m))) ++ pack 8 0 ++ pack 8 1 ++ pack 2 (match blkfill (mb m) with Ok f => f | Fail _ => 0 end).

(** newblk, from an address on that is free. *)
Definition newblk_at (i : nat) (ty : btype) : res Mblk :=
  Ok (mkMblk (blank ty (replicate (Z.to_nat (datasz ty)) 0) (mkBptr (Blksz * (100 + Z.of_nat i)) (2 ^ 64 - 1) 7))
        0 0 Zb (replicate (Z.to_nat (hdsz ty)) 0) 0).

Definition fetch_in (l : list Mblk) (p : Bptr) : res Mblk :=
  match filter (fun m => bp (mb m) = p) l with m :: _ => Ok m | [] => Fail (Error Eio) end.

Definition blk_of (f : Bptr -> res Mblk) (p : Bptr) : res Blk := m ← f p; Ok (mb m).

(** Trees whose messages insert and remove are never broken. *)
Definition plain (m : Msg) : Prop := (op m = Oinsert \/ op m = Oclobber) /\ msg_small m.

Lemma mrun_plain ms : forall cur, Forall plain ms -> is_Ok (mrun cur ms).
Proof.
  induction ms as [|m ms IH]; intros cur H; [by eexists|]. apply Forall_cons in H as [[Ho Hs] H]. cbn [mrun].
  assert (exists c, mstep cur m = Ok c) as [c ->]; [|by apply IH].
  destruct cur as [kv|]; cbn [mstep]; unfold apply; destruct Ho as [-> | ->]; cbn; try by eexists.
  rewrite (cpkvp_small (msg_kvp m) Hs). by eexists.
Qed.

Fixpoint tplain (t : btree) : Prop :=
  match t with
  | Leaf _ => True
  | Pivot kids ms =>
      Forall plain ms /\
      (fix go (kids : list (list Z * btree)) : Prop := match kids with [] => True | (_, t) :: kids => tplain t /\ go kids end) kids
  end.

Lemma sem_plain key t : tplain t -> is_Ok (sem t key).
Proof.
  induction t as [kvs|kids ms IH] using btree_rect_kids; intros Hp; [by eexists|]. rewrite sem_pivot. cbn [tplain] in Hp.
  destruct Hp as [Hms Hkids].
  assert (exists c, match route key kids with Some t => sem t key | None => Ok None end = Ok c) as [c ->].
  { destruct (route key kids) as [t|] eqn:E; [|by eexists]. apply route_in in E as [s Hin].
    clear Hms. induction kids as [|[s' t'] kids IHk]; [by apply elem_of_nil in Hin|].
    apply Forall_cons in IH as [IH1 IH]. destruct Hkids as [H1 H2]. apply elem_of_cons in Hin as [[= -> ->]|Hin]; [by apply IH1|].
    by apply IHk. }
  rewrite bind_ok. apply mrun_plain, Forall_filter_keep. exact Hms.
Qed.

(** Every pivot has at least two children. *)
Fixpoint branching (t : btree) : Prop :=
  match t with
  | Leaf _ => True
  | Pivot kids _ =>
      (2 <= length kids)%nat /\
      (fix go (kids : list (list Z * btree)) : Prop := match kids with [] => True | (_, t) :: kids => branching t /\ go kids end) kids
  end.

Lemma bounded_two s1 t1 s2 t2 :
  Forall (fun key => key_le s1 key /\ key_lt key s2) (tkeys t1) -> Forall (key_le s2) (tkeys t2) -> bounded [(s1, t1); (s2, t2)].
Proof.
  rewrite !Forall_forall. intros H1 H2 [|[|i]] s t key Hi Hk; [| |by destruct i]; injection Hi as <- <-.
  - destruct (H1 key Hk) as [Ha Hb]. split; [done|]. intros [|[|j]] s' t' Hj Hlt; [lia|by injection Hj as <- <-|by destruct j].
  - split; [by apply H2|]. intros [|[|j]] s' t' Hj Hlt; [lia|lia|by destruct j].
Qed.

Lemma ordered_two s1 t1 s2 t2 ms :
  forallb (fun key => bool_decide (key_le s1 key /\ key_lt key s2)) (tkeys t1) = true ->
  forallb (fun key => bool_decide (key_le s2 key)) (tkeys t2) = true ->
  t1 <> Leaf [] -> t2 <> Leaf [] -> ordered t1 -> ordered t2 -> ordered (Pivot [(s1, t1); (s2, t2)] ms).
Proof.
  rewrite !forallb_forall. intros H1 H2 N1 N2 O1 O2. apply ordered_pivot. split.
  - apply bounded_two; apply Forall_forall; intros key Hk%list_elem_of_In; [apply H1 in Hk|apply H2 in Hk]; by apply bool_decide_eq_true_1 in Hk.
  - by constructor; [|constructor].
Qed.

(** * The tree *)

Definition ins (key : list Z) : Msg := mkMsg Oinsert (Kobj :: key) (replicate 512 7).
Definition clob (key : list Z) : Msg := mkMsg Oclobber (Kobj :: key) [].
Definition upto (n : nat) : list Z := Z.of_nat <$> seq 0 n.

(** Keys that are in no leaf. *)
Definition longkey (a i : Z) : list Z := [a; i] ++ replicate 240 0.

Definition lost_l1 : Mblk := memblk Tleaf 16384 [rec [1] 1] [].
Definition lost_l2 : Mblk := memblk Tleaf 32768 [rec [3] 1] [].
Definition lost_l3 : Mblk := memblk Tleaf 49152 [rec [5] 1] [].
Definition lost_l4 : Mblk := memblk Tleaf 65536 [rec [7] 1] [].
Definition lost_m1 : list Msg := clob [1] :: clob [3] :: ((fun i => clob (longkey 3 i)) <$> upto 16).
Definition lost_m2 : list Msg := (fun i => ins [6; i]) <$> upto 15.
Definition lost_p1 : Mblk :=
  memblk Tpivot 81920 [mkKvp [Kobj; 1] (ptr_to lost_l1); mkKvp [Kobj; 3] (ptr_to lost_l2)] lost_m1.
Definition lost_p2 : Mblk :=
  memblk Tpivot 98304 [mkKvp [Kobj; 5] (ptr_to lost_l3); mkKvp [Kobj; 7] (ptr_to lost_l4)] lost_m2.
Definition lost_ms : list Msg :=
  ((fun i => clob (longkey 2 i)) <$> upto 16) ++ [ins [2; 100]] ++ ((fun i => ins [8; i]) <$> upto 7).
Definition lost_root : Mblk :=
  memblk Tpivot 114688 [mkKvp [Kobj; 1] (ptr_to lost_p1); mkKvp [Kobj; 5] (ptr_to lost_p2)] lost_ms.
Definition lost_blocks : list Mblk := [lost_root; lost_p1; lost_p2; lost_l1; lost_l2; lost_l3; lost_l4].
Definition lost_fetch : Bptr -> res Mblk := fetch_in lost_blocks.
Definition lost_tree : Tree := mkTree 1 1 3 0 1 0 0 0 (mkBptr 114688 0 1).
Definition lost_t1 : btree := Pivot [([Kobj; 1], Leaf [rec [1] 1]); ([Kobj; 3], Leaf [rec [3] 1])] lost_m1.
Definition lost_t2 : btree := Pivot [([Kobj; 5], Leaf [rec [5] 1]); ([Kobj; 7], Leaf [rec [7] 1])] lost_m2.
Definition lost_bt : btree := Pivot [([Kobj; 1], lost_t1); ([Kobj; 5], lost_t2)] lost_ms.
Definition lost_batch : list Msg := (fun i => ins [2; i]) <$> upto 7.

(** What getblk returns to checktree. *)
Definition readblk_of (f : Bptr -> res Mblk) (p : Bptr) : res (option Blk) := m ← f p; Ok (Some (mb m)).

Lemma memblk_leaf a kvs : bool_decide (Forall entry_ok kvs) = true -> (kvs_valsz kvs <=? Leafspc) = true ->
  StronglySorted key_lt (kv_keys kvs) -> Forall kv_good kvs -> rep (blk_of lost_fetch) 1 (mb (memblk Tleaf a kvs [])) (Leaf kvs).
Proof.
  intros He%bool_decide_eq_true_1 Hz%Z.leb_le Hs Hg.
  destruct (build_repr Tleaf (mkBptr a 0 1) kvs []) as (R & Ht & _); [by right|done|constructor|done|done|].
  by split_and!.
Qed.

Lemma memblk_pivot h a kvs kids ms :
  bool_decide (Forall entry_ok kvs) = true -> (kvs_valsz kvs <=? Pivspc) = true -> (2 * zlen ms + msgs_size ms <=? Bufspc) = true ->
  StronglySorted key_lt (kv_keys kvs) -> kids <> [] -> msgs_sorted ms -> Forall msg_good ms ->
  Forall2 (fun kv kid => k kv = kid.1 /\
    exists p b', unpackbp (v kv) = Ok p /\ blk_of lost_fetch p = Ok b' /\ rep (blk_of lost_fetch) (S h) b' kid.2) kvs kids ->
  rep (blk_of lost_fetch) (S (S h)) (mb (memblk Tpivot a kvs ms)) (Pivot kids ms).
Proof.
  intros He%bool_decide_eq_true_1 Hz%Z.leb_le Hb%Z.leb_le Hs Hne Hms Hmg H2.
  destruct (build_repr Tpivot (mkBptr a 0 1) kvs ms) as (R & Ht & _); [by left|done| |done|done|].
  { eapply Forall_impl; [exact Hmg|]. by intros m (_ & ? & _). }
  split_and!; [done..|]. by exists kvs.
Qed.

Lemma kid_of h a kv m s t :
  unpackbp (v kv) = Ok (mkBptr a 0 1) -> blk_of lost_fetch (mkBptr a 0 1) = Ok (mb m) ->
  rep (blk_of lost_fetch) (S h) (mb m) t -> k kv = s ->
  k kv = (s, t).1 /\
    exists p b', unpackbp (v kv) = Ok p /\ blk_of lost_fetch p = Ok b' /\ rep (blk_of lost_fetch) (S h) b' (s, t).2.
Proof. intros H1 H2 H3 ->. split; [done|]. exists (mkBptr a 0 1), (mb m). exact (conj H1 (conj H2 H3)). Qed.

(** * Its messages *)

Lemma ins_good key : zlen key <= 255 -> msg_good (ins key).
Proof.
  intros H. assert (kv_good (rec key 512)) as Hk.
  { apply rec_good; [done|]. rewrite zlen_replicate. by vm_compute. }
  split; [exact (proj1 Hk)|]. split; [by vm_compute|]. intros _. exact Hk.
Qed.

Lemma clob_good key : zlen key <= 255 -> msg_good (clob key).
Proof.
  intros H. split; [|split; [by vm_compute|intros [=]]]. split.
  - unfold clob. cbn [mk]. rewrite zlen_cons. change Keymax with 256. lia.
  - by vm_compute.
Qed.

Lemma simple_good ms :
  forallb (fun m => bool_decide (m = ins (tail (mk m))) || bool_decide (m = clob (tail (mk m)))) ms = true ->
  forallb (fun m => zlen (tail (mk m)) <=? 255) ms = true -> Forall msg_good ms /\ Forall plain ms.
Proof.
  rewrite !forallb_forall. intros H1 H2. apply Forall_and, Forall_forall. intros m Hm%list_elem_of_In.
  pose proof (H1 m Hm) as H. pose proof (H2 m Hm) as Hz%Z.leb_le.
  apply orb_true_iff in H as [H|H]; apply bool_decide_eq_true_1 in H; rewrite H.
  - pose proof (ins_good _ Hz) as G. split; [exact G|]. split; [by left|exact (proj1 G)].
  - pose proof (clob_good _ Hz) as G. split; [exact G|]. split; [by right|exact (proj1 G)].
Qed.

Lemma lost_msgs :
  (Forall msg_good lost_ms /\ Forall plain lost_ms) /\ (Forall msg_good lost_m1 /\ Forall plain lost_m1) /\
  (Forall msg_good lost_m2 /\ Forall plain lost_m2) /\ (Forall msg_good lost_batch /\ Forall plain lost_batch).
Proof. split_and!; apply simple_good; vm_compute; reflexivity. Qed.

(** * Its blocks *)

Lemma lost_fetches :
  blk_of lost_fetch (mkBptr 16384 0 1) = Ok (mb lost_l1) /\ blk_of lost_fetch (mkBptr 32768 0 1) = Ok (mb lost_l2) /\
  blk_of lost_fetch (mkBptr 49152 0 1) = Ok (mb lost_l3) /\ blk_of lost_fetch (mkBptr 65536 0 1) = Ok (mb lost_l4) /\
  blk_of lost_fetch (mkBptr 81920 0 1) = Ok (mb lost_p1) /\ blk_of lost_fetch (mkBptr 98304 0 1) = Ok (mb lost_p2).
Proof. split_and!; vm_compute; reflexivity. Qed.

Lemma lost_leaf a key : zlen key <= 255 ->
  bool_decide (Forall entry_ok [rec key 1]) = true -> (kvs_valsz [rec key 1] <=? Leafspc) = true ->
  rep (blk_of lost_fetch) 1 (mb (memblk Tleaf a [rec key 1] [])) (Leaf [rec key 1]).
Proof.
  intros H H1 H2. apply memblk_leaf; [done..|repeat constructor|constructor; [|constructor]].
  apply rec_good; [done|]. by vm_compute.
Qed.

(** A pivot of two children. *)
Lemma lost_pivot h a kv1 kv2 a1 a2 m1 m2 s1 s2 t1 t2 ms :
  blk_of lost_fetch (mkBptr a1 0 1) = Ok (mb m1) -> blk_of lost_fetch (mkBptr a2 0 1) = Ok (mb m2) ->
  rep (blk_of lost_fetch) (S h) (mb m1) t1 -> rep (blk_of lost_fetch) (S h) (mb m2) t2 ->
  Forall msg_good ms -> unpackbp (v kv1) = Ok (mkBptr a1 0 1) -> unpackbp (v kv2) = Ok (mkBptr a2 0 1) ->
  k kv1 = s1 -> k kv2 = s2 -> key_lt s1 s2 ->
  bool_decide (Forall entry_ok [kv1; kv2]) = true -> (kvs_valsz [kv1; kv2] <=? Pivspc) = true ->
  (2 * zlen ms + msgs_size ms <=? Bufspc) = true -> ascb (msg_keys ms) = true ->
  rep (blk_of lost_fetch) (S (S h)) (mb (memblk Tpivot a [kv1; kv2] ms)) (Pivot [(s1, t1); (s2, t2)] ms).
Proof.
  intros F1 F2 R1 R2 Hg U1 U2 E1 E2 Hlt H1 H2 H3 H4. apply memblk_pivot; [done..| |done|by apply ascb_weak|done|].
  - cbn [kv_keys fmap list_fmap]. rewrite E1, E2. repeat constructor. exact Hlt.
  - constructor; [|constructor; [|constructor]].
    + exact (kid_of h a1 kv1 m1 s1 t1 U1 F1 R1 E1).
    + exact (kid_of h a2 kv2 m2 s2 t2 U2 F2 R2 E2).
Qed.

Lemma lost_rep : rep (blk_of lost_fetch) 3 (mb lost_root) lost_bt.
Proof.
  destruct lost_fetches as (F1 & F2 & F3 & F4 & F5 & F6). destruct lost_msgs as ([G _] & [G1 _] & [G2 _] & _).
  eapply (lost_pivot 1); [exact F5|exact F6| | |exact G|vm_compute; reflexivity..].
  - eapply (lost_pivot 0); [exact F1|exact F2| | |exact G1|vm_compute; reflexivity..]; by apply lost_leaf.
  - eapply (lost_pivot 0); [exact F3|exact F4| | |exact G2|vm_compute; reflexivity..]; by apply lost_leaf.
Qed.

Lemma lost_ordered : ordered lost_bt.
Proof.
  apply ordered_two; [vm_compute; reflexivity..|done|done| |]; apply ordered_two; by vm_compute.
Qed.

Lemma lost_ok key : is_Ok (sem lost_bt key).
Proof.
  destruct lost_msgs as ([_ P] & [_ P1] & [_ P2] & _).
  apply sem_plain. exact (conj P (conj (conj P1 (conj I (conj I I))) (conj (conj P2 (conj I (conj I I))) I))).
Qed.

(** C22: btupsert can lose messages.  There is a search tree whose blocks are
    all well-formed, in which every pivot has at least two children, no
    message is broken and checktree of check.c finds nothing wrong, and a
    batch of good messages for other keys, such that btupsert returns and a
    key that had a value before has none after.  Its message was pulled into
    the buffer of a pivot that lost its last child in the same update, and was
    freed with it. *)
Theorem btupsert_loses :
  exists fetchm t root bt batch key kv,
    fetchm (tbp t) = Ok root /\ rep (blk_of fetchm) (Z.to_nat (ht t)) (mb root) bt /\
    ordered bt /\ branching bt /\ (forall key, is_Ok (sem bt key)) /\
    checktree (fun _ => Ok false) (readblk_of fetchm) 0 true (Z.to_nat (ht t)) (mb root) None None = Ok 0 /\
    Forall msg_good batch /\ sem bt key = Ok (Some kv) /\ for_key key batch = [] /\
    exists s t', btupsert newblk_at fetchm 10 t batch = Ok (s, t') /\
      exists r, btlookup (blk_of (fsget fetchm s)) t' key (mkKvp [] []) Kvmax = Ok (false, r).
Proof.
  exists lost_fetch, lost_tree, lost_root, lost_bt, lost_batch, [Kobj; 2; 100], (rec [2; 100] 512).
  split; [vm_compute; reflexivity|]. split; [exact lost_rep|]. split; [exact lost_ordered|].
  split; [cbn; by repeat split; lia|]. split; [exact lost_ok|]. split; [vm_compute; reflexivity|].
  split; [apply lost_msgs|]. split; [vm_compute; reflexivity|]. split; [vm_compute; reflexivity|].
  assert (('(s, t') ← btupsert newblk_at lost_fetch 10 lost_tree lost_batch;
              '(ok, _) ← btlookup (blk_of (fsget lost_fetch s)) t' [Kobj; 2; 100] (mkKvp [] []) Kvmax; Ok ok) = Ok false) as Hl
    by (vm_compute; reflexivity).
  apply bind_Ok in Hl as ([s t'] & E & Hl). apply bind_Ok in Hl as ([ok r] & El & Hl). apply Ok_inj in Hl as ->.
  exists s, t'. split; [exact E|]. exists r. exact El.
Qed.
