(* ===== verification/Arenas.v ===== *)
(** sys/src/9/gefs/blk.c, the arenas together: getarena finds the arena an
    address is in, pickarena and blkalloc choose one to allocate from, and
    dataroom says whether data still fits.

    The lock of an arena is not modelled but for canqlock, whose answers are
    given by [busy]: whether the arena of a try is in use by another process.
    While blkalloc runs the arenas are changed by it alone. *)

From S2P Require Import Prelude Layout Hash Pack Node Avl Ranges Blk Alloc Logged Arena.

(** * The code *)

(** The part of Gefs that blkalloc uses. *)
Record Arenas := mkArenas { sb0 : Z; sb1 : Z; arenas : list Arena; roundrobin : Z }.

Definition narena (f : Arenas) : Z := zlen (arenas f).

(** [c] is what aincl returns. *)
Definition pickarena (dat : bool) (hint tries : Z) (n c : Z) : res Z :=
  let r := u32 (Z.quot c 2048) in
  k ← (if dat then (if u32 (n - 1) =? 0 then Fail Undef else Ok (u32 (hint mod u32 (n - 1) + r + 1))) else Ok r);
  Ok (u32 (k + u32 tries) mod n).

Definition inarena (a : Arena) : Z * Z := (ah0 a, ah0 a + asz a + 2 * Blksz).

(** The loop of getarena; the index of the arena. *)
Fixpoint findarena (fuel : nat) (l : list Arena) (b lo hi : Z) : res Z :=
  match fuel with
  | O => Fail Fuel
  | S fuel =>
      let mid := Z.quot (hi + lo) 2 in
      a ← (if 0 <=? mid then of_option (l !! Z.to_nat mid) Undef else Fail Undef);
      let '(alo, ahi) := inarena a in
      if b <? alo then findarena fuel l b lo (mid - 1)
      else if ahi <? b then findarena fuel l b (mid + 1) hi
      else Ok mid
  end.

Definition getarena (fuel : nat) (f : Arenas) (b : Z) : res Z :=
  if b =? sb0 f then Ok 0
  else if b =? sb1 f then Ok (narena f - 1)
  else findarena fuel (arenas f) b 0 (narena f).

Section Alloc.
  Context (priv : bool) (incache wfail : Z -> bool).

Definition setarena (f : Arenas) (i : Z) (a : Arena) : Arenas :=
  mkArenas (sb0 f) (sb1 f) (<[Z.to_nat i := a]> (arenas f)) (roundrobin f).

Definition setrr (f : Arenas) (c : Z) : Arenas := mkArenas (sb0 f) (sb1 f) (arenas f) c.

(** From the label Again on. *)
Fixpoint blkalloc_tries (fuel : nat) (f : Arenas) (d : disk) (dat useres : bool) (hint : Z) (seq : bool)
    (busy : Z -> bool) (tries : Z) : res (Arenas * disk * Z) :=
  match fuel with
  | O => Fail Fuel
  | S fuel =>
      let c := s32 (roundrobin f + 1) in
      let f := setrr f c in
      i ← pickarena dat hint tries (narena f) c;
      if tries =? 2 * narena f then Fail (Error Efull) else
      let tries := tries + 1 in
      if (tries <? narena f) && busy tries then blkalloc_tries fuel f d dat useres hint seq busy tries else
      a ← of_option (arenas f !! Z.to_nat i) Undef;
      '(a, d, b) ← arenaalloc priv incache wfail a d dat useres seq;
      let f := setarena f i a in
      if b =? -1 then blkalloc_tries fuel f d dat useres hint seq busy tries
      else Ok (f, d, b)
  end.

Definition blkalloc (f : Arenas) (d : disk) (dat useres : bool) (hint : Z) (seq : bool)
    (busy : Z -> bool) : res (Arenas * disk * Z) :=
  blkalloc_tries (Z.to_nat (2 * narena f + 1)) f d dat useres hint seq busy 0.

Definition dataroom (f : Arenas) (useres : bool) (n : Z) : bool :=
  if useres then true else
  n <? foldl (fun left a =>
    if 2 * aresv a <? asz a - ausd a then left + (asz a - ausd a - 2 * aresv a) else left) 0 (arenas f).

(** * getarena *)

(** Arenas follow each other; each has room for its headers. *)
Definition arenas_ok (l : list Arena) : Prop :=
  forall i j a b, (i < j)%nat -> l !! i = Some a -> l !! j = Some b -> (inarena a).2 <= (inarena b).1.

(** The search of an address within an arena halves its interval. *)
Lemma findarena_found l b i a : forall fuel lo hi,
  arenas_ok l -> Forall (fun a => 0 <= asz a) l -> l !! i = Some a ->
  (inarena a).1 < b < (inarena a).2 ->
  0 <= lo <= Z.of_nat i -> Z.of_nat i <= hi <= zlen l -> hi - lo + 1 < 2 ^ Z.of_nat fuel ->
  findarena fuel l b lo hi = Ok (Z.of_nat i).
Proof.
  induction fuel as [|fuel IH]; intros lo hi Hok Hsz Hi Hb Hlo Hhi Hf; [cbn in Hf; lia|].
  rewrite Nat2Z.inj_succ, Z.pow_succ_r in Hf by lia. cbn [findarena].
  pose proof (lookup_lt_Some _ _ _ Hi) as Hlen. unfold zlen in Hhi.
  rewrite Z.quot_div_nonneg by lia. set (mid := (hi + lo) / 2).
  assert (lo <= mid <= hi /\ 2 * mid <= hi + lo < 2 * mid + 2) as [Hm Hm2].
  { unfold mid. pose proof (Z.div_mod (hi + lo) 2). pose proof (Z.mod_pos_bound (hi + lo) 2). lia. }
  destruct (Z.leb_spec 0 mid); [|lia].
  destruct (decide (mid = Z.of_nat (length l))) as [Em|Em].
  { exfalso. assert (lo = hi) by lia. lia. }
  destruct (lookup_lt_is_Some_2 l (Z.to_nat mid)) as [x Hx]; [lia|]. rewrite Hx. cbn [of_option]. rewrite bind_ok.
  destruct (inarena x) as [alo ahi] eqn:Ex.
  assert (alo <= ahi) as Hxx.
  { eapply Forall_lookup_1 in Hsz; [|exact Hx]. unfold inarena in Ex. injection Ex as <- <-. change Blksz with 16384. lia. }
  destruct (Z.lt_trichotomy mid (Z.of_nat i)) as [Hlt|[Heq|Hgt]].
  - pose proof (Hok (Z.to_nat mid) i x a ltac:(lia) Hx Hi) as Ho. rewrite Ex in Ho. cbn [fst snd] in Ho.
    destruct (Z.ltb_spec b alo); [lia|]. destruct (Z.ltb_spec ahi b); [|lia]. apply IH; try done; unfold zlen; lia.
  - assert (x = a) as -> by (rewrite Heq, Nat2Z.id in Hx; congruence). rewrite Ex in Hb. cbn [fst snd] in Hb.
    destruct (Z.ltb_spec b alo); [lia|]. destruct (Z.ltb_spec ahi b); [lia|]. by rewrite Heq.
  - pose proof (Hok i (Z.to_nat mid) a x ltac:(lia) Hi Hx) as Ho. rewrite Ex in Ho. cbn [fst snd] in Ho.
    destruct (Z.ltb_spec b alo); [|lia]. apply IH; try done; unfold zlen; lia.
Qed.

(** An address before the first arena is searched for ever. *)
Lemma findarena_lost l a b : forall fuel hi,
  l !! 0%nat = Some a -> arenas_ok l -> Forall (fun a => 0 <= asz a) l -> b < (inarena a).1 -> -1 <= hi <= zlen l ->
  findarena fuel l b 0 hi = Fail Fuel.
Proof.
  induction fuel as [|fuel IH]; intros hi Ha Hok Hsz Hb Hhi; [done|]. cbn [findarena]. rewrite Z.add_0_r.
  pose proof (lookup_lt_Some _ _ _ Ha) as Hlen. unfold zlen in Hhi.
  assert (0 <= Z.quot hi 2 < Z.of_nat (length l) /\ -1 <= Z.quot hi 2 - 1 <= zlen l) as [Hm Hm'].
  { unfold zlen. destruct (decide (hi = -1)) as [->|]; [change (Z.quot (-1) 2) with 0; lia|].
    rewrite Z.quot_div_nonneg by lia. pose proof (Z.div_mod hi 2). pose proof (Z.mod_pos_bound hi 2). lia. }
  destruct (Z.leb_spec 0 (Z.quot hi 2)); [|lia].
  destruct (lookup_lt_is_Some_2 l (Z.to_nat (Z.quot hi 2))) as [x Hx]; [lia|]. rewrite Hx. cbn [of_option]. rewrite bind_ok.
  assert (b < (inarena x).1) as Hbx.
  { destruct (Z.to_nat (Z.quot hi 2)) as [|j] eqn:Ej; [congruence|].
    pose proof (Hok 0%nat (S j) a x ltac:(lia) Ha Hx). eapply Forall_lookup_1 in Hsz; [|exact Ha].
    unfold inarena in *. cbn in *. change Blksz with 16384 in *. lia. }
  destruct (inarena x) as [alo ahi]. cbn in Hbx. destruct (Z.ltb_spec b alo); [|lia]. by apply IH.
Qed.

(** * blkalloc *)

(** No freed block is left in the cache, and writes succeed. *)
Hypothesis Hcache : forall x, incache x = false.
Hypothesis Hwrite : forall x, wfail x = false.

(** The arenas as blkalloc finds them: as many as gefs makes, every one with
    its log and free list in order, and the counter below its wrap. *)
Record state_ok (f : Arenas) (d : disk) : Prop := {
  so_narena : 2 <= narena f < 512;
  so_rr : 0 <= roundrobin f < 2 ^ 31 - 1024;
  so_arena : Forall (fun a => exists ps es, arena_ok a d ps es) (arenas f)
}.

(** The block comes from arena [i], the others are as they were. *)
Definition allocated (f : Arenas) (d : disk) (i : nat) (f' : Arenas) (d' : disk) (b : Z) : Prop :=
  exists a a' ps es ps' es', arenas f !! i = Some a /\ arena_ok a d ps es /\ b <> -1 /\
    arenas f' = <[i := a']> (arenas f) /\ sb0 f' = sb0 f /\ sb1 f' = sb1 f /\
    arena_ok a' d' ps' (es ++ es') /\ range_ok (blkrange b) /\
    (forall x, rin (blkrange b) x -> infree (elements (afree a)) x /\ ~ infree (elements (afree a')) x) /\
    (forall x, infree (elements (afree a')) x -> infree (elements (afree a)) x) /\
    (forall c, logblk a' ps' c -> (logblk a ps c \/ infree (elements (afree a)) c) /\ c <> b).

(** What the first try adds the number of tries to. *)
Definition first (dat : bool) (hint n : Z) : Z := if dat then hint mod (n - 1) + 1 else 0.

Lemma pick_eq dat hint tries n c :
  2 <= n < 512 -> 0 <= hint < 2 ^ 32 -> 0 <= tries < 1024 -> 0 <= c < 2 ^ 31 ->
  pickarena dat hint tries n c = Ok ((first dat hint n + c / 2048 + tries) mod n).
Proof.
  intros Hn Hh Ht Hc. unfold pickarena, first. rewrite Z.quot_div_nonneg by lia.
  assert (0 <= c / 2048 < 2 ^ 20) by (split; [apply Z.div_pos|apply Z.div_lt_upper_bound]; lia).
  rewrite (u32_id (c / 2048)), (u32_id tries), (u32_id (n - 1)) by lia.
  pose proof (Z.mod_pos_bound hint (n - 1)). destruct dat.
  - destruct (Z.eqb_spec (n - 1) 0); [lia|]. rewrite bind_ok, !u32_id by (rewrite ?u32_id; lia). do 2 f_equal; lia.
  - rewrite bind_ok, u32_id by lia. do 2 f_equal; lia.
Qed.

(** The arena of each try, when blkalloc starts with the counter at [c]. *)
Definition tried (dat : bool) (hint n c t : Z) : Z := (first dat hint n + (c + 1 + t) / 2048 + t) mod n.

Lemma setarena_same f i a : arenas f !! Z.to_nat i = Some a -> setarena f i a = f.
Proof. intros H. unfold setarena. rewrite list_insert_id by done. by destruct f. Qed.

(** A run of tries: a block, or the log of an unprivileged process's arena
    cannot grow, or every arena waited for refused. *)
Lemma tries_spec f0 d dat useres hint seq busy : 0 <= hint < 2 ^ 32 -> state_ok f0 d ->
  forall fuel t, (0 <= t <= 2 * narena f0) -> Z.of_nat fuel = 2 * narena f0 + 1 - t ->
  let f := setrr f0 (roundrobin f0 + t) in
  let r := blkalloc_tries fuel f d dat useres hint seq busy t in
  (exists i f' d' b, r = Ok (f', d', b) /\ allocated f0 d i f' d' b) \/
  (r = Fail (Error Efull) /\ priv = false /\
   exists a, a ∈ arenas f0 /\ asz a - ausd a <= aresv a + Blksz /\
     (dat = true -> useres = false -> 2 * aresv a < asz a - ausd a)) \/
  (r = Fail (Error Efull) /\
   forall k a, t <= k < 2 * narena f0 -> busy (k + 1) = false \/ narena f0 <= k + 1 ->
     arenas f0 !! Z.to_nat (tried dat hint (narena f0) (roundrobin f0) k) = Some a -> refused priv a dat useres).
Proof.
  intros Hh [Hn Hr Ha]. induction fuel as [|fuel IH]; intros t Ht Hf f r; [lia|].
  assert (s32 (roundrobin f + 1) = roundrobin f0 + 1 + t) as Hc by (cbn; rewrite s32_id; lia).
  unfold r. cbn [blkalloc_tries]. rewrite Hc. change (narena (setrr f _)) with (narena f0).
  rewrite pick_eq by lia. rewrite bind_ok. fold (tried dat hint (narena f0) (roundrobin f0) t).
  set (i := tried _ _ _ _ t). assert (0 <= i < narena f0) as Hi by (apply Z.mod_pos_bound; lia).
  destruct (Z.eqb_spec t (2 * narena f0)) as [->|Hne].
  { right; right. split; [done|]. intros; lia. }
  specialize (IH (t + 1) ltac:(lia) ltac:(lia)). cbv zeta in IH.
  replace (setrr f0 (roundrobin f0 + (t + 1))) with (setrr f (roundrobin f0 + 1 + t)) in IH
    by (unfold setrr; cbn; f_equal; lia).
  destruct ((t + 1 <? narena f0) && busy (t + 1)) eqn:Eb.
  { destruct IH as [IH|[IH|[E IH]]]; [by left|by right; left|]. right; right. split; [done|].
    intros k a Hk Hw Hl. destruct (decide (k = t)) as [->|]; [|eapply IH; eauto; lia].
    apply andb_true_iff in Eb as [E1 E2]. destruct Hw; [congruence|lia]. }
  cbn [setrr arenas]. change (arenas f) with (arenas f0).
  destruct (lookup_lt_is_Some_2 (arenas f0) (Z.to_nat i)) as [a Hl]; [unfold narena, zlen in Hi; lia|].
  rewrite Hl. cbn [of_option]. rewrite bind_ok. pose proof Ha as Hal. eapply Forall_lookup_1 in Hal as (ps & es & Hok); [|exact Hl].
  destruct (alloc_spec priv incache wfail Hcache Hwrite a d ps es dat useres seq Hok)
    as [(-> & Hp & Hfull & Hdat)|[[-> Href]|(a' & d' & b & ps' & es' & -> & Hb & H1 & H2 & H3 & H4 & H5 & _)]].
  - right; left. split_and!; [done|done|]. exists a. split_and!; [by eapply list_elem_of_lookup_2|done|done].
  - rewrite bind_ok. cbv beta iota zeta. rewrite Z.eqb_refl, setarena_same by done.
    destruct IH as [IH|[IH|[E IH]]]; [by left|by right; left|]. right; right. split; [done|].
    intros k x Hk Hw Hx. destruct (decide (k = t)) as [->|]; [|eapply IH; eauto; lia].
    assert (x = a) as -> by (fold i in Hx; congruence). done.
  - left. rewrite bind_ok. cbv beta iota zeta. destruct (Z.eqb_spec b (-1)); [done|].
    eexists (Z.to_nat i), _, d', b. split; [done|]. exists a, a', ps, es, ps', es'. by split_and!.
Qed.

(** ** Every arena is tried *)

Lemma mod_at x n i : 0 < n -> 0 <= i < n -> exists y, x <= y < x + n /\ y mod n = i.
Proof.
  intros Hn Hi. exists (x + (i - x) mod n). pose proof (Z.mod_pos_bound (i - x) n).
  split; [lia|]. rewrite Zplus_mod_idemp_r. rewrite Z.mod_small; lia.
Qed.

Lemma div_step c k n : 0 <= c -> 0 <= k < n -> n <= 1024 -> c / 2048 <= (c + k) / 2048 <= c / 2048 + 1.
Proof.
  intros Hc Hk Hn. split; [apply Z.div_le_mono; lia|].
  replace (c / 2048 + 1) with ((c + 1 * 2048) / 2048) by (rewrite Z.div_add; lia). apply Z.div_le_mono; lia.
Qed.

(** The counter passes a multiple of 2048 at most once in the tries, and leaves
    out at most one arena then, which the other round has. *)
Lemma tried_all dat hint n c i :
  2 <= n < 512 -> 0 <= c -> 0 <= i < n -> exists k, 0 <= k < 2 * n /\ tried dat hint n c k = i.
Proof.
  intros Hn Hc Hi. set (g := first dat hint n + (c + 1) / 2048).
  destruct (mod_at g n i) as (y & Hy & Em); [lia..|].
  pose proof (div_step (c + 1) (y - g) 1024 ltac:(lia) ltac:(lia) ltac:(lia)) as H1.
  pose proof (div_step (c + 1) (y - g + n - 1) 1024 ltac:(lia) ltac:(lia) ltac:(lia)) as H2.
  pose proof (Z.div_le_mono (c + 1 + (y - g)) (c + 1 + (y - g + n - 1)) 2048 ltac:(lia) ltac:(lia)) as H3.
  destruct (decide ((c + 1 + (y - g)) / 2048 = (c + 1) / 2048)) as [E|E].
  - exists (y - g). split; [lia|]. unfold tried. rewrite E. rewrite <- Em. f_equal. lia.
  - exists (y - g + n - 1). split; [lia|]. unfold tried.
    assert ((c + 1 + (y - g + n - 1)) / 2048 = (c + 1) / 2048 + 1) as -> by lia.
    rewrite <- Em, <- (Z.mod_add y 1 n) by lia. f_equal. lia.
Qed.

Lemma tried_waiting dat hint n c i :
  2 <= n < 512 -> 0 <= c -> 0 <= i < n -> (c + 1) / 2048 = (c + 2 * n) / 2048 ->
  exists k, n - 1 <= k < 2 * n - 1 /\ tried dat hint n c k = i.
Proof.
  intros Hn Hc Hi E. destruct (mod_at (first dat hint n + (c + 1) / 2048 + (n - 1)) n i) as (y & Hy & Em); [lia..|].
  set (k := y - (first dat hint n + (c + 1) / 2048)). exists k. split; [unfold k; lia|]. unfold tried.
  assert ((c + 1 + k) / 2048 = (c + 1) / 2048) as ->.
  { pose proof (Z.div_le_mono (c + 1) (c + 1 + k) 2048 ltac:(lia) ltac:(unfold k; lia)).
    pose proof (Z.div_le_mono (c + 1 + k) (c + 2 * n) 2048 ltac:(lia) ltac:(unfold k; lia)). lia. }
  rewrite <- Em. f_equal. unfold k. lia.
Qed.

(** Of the arenas waited for, in the second round, at most one is left out:
    the one the turn passes over when the counter passes a multiple of 2048. *)
Lemma tried_round dat hint n c :
  2 <= n < 512 -> 0 <= c ->
  exists j, forall i, 0 <= i < n -> i <> j -> exists k, n - 1 <= k < 2 * n /\ tried dat hint n c k = i.
Proof.
  intros Hn Hc. set (D := (c + n) / 2048). set (k0 := 2048 * (D + 1) - (c + 1)). set (x := first dat hint n + D).
  assert (forall k, n - 1 <= k < 2 * n -> k < k0 -> (c + 1 + k) / 2048 = D) as Hlo.
  { intros k Hk Hlt. unfold k0, D in *. Z.div_mod_to_equations. lia. }
  assert (forall k, n - 1 <= k < 2 * n -> k0 <= k -> (c + 1 + k) / 2048 = D + 1) as Hhi.
  { intros k Hk Hlt. unfold k0, D in *. Z.div_mod_to_equations. lia. }
  exists ((x + k0) mod n). intros i Hi Hij.
  destruct (mod_at (x + (n - 1)) n i) as (y & Hy & Em); [lia..|].
  assert (y <> x + k0) as Hne by congruence. destruct (decide (y < x + k0)).
  - exists (y - x). split; [lia|]. unfold tried. rewrite Hlo by lia. rewrite <- Em. f_equal. lia.
  - exists (y - x - 1). split; [unfold k0, D in *; Z.div_mod_to_equations; lia|]. unfold tried.
    rewrite Hhi; [rewrite <- Em; f_equal; lia|unfold k0, D in *; Z.div_mod_to_equations; lia|lia].
Qed.

(** The counter passes a multiple of 2048 during the tries. *)
Definition crosses (f : Arenas) : Prop := (roundrobin f + 1) / 2048 <> (roundrobin f + 2 * narena f) / 2048.

(** Of an Efull that is not for the log of an arena. *)
Lemma blkalloc_spec f d dat useres hint seq busy :
  0 <= hint < 2 ^ 32 -> state_ok f d ->
  let r := blkalloc f d dat useres hint seq busy in
  (exists i f' d' b, r = Ok (f', d', b) /\ allocated f d i f' d' b) \/
  (r = Fail (Error Efull) /\ priv = false /\
   exists a, a ∈ arenas f /\ asz a - ausd a <= aresv a + Blksz /\
     (dat = true -> useres = false -> 2 * aresv a < asz a - ausd a)) \/
  (r = Fail (Error Efull) /\ exists j,
     (forall i a, i <> j -> arenas f !! i = Some a -> refused priv a dat useres) /\
     ((forall t, 1 <= t < narena f -> busy t = false) \/ ~ crosses f ->
      Forall (fun a => refused priv a dat useres) (arenas f))).
Proof.
  intros Hh Hok r. pose proof Hok as [Hn Hr _].
  destruct (tries_spec f d dat useres hint seq busy Hh Hok (Z.to_nat (2 * narena f + 1)) 0) as [H|[H|[E H]]]; [lia|lia|..].
  all: replace (setrr f (roundrobin f + 0)) with f in * by (destruct f; unfold setrr; cbn; f_equal; lia).
  - by left.
  - right; by left.
  - right; right. split; [done|]. destruct (tried_round dat hint (narena f) (roundrobin f)) as (j & Hj); [lia..|].
    assert (forall i a, arenas f !! i = Some a -> 0 <= Z.of_nat i < narena f) as Hi.
    { intros i a Ha%lookup_lt_Some. unfold narena, zlen. lia. }
    exists (Z.to_nat j). split.
    + intros i a Hij Ha. destruct (Hj (Z.of_nat i)) as (k & Hk & Et); [eauto|lia|].
      apply (H k a); [lia|lia|]. by rewrite Et, Nat2Z.id.
    + intros Hb. apply Forall_lookup. intros i a Ha. specialize (Hi i a Ha).
      assert (exists k, 0 <= k < 2 * narena f /\ (busy (k + 1) = false \/ narena f <= k + 1) /\
        tried dat hint (narena f) (roundrobin f) k = Z.of_nat i) as (k & Hk & Hw & Et).
      { destruct (decide ((roundrobin f + 1) / 2048 = (roundrobin f + 2 * narena f) / 2048)) as [Ec|Ec].
        - destruct (tried_waiting dat hint (narena f) (roundrobin f) (Z.of_nat i)) as (k & ? & ?); [lia..|].
          exists k. split_and!; try lia.
        - destruct Hb as [Hb|Hb]; [|by destruct Hb].
          destruct (tried_all dat hint (narena f) (roundrobin f) (Z.of_nat i)) as (k & ? & ?); [lia..|].
          exists k. split; [done|]. split; [|done]. destruct (decide (k + 1 < narena f)); [left; apply Hb; lia|right; lia]. }
      apply (H k a); [lia|done|]. by rewrite Et, Nat2Z.id.
Qed.

(** * dataroom *)

Lemma dataroom_some l n0 n :
  n < foldl (fun left a =>
    if 2 * aresv a <? asz a - ausd a then left + (asz a - ausd a - 2 * aresv a) else left) n0 l ->
  n0 <= n -> exists a, a ∈ l /\ 2 * aresv a < asz a - ausd a.
Proof.
  revert n0. induction l as [|a l IH]; intros n0 H Hn; cbn [foldl] in H; [lia|].
  destruct (Z.ltb_spec (2 * aresv a) (asz a - ausd a)).
  - exists a. split; [by left|done].
  - destruct (IH _ H Hn) as (x & Hx & ?). exists x. split; [by right|done].
Qed.

(** * Theorems *)

(** C39: getarena finds the arena of every address strictly inside of one, in a
    number of probes that is logarithmic in the number of arenas.  On an
    address before the first arena (and not the first superblock's) it never
    returns, however long it runs. *)
Theorem getarena_terminates f b fuel :
  arenas_ok (arenas f) -> Forall (fun a => 0 <= asz a) (arenas f) ->
  b <> sb0 f -> b <> sb1 f ->
  (forall i a, arenas f !! i = Some a -> (inarena a).1 < b < (inarena a).2 ->
     Z.log2 (narena f + 1) < Z.of_nat fuel -> getarena fuel f b = Ok (Z.of_nat i)) /\
  (forall a, arenas f !! 0%nat = Some a -> b < (inarena a).1 -> getarena fuel f b = Fail Fuel).
Proof.
  intros Hok Hsz H0 H1. unfold getarena.
  rewrite (proj2 (Z.eqb_neq b (sb0 f))), (proj2 (Z.eqb_neq b (sb1 f))) by done. unfold narena.
  pose proof (zlen_nonneg (arenas f)). split.
  - intros i a Hi Hb Hf. pose proof (lookup_lt_Some _ _ _ Hi).
    apply (findarena_found _ _ _ a); try done; [lia|unfold zlen in *; lia|].
    apply Z.log2_lt_pow2; [lia|]. by rewrite Z.sub_0_r.
  - intros a Ha Hb. apply (findarena_lost _ a); try done. lia.
Qed.

(** C38: blkalloc returns.  It gives a block that was free in one arena, and is
    free in none, and changes no other arena; or it fails with Efull, because
    an unprivileged caller's arena had no block left for its log, or because
    the arenas refused: they have no more than their floor, or than the reserve
    the caller may not use.  Then every arena refused, but for one case: when
    some arena is busy in the first round and the counter that spreads the
    allocations passes a multiple of 2048 during the tries, one arena at most
    may not have been asked ([blkalloc_left_out]). *)
Theorem blkalloc_correct f d dat useres hint seq busy :
  0 <= hint < 2 ^ 32 -> state_ok f d ->
  let r := blkalloc f d dat useres hint seq busy in
  (exists i f' d' b, r = Ok (f', d', b) /\ allocated f d i f' d' b) \/
  (r = Fail (Error Efull) /\ priv = false /\
   exists a, a ∈ arenas f /\ asz a - ausd a <= aresv a + Blksz /\
     (dat = true -> useres = false -> 2 * aresv a < asz a - ausd a)) \/
  (r = Fail (Error Efull) /\ exists j,
     (forall i a, i <> j -> arenas f !! i = Some a -> refused priv a dat useres) /\
     ((forall t, 1 <= t < narena f -> busy t = false) \/ ~ crosses f ->
      Forall (fun a => refused priv a dat useres) (arenas f))).
Proof. apply blkalloc_spec. Qed.

(** What dataroom promises holds: once it has said that there is room, and
    with reserves of at least four blocks (loadfs makes them thirty-two at
    least), blkalloc finds a block for data. *)
Theorem dataroom_alloc f d n hint seq busy :
  0 <= hint < 2 ^ 32 -> state_ok f d -> 0 <= n ->
  Forall (fun a => 4 * Blksz <= aresv a) (arenas f) ->
  (forall t, 1 <= t < narena f -> busy t = false) \/ ~ crosses f ->
  dataroom f false n = true ->
  exists i f' d' b, blkalloc f d true false hint seq busy = Ok (f', d', b) /\ allocated f d i f' d' b.
Proof.
  intros Hh Hok Hn Hresv Hb Hroom. unfold dataroom in Hroom. apply Z.ltb_lt in Hroom.
  apply dataroom_some in Hroom as (a & Ha & Hfree); [|done]. rewrite Forall_forall in Hresv.
  destruct (blkalloc_spec f d true false hint seq busy Hh Hok) as [H|[(_ & Hp & x & Hx & Hle & Hd)|(_ & j & _ & Href)]]; [done|..].
  - exfalso. pose proof (Hresv x Hx). specialize (Hd eq_refl eq_refl). change Blksz with 16384 in *. lia.
  - exfalso. specialize (Href Hb). rewrite Forall_forall in Href. destruct (Href a Ha) as [(_ & _ & ?)|[Hr|(_ & Hr)]]; [lia|..];
      pose proof (Hresv a Ha); change Logfloor with 8 in *; change Blksz with 16384 in *; lia.
Qed.
End Alloc.

(** * Witnesses: two arenas *)

Definition ex_fs : Arenas := mkArenas 0 (200 * Blksz) [ex_at 0; ex_at 70] 2040.

Lemma ex_fs_ok : arenas_ok (arenas ex_fs) /\ Forall (fun a => 0 <= asz a) (arenas ex_fs).
Proof.
  split; [|repeat apply Forall_cons_2; [by vm_compute..|constructor]]. intros [|[|i]] [|[|j]] a b Hij Ha Hb; cbn in Ha, Hb; try lia; try done.
  injection Ha as <-. injection Hb as <-. by vm_compute.
Qed.

Lemma getarena_terminates_witness :
  (forall i a, arenas ex_fs !! i = Some a -> (inarena a).1 < 75 * Blksz < (inarena a).2 ->
     Z.log2 (narena ex_fs + 1) < 2 -> getarena 2 ex_fs (75 * Blksz) = Ok (Z.of_nat i)) /\
  (forall a, arenas ex_fs !! 0%nat = Some a -> 75 * Blksz < (inarena a).1 -> getarena 2 ex_fs (75 * Blksz) = Fail Fuel).
Proof. apply (getarena_terminates ex_fs (75 * Blksz) 2); [apply ex_fs_ok|apply ex_fs_ok|done|done]. Defined.

Lemma ex_fs_state : state_ok ex_fs ∅.
Proof.
  split; [by vm_compute|cbn; lia|]. repeat apply Forall_cons_2; [| |constructor].
  - exists [], [ex_entry 0]. by apply ex_at_ok.
  - exists [], [ex_entry 70]. by apply ex_at_ok.
Qed.

Lemma blkalloc_correct_witness :
  let r := blkalloc true (fun _ => false) (fun _ => false) ex_fs ∅ false false 5 true (fun _ => false) in
  (exists i f' d' b, r = Ok (f', d', b) /\ allocated ex_fs ∅ i f' d' b) \/
  (r = Fail (Error Efull) /\ true = false /\
   exists a, a ∈ arenas ex_fs /\ asz a - ausd a <= aresv a + Blksz /\
     (false = true -> false = false -> 2 * aresv a < asz a - ausd a)) \/
  (r = Fail (Error Efull) /\ exists j,
     (forall i a, i <> j -> arenas ex_fs !! i = Some a -> refused true a false false) /\
     ((forall t, 1 <= t < narena ex_fs -> false = false) \/ ~ crosses ex_fs ->
      Forall (fun a => refused true a false false) (arenas ex_fs))).
Proof.
  apply (blkalloc_correct true (fun _ => false) (fun _ => false) (fun _ => eq_refl) (fun _ => eq_refl)
    ex_fs ∅ false false 5 true (fun _ => false)); [lia|exact ex_fs_state].
Defined.

(** Arenas with a reserve of four blocks. *)
Definition withresv (a : Arena) (r : Z) : Arena :=
  mkArena (afree a) (asz a) (ausd a) r (ah0 a) (aloghd a) (alogtl a) (aspare a) (anlog a) (alast a).

Lemma withresv_ok a r d ps es : arena_ok a d ps es -> arena_ok (withresv a r) d ps es.
Proof. intros [[H1 H2 H3 H4] Hu Hh Hr Hi]. split; [split|..]; done. Qed.

Definition ex_fs4 : Arenas :=
  mkArenas 0 (200 * Blksz) [withresv (ex_at 0) (4 * Blksz); withresv (ex_at 70) (4 * Blksz)] 2046.

Lemma dataroom_alloc_witness :
  exists i f' d' b,
    blkalloc false (fun _ => false) (fun _ => false) ex_fs4 ∅ true false 5 true (fun _ => false) = Ok (f', d', b) /\
    allocated ex_fs4 ∅ i f' d' b.
Proof.
  apply (dataroom_alloc false (fun _ => false) (fun _ => false) (fun _ => eq_refl) (fun _ => eq_refl)
    ex_fs4 ∅ 100 5 true (fun _ => false)); [lia| |lia| |left; reflexivity|by vm_compute].
  - split; [by vm_compute|cbn; lia|]. repeat apply Forall_cons_2; [| |constructor].
    + exists [], [ex_entry 0]. by apply withresv_ok, ex_at_ok.
    + exists [], [ex_entry 70]. by apply withresv_ok, ex_at_ok.
  - repeat apply Forall_cons_2; [by vm_compute..|constructor].
Defined.

(** Three arenas of which one, the last, has room for data. *)
Definition ex_fs3 : Arenas :=
  mkArenas 0 (300 * Blksz) [withresv (ex_at 0) (100 * Blksz); withresv (ex_at 70) (100 * Blksz); ex_at 140] 2043.

Lemma ex_fs3_state : state_ok ex_fs3 ∅.
Proof.
  split; [by vm_compute|cbn; lia|]. repeat apply Forall_cons_2; [| | |constructor].
  - exists [], [ex_entry 0]. by apply withresv_ok, ex_at_ok.
  - exists [], [ex_entry 70]. by apply withresv_ok, ex_at_ok.
  - exists [], [ex_entry 140]. by apply ex_at_ok.
Qed.

(** Its turn comes while it is busy in the first round, and in the second the
    turn passes it over: blkalloc fails, and the arena has not refused. *)
Lemma blkalloc_left_out :
  state_ok ex_fs3 ∅ /\
  blkalloc true (fun _ => false) (fun _ => false) ex_fs3 ∅ true false 0 true (fun t => t =? 2) = Fail (Error Efull) /\
  exists a, arenas ex_fs3 !! 2%nat = Some a /\ ~ refused true a true false.
Proof.
  split; [exact ex_fs3_state|]. split; [by vm_compute|]. exists (ex_at 140). split; [done|].
  intros [(_ & _ & H)|[H|(H & _)]]; [by vm_compute in H..|done].
Qed.
