(* ===== verification/Conv9p.v ===== *)
(** sys/src/libc/9sys: the 9P wire format.  convS2M.c and convM2S.c turn the
    Fcall of <fcall.h> into a message and back; convD2M.c and convM2D.c do the
    same for the Dir of a stat message, and statcheck checks one.  gefs reads
    every request with convM2S and every wstat with convM2D, and the kernel's
    mount driver talks to it through the same functions.

    A [char*] is [None] for nil and otherwise the bytes of the C string.  A
    conversion that writes is modelled by what it returns and by the bytes it
    writes from its pointer on; a write that would leave the buffer is
    [Undef].  A conversion that reads runs in [parse]: it has the bytes up to
    ep, [Ok None] is its return of 0, and a read that no test covered would be
    [Undef].  Pointers are wide enough for p + n not to wrap. *)

From S2P Require Import Prelude Layout Pack.

(** * <fcall.h> *)

Definition Tversion : Z := 100.
Definition Rversion : Z := 101.
Definition Tauth : Z := 102.
Definition Rauth : Z := 103.
Definition Tattach : Z := 104.
Definition Rattach : Z := 105.
Definition Terror : Z := 106.
Definition Rerror : Z := 107.
Definition Tflush : Z := 108.
Definition Rflush : Z := 109.
Definition Twalk : Z := 110.
Definition Rwalk : Z := 111.
Definition Topen : Z := 112.
Definition Ropen : Z := 113.
Definition Tcreate : Z := 114.
Definition Rcreate : Z := 115.
Definition Tread : Z := 116.
Definition Rread : Z := 117.
Definition Twrite : Z := 118.
Definition Rwrite : Z := 119.
Definition Tclunk : Z := 120.
Definition Rclunk : Z := 121.
Definition Tremove : Z := 122.
Definition Rremove : Z := 123.
Definition Tstat : Z := 124.
Definition Rstat : Z := 125.
Definition Twstat : Z := 126.
Definition Rwstat : Z := 127.

Definition MAXWELEM : Z := 16.

Definition charp : Type := option (list Z).

(** The union of Fcall, tagged with its type; fid goes with the types that
    have one.  [count] and [data], [nwname] and [wname], ... are apart, as in
    the code: the list is what is readable from the pointer. *)
Inductive fbody :=
  | FTversion (msize : Z) (version : charp)
  | FRversion (msize : Z) (version : charp)
  | FTauth (afid : Z) (uname aname : charp)
  | FRauth (aqid : Qid)
  | FTattach (fid afid : Z) (uname aname : charp)
  | FRattach (qid : Qid)
  | FRerror (ename : charp)
  | FTflush (oldtag : Z)
  | FRflush
  | FTwalk (fid newfid nwname : Z) (wname : list charp)
  | FRwalk (nwqid : Z) (wqid : list Qid)
  | FTopen (fid mode : Z)
  | FRopen (qid : Qid) (iounit : Z)
  | FTcreate (fid : Z) (name : charp) (perm mode : Z)
  | FRcreate (qid : Qid) (iounit : Z)
  | FTread (fid offset count : Z)
  | FRread (count : Z) (data : list Z)
  | FTwrite (fid offset count : Z) (data : list Z)
  | FRwrite (count : Z)
  | FTclunk (fid : Z)
  | FRclunk
  | FTremove (fid : Z)
  | FRremove
  | FTstat (fid : Z)
  | FRstat (nstat : Z) (stat : list Z)
  | FTwstat (fid nstat : Z) (stat : list Z)
  | FRwstat
  | FOther (type : Z).

Record Fcall := mkFcall { ftag : Z; fmsg : fbody }.

Definition ftype (b : fbody) : Z :=
  match b with
  | FTversion _ _ => Tversion | FRversion _ _ => Rversion
  | FTauth _ _ _ => Tauth | FRauth _ => Rauth
  | FTattach _ _ _ _ => Tattach | FRattach _ => Rattach
  | FRerror _ => Rerror
  | FTflush _ => Tflush | FRflush => Rflush
  | FTwalk _ _ _ _ => Twalk | FRwalk _ _ => Rwalk
  | FTopen _ _ => Topen | FRopen _ _ => Ropen
  | FTcreate _ _ _ _ => Tcreate | FRcreate _ _ => Rcreate
  | FTread _ _ _ => Tread | FRread _ _ => Rread
  | FTwrite _ _ _ _ => Twrite | FRwrite _ => Rwrite
  | FTclunk _ => Tclunk | FRclunk => Rclunk
  | FTremove _ => Tremove | FRremove => Rremove
  | FTstat _ => Tstat | FRstat _ _ => Rstat
  | FTwstat _ _ _ => Twstat | FRwstat => Rwstat
  | FOther t => t
  end.

(** * convS2M.c *)

Definition strlen (s : charp) : Z := zlen (default [] s).

Definition pstring (s : charp) : list Z :=
  match s with None => pbit 2 0 | Some s => pbit 2 (zlen s) ++ s end.

Definition pqid (q : Qid) : list Z := pbit 1 (qtype q) ++ pbit 4 (vers q) ++ pbit 8 (path q).

Definition stringsz (s : charp) : Z :=
  match s with None => 2 | Some s => 2 + zlen s end.

(** The first [n] elements of an array; there is nothing after its end. *)
Definition elems {A} (n : Z) (l : list A) : res (list A) :=
  if decide (n <= zlen l) then Ok (take (Z.to_nat n) l) else Fail Undef.

Definition stringssz (l : list charp) : Z := foldr (fun s n => stringsz s + n) 0 l.

(** What the switch adds to the size; [None] is its default. *)
Definition bodysz (b : fbody) : res (option Z) :=
  match b with
  | FOther _ => Ok None
  | FTversion _ v | FRversion _ v => Ok (Some (4 + stringsz v))
  | FTflush _ => Ok (Some 2)
  | FTauth _ u a => Ok (Some (4 + stringsz u + stringsz a))
  | FTattach _ _ u a => Ok (Some (4 + 4 + stringsz u + stringsz a))
  | FTwalk _ _ nw w => w ← elems nw w; Ok (Some (4 + 4 + 2 + stringssz w))
  | FTopen _ _ => Ok (Some (4 + 1))
  | FTcreate _ s _ _ => Ok (Some (4 + stringsz s + 4 + 1))
  | FTread _ _ _ => Ok (Some (4 + 8 + 4))
  | FTwrite _ _ c _ => Ok (Some (4 + 8 + 4 + c))
  | FTclunk _ | FTremove _ | FTstat _ => Ok (Some 4)
  | FTwstat _ c _ => Ok (Some (4 + 2 + c))
  | FRerror s => Ok (Some (stringsz s))
  | FRflush | FRclunk | FRremove | FRwstat => Ok (Some 0)
  | FRauth _ | FRattach _ => Ok (Some QIDSZ)
  | FRwalk c _ => Ok (Some (2 + c * QIDSZ))
  | FRopen _ _ | FRcreate _ _ => Ok (Some (QIDSZ + 4))
  | FRread c _ => Ok (Some (4 + c))
  | FRwrite _ => Ok (Some 4)
  | FRstat c _ => Ok (Some (2 + c))
  end.

(** size[4] type[1] tag[2] and the body, summed in an uint. *)
Definition sizeS2M (f : Fcall) : res Z :=
  o ← bodysz (fmsg f);
  Ok (match o with None => 0 | Some n => u32 (4 + 1 + 2 + n) end).

(** The bytes the switch of convS2M writes; [None] is a return of 0. *)
Definition putreply (b : fbody) : res (option (list Z)) :=
  match b with
  | FRversion m v => Ok (Some (pbit 4 m ++ pstring v))
  | FRerror s => Ok (Some (pstring s))
  | FRflush | FRclunk | FRremove | FRwstat => Ok (Some [])
  | FRauth q | FRattach q => Ok (Some (pqid q))
  | FRwalk n w =>
      if MAXWELEM <? n then Ok None else
      w ← elems n w; Ok (Some (pbit 2 n ++ concat (pqid <$> w)))
  | FRopen q i | FRcreate q i => Ok (Some (pqid q ++ pbit 4 i))
  | FRread c d => d ← elems c d; Ok (Some (pbit 4 c ++ d))
  | FRwrite c => Ok (Some (pbit 4 c))
  | FRstat n s => s ← elems n s; Ok (Some (pbit 2 n ++ s))
  | _ => Ok None
  end.

Definition putbody (b : fbody) : res (option (list Z)) :=
  match b with
  | FTversion m v => Ok (Some (pbit 4 m ++ pstring v))
  | FTflush t => Ok (Some (pbit 2 t))
  | FTauth a u n => Ok (Some (pbit 4 a ++ pstring u ++ pstring n))
  | FTattach f a u n => Ok (Some (pbit 4 f ++ pbit 4 a ++ pstring u ++ pstring n))
  | FTwalk f nf nw w =>
      if MAXWELEM <? nw then Ok None else
      w ← elems nw w;
      Ok (Some (pbit 4 f ++ pbit 4 nf ++ pbit 2 nw ++ concat (pstring <$> w)))
  | FTopen f m => Ok (Some (pbit 4 f ++ pbit 1 m))
  | FTcreate f s p m => Ok (Some (pbit 4 f ++ pstring s ++ pbit 4 p ++ pbit 1 m))
  | FTread f o c => Ok (Some (pbit 4 f ++ pbit 8 o ++ pbit 4 c))
  | FTwrite f o c d =>
      d ← elems c d; Ok (Some (pbit 4 f ++ pbit 8 o ++ pbit 4 c ++ d))
  | FTclunk f | FTremove f | FTstat f => Ok (Some (pbit 4 f))
  | FTwstat f n s => s ← elems n s; Ok (Some (pbit 4 f ++ pbit 2 n ++ s))
  | b => putreply b
  end.

(** The message written at ap, whose length is the value returned; [None] is
    a return of 0. *)
Definition convS2M (f : Fcall) (nap : Z) : res (option (list Z)) :=
  size ← sizeS2M f;
  if (size =? 0) || (nap <? size) then Ok None else
  o ← putbody (fmsg f);
  match o with
  | None => Ok None
  | Some b =>
      let p := pbit 4 size ++ pbit 1 (ftype (fmsg f)) ++ pbit 2 (ftag f) ++ b in
      if nap <? zlen p then Fail Undef
      else if size =? zlen p then Ok (Some p) else Ok None
  end.

(** * convM2S.c *)

(** A reader of the bytes from p to ep: its value, the bytes as it leaves them
    behind p, and what is left. *)
Definition parse (A : Type) : Type := list Z -> res (option (A * list Z * list Z)).

#[global] Instance parse_ret : MRet parse := fun A a p => Ok (Some (a, [], p)).
#[global] Instance parse_bind : MBind parse := fun A B f m p =>
  match m p with
  | Ok (Some (a, o, p)) =>
      match f a p with
      | Ok (Some (b, o', p)) => Ok (Some (b, o ++ o', p))
      | r => r
      end
  | Ok None => Ok None
  | Fail e => Fail e
  end.

(** if(p+n > ep) return 0 *)
Definition room (n : Z) : parse unit := fun p =>
  if zlen p <? n then Ok None else Ok (Some (tt, [], p)).

(** GBITn(p), p += n *)
Definition gint (n : nat) : parse Z := fun p =>
  v ← GBIT n p; Ok (Some (v, take n p, drop n p)).

(** The string is moved down over its count to make room for its NUL. *)
Definition gstring : parse charp := fun p =>
  if zlen p <? 2 then Ok None else
  n ← GBIT 2 p;
  if zlen p - 1 <? n + 1 then Ok None else
  let s := take (Z.to_nat n) (drop 2 p) in
  Ok (Some (Some (cstr (s ++ [0])), take 1 p ++ s ++ [0], drop (Z.to_nat (2 + n)) p)).

Definition gqid : parse Qid :=
  room QIDSZ;; t ← gint 1; v ← gint 4; p ← gint 8; mret (mkQid p v t).

(** f->data = p, p += n, when there is room *)
Definition gdata (n : Z) : parse (list Z) := fun p =>
  if zlen p <? n then Ok None
  else Ok (Some (take (Z.to_nat n) p, take (Z.to_nat n) p, drop (Z.to_nat n) p)).

(** for(i=0; i<n; i++) *)
Fixpoint gmany {A} (g : parse A) (n : nat) : parse (list A) :=
  match n with
  | O => mret []
  | S n => x ← g; l ← gmany g n; mret (x :: l)
  end.

Definition stop {A} : parse A := fun _ => Ok None.

(** The switch: the replies, and all of it. *)
Definition getreply (t : Z) : parse fbody :=
  if t =? Rversion then room 4;; m ← gint 4; v ← gstring; mret (FRversion m v)
  else if t =? Rerror then s ← gstring; mret (FRerror s)
  else if t =? Rflush then mret FRflush
  else if t =? Rauth then q ← gqid; mret (FRauth q)
  else if t =? Rattach then q ← gqid; mret (FRattach q)
  else if t =? Rwalk then
    room 2;; n ← gint 2;
    if MAXWELEM <? n then stop else
    w ← gmany gqid (Z.to_nat n); mret (FRwalk n w)
  else if t =? Ropen then q ← gqid; room 4;; i ← gint 4; mret (FRopen q i)
  else if t =? Rcreate then q ← gqid; room 4;; i ← gint 4; mret (FRcreate q i)
  else if t =? Rread then room 4;; c ← gint 4; d ← gdata c; mret (FRread c d)
  else if t =? Rwrite then room 4;; c ← gint 4; mret (FRwrite c)
  else if t =? Rclunk then mret FRclunk
  else if t =? Rremove then mret FRremove
  else if t =? Rstat then room 2;; n ← gint 2; s ← gdata n; mret (FRstat n s)
  else if t =? Rwstat then mret FRwstat
  else stop.

Definition getbody (t : Z) : parse fbody :=
  if t =? Tversion then room 4;; m ← gint 4; v ← gstring; mret (FTversion m v)
  else if t =? Tflush then room 2;; o ← gint 2; mret (FTflush o)
  else if t =? Tauth then
    room 4;; a ← gint 4; u ← gstring; n ← gstring; mret (FTauth a u n)
  else if t =? Tattach then
    room 4;; f ← gint 4; room 4;; a ← gint 4; u ← gstring; n ← gstring; mret (FTattach f a u n)
  else if t =? Twalk then
    room (4 + 4 + 2);; f ← gint 4; nf ← gint 4; n ← gint 2;
    if MAXWELEM <? n then stop else
    w ← gmany gstring (Z.to_nat n); mret (FTwalk f nf n w)
  else if t =? Topen then room (4 + 1);; f ← gint 4; m ← gint 1; mret (FTopen f m)
  else if t =? Tcreate then
    room 4;; f ← gint 4; s ← gstring; room (4 + 1);; p ← gint 4; m ← gint 1; mret (FTcreate f s p m)
  else if t =? Tread then
    room (4 + 8 + 4);; f ← gint 4; o ← gint 8; c ← gint 4; mret (FTread f (s64 o) c)
  else if t =? Twrite then
    room (4 + 8 + 4);; f ← gint 4; o ← gint 8; c ← gint 4; d ← gdata c; mret (FTwrite f (s64 o) c d)
  else if t =? Tclunk then room 4;; f ← gint 4; mret (FTclunk f)
  else if t =? Tremove then room 4;; f ← gint 4; mret (FTremove f)
  else if t =? Tstat then room 4;; f ← gint 4; mret (FTstat f)
  else if t =? Twstat then
    room (4 + 2);; f ← gint 4; n ← gint 2; s ← gdata n; mret (FTwstat f n s)
  else getreply t.

(** The header and the body. *)
Definition gmsg : parse (Z * Fcall) :=
  room (4 + 1 + 2);;
  size ← gint 4;
  if size <? 4 + 1 + 2 then stop else
  t ← gint 1;
  tag ← gint 2;
  b ← getbody t;
  mret (size, mkFcall tag b).

(** The size returned, *f, and the buffer after the strings have been moved. *)
Definition convM2S (ap : list Z) : res (option (Z * Fcall * list Z)) :=
  r ← gmsg ap;
  match r with
  | None => Ok None
  | Some (size, f, o, p) =>
      if size =? zlen ap - zlen p then Ok (Some (size, f, o ++ p)) else Ok None
  end.

(** * Well-formed messages *)

Definition str_ok (s : charp) : Prop :=
  bytes (default [] s) /\ ~ (0 ∈ default [] s) /\ strlen s < 2 ^ 16.
Definition in_bits (n v : Z) : Prop := 0 <= v < 2 ^ n.
Definition qid_ok (q : Qid) : Prop := in_bits 8 (qtype q) /\ in_bits 32 (vers q) /\ in_bits 64 (path q).
Definition data_ok (n w : Z) (d : list Z) : Prop := in_bits w n /\ zlen d = n /\ bytes d.

(** The values the fields of an Fcall can have, with the pointers pointing at
    as much as the counts say. *)
Definition body_ok (b : fbody) : Prop :=
  match b with
  | FTversion m v | FRversion m v => in_bits 32 m /\ str_ok v
  | FTauth a u n => in_bits 32 a /\ str_ok u /\ str_ok n
  | FRauth q | FRattach q => qid_ok q
  | FTattach f a u n => in_bits 32 f /\ in_bits 32 a /\ str_ok u /\ str_ok n
  | FRerror s => str_ok s
  | FTflush t => in_bits 16 t
  | FRflush | FRclunk | FRremove | FRwstat => True
  | FTwalk f nf n w =>
      in_bits 32 f /\ in_bits 32 nf /\ n <= MAXWELEM /\ zlen w = n /\ Forall str_ok w
  | FRwalk n w => n <= MAXWELEM /\ zlen w = n /\ Forall qid_ok w
  | FTopen f m => in_bits 32 f /\ in_bits 8 m
  | FRopen q i | FRcreate q i => qid_ok q /\ in_bits 32 i
  | FTcreate f s p m => in_bits 32 f /\ str_ok s /\ in_bits 32 p /\ in_bits 8 m
  | FTread f o c => in_bits 32 f /\ - 2 ^ 63 <= o < 2 ^ 63 /\ in_bits 32 c
  | FRread c d => data_ok c 32 d
  | FTwrite f o c d => in_bits 32 f /\ - 2 ^ 63 <= o < 2 ^ 63 /\ data_ok c 32 d
  | FRwrite c => in_bits 32 c
  | FTclunk f | FTremove f | FTstat f => in_bits 32 f
  | FRstat n s => data_ok n 16 s
  | FTwstat f n s => in_bits 32 f /\ data_ok n 16 s
  | FOther _ => False
  end.

Definition fcall_ok (f : Fcall) : Prop := in_bits 16 (ftag f) /\ body_ok (fmsg f).

(** What the reader makes of a message: a nil string is read as an empty one. *)
Definition some_str (s : charp) : charp := Some (default [] s).
Definition some_body (b : fbody) : fbody :=
  match b with
  | FTversion m v => FTversion m (some_str v)
  | FRversion m v => FRversion m (some_str v)
  | FTauth a u n => FTauth a (some_str u) (some_str n)
  | FTattach f a u n => FTattach f a (some_str u) (some_str n)
  | FRerror s => FRerror (some_str s)
  | FTwalk f nf n w => FTwalk f nf n (some_str <$> w)
  | FTcreate f s p m => FTcreate f (some_str s) p m
  | b => b
  end.

(** * Sizes *)

Lemma zlen_pstring s : zlen (pstring s) = stringsz s.
Proof. destruct s; cbn; autorewrite with gefs; lia. Qed.
Lemma zlen_pqid q : zlen (pqid q) = QIDSZ.
Proof. unfold pqid. autorewrite with gefs. done. Qed.
Lemma zlen_concat_pstring w : zlen (concat (pstring <$> w)) = stringssz w.
Proof. induction w as [|s w IH]; [done|]. cbn [fmap list_fmap concat stringssz foldr]. rewrite zlen_app, zlen_pstring, IH. done. Qed.
Lemma zlen_concat_pqid w : zlen (concat (pqid <$> w)) = zlen w * QIDSZ.
Proof. induction w as [|q w IH]; [done|]. cbn [fmap list_fmap concat]. rewrite zlen_app, zlen_pqid, zlen_cons, IH. lia. Qed.
#[export] Hint Rewrite zlen_pstring zlen_pqid zlen_concat_pstring zlen_concat_pqid : gefs.

Lemma elems_all {A} n (l : list A) : zlen l = n -> elems n l = Ok l.
Proof.
  intros <-. unfold elems. rewrite decide_True by lia. unfold zlen. by rewrite Nat2Z.id, firstn_all.
Qed.

(** A well-formed message is written, and takes the room sizeS2M says. *)
Lemma putbody_ok b :
  body_ok b -> exists c, putbody b = Ok (Some c) /\ bodysz b = Ok (Some (zlen c)).
Proof.
  destruct b; cbn [body_ok putbody putreply bodysz]; intros H;
    unfold data_ok, MAXWELEM in *; destruct_and?;
    repeat (match goal with |- context [16 <? ?n] => destruct (Z.ltb_spec 16 n); [lia|] end);
    rewrite ?elems_all by done; rewrite ?bind_ok;
    try done; eexists; (split; [reflexivity|]); do 2 f_equal; autorewrite with gefs; unfold QIDSZ; lia.
Qed.

(** * Reading: weakest preconditions *)

(** The reader is stopped, or ends with [Q]; it does not read what it may not. *)
Definition wp {A} (m : parse A) (p : list Z) (Q : A -> list Z -> list Z -> Prop) : Prop :=
  match m p with
  | Ok (Some (a, o, p)) => Q a o p
  | Ok None => True
  | Fail _ => False
  end.

Lemma wp_mono {A} (m : parse A) p (Q R : A -> list Z -> list Z -> Prop) :
  wp m p Q -> (forall a o p', Q a o p' -> R a o p') -> wp m p R.
Proof. unfold wp. destruct (m p) as [[[[a o] p']|]|]; auto. Qed.

Lemma wp_ret {A} (a : A) p (Q : A -> list Z -> list Z -> Prop) : Q a [] p -> wp (mret a) p Q.
Proof. done. Qed.

Lemma wp_bind {A B} (m : parse A) (f : A -> parse B) p Q :
  wp m p (fun a o p' => wp (f a) p' (fun b o' p'' => Q b (o ++ o') p'')) -> wp (m ≫= f) p Q.
Proof.
  unfold wp, mbind, parse_bind. destruct (m p) as [[[[a o] p']|]|]; [|done..].
  by destruct (f a p') as [[[[b o'] p'']|]|].
Qed.

Lemma wp_room n p (Q : unit -> list Z -> list Z -> Prop) :
  (n <= zlen p -> Q tt [] p) -> wp (room n) p Q.
Proof. intros H. unfold wp, room. destruct (Z.ltb_spec (zlen p) n); auto. Qed.

Lemma wp_stop {A} p (Q : A -> list Z -> list Z -> Prop) : wp stop p Q.
Proof. done. Qed.

Lemma wp_gint n p (Q : Z -> list Z -> list Z -> Prop) :
  bytes p -> Z.of_nat n <= zlen p ->
  (forall v c p', p = c ++ p' -> bytes p' -> zlen c = Z.of_nat n -> in_bits (8 * Z.of_nat n) v ->
    pbit n v = c -> Q v c p') ->
  wp (gint n) p Q.
Proof.
  intros Hb Hn H. unfold wp, gint, GBIT. unfold zlen in *. destruct (decide _); [|lia]. cbn.
  assert (length (take n p) = n) as Hl by (rewrite length_take; lia).
  apply H.
  - by rewrite take_drop.
  - by apply Forall_drop.
  - lia.
  - pose proof (gbit_range (take n p) ltac:(by apply Forall_take)) as Hr. unfold zlen in Hr. by rewrite Hl in Hr.
  - rewrite <- Hl at 1. apply pbit_gbit. by apply Forall_take.
Qed.

Lemma cstr_le p : zlen (cstr p) <= zlen p.
Proof.
  induction p as [|b p IH]; [done|]. cbn [cstr]. pose proof (zlen_nonneg p).
  destruct (b =? 0); rewrite ?zlen_cons, ?zlen_nil; lia.
Qed.
Lemma cstr_nz p : ~ (0 ∈ cstr p).
Proof.
  induction p as [|b p IH]; cbn; [by apply not_elem_of_nil|].
  destruct (Z.eqb_spec b 0); [by apply not_elem_of_nil|]. by apply not_elem_of_cons.
Qed.
Lemma cstr_bytes p : bytes p -> bytes (cstr p).
Proof. induction 1; cbn; [constructor|]. destruct (_ =? 0); by constructor. Qed.
Lemma cstr_nul s p : ~ (0 ∈ s) -> cstr (s ++ 0 :: p) = s.
Proof.
  induction s as [|b s IH]; cbn; [done|]. intros [? ?]%not_elem_of_cons.
  destruct (Z.eqb_spec b 0); [congruence|]. f_equal. auto.
Qed.
(** A string with no NUL in it is the bytes it was read from. *)
Lemma cstr_short s : zlen (cstr (s ++ [0])) <= zlen s /\ (zlen (cstr (s ++ [0])) = zlen s -> cstr (s ++ [0]) = s).
Proof.
  induction s as [|b s [IH1 IH2]]; [done|]. cbn [app cstr]. rewrite zlen_cons. pose proof (zlen_nonneg s).
  destruct (b =? 0); rewrite ?zlen_cons, ?zlen_nil; [lia|]. split; [lia|]. intros. f_equal. apply IH2. lia.
Qed.

Lemma wp_gstring p (Q : charp -> list Z -> list Z -> Prop) :
  bytes p ->
  (forall s c o p', p = c ++ p' -> bytes p' -> zlen o = zlen c -> str_ok s ->
    stringsz s <= zlen c -> (stringsz s = zlen c -> pstring s = c) -> Q s o p') ->
  wp gstring p Q.
Proof.
  intros Hb H. unfold wp, gstring. destruct (Z.ltb_spec (zlen p) 2) as [|H2]; [done|].
  unfold GBIT. unfold zlen in H2. destruct (decide _) as [Hl|]; [|lia]. rewrite bind_ok.
  set (n := gbit (take 2 p)). destruct (Z.ltb_spec (zlen p - 1) (n + 1)) as [|Hn]; [done|].
  assert (0 <= n < 65536) as Hr.
  { pose proof (gbit_range (take 2 p) ltac:(by apply Forall_take)) as Hr. unfold zlen in Hr.
    rewrite length_take, Nat.min_l in Hr by done. done. }
  set (s := take (Z.to_nat n) (drop 2 p)).
  assert (zlen s = n) as Hs by (unfold zlen, s in *; rewrite length_take, length_drop; lia).
  assert (bytes s) as Hsb by (by apply Forall_take, Forall_drop).
  destruct (cstr_short s) as [Hle Heq].
  assert (Hc : take 2 p = pbit 2 n).
  { unfold n. symmetry. rewrite <- (pbit_gbit (take 2 p)) at 2 by (by apply Forall_take).
    by rewrite length_take, Nat.min_l. }
  apply (H _ (take 2 p ++ s)).
  - unfold s. rewrite Z2Nat.inj_add by lia. change (Z.to_nat 2) with 2%nat.
    rewrite <- drop_drop, <- app_assoc, take_drop. by rewrite take_drop.
  - by apply Forall_drop.
  - rewrite !zlen_app. rewrite Hc, zlen_pbit. unfold zlen at 1. rewrite length_take, zlen_cons, zlen_nil. lia.
  - unfold str_ok, strlen. cbn [default from_option]; unfold id. split_and!; [|by apply cstr_nz|lia].
    apply cstr_bytes, Forall_app; split; [done|]. by repeat constructor.
  - cbn [stringsz]. rewrite zlen_app, Hc, zlen_pbit. lia.
  - cbn [stringsz pstring]. rewrite zlen_app, Hc, zlen_pbit. intros E.
    rewrite Heq by lia. by rewrite Hs.
Qed.

Lemma wp_gdata w n p (Q : list Z -> list Z -> list Z -> Prop) :
  bytes p -> in_bits w n ->
  (forall d p', p = d ++ p' -> bytes p' -> data_ok n w d -> Q d d p') ->
  wp (gdata n) p Q.
Proof.
  intros Hb Hn H. unfold wp, gdata. destruct (Z.ltb_spec (zlen p) n) as [|Hl]; [done|].
  unfold in_bits, zlen in *. apply H; [by rewrite take_drop|by apply Forall_drop|].
  split_and!; [exact Hn| |by apply Forall_take]. unfold zlen. rewrite length_take. lia.
Qed.

Lemma wp_gqid p (Q : Qid -> list Z -> list Z -> Prop) :
  bytes p ->
  (forall q c p', p = c ++ p' -> bytes p' -> qid_ok q -> zlen c = QIDSZ -> pqid q = c -> Q q c p') ->
  wp gqid p Q.
Proof.
  intros Hb H. unfold gqid. apply wp_bind, wp_room. unfold QIDSZ in *. intros Hr.
  apply wp_bind, wp_gint; [done|lia|]. intros t ct p1 -> Hp1 Ht Hrt Et. rewrite zlen_app in Hr.
  apply wp_bind, wp_gint; [done|lia|]. intros v cv p2 -> Hp2 Hv Hrv Ev. rewrite zlen_app in Hr.
  apply wp_bind, wp_gint; [done|lia|]. intros x cx p3 -> Hp3 Hx Hrx Ex.
  apply wp_ret. apply H; [|done|done| |].
  - by rewrite app_nil_r, <- !app_assoc.
  - cbn [app]. rewrite !zlen_app, zlen_nil. lia.
  - unfold pqid. cbn. by rewrite Et, Ev, Ex, app_nil_r.
Qed.

Lemma wp_gmany_string n : forall p (Q : list charp -> list Z -> list Z -> Prop),
  bytes p ->
  (forall w c o p', p = c ++ p' -> bytes p' -> zlen o = zlen c -> zlen w = Z.of_nat n -> Forall str_ok w ->
    stringssz w <= zlen c -> (stringssz w = zlen c -> concat (pstring <$> w) = c) -> Q w o p') ->
  wp (gmany gstring n) p Q.
Proof.
  induction n as [|n IH]; intros p Q Hb H; cbn [gmany].
  { apply wp_ret, (H [] []); try done. }
  apply wp_bind, wp_gstring; [done|]. intros s c o p1 -> Hp1 Ho Hs Hle Heq.
  apply wp_bind, IH; [done|]. intros w c' o' p2 -> Hp2 Ho' Hw Hws Hle' Heq'.
  apply wp_ret, (H _ (c ++ c')); [by rewrite app_assoc|done| |rewrite zlen_cons; lia|by constructor| |].
  - rewrite !zlen_app, zlen_nil. lia.
  - cbn. rewrite zlen_app. unfold stringssz in *. lia.
  - cbn [stringssz foldr fmap list_fmap concat]. rewrite zlen_app. intros E. unfold stringssz in *.
    rewrite Heq by lia. by rewrite Heq' by lia.
Qed.

Lemma wp_gmany_qid n : forall p (Q : list Qid -> list Z -> list Z -> Prop),
  bytes p ->
  (forall w c p', p = c ++ p' -> bytes p' -> zlen w = Z.of_nat n -> Forall qid_ok w ->
    zlen c = zlen w * QIDSZ -> concat (pqid <$> w) = c -> Q w c p') ->
  wp (gmany gqid n) p Q.
Proof.
  induction n as [|n IH]; intros p Q Hb H; cbn [gmany].
  { apply wp_ret, H; done. }
  apply wp_bind, wp_gqid; [done|]. intros s c p1 -> Hp1 Hs Hl Heq.
  apply wp_bind, IH; [done|]. intros w c' p2 -> Hp2 Hw Hws Hl' Heq'.
  apply wp_ret, H; [by rewrite app_nil_r, app_assoc|done|rewrite zlen_cons; lia|by constructor| |].
  - rewrite !zlen_app, zlen_nil, zlen_cons. unfold QIDSZ in *. lia.
  - cbn [fmap list_fmap concat]. rewrite Heq, app_nil_r. by rewrite <- Heq'.
Qed.

Lemma pbit_mod n v : pbit n (v mod 2 ^ (8 * Z.of_nat n)) = pbit n v.
Proof. unfold pbit. by rewrite pack_mod. Qed.

Lemma pbit_s64 v : pbit 8 (s64 v) = pbit 8 v.
Proof.
  rewrite <- (pbit_mod 8 v), <- (pbit_mod 8 (s64 v)). f_equal. unfold s64, swrap.
  change (8 * Z.of_nat 8) with 64. change (64 - 1) with 63.
  rewrite Zminus_mod_idemp_l. f_equal. lia.
Qed.

Lemma s64_bits v : - 2 ^ 63 <= s64 v < 2 ^ 63.
Proof. apply (swrap_range 64 v). lia. Qed.
#[export] Hint Resolve s64_bits : gefs.

Ltac wp_step :=
  match goal with
  | |- wp (mret _) _ _ => apply wp_ret
  | |- wp stop _ _ => apply wp_stop
  | |- wp (_ ≫= _) _ _ => apply wp_bind
  | |- wp (room _) _ _ => apply wp_room; intros ?
  | |- wp (gint _) _ _ =>
      apply wp_gint; [done|rewrite ?zlen_app in *; lia|];
      intros ? ? ? -> ? ? ? <-
  | |- wp gstring _ _ => apply wp_gstring; [done|]; intros ? ? ? ? -> ? ? ? ? ?
  | |- wp gqid _ _ => apply wp_gqid; [done|]; intros ? ? ? -> ? ? ? <-
  | |- wp (gdata _) _ _ => eapply wp_gdata; [done|done|]; intros ? ? -> ? ?
  | |- wp (gmany gstring _) _ _ => apply wp_gmany_string; [done|]; intros ? ? ? ? -> ? ? ? ? ? ?
  | |- wp (gmany gqid _) _ _ => apply wp_gmany_qid; [done|]; intros ? ? ? -> ? ? ? ? <-
  | |- wp (if ?b then _ else _) _ _ => destruct b eqn:?
  end.

(** What getbody reads is a well-formed message of the type asked for, no
    longer than what it was read from, and written back as that when it has
    the same length. *)
Definition read_as (t : Z) (p : list Z) (b : fbody) (o p' : list Z) : Prop :=
  exists c n, p = c ++ p' /\ bytes p' /\ zlen o = zlen c /\ body_ok b /\ ftype b = t /\
    bodysz b = Ok (Some n) /\ n <= zlen c /\ (n = zlen c -> putbody b = Ok (Some c)).

Ltac close_app :=
  first [rewrite !app_assoc; reflexivity | reflexivity | match goal with |- ?p = _ => exact (eq_refl ([] ++ p)) end].

Lemma getbody_wp t p : bytes p -> wp (getbody t) p (read_as t p).
Proof.
  intros Hb. unfold getbody, getreply.
  repeat match goal with |- wp (if ?t =? ?T then _ else _) _ _ => destruct (Z.eqb_spec t T) as [->|_] end; repeat wp_step.
  all: unfold read_as; cbn [body_ok ftype putbody putreply bodysz]; repeat (case_match; [lia|]);
    rewrite ?elems_all by (unfold data_ok, in_bits in *; lia); rewrite ?bind_ok, ?pbit_s64.
  all: eexists _, _; split_and!; [close_app|done|..];
    first [done | apply s64_bits | autorewrite with gefs; unfold data_ok, in_bits, QIDSZ in *; lia
          | autorewrite with gefs; intros ?; rewrite <- ?app_assoc;
            repeat match goal with H : _ -> _ = ?c |- _ => rewrite H by lia; clear H end; done].
Qed.

Lemma in_bits_mod n v : in_bits (8 * Z.of_nat n) v -> v mod 2 ^ (8 * Z.of_nat n) = v.
Proof. intros. by apply Z.mod_small. Qed.

(** ** The whole message *)

Lemma gmsg_wp ap :
  bytes ap ->
  wp gmsg ap (fun r o p' => exists c, ap = c ++ p' /\ zlen o = zlen c /\ 7 <= r.1 < 2 ^ 32 /\
    fcall_ok r.2 /\ 7 <= zlen c /\
    exists n, bodysz (fmsg r.2) = Ok (Some n) /\ 0 <= n /\ 7 + n <= zlen c /\
      (7 + n = zlen c -> exists b, putbody (fmsg r.2) = Ok (Some b) /\
         c = pbit 4 r.1 ++ pbit 1 (ftype (fmsg r.2)) ++ pbit 2 (ftag r.2) ++ b)).
Proof.
  intros Hb. unfold gmsg. do 4 wp_step. destruct (Z.ltb_spec v (4 + 1 + 2)); [apply wp_stop|]. do 4 wp_step.
  apply wp_bind. eapply wp_mono; [by apply getbody_wp|].
  intros b o p2 (c & n & -> & Hb2 & Ho & Hok & Ht & Hsz & Hle & Heq). wp_step. cbn [fst snd fmsg ftag].
  destruct (putbody_ok b Hok) as (c' & _ & Hn). rewrite Hsz in Hn. simplify_eq.
  exists (pbit 4 v ++ pbit 1 (ftype b) ++ pbit 2 v1 ++ c). autorewrite with gefs. cbn [app].
  pose proof (zlen_nonneg c). pose proof (zlen_nonneg c'). unfold in_bits in *. split_and!; try lia; try done.
  exists (zlen c'). split_and!; [done|lia|lia|]. intros E. exists c. split; [apply Heq; lia|done].
Qed.

Lemma convM2S_inv ap :
  bytes ap ->
  exists r, convM2S ap = Ok r /\
    match r with
    | None => True
    | Some (size, f, buf) =>
        7 <= size <= zlen ap /\ size < 2 ^ 32 /\ fcall_ok f /\ zlen buf = zlen ap /\
        drop (Z.to_nat size) buf = drop (Z.to_nat size) ap /\
        exists n, sizeS2M f = Ok n /\ n <= size /\
          (n = size -> convS2M f size = Ok (Some (take (Z.to_nat size) ap)))
    end.
Proof.
  intros Hb. unfold convM2S. pose proof (gmsg_wp ap Hb) as W. unfold wp in W.
  destruct (gmsg ap) as [[[[[size f] o] p']|]|]; cbn in W; [|by exists None|done].
  rewrite bind_ok. destruct W as (c & -> & Ho & Hs & Hok & Hc & n & Hn & Hn0 & Hle & Heq).
  rewrite zlen_app. destruct (Z.eqb_spec size (zlen c + zlen p' - zlen p')) as [E|E]; [|by exists None].
  assert (size = zlen c) as -> by lia. eexists; split; [done|]. cbv beta iota.
  pose proof (zlen_nonneg p').
  split_and!; [lia|lia|lia|exact Hok|rewrite zlen_app; lia| |].
  { unfold zlen in *. rewrite Nat2Z.id, (drop_app_length c). apply drop_app_length'. lia. }
  assert (Hsz : sizeS2M f = Ok (7 + n)).
  { unfold sizeS2M. rewrite Hn, bind_ok. by rewrite u32_id by lia. }
  exists (7 + n). split_and!; [done|lia|]. intros Hz. destruct (Heq Hz) as (b & Hb' & Ec).
  unfold convS2M. rewrite Hsz, bind_ok, Hz, Hb', bind_ok.
  destruct (Z.eqb_spec (zlen c) 0); [lia|]. destruct (Z.ltb_spec (zlen c) (zlen c)); [lia|]. cbn [orb].
  rewrite <- Ec, Z.ltb_irrefl, Z.eqb_refl. unfold zlen. by rewrite Nat2Z.id, take_app_length.
Qed.

(** * Reading what was written *)

(** The reader ends with [Q]. *)
Definition twp {A} (m : parse A) (p : list Z) (Q : A -> list Z -> Prop) : Prop :=
  exists a o p', m p = Ok (Some (a, o, p')) /\ Q a p'.

Lemma twp_ret {A} (a : A) p (Q : A -> list Z -> Prop) : Q a p -> twp (mret a) p Q.
Proof. intros. by exists a, [], p. Qed.

Lemma twp_bind {A B} (m : parse A) (f : A -> parse B) p Q :
  twp m p (fun a p' => twp (f a) p' Q) -> twp (m ≫= f) p Q.
Proof.
  intros (a & o & p' & E & b & o' & p'' & E' & H). exists b, (o ++ o'), p''.
  split; [|done]. unfold mbind, parse_bind. by rewrite E, E'.
Qed.

Lemma twp_room n p (Q : unit -> list Z -> Prop) : n <= zlen p -> Q tt p -> twp (room n) p Q.
Proof. intros. exists tt, [], p. split; [|done]. unfold room. by destruct (Z.ltb_spec (zlen p) n); [lia|]. Qed.

Lemma twp_gint n v p (Q : Z -> list Z -> Prop) :
  Q (v mod 2 ^ (8 * Z.of_nat n)) p -> twp (gint n) (pbit n v ++ p) Q.
Proof.
  intros H. eexists _, _, _. unfold gint. rewrite GBIT_pbit, bind_ok. split; [done|]. by rewrite drop_pbit.
Qed.

Lemma twp_gstring s p (Q : charp -> list Z -> Prop) :
  str_ok s -> Q (some_str s) p -> twp gstring (pstring s ++ p) Q.
Proof.
  intros (Hb & Hz & Hl) H.
  assert (pstring s = pbit 2 (strlen s) ++ default [] s) as -> by (by destruct s; rewrite ?app_nil_r).
  unfold strlen, some_str in *. generalize (default [] s) Hb Hz Hl H. clear s Hb Hz Hl H. intros s Hb Hz Hl H.
  change (2 ^ 16) with 65536 in Hl. pose proof (zlen_nonneg s).
  eexists _, _, _. split; [|exact H]. unfold gstring. rewrite <- app_assoc, GBIT_pbit, bind_ok.
  change (8 * Z.of_nat 2) with 16. rewrite Z.mod_small by lia. pose proof (zlen_nonneg p).
  rewrite !zlen_app, zlen_pbit. destruct (Z.ltb_spec (Z.of_nat 2 + (zlen s + zlen p)) 2); [lia|].
  destruct (Z.ltb_spec (Z.of_nat 2 + (zlen s + zlen p) - 1) (zlen s + 1)); [lia|].
  rewrite drop_pbit. rewrite Z2Nat.inj_add by lia. change (Z.to_nat 2) with 2%nat.
  rewrite <- drop_drop, drop_pbit. unfold zlen. rewrite Nat2Z.id, take_app_length, drop_app_length.
  by rewrite cstr_nul.
Qed.

Lemma twp_gdata n w d p (Q : list Z -> list Z -> Prop) :
  data_ok n w d -> Q d p -> twp (gdata n) (d ++ p) Q.
Proof.
  intros (Hn & <- & Hb) H. eexists _, _, _. split; [|exact H]. unfold gdata. rewrite zlen_app.
  pose proof (zlen_nonneg p). destruct (Z.ltb_spec (zlen d + zlen p) (zlen d)); [lia|].
  unfold zlen. by rewrite Nat2Z.id, take_app_length, drop_app_length.
Qed.

Lemma twp_gqid q p (Q : Qid -> list Z -> Prop) : qid_ok q -> Q q p -> twp gqid (pqid q ++ p) Q.
Proof.
  intros (Ht & Hv & Hp) H. unfold gqid, pqid, QIDSZ. rewrite <- !app_assoc.
  apply twp_bind, twp_room; [autorewrite with gefs; pose proof (zlen_nonneg p); lia|].
  do 3 apply twp_bind, twp_gint. apply twp_ret. rewrite !in_bits_mod by done. by destruct q.
Qed.

Lemma twp_gmany_string w : forall p (Q : list charp -> list Z -> Prop),
  Forall str_ok w -> Q (some_str <$> w) p -> twp (gmany gstring (length w)) (concat (pstring <$> w) ++ p) Q.
Proof.
  induction w as [|s w IH]; intros p Q Hw H; [by apply twp_ret|].
  apply Forall_cons in Hw as [Hs Hw]. cbn [fmap list_fmap concat length gmany]. rewrite <- app_assoc.
  apply twp_bind, twp_gstring; [done|]. apply twp_bind, IH; [done|]. by apply twp_ret.
Qed.

Lemma twp_gmany_qid w : forall p (Q : list Qid -> list Z -> Prop),
  Forall qid_ok w -> Q w p -> twp (gmany gqid (length w)) (concat (pqid <$> w) ++ p) Q.
Proof.
  induction w as [|s w IH]; intros p Q Hw H; [by apply twp_ret|].
  apply Forall_cons in Hw as [Hs Hw]. cbn [fmap list_fmap concat length gmany]. rewrite <- app_assoc.
  apply twp_bind, twp_gqid; [done|]. apply twp_bind, IH; [done|]. by apply twp_ret.
Qed.

Lemma stringsz_pos s : 2 <= stringsz s.
Proof. destruct s; cbn; [pose proof (zlen_nonneg l)|]; lia. Qed.
Lemma stringssz_pos w : 0 <= stringssz w.
Proof. rewrite <- zlen_concat_pstring. apply zlen_nonneg. Qed.

(** Brings in that the lengths of the goal are not negative. *)
Ltac zlen_pos :=
  repeat match goal with
  | |- context [zlen ?x] => assert_fails (assert (0 <= zlen x) by assumption); pose proof (zlen_nonneg x)
  | |- context [stringsz ?x] => assert_fails (assert (2 <= stringsz x) by assumption); pose proof (stringsz_pos x)
  | |- context [stringssz ?x] => assert_fails (assert (0 <= stringssz x) by assumption); pose proof (stringssz_pos x)
  end.

Lemma data_bits n w d : data_ok n w d -> in_bits w n.
Proof. apply proj1. Qed.

Ltac twp_step :=
  match goal with
  | |- twp (mret _) _ _ => apply twp_ret
  | |- twp (_ ≫= _) _ _ => apply twp_bind
  | |- twp (room _) ?p _ =>
      apply twp_room; [autorewrite with gefs; unfold QIDSZ; zlen_pos; lia|]
  | |- twp (gint _) _ _ => 
      apply twp_gint;
      try match goal with
      | |- context [?v mod 2 ^ (8 * Z.of_nat ?n)] => rewrite (in_bits_mod n v) by first [done | by eapply data_bits]
      end
  | |- twp gstring _ _ => apply twp_gstring; [done|]
  | |- twp gqid _ _ => apply twp_gqid; [done|]
  | |- twp (gdata _) _ _ => eapply twp_gdata; [done|]
  end.

Lemma ok_some {A} (a b : A) : Ok (Some a) = Ok (Some b) -> a = b.
Proof. congruence. Qed.

Lemma getbody_twp b c p :
  body_ok b -> putbody b = Ok (Some c) ->
  twp (getbody (ftype b)) (c ++ p) (fun b' p' => b' = some_body b /\ p' = p).
Proof.
  intros Hok Hc.
  destruct b; cbn [body_ok putbody putreply ftype some_body] in *; try done; unfold MAXWELEM in *; destruct_and?;
    repeat (case_match; [lia|]);
    rewrite ?elems_all in Hc by (unfold data_ok in *; lia); rewrite ?bind_ok in Hc; apply ok_some in Hc; subst c;
    rewrite <- ?app_assoc.
  all: cbv beta iota delta [getbody getreply Tversion Tauth Tattach Tflush Twalk Topen Tcreate Tread Twrite Tclunk Tremove
    Tstat Twstat Rversion Rauth Rattach Rerror Rflush Rwalk Ropen Rcreate Rread Rwrite Rclunk Rremove Rstat Rwstat
    Z.eqb Pos.eqb].
  all: repeat twp_step; rewrite ?(swrap_mod 64), ?(swrap_id 64) by lia; try done.
  - assert (in_bits 16 nwname) by (unfold in_bits; pose proof (zlen_nonneg wname); lia).
    rewrite in_bits_mod by done. unfold MAXWELEM. case_match; [lia|]. twp_step.
    replace (Z.to_nat nwname) with (length wname) by (unfold zlen in *; lia).
    apply twp_gmany_string; [done|]. by twp_step.
  - assert (in_bits 16 nwqid) by (unfold in_bits; pose proof (zlen_nonneg wqid); lia).
    rewrite in_bits_mod by done. unfold MAXWELEM. case_match; [lia|]. twp_step.
    replace (Z.to_nat nwqid) with (length wqid) by (unfold zlen in *; lia).
    apply twp_gmany_qid; [done|]. by twp_step.
Qed.

Lemma ftype_bits b : body_ok b -> in_bits 8 (ftype b).
Proof. by destruct b. Qed.

Lemma convM2S_msg f c rest :
  fcall_ok f -> putbody (fmsg f) = Ok (Some c) -> 7 + zlen c < 2 ^ 32 ->
  exists buf,
    convM2S ((pbit 4 (7 + zlen c) ++ pbit 1 (ftype (fmsg f)) ++ pbit 2 (ftag f) ++ c) ++ rest) =
      Ok (Some (7 + zlen c, mkFcall (ftag f) (some_body (fmsg f)), buf)).
Proof.
  intros [Ht Hok] Hc Hn. pose proof (zlen_nonneg c). pose proof (zlen_nonneg rest).
  set (ap := _ ++ rest). assert (W : twp gmsg ap (fun r p' =>
    r = (7 + zlen c, mkFcall (ftag f) (some_body (fmsg f))) /\ p' = rest)).
  { unfold ap, gmsg. rewrite <- !app_assoc. do 2 twp_step.
    twp_step. apply twp_gint. rewrite in_bits_mod by (unfold in_bits; lia). case_match; [lia|].
    pose proof (ftype_bits _ Hok). do 4 twp_step.
    apply twp_bind. destruct (getbody_twp (fmsg f) c rest Hok Hc) as (b & o & p' & E & -> & ->).
    exists (some_body (fmsg f)), o, rest. split; [done|]. by apply twp_ret. }
  destruct W as (r & o & p' & E & -> & ->). unfold convM2S. rewrite E, bind_ok. cbv beta iota.
  assert (zlen ap - zlen rest = 7 + zlen c) as -> by (unfold ap; autorewrite with gefs; lia).
  rewrite Z.eqb_refl. eauto.
Qed.

(** * Messages: theorems *)

(** C34: a well-formed Fcall whose size is an uint is written by convS2M in
    exactly the bytes sizeS2M announces, refused (a return of 0) by a shorter
    buffer, and read back by convM2S, with whatever follows it, as the same
    Fcall with its nil strings made empty. *)
Theorem conv_roundtrip f nap rest :
  fcall_ok f -> 0 <= nap ->
  (forall n, bodysz (fmsg f) = Ok (Some n) -> 7 + n < 2 ^ 32) ->
  exists n, sizeS2M f = Ok n /\
    (nap < n -> convS2M f nap = Ok None) /\
    (n <= nap -> exists m buf, convS2M f nap = Ok (Some m) /\ zlen m = n /\
       convM2S (m ++ rest) = Ok (Some (n, mkFcall (ftag f) (some_body (fmsg f)), buf))).
Proof.
  intros Hok Hnap Hn. destruct (putbody_ok _ (proj2 Hok)) as (c & Hc & Hsz). specialize (Hn _ Hsz).
  pose proof (zlen_nonneg c).
  assert (Hs : sizeS2M f = Ok (7 + zlen c)).
  { unfold sizeS2M. rewrite Hsz, bind_ok. by rewrite u32_id by lia. }
  exists (7 + zlen c). split; [done|]. unfold convS2M. rewrite Hs, bind_ok, Hc, bind_ok.
  destruct (Z.eqb_spec (7 + zlen c) 0); [lia|]. cbn [orb]. split.
  - intros. case_match; [done|lia].
  - intros Hle. case_match; [lia|]. destruct (convM2S_msg f c rest Hok Hc Hn) as [buf E].
    set (m := pbit 4 _ ++ _). assert (zlen m = 7 + zlen c) as Hm by (unfold m; autorewrite with gefs; lia).
    rewrite Hm, Z.eqb_refl. case_match; [lia|]. by exists m, buf.
Qed.

Definition ex_walk : Fcall := mkFcall 7 (FTwalk 1 2 2 [Some [65; 66]; None]).

Lemma conv_roundtrip_witness :
  exists n, sizeS2M ex_walk = Ok n /\
    (100 < n -> convS2M ex_walk 100 = Ok None) /\
    (n <= 100 -> exists m buf, convS2M ex_walk 100 = Ok (Some m) /\ zlen m = n /\
       convM2S (m ++ [1; 2]) = Ok (Some (n, mkFcall 7 (FTwalk 1 2 2 [Some [65; 66]; Some []]), buf))).
Proof.
  apply (conv_roundtrip ex_walk 100 [1; 2]); [|lia|].
  - split; [done|]. cbn. split_and!; try done. repeat constructor; cbn; try done; try lia; set_solver.
  - intros n H. injection H as <-. done.
Defined.

(** C35: on any bytes convM2S reads nothing outside of them.  What it accepts
    has a size of at least 7 and at most what was given, is an Fcall with every
    field in its type's range, every string NUL-terminated and every count and
    data pointer within the message; the bytes after the message are untouched.
    The Fcall is no longer than the message it came from, and when it is as
    long (no string had a NUL in it) convS2M writes that very message back. *)
Theorem convM2S_safe ap :
  bytes ap ->
  exists r, convM2S ap = Ok r /\
    match r with
    | None => True
    | Some (size, f, buf) =>
        7 <= size <= zlen ap /\ size < 2 ^ 32 /\ fcall_ok f /\ zlen buf = zlen ap /\
        drop (Z.to_nat size) buf = drop (Z.to_nat size) ap /\
        exists n, sizeS2M f = Ok n /\ n <= size /\
          (n = size -> convS2M f size = Ok (Some (take (Z.to_nat size) ap)))
    end.
Proof. apply convM2S_inv. Qed.

Definition ex_msg : list Z := [20; 0; 0; 0; 102; 1; 0; 5; 0; 0; 0; 1; 0; 65; 4; 0; 66; 67; 0; 68; 99].

Lemma convM2S_safe_witness :
  exists r, convM2S ex_msg = Ok r /\
    match r with
    | None => True
    | Some (size, f, buf) =>
        7 <= size <= zlen ex_msg /\ size < 2 ^ 32 /\ fcall_ok f /\ zlen buf = zlen ex_msg /\
        drop (Z.to_nat size) buf = drop (Z.to_nat size) ex_msg /\
        exists n, sizeS2M f = Ok n /\ n <= size /\
          (n = size -> convS2M f size = Ok (Some (take (Z.to_nat size) ex_msg)))
    end.
Proof. apply (convM2S_safe ex_msg). repeat constructor; unfold is_byte; lia. Defined.

Example ex_msg_read :
  convM2S ex_msg = Ok (Some (20, mkFcall 1 (FTauth 5 (Some [65]) (Some [66; 67])),
    [20; 0; 0; 0; 102; 1; 0; 5; 0; 0; 0; 1; 65; 0; 4; 66; 67; 0; 68; 0; 99])).
Proof. vm_compute. reflexivity. Qed.

(** A write whose size does not fit an uint leaves the buffer: sizeS2M wraps,
    and the room convS2M tests is less than what it stores. *)
Lemma convS2M_wraps tag fid offset d nap :
  2 ^ 32 - 23 <= zlen d < 2 ^ 32 -> 0 < zlen d - (2 ^ 32 - 23) <= nap -> nap < 2 ^ 32 ->
  convS2M (mkFcall tag (FTwrite fid offset (zlen d) d)) nap = Fail Undef.
Proof.
  intros Hd Hn Hnap. unfold convS2M, sizeS2M. cbn [bodysz fmsg putbody]. rewrite !bind_ok.
  rewrite elems_all by done. rewrite bind_ok.
  assert (u32 (4 + 1 + 2 + (4 + 8 + 4 + zlen d)) = zlen d - (2 ^ 32 - 23)) as ->.
  { unfold u32. replace (4 + 1 + 2 + (4 + 8 + 4 + zlen d)) with (zlen d - (2 ^ 32 - 23) + 1 * 2 ^ 32) by lia.
    rewrite Z.mod_add by lia. apply Z.mod_small. lia. }
  case_match; [lia|]. rewrite bind_ok. cbv beta iota zeta.
  set (m := pbit 4 _ ++ _). assert (zlen m = 23 + zlen d) as -> by (unfold m; autorewrite with gefs; lia).
  by destruct (Z.ltb_spec nap (23 + zlen d)); [|lia].
Qed.

(** * Dir: convD2M.c and convM2D.c *)

Record Dir := mkDir {
  d_type : Z; d_dev : Z; d_qid : Qid; d_mode : Z; d_atime : Z; d_mtime : Z; d_length : Z;
  d_name : charp; d_uid : charp; d_gid : charp; d_muid : charp }.

(** The strings, in the order sv[] has them. *)
Definition d_strs (d : Dir) : list charp := [d_name d; d_uid d; d_gid d; d_muid d].

Definition strslen (l : list charp) : Z := foldr (fun s n => strlen s + n) 0 l.

Definition sizeD2M (d : Dir) : Z := u32 (STATFIXLEN + s32 (strslen (d_strs d))).

(** The value returned and the bytes written; the loop writes ns and the
    string, and stops the conversion when one does not fit. *)
Fixpoint putstrs (l : list charp) (p : list Z) (nbuf : Z) : option (list Z) :=
  match l with
  | [] => Some p
  | s :: l =>
      if nbuf <? zlen p + strlen s + 2 then None
      else putstrs l (p ++ pbit 2 (strlen s) ++ default [] s) nbuf
  end.

Definition convD2M (d : Dir) (nbuf : Z) : Z * list Z :=
  if nbuf <? 2 then (0, []) else
  let ss := s32 (STATFIXLEN + strslen (d_strs d)) in
  let p := pbit 2 (ss - 2) in
  if nbuf <? u32 ss then (2, p) else
  let p := p ++ pbit 2 (d_type d) ++ pbit 4 (d_dev d) ++ pbit 1 (qtype (d_qid d)) ++
    pbit 4 (vers (d_qid d)) ++ pbit 8 (path (d_qid d)) ++ pbit 4 (d_mode d) ++
    pbit 4 (d_atime d) ++ pbit 4 (d_mtime d) ++ pbit 8 (d_length d) in
  match putstrs (d_strs d) p nbuf with
  | None => (0, p)
  | Some p => if ss =? zlen p then (zlen p, p) else (0, p)
  end.

(** The loop of statcheck over the four counts, from offset [o]. *)
Fixpoint statstrs (n : nat) (buf : list Z) (o : Z) : res (option Z) :=
  match n with
  | O => Ok (Some o)
  | S n =>
      if zlen buf <? o + 2 then Ok None else
      ns ← GBIT 2 (drop (Z.to_nat o) buf);
      statstrs n buf (o + 2 + ns)
  end.

Definition statcheck (buf : list Z) : res Z :=
  if zlen buf <? STATFIXLEN then Ok (-1) else
  n ← GBIT 2 buf;
  if negb (zlen buf =? 2 + n) then Ok (-1) else
  o ← statstrs 4 buf (STATFIXLEN - 4 * 2);
  match o with
  | None => Ok (-1)
  | Some o => Ok (if o =? zlen buf then 0 else -1)
  end.

(** One string of convM2D: its bytes in the message. *)
Definition gstr : parse (list Z) :=
  room 2;; n ← gint 2; gdata n.

(** The loop over the four strings: [w] are the bytes stored at strs, when
    there is one, and [sv] the places in it where the strings begin. *)
Fixpoint gstrs (n : nat) (strs : bool) (sv : list nat) (w : list Z) : parse (list nat * list Z) :=
  match n with
  | O => mret (sv, w)
  | S n =>
      s ← gstr;
      if strs then gstrs n strs (sv ++ [length w]) (w ++ s ++ [0]) else gstrs n strs sv w
  end.

(** The string that a pointer to place [i] of [w] is. *)
Definition strat (w : list Z) (i : nat) : charp := Some (cstr (drop i w)).

(** The Dir, the bytes stored at strs (when there is one) and the bytes read;
    the strings of the Dir are the ones stored at strs.  [None] is a return of
    0. *)
Definition gdir (strs : bool) : parse (Dir * list Z) :=
  _ ← gint 2; t ← gint 2; dev ← gint 4; qt ← gint 1; qv ← gint 4; qp ← gint 8;
  m ← gint 4; at_ ← gint 4; mt ← gint 4; len ← gint 8;
  svw ← gstrs 4 strs [] [];
  let s i := if strs then strat svw.2 (svw.1 !!! i) else Some [] in
  mret (mkDir t dev (mkQid qp qv qt) m at_ mt (s64 len) (s 0%nat) (s 1%nat) (s 2%nat) (s 3%nat), svw.2).

Definition convM2D (buf : list Z) (strs : bool) : res (option (Z * Dir * list Z)) :=
  if zlen buf <? STATFIXLEN then Ok None else
  r ← gdir strs buf;
  Ok (match r with None => None | Some (d, w, _, p) => Some (zlen buf - zlen p, d, w) end).

(** ** Reading a Dir *)

Definition dir_ok (d : Dir) : Prop :=
  in_bits 16 (d_type d) /\ in_bits 32 (d_dev d) /\ qid_ok (d_qid d) /\ in_bits 32 (d_mode d) /\
  in_bits 32 (d_atime d) /\ in_bits 32 (d_mtime d) /\ - 2 ^ 63 <= d_length d < 2 ^ 63 /\
  Forall str_ok (d_strs d).

Definition zlens (l : list (list Z)) : Z := foldr (fun s n => zlen s + n) 0 l.

Lemma zlens_nonneg sv : 0 <= zlens sv.
Proof.
  induction sv as [|s sv IH]; [done|]. cbn [zlens foldr]. unfold zlens in IH. pose proof (zlen_nonneg s). lia.
Qed.

Lemma zlen_concat_nul sv : zlen (concat ((fun s => s ++ [0]) <$> sv)) = zlens sv + zlen sv.
Proof.
  induction sv as [|s sv IH]; [done|]. cbn [fmap list_fmap concat zlens foldr].
  rewrite !zlen_app, !zlen_cons, zlen_nil, IH. unfold zlens. lia.
Qed.

Lemma wp_gstr p (Q : list Z -> list Z -> list Z -> Prop) :
  bytes p ->
  (forall s o p', p = pbit 2 (zlen s) ++ s ++ p' -> bytes p' -> data_ok (zlen s) 16 s -> Q s o p') ->
  wp gstr p Q.
Proof.
  intros Hb H. unfold gstr. repeat wp_step. destruct H5 as (? & <- & ?). by apply H.
Qed.

Lemma wp_gmany_gstr n : forall p (Q : list (list Z) -> list Z -> list Z -> Prop),
  bytes p ->
  (forall sv o p', bytes p' -> zlen sv = Z.of_nat n -> Forall (fun s => data_ok (zlen s) 16 s) sv ->
    p = concat ((fun s => pbit 2 (zlen s) ++ s) <$> sv) ++ p' -> Q sv o p') ->
  wp (gmany gstr n) p Q.
Proof.
  induction n as [|n IH]; intros p Q Hb H; cbn [gmany]; [by apply wp_ret, H|].
  apply wp_bind, wp_gstr; [done|]. intros s o p1 -> Hp1 Hs.
  apply wp_bind, IH; [done|]. intros sv o' p2 Hp2 Hn Hsv ->. apply wp_ret, H; [done| |by constructor|].
  - rewrite zlen_cons. lia.
  - cbn [fmap list_fmap concat]. by rewrite <- !app_assoc.
Qed.

Lemma cstr_ok s : data_ok (zlen s) 16 s -> str_ok (Some (cstr (s ++ [0]))).
Proof.
  intros (Hn & _ & Hb). unfold in_bits in Hn. unfold str_ok, strlen. cbn. pose proof (cstr_short s) as [Hs _].
  split_and!; [|apply cstr_nz|lia]. apply cstr_bytes, Forall_app; split; [done|]. by repeat constructor.
Qed.

Lemma empty_ok : str_ok (Some []).
Proof. by split_and!; [constructor|apply not_elem_of_nil|]. Qed.

(** What is at strs when the strings [sv] have been stored, and where. *)
Definition stored (sv : list (list Z)) : list Z := concat ((fun s => s ++ [0]) <$> sv).
Fixpoint places (o : nat) (sv : list (list Z)) : list nat :=
  match sv with [] => [] | s :: sv => o :: places (o + length s + 1) sv end.

Lemma bind_run {A B} (m : parse A) (f : A -> parse B) p :
  (m ≫= f) p =
    match m p with
    | Ok (Some (a, o, q)) =>
        match f a q with Ok (Some (b, o', q')) => Ok (Some (b, o ++ o', q')) | r => r end
    | Ok None => Ok None
    | Fail e => Fail e
    end.
Proof. done. Qed.

Lemma bind_ext {A B} (m : parse A) (f g : A -> parse B) p :
  (forall a q, f a q = g a q) -> (m ≫= f) p = (m ≫= g) p.
Proof. intros H. rewrite !bind_run. destruct (m p) as [[[[a o] q]|]|]; [|done..]. by rewrite H. Qed.

Lemma bind_assoc {A B C} (m : parse A) (f : A -> parse B) (g : B -> parse C) p :
  ((m ≫= f) ≫= g) p = (m ≫= (fun a => f a ≫= g)) p.
Proof.
  rewrite !bind_run. destruct (m p) as [[[[a o] q]|]|]; [|done..]. rewrite bind_run.
  destruct (f a q) as [[[[b o'] q']|]|]; [|done..]. destruct (g b q') as [[[[c o''] q'']|]|]; [|done..]. by rewrite app_assoc.
Qed.

Lemma bind_ret {A B} (a : A) (f : A -> parse B) p : (mret a ≫= f) p = f a p.
Proof. rewrite bind_run. cbn. by destruct (f a p) as [[[[??]?]|]|]. Qed.

Lemma gstrs_spec n strs : forall sv w p,
  gstrs n strs sv w p =
    (l ← gmany gstr n; mret (if strs then (sv ++ places (length w) l, w ++ stored l) else (sv, w))) p.
Proof.
  induction n as [|n IH]; intros sv w p; cbn [gstrs gmany].
  { rewrite bind_ret. cbn. rewrite !app_nil_r. by destruct strs. }
  rewrite bind_assoc. apply bind_ext. intros s q. rewrite bind_assoc.

  destruct strs; rewrite IH; apply bind_ext; intros l q'; rewrite bind_ret; [|done].
  unfold stored. cbn [places fmap list_fmap concat]. rewrite <- !app_assoc, !length_app. cbn [length app].
  by rewrite Nat.add_assoc.
Qed.

Lemma cstr_stop s p : cstr (s ++ 0 :: p) = cstr (s ++ [0]).
Proof. induction s as [|b s IH]; [done|]. cbn. by destruct (b =? 0); rewrite ?IH. Qed.

Lemma strat_here w s r : strat (w ++ s ++ 0 :: r) (length w) = Some (cstr (s ++ [0])).
Proof. unfold strat. by rewrite drop_app_length, cstr_stop. Qed.

Lemma strat_places sv : forall pre,
  (strat (pre ++ stored sv) <$> places (length pre) sv) = (fun s => Some (cstr (s ++ [0]))) <$> sv.
Proof.
  induction sv as [|s sv IH]; intros pre; [done|]. unfold stored. cbn [places fmap list_fmap concat].
  rewrite <- (app_assoc s). cbn [app]. rewrite strat_here. f_equal. specialize (IH (pre ++ s ++ [0])).
  rewrite !length_app, Nat.add_assoc, <- !app_assoc in IH. cbn [length app] in IH. exact IH.
Qed.

(** The strings of a Dir, all found at once. *)
Definition dirstrs (strs : bool) (sv : list (list Z)) : list charp :=
  (fun s => Some (if strs then cstr (s ++ [0]) else [])) <$> sv.

Lemma dirstrs_ok strs sv : Forall (fun s => data_ok (zlen s) 16 s) sv -> Forall str_ok (dirstrs strs sv).
Proof.
  intros H. apply Forall_fmap. eapply Forall_impl; [exact H|]. intros s Hs. cbn.
  destruct strs; [by apply cstr_ok|exact empty_ok].
Qed.

(** The bytes of a Dir between its size and its strings. *)
Definition dirfixed (d : Dir) : list Z :=
  pbit 2 (d_type d) ++ pbit 4 (d_dev d) ++ pbit 1 (qtype (d_qid d)) ++
  pbit 4 (vers (d_qid d)) ++ pbit 8 (path (d_qid d)) ++ pbit 4 (d_mode d) ++
  pbit 4 (d_atime d) ++ pbit 4 (d_mtime d) ++ pbit 8 (d_length d).

Lemma zlen_dirfixed d : zlen (dirfixed d) = 39.
Proof. unfold dirfixed. autorewrite with gefs. lia. Qed.

Lemma zlen_counted (sv : list (list Z)) : zlen (concat ((fun s => pbit 2 (zlen s) ++ s) <$> sv)) = zlens sv + 2 * zlen sv.
Proof.
  induction sv as [|s sv IH]; [done|]. cbn [fmap list_fmap concat zlens foldr]. unfold zlens in IH.
  rewrite !zlen_app, zlen_pbit, zlen_cons, IH. unfold zlens. lia.
Qed.

Lemma gdir_wp strs p :
  bytes p -> STATFIXLEN <= zlen p ->
  wp (gdir strs) p (fun r _ p' => dir_ok r.1 /\ exists k sv, in_bits 16 k /\ zlen sv = 4 /\
    Forall (fun s => data_ok (zlen s) 16 s) sv /\
    p = pbit 2 k ++ dirfixed r.1 ++ concat ((fun s => pbit 2 (zlen s) ++ s) <$> sv) ++ p' /\
    d_strs r.1 = dirstrs strs sv /\ r.2 = if strs then stored sv else []).
Proof.
  intros Hb Hl. unfold gdir. unfold STATFIXLEN, QIDSZ in *.
  do 20 wp_step. apply wp_bind. unfold wp. rewrite gstrs_spec. apply wp_bind, wp_gmany_gstr; [done|].
  intros sv o p1 Hp1 Hn Hsv ->. apply wp_ret.
  match goal with |- context [mret (?x, ?w)] => set (dw := (x, w)) end. cbn [mret parse_ret].
  assert (d_strs dw.1 = dirstrs strs sv) as Hd.
  { destruct sv as [|s0 [|s1 [|s2 [|s3 [|? ?]]]]]; try (unfold zlen in Hn; cbn in Hn; lia).
    subst dw. destruct strs; [exact (strat_places [s0; s1; s2; s3] [])|done]. }
  split.
  - unfold dir_ok. rewrite Hd. subst dw. clear Hd. split_and!; try done; [apply s64_bits..|]. by apply dirstrs_ok.
  - exists v, sv. split_and!; try done; [|by subst dw; destruct strs].
    unfold dirfixed. subst dw. cbn [fst snd d_type d_dev d_qid d_mode d_atime d_mtime d_length qtype vers path].
    by rewrite pbit_s64, <- !app_assoc.
Qed.

(** ** statcheck and convM2D *)

(** What a reader leaves. *)
Definition rest_of {A} (r : res (option (A * list Z * list Z))) : res (option (list Z)) :=
  r ← r; Ok (match r with None => None | Some (_, _, p) => Some p end).

Lemma rest_bind {A B} (m : parse A) (f : A -> parse B) p :
  rest_of ((m ≫= f) p) =
    match m p with Ok (Some (a, _, q)) => rest_of (f a q) | Ok None => Ok None | Fail e => Fail e end.
Proof.
  rewrite bind_run. unfold rest_of.
  destruct (m p) as [[[[a o] q]|]|]; [|done..]. by destruct (f a q) as [[[[??]?]|]|].
Qed.

Lemma gint_run n p : Z.of_nat n <= zlen p -> gint n p = Ok (Some (gbit (take n p), take n p, drop n p)).
Proof. intros H. unfold gint, GBIT. unfold zlen in H. case_decide; [done|lia]. Qed.

Lemma rest_gint {A} n (f : Z -> parse A) p :
  Z.of_nat n <= zlen p ->
  rest_of ((gint n ≫= f) p) = rest_of (f (gbit (take n p)) (drop n p)).
Proof. intros H. by rewrite rest_bind, gint_run. Qed.

Lemma rest_ret {A B} (m : parse A) (g : A -> B) p : rest_of ((x ← m; mret (g x)) p) = rest_of (m p).
Proof. rewrite rest_bind. by destruct (m p) as [[[[??]?]|]|]. Qed.

Lemma rest_gstr {A} (f : list Z -> parse A) p :
  2 <= zlen p ->
  rest_of ((gstr ≫= f) p) =
    let ns := gbit (take 2 p) in
    if zlen p - 2 <? ns then Ok None
    else rest_of (f (take (Z.to_nat ns) (drop 2 p)) (drop (Z.to_nat ns) (drop 2 p))).
Proof.
  intros H. rewrite rest_bind. unfold gstr. rewrite bind_run. unfold room. destruct (Z.ltb_spec (zlen p) 2); [lia|].
  rewrite bind_run, gint_run by lia. unfold gdata.
  assert (zlen (drop 2 p) = zlen p - 2) as -> by (unfold zlen in *; rewrite length_drop; lia). cbv zeta.
  by destruct (zlen p - 2 <? gbit (take 2 p)).
Qed.

Lemma rest_gdir strs p :
  STATFIXLEN <= zlen p -> rest_of (gdir strs p) = rest_of (gmany gstr 4 (drop 41 p)).
Proof.
  intros H. unfold STATFIXLEN, QIDSZ in H. unfold gdir.
  assert (forall n, (n <= 49)%nat -> zlen (drop n p) = zlen p - Z.of_nat n) as Hd
    by (intros; unfold zlen in *; rewrite length_drop; lia).
  rewrite rest_gint by lia.
  do 9 (rewrite rest_gint by (rewrite ?drop_drop, Hd; lia)).
  rewrite rest_bind, gstrs_spec, bind_run. rewrite !drop_drop.
  by destruct (gmany gstr 4 _) as [[[[??]?]|]|].
Qed.

Lemma statstrs_past n buf o : zlen buf < o -> statstrs n buf o = Ok None \/ statstrs n buf o = Ok (Some o).
Proof. intros. destruct n; cbn [statstrs]; [by right|]. case_match; [by left|lia]. Qed.

(** statcheck walks as convM2D does, but for a last string that does not fit. *)
Lemma statstrs_gmany n buf : forall o, bytes buf -> 0 <= o <= zlen buf ->
  match rest_of (gmany gstr n (drop (Z.to_nat o) buf)) with
  | Ok (Some p') => zlen p' <= zlen buf /\ statstrs n buf o = Ok (Some (zlen buf - zlen p'))
  | Ok None => statstrs n buf o = Ok None \/ exists o', statstrs n buf o = Ok (Some o') /\ zlen buf < o'
  | Fail _ => False
  end.
Proof.
  induction n as [|n IH]; intros o Hb Ho.
  { cbn. unfold zlen in *. rewrite length_drop. split; [lia|]. do 2 f_equal. lia. }
  cbn [gmany statstrs]. set (p := drop (Z.to_nat o) buf).
  assert (zlen p = zlen buf - o) as Hp by (unfold p, zlen in *; rewrite length_drop; lia).
  destruct (Z.ltb_spec (zlen buf) (o + 2)) as [|H2].
  { rewrite rest_bind. unfold gstr. rewrite bind_run. unfold room.
    destruct (Z.ltb_spec (zlen p) 2); [|lia]. by left. }
  rewrite rest_gstr by lia. unfold GBIT. cbv zeta.
  case_decide; [|unfold zlen in *; lia]. rewrite bind_ok. set (ns := gbit (take 2 p)).
  assert (0 <= ns) by (apply gbit_range; by apply Forall_take, Forall_drop).
  destruct (Z.ltb_spec (zlen p - 2) ns).
  - destruct (statstrs_past n buf (o + 2 + ns)) as [->| ->]; [lia|by left|]. right. eexists. split; [done|]. lia.
  - rewrite rest_ret. replace (drop (Z.to_nat ns) (drop 2 p)) with (drop (Z.to_nat (o + 2 + ns)) buf)
      by (unfold p; rewrite !drop_drop; f_equal; lia).
    apply IH; [done|lia].
Qed.

Lemma statcheck_spec buf strs :
  bytes buf ->
  statcheck buf = Ok 0 <->
    GBIT 2 buf = Ok (zlen buf - 2) /\
    exists d w, convM2D buf strs = Ok (Some (zlen buf, d, w)).
Proof.
  intros Hb. unfold statcheck, convM2D. destruct (Z.ltb_spec (zlen buf) STATFIXLEN) as [|Hl].
  { split; [done|]. by intros (_ & d & w & E). }
  unfold GBIT. case_decide; [|unfold zlen, STATFIXLEN, QIDSZ in *; lia]. rewrite bind_ok.
  pose proof (rest_gdir strs buf Hl) as Hr.
  pose proof (statstrs_gmany 4 buf 41 Hb ltac:(unfold STATFIXLEN, QIDSZ in *; lia)) as Hs.
  change (Z.to_nat 41) with 41%nat in Hs. rewrite <- Hr in Hs. clear Hr.
  change (STATFIXLEN - 4 * 2) with 41.
  destruct (gdir strs buf) as [[[[[d w] o] p']|]|]; cbn [rest_of mbind res_bind] in Hs |- *.
  - destruct Hs as [Hp ->]. cbn [mbind res_bind].
    destruct (Z.eqb_spec (zlen buf) (2 + gbit (take 2 buf))) as [E|E]; cbn [negb].
    + destruct (Z.eqb_spec (zlen buf - zlen p') (zlen buf)) as [E'|E'].
      * split; [|done]. intros _. split; [f_equal; lia|]. exists d, w. by rewrite E'.
      * split; [done|]. intros (_ & d' & w' & E2). congruence.
    + split; [done|]. intros (E2 & _). apply Ok_inj in E2. lia.
  - split; [|by intros (_ & d & w & E)]. case_match; [done|].
    destruct Hs as [->|(o' & -> & Ho)]; [done|]. cbn. case_match; [lia|done].
  - done.
Qed.

(** ** Writing a Dir *)

Lemma stringsz_strlen s : stringsz s = 2 + strlen s.
Proof. by destruct s. Qed.

Lemma pstring_eq s : pstring s = pbit 2 (strlen s) ++ default [] s.
Proof. by destruct s; rewrite ?app_nil_r. Qed.

Lemma putstrs_fits l : forall p nbuf,
  zlen p + stringssz l <= nbuf -> putstrs l p nbuf = Some (p ++ concat (pstring <$> l)).
Proof.
  induction l as [|s l IH]; intros p nbuf H; cbn [putstrs fmap list_fmap concat]; [by rewrite app_nil_r|].
  cbn [stringssz foldr] in H. pose proof (stringssz_pos l). unfold stringssz in *.
  pose proof (stringsz_strlen s).
  case_match; [lia|]. rewrite <- pstring_eq.
  rewrite IH by (rewrite zlen_app, zlen_pstring; lia). by rewrite <- app_assoc.
Qed.

Lemma stringssz_strslen l : stringssz l = strslen l + 2 * zlen l.
Proof.
  induction l as [|s l IH]; [done|]. rewrite zlen_cons.
  change (stringssz (s :: l)) with (stringsz s + stringssz l). change (strslen (s :: l)) with (strlen s + strslen l).
  rewrite stringsz_strlen. lia.
Qed.

Lemma strslen_nonneg l : 0 <= strslen l.
Proof.
  induction l as [|s l IH]; [done|]. change (strslen (s :: l)) with (strlen s + strslen l).
  pose proof (zlen_nonneg (default [] s)). unfold strlen. lia.
Qed.

Lemma convD2M_fits d nbuf :
  STATFIXLEN + strslen (d_strs d) <= nbuf -> nbuf < 2 ^ 31 ->
  let n := STATFIXLEN + strslen (d_strs d) in
  convD2M d nbuf = (n, pbit 2 (n - 2) ++ dirfixed d ++ concat (pstring <$> d_strs d)).
Proof.
  intros Hn Hb n. unfold convD2M. pose proof (strslen_nonneg (d_strs d)).
  pose proof (stringssz_strslen (d_strs d)) as Es. change (zlen (d_strs d)) with 4 in Es.
  unfold STATFIXLEN, QIDSZ in *. destruct (Z.ltb_spec nbuf 2); [lia|].
  rewrite s32_id by lia. rewrite u32_id by lia.
  cbv zeta. change (2 + (1 + 4 + 8) + 5 * 2 + 4 * 4 + 1 * 8) with 49 in *. fold n.
  rewrite putstrs_fits by (autorewrite with gefs; lia).
  set (m := _ ++ concat _). assert (zlen m = n) as Hm by (unfold m, n; autorewrite with gefs; lia).
  destruct (Z.ltb_spec nbuf n); [lia|]. rewrite Hm, Z.eqb_refl.
  unfold m, dirfixed. by rewrite <- !app_assoc.
Qed.

Lemma twp_gstr s p (Q : list Z -> list Z -> Prop) :
  str_ok s -> Q (default [] s) p -> twp gstr (pstring s ++ p) Q.
Proof.
  intros (Hb & _ & Hl) H.
  rewrite pstring_eq.
  assert (in_bits 16 (strlen s)) by (split; [apply zlen_nonneg|done]).
  assert (data_ok (strlen s) 16 (default [] s)) by done.
  rewrite <- app_assoc. unfold gstr. repeat twp_step. done.
Qed.

Lemma twp_gmany_gstr l : forall p (Q : list (list Z) -> list Z -> Prop),
  Forall str_ok l -> Q (default [] <$> l) p -> twp (gmany gstr (length l)) (concat (pstring <$> l) ++ p) Q.
Proof.
  induction l as [|s l IH]; intros p Q Hl H; [by apply twp_ret|].
  apply Forall_cons in Hl as [Hs Hl]. cbn [fmap list_fmap concat length gmany]. rewrite <- app_assoc.
  apply twp_bind, twp_gstr; [done|]. apply twp_bind, IH; [done|]. by apply twp_ret.
Qed.

(** The strings as convM2D finds them: none when there is nowhere to put them. *)
Definition read_dir (strs : bool) (d : Dir) : Dir :=
  let s x := Some (if strs then default [] x else []) in
  mkDir (d_type d) (d_dev d) (d_qid d) (d_mode d) (d_atime d) (d_mtime d) (d_length d)
    (s (d_name d)) (s (d_uid d)) (s (d_gid d)) (s (d_muid d)).

Lemma gdir_twp strs d n rest :
  dir_ok d -> in_bits 16 n ->
  twp (gdir strs) (pbit 2 n ++ dirfixed d ++ concat (pstring <$> d_strs d) ++ rest)
    (fun r p' => r.1 = read_dir strs d /\ p' = rest).
Proof.
  intros (H1 & H2 & (H3 & H4 & H5) & H6 & H7 & H8 & H9 & Hs) Hn. unfold gdir, dirfixed. rewrite <- !app_assoc.
  do 20 twp_step. rewrite (swrap_mod 64), (swrap_id 64) by lia.
  apply twp_bind. destruct (twp_gmany_gstr (d_strs d) rest (fun l p' => l = default [] <$> d_strs d /\ p' = rest) Hs)
    as (l & o & p' & E & -> & ->); [done|]. change (length (d_strs d)) with 4%nat in E.
  unfold twp at 1. rewrite gstrs_spec, bind_run, E. cbn [mret parse_ret]. eexists _, _, _. split; [done|].
  twp_step. split; [|done]. unfold d_strs in Hs. rewrite !Forall_cons in Hs. destruct Hs as (S1 & S2 & S3 & S4 & _).
  pose proof (strat_places (default [] <$> d_strs d) []) as Hp. cbn [app length] in Hp.
  unfold read_dir. destruct d as [? ? [? ? ?] ? ? ? ? ? ? ? ?]; cbn [fst snd] in *. destruct strs; [|done].
  set (w := stored _) in *. clearbody w. cbn in Hp, S1, S2, S3, S4 |- *. unfold strat in *. injection Hp as E0 E1 E2 E3.
  rewrite cstr_nul in E0, E1, E2, E3 by first [apply S1|apply S2|apply S3|apply S4].
  f_equal; f_equal; [exact E0|exact E1|exact E2|exact E3].
Qed.

Lemma pstrings_bytes l : Forall str_ok l -> bytes (concat (pstring <$> l)).
Proof.
  induction 1 as [|s l (Hs & _ & _) _ IH]; [constructor|]. cbn [fmap list_fmap concat]. rewrite pstring_eq.
  apply Forall_app; split; [|done]. apply Forall_app; split; [apply pbit_bytes|done].
Qed.

(** The stat buffer of a Dir. *)
Definition statbuf (d : Dir) : list Z :=
  pbit 2 (STATFIXLEN + strslen (d_strs d) - 2) ++ dirfixed d ++ concat (pstring <$> d_strs d).

Lemma zlen_statbuf d : zlen (statbuf d) = STATFIXLEN + strslen (d_strs d).
Proof.
  pose proof (stringssz_strslen (d_strs d)) as Es. change (zlen (d_strs d)) with 4 in Es.
  unfold statbuf, dirfixed. autorewrite with gefs. unfold STATFIXLEN, QIDSZ in *. lia.
Qed.

Lemma statbuf_read d strs rest :
  dir_ok d -> STATFIXLEN + strslen (d_strs d) <= 65537 ->
  exists w, convM2D (statbuf d ++ rest) strs =
    Ok (Some (STATFIXLEN + strslen (d_strs d), read_dir strs d, w)).
Proof.
  intros Hok Hsz. pose proof (zlen_nonneg rest). pose proof (strslen_nonneg (d_strs d)).
  destruct (gdir_twp strs d (STATFIXLEN + strslen (d_strs d) - 2) rest Hok) as ([d' w] & o & p' & E & Ed & ->).
  { unfold in_bits, STATFIXLEN, QIDSZ in *. lia. }
  cbn in Ed. subst d'. exists w. unfold convM2D.
  replace (pbit 2 _ ++ _) with (statbuf d ++ rest) in E by (unfold statbuf; by rewrite <- !app_assoc).
  rewrite E, zlen_app, zlen_statbuf, bind_ok. case_match; [lia|]. do 4 f_equal. lia.
Qed.

Lemma statbuf_check d :
  dir_ok d -> STATFIXLEN + strslen (d_strs d) <= 65537 -> statcheck (statbuf d) = Ok 0.
Proof.
  intros Hok Hsz. pose proof (strslen_nonneg (d_strs d)). apply (statcheck_spec _ true).
  - repeat first [apply pbit_bytes | apply pstrings_bytes, Hok | apply Forall_app; split].
  - split.
    + rewrite zlen_statbuf. unfold statbuf. rewrite GBIT_pbit. f_equal. apply Z.mod_small.
      unfold STATFIXLEN, QIDSZ in *. lia.
    + destruct (statbuf_read d true [] Hok Hsz) as [w E]. rewrite app_nil_r in E. rewrite zlen_statbuf. eauto.
Qed.

(** * Dirs: theorems *)

(** A Dir whose stat buffer is shorter than 64k is written by convD2M in
    sizeD2M bytes, passes statcheck, and is read back by convM2D from them and
    whatever follows; a buffer too short gets only the size that is needed. *)
Theorem dir_roundtrip d nbuf rest strs :
  dir_ok d -> STATFIXLEN + strslen (d_strs d) <= 65537 -> 2 <= nbuf < 2 ^ 31 ->
  let n := sizeD2M d in
  (nbuf < n -> convD2M d nbuf = (2, pbit 2 (n - 2))) /\
  (n <= nbuf -> exists m w, convD2M d nbuf = (n, m) /\ zlen m = n /\ statcheck m = Ok 0 /\
     convM2D (m ++ rest) strs = Ok (Some (n, read_dir strs d, w))).
Proof.
  intros Hok Hsz Hn n. pose proof (strslen_nonneg (d_strs d)).
  assert (n = STATFIXLEN + strslen (d_strs d)) as En.
  { unfold n, sizeD2M. rewrite s32_id, u32_id by (unfold STATFIXLEN, QIDSZ in *; lia). done. }
  split; intros Hle.
  - unfold convD2M. destruct (Z.ltb_spec nbuf 2); [lia|].
    rewrite <- En, s32_id, u32_id by (unfold STATFIXLEN, QIDSZ in *; lia). by destruct (Z.ltb_spec nbuf n); [|lia].
  - rewrite convD2M_fits by lia. cbv zeta. rewrite En. destruct (statbuf_read d strs rest Hok Hsz) as [w Ew].
    exists (statbuf d), w. split_and!; [done|apply zlen_statbuf|by apply statbuf_check|done].
Qed.

Definition ex_dir : Dir :=
  mkDir 77 1 (mkQid 123456789012 3 128) 2147484159 5 6 0 (Some [97; 98]) (Some [103]) (Some [104]) None.

Lemma ex_dir_ok : dir_ok ex_dir.
Proof.
  unfold dir_ok, ex_dir, qid_ok, in_bits, d_strs. cbn. split_and!; try done.
  repeat (apply Forall_cons; split; [split_and!; [by repeat constructor|set_solver|done]|]). by apply Forall_nil.
Qed.

Lemma dir_roundtrip_witness :
  let n := sizeD2M ex_dir in
  (60 < n -> convD2M ex_dir 60 = (2, pbit 2 (n - 2))) /\
  (n <= 60 -> exists m w, convD2M ex_dir 60 = (n, m) /\ zlen m = n /\ statcheck m = Ok 0 /\
     convM2D (m ++ [1; 2]) true = Ok (Some (n, read_dir true ex_dir, w))).
Proof. apply (dir_roundtrip ex_dir 60 [1; 2] true); [exact ex_dir_ok|by vm_compute|lia]. Defined.

(** C36: convM2D reads nothing outside of its buffer.  What it accepts is at
    least STATFIXLEN long and not longer than the buffer, and is a Dir with
    every field in its type's range: the bytes read are a size, the fields of
    the Dir, and four counted strings.  At strs it stores exactly these four
    strings, each with a NUL after it, STATFIXLEN - 4 bytes less than it read,
    so that a strs as large as the buffer is enough; and the strings of the Dir
    are the ones stored there, up to their first NUL, or are empty when there
    is no strs.  statcheck accepts a buffer exactly when its count is right and
    convM2D reads a Dir from all of it. *)
Theorem convM2D_safe buf strs :
  bytes buf ->
  (exists r, convM2D buf strs = Ok r /\
    match r with
    | None => True
    | Some (n, d, w) =>
        STATFIXLEN <= n <= zlen buf /\ dir_ok d /\ (zlen w = if strs then n - STATFIXLEN + 4 else 0) /\
        exists k sv, in_bits 16 k /\ zlen sv = 4 /\ Forall (fun s => data_ok (zlen s) 16 s) sv /\
          take (Z.to_nat n) buf = pbit 2 k ++ dirfixed d ++ concat ((fun s => pbit 2 (zlen s) ++ s) <$> sv) /\
          w = (if strs then concat ((fun s => s ++ [0]) <$> sv) else []) /\
          d_strs d = (fun s => Some (if strs then cstr (s ++ [0]) else [])) <$> sv
    end) /\
  (statcheck buf = Ok 0 <->
    GBIT 2 buf = Ok (zlen buf - 2) /\
    exists d w, convM2D buf strs = Ok (Some (zlen buf, d, w))).
Proof.
  intros Hb. split; [|by apply statcheck_spec]. unfold convM2D.
  destruct (Z.ltb_spec (zlen buf) STATFIXLEN) as [|Hl]; [by exists None|].
  pose proof (gdir_wp strs buf Hb Hl) as W. unfold wp in W.
  destruct (gdir strs buf) as [[[[[d w] o] p']|]|]; [|by exists None|done].
  rewrite bind_ok. eexists; split; [done|]. cbn [fst snd] in W. destruct W as (Hd & k & sv & Hk & Hn & Hsv & E & Es & Ew).
  pose proof (zlen_nonneg p'). pose proof (zlens_nonneg sv).
  pose proof (f_equal zlen E) as Ez. rewrite !zlen_app, zlen_pbit, zlen_dirfixed, zlen_counted, Hn in Ez.
  unfold STATFIXLEN, QIDSZ in *. split; [lia|]. split; [done|]. split.
  - subst w. destruct strs; [|done]. unfold stored. rewrite zlen_concat_nul. lia.
  - exists k, sv. split_and!; try done. rewrite E at 2. rewrite !app_assoc, <- (app_assoc (pbit 2 k)).
    apply take_app_length'. apply (inj Z.of_nat). fold (zlen (pbit 2 k ++ dirfixed d ++ concat ((fun s => pbit 2 (zlen s) ++ s) <$> sv))).
    rewrite ?app_assoc, !zlen_app, zlen_pbit, zlen_dirfixed, zlen_counted, Hn. lia.
Qed.

Definition ex_stat : list Z := (convD2M ex_dir 60).2.

(** The Dir of ex_stat is read, with its strings at strs. *)
Lemma convM2D_safe_witness :
  (exists d w, convM2D ex_stat true = Ok (Some (53, d, w)) /\ w = [97; 98; 0; 103; 0; 104; 0; 0] /\
     d_name d = Some [97; 98]) /\
  (exists r, convM2D ex_stat true = Ok r /\
    match r with
    | None => True
    | Some (n, d, w) =>
        STATFIXLEN <= n <= zlen ex_stat /\ dir_ok d /\ zlen w = n - STATFIXLEN + 4 /\
        exists k sv, in_bits 16 k /\ zlen sv = 4 /\ Forall (fun s => data_ok (zlen s) 16 s) sv /\
          take (Z.to_nat n) ex_stat = pbit 2 k ++ dirfixed d ++ concat ((fun s => pbit 2 (zlen s) ++ s) <$> sv) /\
          w = concat ((fun s => s ++ [0]) <$> sv) /\
          d_strs d = (fun s => Some (cstr (s ++ [0]))) <$> sv
    end) /\
  (statcheck ex_stat = Ok 0 <->
    GBIT 2 ex_stat = Ok (zlen ex_stat - 2) /\
    exists d w, convM2D ex_stat true = Ok (Some (zlen ex_stat, d, w))).
Proof.
  split; [eexists _, _; split; [vm_compute; reflexivity|split; reflexivity]|].
  apply (convM2D_safe ex_stat true). vm_compute. repeat constructor; try discriminate.
Defined.

(** sys/src/9/port/devgefs.c, scandisks: the test that the strings of a stat
    entry of m bytes at offset i fit strs[256]. *)
Definition scandisks_fits (m i : Z) : bool := negb ((8192 - i <? m) || (256 <? u32 (m - STATFIXLEN))).

(** The test leaves out the four NULs: an entry passes it whose strings fill
    260 bytes. *)
Lemma scandisks_overrun :
  exists buf d w, bytes buf /\ statcheck buf = Ok 0 /\ scandisks_fits (zlen buf) 0 = true /\
    convM2D buf true = Ok (Some (zlen buf, d, w)) /\ zlen w = 260.
Proof.
  exists (statbuf (mkDir 83 0 (mkQid 1 0 128) 0 0 0 0 (Some (replicate 256 97)) None None None)).
  eexists _, _. split_and!; [|vm_compute; reflexivity..].
  vm_compute. repeat constructor; discriminate.
Qed.

(** * gefs's own stat buffers *)

(** The Dir that dir2statbuf writes: times in seconds, rounded, and the names
    of the users. *)
Definition dir_of (u g m : User) (d : Xdir) : Dir :=
  mkDir 65535 4294967295 (qid d) (mode d)
    (u32 (Z.quot (s64 (atime d + Z.quot Nsec 2)) Nsec)) (u32 (Z.quot (s64 (mtime d + Z.quot Nsec 2)) Nsec))
    (dlength d) (Some (name d)) (Some (uname u)) (Some (uname g)) (Some (uname m)).

Lemma strslen_dir_of u g m d :
  strslen (d_strs (dir_of u g m d)) = zlen (name d) + zlen (uname u) + zlen (uname g) + zlen (uname m).
Proof. cbn. unfold strlen. cbn. lia. Qed.

Lemma statbuf_dir_of u g m d :
  let sz := STATFIXLEN + zlen (name d) + zlen (uname u) + zlen (uname g) + zlen (uname m) in
  statbuf (dir_of u g m d) =
    pbit 2 (sz - 2) ++ pbit 2 (-1) ++ pbit 4 (-1) ++
    pbit 1 (qtype (qid d)) ++ pbit 4 (vers (qid d)) ++ pbit 8 (path (qid d)) ++
    pbit 4 (mode d) ++ pbit 4 (Z.quot (s64 (atime d + Z.quot Nsec 2)) Nsec) ++
    pbit 4 (Z.quot (s64 (mtime d + Z.quot Nsec 2)) Nsec) ++ pbit 8 (dlength d) ++
    pbit 2 (zlen (name d)) ++ name d ++ pbit 2 (zlen (uname u)) ++ uname u ++
    pbit 2 (zlen (uname g)) ++ uname g ++ pbit 2 (zlen (uname m)) ++ uname m.
Proof.
  cbv zeta. unfold statbuf. rewrite strslen_dir_of, !Z.add_assoc. f_equal. unfold dirfixed, d_strs, dir_of.
  cbn [d_type d_dev d_qid d_mode d_atime d_mtime d_length d_name d_uid d_gid d_muid fmap list_fmap concat pstring].
  unfold u32. change (2 ^ 32) with (2 ^ (8 * Z.of_nat 4)). rewrite !pbit_mod, app_nil_r, <- !app_assoc. done.
Qed.

(** C37: the stat buffer gefs builds itself is the one convD2M would build of
    the same entry, on every buffer size; so a client's statcheck accepts it
    and its convM2D reads that entry. *)
Theorem dir2statbuf_convD2M users noneid nogroupid d nbuf u g m :
  uid2user_or users (uid d) noneid = Some u ->
  uid2user_or users (gid d) nogroupid = Some g ->
  uid2user_or users (muid d) noneid = Some m ->
  2 <= nbuf < 2 ^ 31 ->
  STATFIXLEN + strslen (d_strs (dir_of u g m d)) <= 65537 ->
  dir2statbuf users noneid nogroupid d nbuf =
    Ok (let '(n, p) := convD2M (dir_of u g m d) nbuf in if n =? 2 then None else Some p) /\
  forall p, dir2statbuf users noneid nogroupid d nbuf = Ok (Some p) -> dir_ok (dir_of u g m d) ->
    statcheck p = Ok 0 /\ exists w, convM2D p true = Ok (Some (zlen p, dir_of u g m d, w)).
Proof.
  intros Hu Hg Hm Hn Hsz. pose proof (strslen_nonneg (d_strs (dir_of u g m d))) as H0.
  assert (E : dir2statbuf users noneid nogroupid d nbuf =
    Ok (if nbuf <? STATFIXLEN + strslen (d_strs (dir_of u g m d)) then None else Some (statbuf (dir_of u g m d)))).
  { unfold dir2statbuf. rewrite Hu, Hg, Hm, strslen_dir_of, !Z.add_assoc. case_match; [done|].
    pose proof (zlen_statbuf (dir_of u g m d)) as Hz. rewrite strslen_dir_of, !Z.add_assoc in Hz.
    rewrite statbuf_dir_of in Hz |- *. rewrite check_true; [done|]. by apply Z.eqb_eq. }
  rewrite E. split.
  - destruct (Z.ltb_spec nbuf (STATFIXLEN + strslen (d_strs (dir_of u g m d)))) as [Hlt|Hge].
    + unfold convD2M. destruct (Z.ltb_spec nbuf 2); [lia|].
      rewrite s32_id, u32_id by (unfold STATFIXLEN, QIDSZ in *; lia). cbv zeta.
      by destruct (Z.ltb_spec nbuf (STATFIXLEN + strslen (d_strs (dir_of u g m d)))); [|lia].
    + rewrite convD2M_fits by lia. cbv zeta beta iota. case_match; [unfold STATFIXLEN, QIDSZ in *; lia|done].
  - intros p Hp Hok. case_match; [done|]. apply ok_some in Hp. subst p. split; [by apply statbuf_check|].
    destruct (statbuf_read (dir_of u g m d) true [] Hok Hsz) as [w Ew]. rewrite app_nil_r in Ew.
    exists w. by rewrite zlen_statbuf, Ew.
Qed.

Definition ex_user : User := mkUser 1 1 [] [97; 100; 109].
Definition ex_xdir : Xdir := mkXdir 0 (mkQid 5 1 0) 420 1499999999 1500000000 100 1 1 7 [102].

Lemma dir2statbuf_convD2M_witness :
  dir2statbuf [ex_user] 1 1 ex_xdir 100 =
    Ok (let '(n, p) := convD2M (dir_of ex_user ex_user ex_user ex_xdir) 100 in if n =? 2 then None else Some p) /\
  forall p, dir2statbuf [ex_user] 1 1 ex_xdir 100 = Ok (Some p) ->
    dir_ok (dir_of ex_user ex_user ex_user ex_xdir) ->
    statcheck p = Ok 0 /\
    exists w, convM2D p true = Ok (Some (zlen p, dir_of ex_user ex_user ex_user ex_xdir, w)).
Proof.
  apply (dir2statbuf_convD2M [ex_user] 1 1 ex_xdir 100 ex_user ex_user ex_user);
    [reflexivity|reflexivity|reflexivity|lia|by vm_compute].
Defined.
