(* ===== verification/Dead.v ===== *)
(** sys/src/9/gefs/snap.c, deadlists: the blocks that a snapshot's writers
    replaced, by the generation they were replaced in and the one they were
    made in.

    A deadlist is a chain of blocks on the disk, from the newest ([hd]) to the
    oldest ([tl]); the newest may still be in memory, being filled ([dins]).
    The deadlists are values of the snapshot tree; those in use are kept in a
    hash table and a list of the least recently used.  The snapshot tree is
    what its interface [SnapTree] says: a map on which btupsert runs messages.
    Its own replaced blocks go to fs->snapdl, so btupsert returns them here.

    [blks] has the blocks by address: what getblk finds, in the cache or on the
    device.  A struct Dlist is an index in [dls]; the first two are
    fs->snapdl and fs->dropdl.  The list of the least recently used is a Coq
    list, its head first.  Freeing a struct leaves it unused.  error() ends a
    run, so that the cleanup after waserror() is not there; newblk and
    btupsert may find the file system full. *)

From S2P Require Import Prelude Layout Hash Pack Node Msgs Blk Alloc.

(** * The snapshot tree *)

(** What snap.c needs of tree.c: a lookup, an upsert, and a scan of the keys
    with a prefix, which sees the tree as it was at btenter. *)
Class SnapTree (T : Type) := {
  st_lookup : T -> list Z -> res (option Kvp);
  st_upsert : T -> list Msg -> res (T * list Bptr);
  st_scan : T -> list Z -> res (list Kvp)
}.

(** The value of every key. *)
Class TreeMeans (T : Type) := mean : T -> list Z -> option (list Z).

Definition kv_at `{TreeMeans T} (t : T) (key : list Z) : option Kvp := mkKvp key <$> mean t key.

Class SnapLaws (T : Type) `{SnapTree T} `{TreeMeans T} := {
  st_lookup_ok t key : st_lookup t key = Ok (kv_at t key);
  st_upsert_ok t ms :
    Forall msg_good ms -> (forall key, is_Ok (mrun (kv_at t key) (for_key key ms))) ->
    match st_upsert t ms with
    | Ok (t', ks) => Forall (fun p => is_s64 (addr p)) ks /\
        forall key, mrun (kv_at t key) (for_key key ms) = Ok (kv_at t' key)
    | Fail e => e = Error Efull
    end;
  st_scan_ok t pfx : exists l, st_scan t pfx = Ok l /\ NoDup l /\
    forall kv, kv ∈ l <-> pfx `prefix_of` k kv /\ kv_at t (k kv) = Some kv
}.

(** * The state *)

Inductive ioreq := Qwrite (a : Z) | Qfree (a : Z) | Synced (a : Z).

(** struct Dlist in memory. *)
Record Dl := mkDl { dd : Dlist; dins : option Z }.

Section Code.
  Context {T : Type} `{SnapTree T}.
  (** newblk(&fs->snap, Tdlist): the i-th block it returns. *)
  Context (newblk : nat -> res Mblk) (dlcmax : Z).

Record dstate := mkDs {
  snap : T; blks : gmap Z Mblk; made : nat; io : list ioreq;
  dls : list Dl; dlhash : gmap Z (list nat); dllru : list nat; dlcount : Z
}.

Definition M (A : Type) : Type := dstate -> res (A * dstate).
#[global] Instance M_ret : MRet M := fun A a s => Ok (a, s).
#[global] Instance M_bind : MBind M := fun A B f m s =>
  match m s with Ok (a, s) => f a s | Fail e => Fail e end.

Definition lift {A} (r : res A) : M A := fun s => match r with Ok a => Ok (a, s) | Fail e => Fail e end.
Definition get {A} (f : dstate -> A) : M A := fun s => Ok (f s, s).
Definition put (f : dstate -> dstate) : M unit := fun s => Ok (tt, f s).

Definition setsnap (t : T) (s : dstate) : dstate :=
  mkDs t (blks s) (made s) (io s) (dls s) (dlhash s) (dllru s) (dlcount s).
Definition setblks (m : gmap Z Mblk) (n : nat) (s : dstate) : dstate :=
  mkDs (snap s) m n (io s) (dls s) (dlhash s) (dllru s) (dlcount s).
Definition addio (q : ioreq) (s : dstate) : dstate :=
  mkDs (snap s) (blks s) (made s) (io s ++ [q]) (dls s) (dlhash s) (dllru s) (dlcount s).
Definition setdls (l : list Dl) (s : dstate) : dstate :=
  mkDs (snap s) (blks s) (made s) (io s) l (dlhash s) (dllru s) (dlcount s).
Definition setcache (h : gmap Z (list nat)) (l : list nat) (n : Z) (s : dstate) : dstate :=
  mkDs (snap s) (blks s) (made s) (io s) (dls s) h l n.

(** ** Blocks *)

Definition blkat (a : Z) : M Mblk := b ← get (fun s => blks s !! a); lift (of_option b (Error Eio)).
Definition store (b : Mblk) : M unit := put (fun s => setblks (<[addr (bp (mb b)) := b]> (blks s)) (made s) s).

Definition dnewblk : M Mblk :=
  n ← get made; b ← lift (newblk n); put (fun s => setblks (blks s) (S n) s);; mret b.

Definition denqueue (a : Z) : M unit :=
  b ← blkat a;
  lift (check (checkflag (bflag b) Bdirty (Z.lor Bqueued Bstatic)));;
  lift (check (0 <=? addr (bp (mb b))));;
  b ← lift (finalize b);
  store b;; put (addio (Qwrite a)).

(** ** Killed blocks *)

Definition dlget (i : nat) : M Dl := d ← get (fun s => dls s !! i); lift (of_option d Undef).
Definition dlset (i : nat) (d : Dl) : M unit := put (fun s => setdls (<[i := d]> (dls s)) s).

Definition with_ends (d : Dl) (h t : Bptr) (i : option Z) : Dl :=
  mkDl (mkDlist (dgen (dd d)) (bgen (dd d)) h t) i.

Definition enqueue_ins (d : Dl) : M unit :=
  match dins d with Some a => denqueue a | None => mret tt end.

(** A new block in front of the list. *)
Definition dlgrow (i : nat) (d : Dl) : M Z :=
  b ← dnewblk;
  enqueue_ins d;;
  let tl := if addr (tl (dd d)) =? -1 then bp (mb b) else tl (dd d) in
  store (setlogp b (hd (dd d)));;
  dlset i (with_ends d (bp (mb b)) tl (Some (addr (bp (mb b)))));;
  mret (addr (bp (mb b))).

(** The second half of killblk, on its deadlist. *)
Definition dlkill (i : nat) (p : Bptr) : M unit :=
  d ← dlget i;
  a ← (match dins d with
       | None => dlgrow i d
       | Some a => b ← blkat a; if Logspc - logsz b <? Logslop then dlgrow i d else mret a
       end);
  b ← blkat a;
  b ← lift (logput b (pack 8 (addr p)));
  store (setbflag b (setflag (bflag b) Bdirty 0)).

Fixpoint dlkills (i : nat) (ks : list Bptr) : M unit :=
  match ks with [] => mret tt | p :: ks => dlkill i p;; dlkills i ks end.

(** btupsert(&fs->snap, ms, n); the blocks it replaced are killed. *)
Definition snapupsert (ms : list Msg) : M unit :=
  t ← get snap;
  r ← lift (st_upsert t ms);
  put (setsnap r.1);; dlkills 0 r.2.

(** ** The cache of deadlists *)

Definition dlslot (gen bgen : Z) : Z := Z.lxor (ihash (u64 gen)) (ihash (u64 bgen)) mod dlcmax.

Definition isdl (s : dstate) (gen bgen : Z) (i : nat) : bool :=
  match dls s !! i with Some d => (dgen (dd d) =? gen) && (bgen =? Layout.bgen (dd d)) | None => false end.

Definition dlbucket (s : dstate) (h : Z) : list nat := default [] (dlhash s !! h).

Fixpoint unchain (f : nat -> bool) (l : list nat) : list nat :=
  match l with [] => [] | i :: l => if f i then l else i :: unchain f l end.

Definition dlcachedel (i : nat) (hdel : bool) : M unit :=
  d ← dlget i;
  let h := dlslot (dgen (dd d)) (bgen (dd d)) in
  (if hdel : bool then
     put (fun s => setcache (<[h := unchain (isdl s (dgen (dd d)) (bgen (dd d))) (dlbucket s h)]> (dlhash s))
                     (dllru s) (dlcount s) s)
   else mret tt);;
  put (fun s => setcache (dlhash s) (filter (fun j => j <> i) (dllru s)) (dlcount s) s).

Definition dlcacheget (gen bgen : Z) : M (option nat) :=
  o ← get (fun s => find (isdl s gen bgen) (dlbucket s (dlslot gen bgen)));
  match o with
  | Some i => dlcachedel i false;; mret (Some i)
  | None => mret None
  end.

Definition addcount (n : Z) : M unit := put (fun s => setcache (dlhash s) (dllru s) (dlcount s + n) s).

Definition dlflush (i : nat) : M unit :=
  d ← dlget i;
  match dins d with
  | None => mret tt
  | Some a =>
      b ← blkat a;
      let hd := bp (mb b) in
      let tl := if addr (tl (dd d)) =? addr hd then hd else tl (dd d) in
      denqueue a;;
      let d := with_ends d hd tl None in
      dlset i d;;
      if dgen (dd d) =? -1 then mret tt else
      kv ← lift (dlist2kv (dd d) 512);
      snapupsert [mkMsg Oinsert (k kv) (v kv)]
  end.

Definition dlkey (gen bgen : Z) : list Z := [Kdlist] ++ pack 8 gen ++ pack 8 bgen.

(** A list that is new has no blocks; emalloc clears the rest. *)
Definition newdl (gen bgen : Z) : Dl := mkDl (mkDlist gen bgen (mkBptr (-1) 0 0) (mkBptr (-1) 0 0)) None.

Definition getdl (gen bgen : Z) : M nat :=
  o ← dlcacheget gen bgen;
  match o with
  | Some i => mret i
  | None =>
      addcount 1;;
      t ← get snap;
      r ← lift (st_lookup t (dlkey gen bgen));
      d ← (match r with
           | Some kv => d ← lift (kv2dlist kv); mret (mkDl d None)
           | None =>
               let d := newdl gen bgen in
               kv ← lift (dlist2kv (dd d) Dlkvpsz);
               snapupsert [mkMsg Oinsert (k kv) (v kv)];; mret d
           end);
      i ← get (fun s => length (dls s));
      put (fun s => setdls (dls s ++ [d]) s);;
      let h := dlslot gen bgen in
      put (fun s => setcache (<[h := i :: dlbucket s h]> (dlhash s)) (dllru s) (dlcount s) s);;
      mret i
  end.

(** The loop that makes room in the cache. *)
Fixpoint dlevict (fuel : nat) : M unit :=
  c ← get dlcount;
  l ← get (fun s => last (dllru s));
  match l with
  | None => mret tt
  | Some dt =>
      if dlcmax <=? c then
        match fuel with
        | O => lift (Fail Fuel)
        | S fuel =>
            addcount (-1);;
            dlcachedel dt true;;
            dlflush dt;;
            d ← dlget dt;
            lift (check (bool_decide (dins d = None)));;
            dlevict fuel
        end
      else mret tt
  end.

Definition putdl (i : nat) : M unit :=
  d ← dlget i;
  if dgen (dd d) =? -1 then mret tt else
  dlcachedel i false;;
  n ← get (fun s => length (dllru s));
  dlevict n;;
  put (fun s => setcache (dlhash s) (i :: dllru s) (dlcount s) s).

Fixpoint dlflushes (l : list nat) : M unit :=
  match l with [] => mret tt | i :: l => dlflush i;; dlflushes l end.

(** The flushes leave the list as it is. *)
Definition dlsync : M unit := dlflush 0;; l ← get dllru; dlflushes l.

(** killblk(t, bp): [None] is &fs->snap, else the tree's memgen and base. *)
Definition killblk (t : option (Z * Z)) (p : Bptr) : M unit :=
  match t with
  | None => dlkill 0 p
  | Some (memgen, base) =>
      if base <? gen p then
        i ← getdl memgen (gen p); dlkill i p;; putdl i
      else mret tt
  end.

(** ** Reclaiming *)

(** The entries of a block: for(p = b->data; p != b->data+b->logsz; p += 8). *)
Fixpoint dlents (fuel : nat) (p : list Z) (rem : Z) : res (list Z) :=
  if rem =? 0 then Ok [] else
  match fuel with
  | O => Fail Fuel
  | S fuel => x ← UNPACK 8 p; l ← dlents fuel (drop 8 p) (rem - 8); Ok (s64 x :: l)
  end.

Fixpoint qfrees (l : list Z) : M unit :=
  match l with [] => mret tt | a :: l => put (addio (Qfree a));; qfrees l end.

Fixpoint freedl_loop (fuel : nat) (tl p : Bptr) (dofree : bool) : M unit :=
  if addr p =? -1 then mret tt else
  match fuel with
  | O => lift (Fail Fuel)
  | S fuel =>
      b ← blkat (addr p);
      (if dofree : bool then l ← lift (dlents (length (data (mb b))) (data (mb b)) (logsz b)); qfrees l else mret tt);;
      put (addio (Qfree (addr (bp (mb b)))));;
      if addr p =? addr tl then mret tt else freedl_loop fuel tl (logp b) dofree
  end.
Definition freedl (d : Dlist) (dofree : bool) : M unit :=
  n ← get (fun s => size (blks s)); freedl_loop n (tl d) (hd d) dofree.

Definition splicedl (di mi : nat) : M unit :=
  lift (check (negb (di =? mi)%nat));;
  d ← dlget di;
  m ← dlget mi;
  if addr (hd (dd m)) =? -1 then mret tt else
  if addr (hd (dd d)) =? -1 then
    lift (check (bool_decide (dins d = None)));;
    dlset di (with_ends d (hd (dd m)) (tl (dd m)) (dins m));;
    dlset mi (with_ends m (hd (dd m)) (tl (dd m)) None)
  else
    enqueue_ins m;;
    dlset mi (with_ends m (hd (dd m)) (tl (dd m)) None);;
    b ← blkat (addr (tl (dd d)));
    let b := setlogp b (hd (dd m)) in
    store b;;
    dlset di (with_ends d (hd (dd d)) (tl (dd m)) (dins d));;
    lift (check (negb (addr (hd (dd d)) =? addr (hd (dd m)))));;
    if bool_decide (dins d = Some (addr (bp (mb b)))) then mret tt
    else b ← lift (finalize b); store b;; put (addio (Synced (addr (bp (mb b))))).

Definition dlmsg (op : Z) (i : nat) (nbuf : Z) : M Msg :=
  d ← dlget i; kv ← lift (dlist2kv (dd d) nbuf); mret (mkMsg op (k kv) (v kv)).

Definition mergedl (merge gen bgen : Z) : M unit :=
  d ← getdl merge bgen;
  m ← getdl gen bgen;
  splicedl d m;;
  m0 ← dlmsg Odelete m Kvmax;
  m1 ← dlmsg Oinsert d Kvmax;
  snapupsert [m0; m1];;
  putdl m;; putdl d.

Definition dropdl (gen bgen succ : Z) : M unit :=
  i ← getdl gen bgen;
  m ← dlmsg Odelete i Kvmax;
  snapupsert [m];;
  d ← dlget i;
  lift (check (bool_decide (dins d = None)));;
  dlcachedel i true;;
  addcount (-1);;
  splicedl (if succ =? -1 then 1%nat else 0%nat) i.

Fixpoint reclaim_gen (l : list Kvp) (succ prev : Z) : M unit :=
  match l with
  | [] => mret tt
  | kv :: l =>
      d ← lift (kv2dlist kv);
      (if negb (succ =? -1) && (bgen d <=? prev) then mergedl succ (dgen d) (bgen d)
       else dropdl (dgen d) (bgen d) succ);;
      reclaim_gen l succ prev
  end.

Fixpoint reclaim_succ (l : list Kvp) (succ prev : Z) : M unit :=
  match l with
  | [] => mret tt
  | kv :: l =>
      d ← lift (kv2dlist kv);
      (if bgen d <=? prev then mret tt else dropdl (dgen d) (bgen d) succ);;
      reclaim_succ l succ prev
  end.

Definition reclaimblocks (gen succ prev : Z) : M unit :=
  t ← get snap;
  l ← lift (st_scan t (Kdlist :: pack 8 gen));
  reclaim_gen l succ prev;;
  if succ =? -1 then mret tt else
  t ← get snap;
  l ← lift (st_scan t (Kdlist :: pack 8 succ));
  reclaim_succ l succ prev.
End Code.

(** * Running the code *)

Section Wp.
  Context {T : Type} `{SnapTree T}.

(** [m] returns, and leaves a result and a state as [Q] says, unless the file
    system is full. *)
Definition wp {A} (m : M (T:=T) A) (Q : A -> dstate -> Prop) (s : dstate) : Prop :=
  match m s with Ok (a, s') => Q a s' | Fail e => e = Error Efull end.

Lemma dlwp_ret {A} (a : A) Q s : Q a s -> wp (mret a) Q s.
Proof. done. Qed.

Lemma dlwp_bind {A B} (m : M A) (f : A -> M B) Q s : wp m (fun a => wp (f a) Q) s -> wp (m ≫= f) Q s.
Proof. unfold wp, mbind, M_bind. by destruct (m s) as [[a s1]|e]. Qed.

Lemma wp_bind_inv {A B} (m : M A) (f : A -> M B) Q s : wp (m ≫= f) Q s -> wp m (fun a => wp (f a) Q) s.
Proof. unfold wp, mbind, M_bind. by destruct (m s) as [[a s1]|e]. Qed.

Lemma dlwp_mono {A} (m : M A) (P Q : A -> dstate -> Prop) s : wp m P s -> (forall a s', P a s' -> Q a s') -> wp m Q s.
Proof. unfold wp. destruct (m s) as [[a s1]|e]; auto. Qed.

Lemma wp_lift {A} (r : res A) a Q s : r = Ok a -> Q a s -> wp (lift r) Q s.
Proof. by intros ->. Qed.

(** What may find the file system full. *)
Lemma wp_lift_full {A} (r : res A) Q s : match r with Ok a => Q a s | Fail e => e = Error Efull end -> wp (lift r) Q s.
Proof. unfold wp, lift. by destruct r. Qed.

Lemma wp_get {A} (f : dstate -> A) Q s : Q (f s) s -> wp (get f) Q s.
Proof. done. Qed.

Lemma wp_put f Q s : Q tt (f s) -> wp (put f) Q s.
Proof. done. Qed.

Lemma wp_if {A} (c : bool) (m1 m2 : M A) Q s :
  (c = true -> wp m1 Q s) -> (c = false -> wp m2 Q s) -> wp (if c then m1 else m2) Q s.
Proof. destruct c; auto. Qed.

Lemma wp_check c (Q : unit -> dstate -> Prop) s : c = true -> Q tt s -> wp (lift (check c)) Q s.
Proof. intros ->. apply wp_lift. done. Qed.
End Wp.

(** One step of a run. *)
Ltac wp_step :=
  match goal with
  | |- wp (@mbind _ _ _ _ _ _) _ _ => apply dlwp_bind
  | |- wp (@mret _ _ _ _) _ _ => apply dlwp_ret
  | |- wp (get _) _ _ => apply wp_get
  | |- wp (put _) _ _ => apply wp_put
  end; cbv beta.
Ltac wps := repeat wp_step.

(** * Deadlists as lists *)

(** A block of a deadlist with the addresses [es]. *)
Record dlblk (a : Z) (b : Mblk) (es : list Z) : Prop := {
  db_typ : btyp (mb b) = Tdlist;
  db_addr : addr (bp (mb b)) = a;
  db_pos : 0 <= a;
  db_bp : bptr_ok (bp (mb b));
  db_data : zlen (data (mb b)) = Logspc;
  db_logsz : logsz b = 8 * zlen es;
  db_room : logsz b <= Logspc;
  db_ents : take (8 * length es) (data (mb b)) = concat (pack 8 <$> es);
  db_s64 : Forall is_s64 es
}.

(** It may be queued for writing. *)
Definition opened (b : Mblk) : Prop := checkflag (bflag b) Bdirty (Z.lor Bqueued Bstatic) = true.

(** The blocks from [h] to [t], with the addresses in each. *)
Fixpoint dlseg (m : gmap Z Mblk) (h t : Z) (l : list (Z * list Z)) : Prop :=
  match l with
  | [] => False
  | (a, es) :: l' => h = a /\ exists b, m !! a = Some b /\ dlblk a b es /\
      match l' with [] => t = a | _ => dlseg m (addr (logp b)) t l' end
  end.

(** The blocks of a deadlist are [l]; the one being filled is the first. *)
Definition dl_is (m : gmap Z Mblk) (d : Dl) (l : list (Z * list Z)) : Prop :=
  bptr_ok (hd (dd d)) /\ bptr_ok (tl (dd d)) /\ NoDup l.*1 /\
  match l with
  | [] => addr (hd (dd d)) = -1 /\ addr (tl (dd d)) = -1 /\ dins d = None
  | (a, _) :: _ => dlseg m (addr (hd (dd d))) (addr (tl (dd d))) l /\
      forall x, dins d = Some x -> x = a /\ exists b, m !! a = Some b /\ opened b
  end.

(** The addresses in a deadlist. *)
Definition ents (l : list (Z * list Z)) : list Z := concat l.*2.

(** [p] is put in front: in the first block, or in a new one. *)
Definition pushed (p : Z) (l l' : list (Z * list Z)) : Prop :=
  (exists a, l' = (a, [p]) :: l) \/ exists a es l0, l = (a, es) :: l0 /\ l' = (a, es ++ [p]) :: l0.

Lemma pushed_ents p l l' : pushed p l l' -> ents l' ≡ₚ p :: ents l.
Proof.
  unfold ents. intros [(a & ->)|(a & es & l0 & -> & ->)]; cbn; [done|].
  rewrite <- app_assoc. cbn. by rewrite <- Permutation_middle.
Qed.

Lemma dlseg_frame m m' h t l :
  dlseg m h t l -> (forall a, a ∈ l.*1 -> m' !! a = m !! a) -> dlseg m' h t l.
Proof.
  revert h. induction l as [|[a es] l IH]; intros h; [done|]. cbn [dlseg fmap list_fmap fst].
  intros (-> & b & Hb & Hd & Hl) Hm. split; [done|]. exists b.
  split; [rewrite Hm; [done|set_solver]|]. split; [done|]. destruct l; [done|].
  apply IH; [done|]. intros x Hx. apply Hm. set_solver.
Qed.

Lemma dl_is_frame m m' d l :
  dl_is m d l -> (forall a, a ∈ l.*1 -> m' !! a = m !! a) -> dl_is m' d l.
Proof.
  intros (H1 & H2 & H3 & Hl) Hm. split_and!; try done. destruct l as [|[a es] l]; [done|].
  destruct Hl as [Hs Hi]. split; [by eapply dlseg_frame|].
  intros x (-> & b & Hb & Ho)%Hi. split; [done|]. exists b. rewrite Hm; [done|]. cbn. set_solver.
Qed.

(** The first block changes. *)
Lemma dlseg_head m a t es es' l b b' :
  dlseg m a t ((a, es) :: l) -> m !! a = Some b -> dlblk a b' es' -> addr (logp b') = addr (logp b) ->
  a ∉ l.*1 -> dlseg (<[a := b']> m) a t ((a, es') :: l).
Proof.
  cbn [dlseg]. intros (_ & b0 & Hb0 & _ & Hl) Hb Hd Hp Hn. simplify_eq. split; [done|]. exists b'.
  rewrite lookup_insert_eq. split; [done|]. split; [done|]. destruct l as [|x l]; [done|].
  rewrite Hp. eapply dlseg_frame; [done|]. intros y Hy. apply lookup_insert_ne. congruence.
Qed.

Lemma opened_dirty f : checkflag f Bdirty (Z.lor Bqueued Bstatic) = true -> setflag f Bdirty 0 = f.
Proof.
  unfold checkflag, setflag. intros H%Z.eqb_eq. rewrite Z.ldiff_0_r. apply Z.bits_inj'. intros n Hn.
  rewrite Z.lor_spec. destruct (Z.testbit f n) eqn:E; [done|]. cbn.
  destruct (Z.testbit Bdirty n) eqn:E1; [|done]. exfalso.
  assert (Z.testbit (Z.land f (Z.lor Bdirty (Z.lor Bqueued Bstatic))) n = true) as E2 by (by rewrite H).
  rewrite Z.land_spec, E in E2. done.
Qed.

(** finalize changes the header and the hash. *)
Lemma dlblk_finalize a b es : dlblk a b es ->
  exists b', finalize b = Ok b' /\ dlblk a b' es /\ logp b' = logp b.
Proof.
  intros [B1 B2 B3 B4 B5 B6 B7 B8 B9]. unfold finalize. rewrite B1.
  unfold READ. rewrite decide_True by (unfold zlen in *; lia). rewrite bind_ok.
  unfold packbp. rewrite check_leb by done. rewrite !bind_ok. eexists. split; [done|]. split; [|done].
  constructor; cbn; try done. destruct B4 as (? & ? & ?). split_and!; try done. apply bufhash_u64.
Qed.

Lemma dlblk_logp a b es p : dlblk a b es -> dlblk a (setlogp b p) es.
Proof. by intros [? ? ? ? ? ? ? ? ?]. Qed.

(** PACK64 of one more address. *)
Lemma dlblk_put a b es x : dlblk a b es -> is_s64 x -> logsz b + 8 <= Logspc ->
  exists b', logput b (pack 8 x) = Ok b' /\ dlblk a b' (es ++ [x]) /\ logp b' = logp b /\ bflag b' = bflag b.
Proof.
  intros [B1 B2 B3 B4 B5 B6 B7 B8 B9] Hx Hr. unfold logput, WRITE. rewrite zlen_pack.
  pose proof (zlen_nonneg es). rewrite (proj2 (Z.leb_le _ _)), (proj2 (Z.leb_le _ _)) by lia. cbn [andb].
  rewrite bind_ok. eexists. split; [done|]. split; [|done].
  assert (Z.to_nat (logsz b) = (8 * length es)%nat) as -> by (rewrite B6; unfold zlen; lia).
  assert (Hlen : (8 * length es + length (pack 8 x) <= length (data (mb b)))%nat)
    by (rewrite length_pack; unfold zlen in *; lia).
  constructor; cbn [setlogsz setdata mb data logsz bp btyp]; try done.
  - unfold zlen. by rewrite length_patch.
  - rewrite B6, zlen_app, zlen_cons, zlen_nil. lia.
  - rewrite length_app, fmap_app, concat_app, <- B8.
    replace (8 * (length es + length [x]))%nat with (8 * length es + 8)%nat by (cbn; lia).
    change (take ?n ?l) with (slice l 0 n). rewrite slice_app, slice_patch_before by lia. f_equal. cbn [Nat.add].
    pose proof (slice_patch_same _ _ _ Hlen) as E. rewrite length_pack in E. rewrite E. cbn. by rewrite app_nil_r.
  - apply Forall_app. split; [done|]. by constructor.
Qed.

(** freedl's inner loop reads the addresses of a block. *)
Lemma dlents_spec es d fuel :
  Forall is_s64 es -> take (8 * length es) d = concat (pack 8 <$> es) -> (length es <= fuel)%nat ->
  dlents fuel d (8 * zlen es) = Ok es.
Proof.
  revert d fuel. induction es as [|x es IH]; intros d fuel Hs Hd Hf; [by destruct fuel|].
  destruct fuel as [|fuel]; [cbn in Hf; lia|]. cbn [dlents]. rewrite zlen_cons. pose proof (zlen_nonneg es).
  rewrite (proj2 (Z.eqb_neq _ _)) by lia. apply Forall_cons in Hs as [Hx Hs].
  cbn [fmap list_fmap concat length] in Hd.
  assert (d = pack 8 x ++ drop 8 d) as E.
  { rewrite <- (take_drop 8 d) at 1. f_equal. apply (f_equal (take 8)) in Hd. rewrite take_take in Hd.
    rewrite Nat.min_l in Hd by lia. rewrite Hd. by rewrite take_app_length' by (by rewrite length_pack). }
  rewrite E at 1. rewrite UNPACK_pack, bind_ok.
  replace (8 * (1 + zlen es) - 8) with (8 * zlen es) by lia. rewrite IH; [|done| |cbn in Hf; lia].
  - rewrite bind_ok, pack64_s64 by done. done.
  - apply (f_equal (drop 8)) in Hd. rewrite drop_pack in Hd.
    rewrite <- Hd, take_drop_commute. f_equal. f_equal. lia.
Qed.

(** * Killing blocks *)

(** newblk gives an empty block, the i-th at an address [A i] of its own, or
    there is none left. *)
Class Supply (newblk : nat -> res Mblk) (A : nat -> Z) : Prop := {
  su_new i : match newblk i with Ok b => dlblk (A i) b [] /\ opened b | Fail e => e = Error Efull end;
  su_inj i j : A i = A j -> i = j
}.

Section Kill.
  Context {T : Type} `{SnapTree T} {newblk : nat -> res Mblk} {A : nat -> Z} `{!Supply newblk A}.
  #[local] Abbreviation state := (dstate (T:=T)).

Definition fresh (s : state) : Prop := forall i, (made s <= i)%nat -> blks s !! A i = None.

(** Nothing but the blocks in [X], new blocks and struct Dlists differs. *)
Record framed (s s' : state) (X : list Z) : Prop := {
  fr_snap : snap s' = snap s;
  fr_hash : dlhash s' = dlhash s;
  fr_lru : dllru s' = dllru s;
  fr_count : dlcount s' = dlcount s;
  fr_made : (made s <= made s')%nat;
  fr_blks : forall a, a ∉ X -> (forall n, (made s <= n < made s')%nat -> a <> A n) -> blks s' !! a = blks s !! a
}.

(** The blocks of a list that grew. *)
Definition grown (s s' : state) (l l' : list (Z * list Z)) : Prop :=
  forall a, a ∈ l'.*1 -> a ∈ l.*1 \/ exists n, (made s <= n < made s')%nat /\ a = A n.

Lemma blkat_spec a b (Q : Mblk -> state -> Prop) (s : state) :
  blks s !! a = Some b -> Q b s -> wp (blkat a) Q s.
Proof. intros Hb HQ. unfold blkat. wps. apply (wp_lift _ b); [by rewrite Hb|done]. Qed.

Lemma dlget_spec i d (Q : Dl -> state -> Prop) (s : state) :
  dls s !! i = Some d -> Q d s -> wp (dlget i) Q s.
Proof. intros Hd HQ. unfold dlget. wps. apply (wp_lift _ d); [by rewrite Hd|done]. Qed.

Lemma denqueue_spec a b es (Q : unit -> state -> Prop) (s : state) :
  blks s !! a = Some b -> dlblk a b es -> opened b ->
  (forall b', dlblk a b' es -> logp b' = logp b ->
     Q tt (addio (Qwrite a) (setblks (<[a := b']> (blks s)) (made s) s))) ->
  wp (denqueue a) Q s.
Proof.
  intros Hb Hd Ho HQ. unfold denqueue. wps. apply (blkat_spec _ b); [done|]. wps.
  apply wp_check; [done|]. wps. destruct Hd as [? Ha Hp] eqn:E. apply wp_check; [apply Z.leb_le; lia|]. wps.
  destruct (dlblk_finalize a b es) as (b' & Ef & Hd' & Hl); [done|]. apply (wp_lift _ b'); [done|].
  unfold store. wps. rewrite (db_addr _ _ _ Hd'). apply HQ; [done|by rewrite Hl].
Qed.

Lemma enqueue_ins_spec d l (Q : unit -> state -> Prop) (s : state) :
  dl_is (blks s) d l ->
  (forall m q, dl_is m (with_ends d (hd (dd d)) (tl (dd d)) None) l ->
     (forall a, a ∉ l.*1 -> m !! a = blks s !! a) -> (forall a, m !! a = None <-> blks s !! a = None) ->
     Q tt (mkDs (snap s) m (made s) q (dls s) (dlhash s) (dllru s) (dlcount s))) ->
  wp (enqueue_ins d) Q s.
Proof.
  intros (H1 & H2 & H3 & Hl) HQ. unfold enqueue_ins. destruct (dins d) as [a|] eqn:Ei.
  - destruct l as [|[a0 es] l]; [naive_solver|]. destruct Hl as [Hs Hi]. destruct (Hi a eq_refl) as (-> & b & Hb & Ho).
    pose proof Hs as (Eh & b1 & Hb1 & Hd & _). simplify_eq. apply (denqueue_spec _ b es); [done..|].
    intros b' Hd' Hp. cbn [fmap list_fmap fst] in H3. apply NoDup_cons in H3 as [Hn H3].
    apply (HQ _ (io s ++ [_])); cbn [setblks blks].
    + split_and!; [done|done|by apply NoDup_cons| |done].
      eapply dlseg_head; [done..|by rewrite Hp|done].
    + intros x Hx. apply lookup_insert_ne. set_solver.
    + intros x. destruct (decide (x = addr (hd (dd d)))) as [->|]; [rewrite lookup_insert_eq; naive_solver|by rewrite lookup_insert_ne].
  - apply dlwp_ret. destruct s as [sn m n q dl dh lr ct]. apply HQ; [|done..]. by split_and!.
Qed.

(** A new, empty block in front. *)
Lemma dlgrow_spec i d l (s : state) :
  dls s !! i = Some d -> dl_is (blks s) d l -> fresh s ->
  wp (dlgrow newblk i d) (fun a s' => exists d' b, dls s' = <[i := d']> (dls s) /\ framed s s' l.*1 /\ fresh s' /\
       grown s s' l ((a, []) :: l) /\ dl_is (blks s') d' ((a, []) :: l) /\ dins d' = Some a /\
       dgen (dd d') = dgen (dd d) /\ bgen (dd d') = bgen (dd d) /\ blks s' !! a = Some b /\ dlblk a b [] /\ opened b) s.
Proof.
  intros Hi Hd Hf. unfold dlgrow, dnewblk. wps. apply wp_lift_full. pose proof (su_new (made s)) as Hnew.
  destruct (newblk (made s)) as [b|e]; [|done]. destruct Hnew as [Hb Ho]. wps. set (a := A (made s)).
  assert (Hal : a ∉ l.*1).
  { intros Hin. specialize (Hf (made s) (Nat.le_refl _)). fold a in Hf. destruct Hd as (_ & _ & _ & Hl).
    assert (forall h t l, dlseg (blks s) h t l -> a ∈ l.*1 -> False) as Hx.
    { clear -Hf. intros h t l. revert h. induction l as [|[x es] l IH]; intros h; [done|].
      cbn [dlseg fmap list_fmap fst]. intros (-> & b & Hb & _ & Hl) [->|Hin]%elem_of_cons; [congruence|].
      destruct l; [set_solver|]. by eapply IH. }
    destruct l as [|[x es] l]; [set_solver|]. by eapply Hx; [apply Hl|]. }
  apply (enqueue_ins_spec d l); [done|]. intros m q Hm Hmf Hmn. cbn [setblks blks] in Hmf, Hmn. wps. unfold store, dlset. wps.
  cbn [setblks setdls blks made io dls snap dlhash dllru dlcount setlogp mb].
  pose proof (db_addr _ _ _ Hb) as Ha. fold a in Ha. rewrite Ha.
  eexists _, (setlogp b (hd (dd d))). split_and!; [done| | | | | | | | | |].
  - constructor; cbn [setblks setdls blks made io dls snap dlhash dllru dlcount]; try done; [lia|].
    intros x Hx Hnx. rewrite lookup_insert_ne; [by apply Hmf|]. intros E. apply (Hnx (made s)); [cbn; lia|by rewrite <- E].
  - intros n Hn. cbn in *. rewrite lookup_insert_ne; [apply Hmn, Hf; lia|]. intros E%su_inj. lia.
  - intros x [->|Hx]%elem_of_cons; [right|by left]. exists (made s). split; [cbn; lia|done].
  - destruct Hm as (M1 & M2 & M3 & Ml). cbn [with_ends dd dins hd tl] in *.
    assert (Hbp : bptr_ok (bp (mb b))) by apply Hb.
    refine (conj Hbp (conj _ (conj _ _))); cbn [with_ends dd dins hd tl].
    { by destruct (_ =? _). }
    { cbn. by constructor. }
    rewrite Ha. split; [|intros x [= <-]; split; [done|]; eexists; by rewrite lookup_insert_eq].
    cbn [dlseg]. split; [done|]. exists (setlogp b (hd (dd d))). rewrite lookup_insert_eq. split; [done|].
    split; [by apply dlblk_logp|]. destruct l as [|[x es] l].
    + destruct Ml as (_ & -> & _). done.
    + destruct Ml as [Ms _]. cbn [setlogp logp]. destruct (Z.eqb_spec (addr (tl (dd d))) (-1)) as [E|E].
      * exfalso. clear -Ms E. revert Ms. generalize (addr (hd (dd d))). revert x es.
        induction l as [|[y e] l IH]; intros x es h.
        -- intros (-> & b & _ & D & Et). pose proof (db_pos _ _ _ D). lia.
        -- intros (_ & b & _ & _ & Hs). by apply IH in Hs.
      * eapply dlseg_frame; [done|]. intros y Hy. apply lookup_insert_ne. congruence.
  - done.
  - done.
  - done.
  - by rewrite lookup_insert_eq.
  - by apply dlblk_logp.
  - done.
Qed.

(** The address is put in the first block. *)
Lemma dlput_spec d a es l p b (Q : unit -> state -> Prop) (s : state) :
  dl_is (blks s) d ((a, es) :: l) -> dins d = Some a -> blks s !! a = Some b -> logsz b + 8 <= Logspc -> is_s64 (addr p) ->
  (forall b', dl_is (<[a := b']> (blks s)) d ((a, es ++ [addr p]) :: l) -> Q tt (setblks (<[a := b']> (blks s)) (made s) s)) ->
  wp (b ← blkat a; b ← lift (logput b (pack 8 (addr p))); store (setbflag b (setflag (bflag b) Bdirty 0))) Q s.
Proof.
  intros (H1 & H2 & H3 & Hs & Hi) Ei Hb Hr Hp HQ. destruct (Hi a Ei) as (_ & b0 & Hb0 & Ho).
  pose proof Hs as (Eh & b1 & Hb1 & Hd & _). assert (b0 = b) as -> by congruence. assert (b1 = b) as -> by congruence.
  wps. apply (blkat_spec _ b); [done|]. wps. destruct (dlblk_put a b es (addr p)) as (b' & E & Hd' & Hlp & Hfl); [done..|].
  apply (wp_lift _ b'); [done|]. unfold store. wps. rewrite Hfl, opened_dirty by done.
  cbn [setbflag mb]. rewrite (db_addr _ _ _ Hd'). apply HQ. cbn [fmap list_fmap fst] in H3. apply NoDup_cons in H3 as [Hn H3].
  assert (Hd2 : dlblk a (setbflag b' (bflag b)) (es ++ [addr p])) by (by destruct Hd').
  refine (conj H1 (conj H2 (conj _ (conj _ _)))).
  - cbn. by constructor.
  - rewrite Eh in *. eapply dlseg_head; [done..|by cbn [setbflag logp]; rewrite Hlp|done].
  - intros x Hx. rewrite Ei in Hx. injection Hx as <-. split; [done|]. eexists. by rewrite lookup_insert_eq.
Qed.

(** A deadlist after a kill: the address is in it. *)
Definition killed (i : nat) (d : Dl) (l : list (Z * list Z)) (d' : Dl) (l' : list (Z * list Z)) (s s' : state) : Prop :=
  dls s' = <[i := d']> (dls s) /\ framed s s' l.*1 /\ fresh s' /\ grown s s' l l' /\ dl_is (blks s') d' l' /\
  dgen (dd d') = dgen (dd d) /\ bgen (dd d') = bgen (dd d).

Lemma dlkill_spec i d l p (s : state) :
  dls s !! i = Some d -> dl_is (blks s) d l -> fresh s -> is_s64 (addr p) ->
  wp (dlkill newblk i p) (fun _ s' => exists d' l', killed i d l d' l' s s' /\ pushed (addr p) l l' /\ is_Some (dins d')) s.
Proof.
  intros Hi Hd Hf Hp. unfold dlkill. wps. apply (dlget_spec i d); [done|]. apply dlwp_bind.
  (* a new block *)
  assert (Hnb : wp (dlgrow newblk i d) (fun a s1 =>
    wp (b ← blkat a; b ← lift (logput b (pack 8 (addr p))); store (setbflag b (setflag (bflag b) Bdirty 0)))
      (fun _ s' => exists d' l', killed i d l d' l' s s' /\ pushed (addr p) l l' /\ is_Some (dins d')) s1) s).
  { eapply dlwp_mono; [by apply (dlgrow_spec i d l)|]. cbn beta.
    intros a s1 (d1 & b & Hdls & Hfr & Hf1 & Hg & Hd1 & Ei & G1 & G2 & Hb & Hdb & _).
    eapply dlput_spec; [exact Hd1|done|exact Hb| |done|].
    { rewrite (db_logsz _ _ _ Hdb), (zlen_nil (A:=Z)). change Logspc with 16348. lia. }
    intros b' Hd'. exists d1, ((a, [addr p]) :: l).
    assert (Hal : a ∉ l.*1) by (destruct Hd1 as (_ & _ & Hn & _); by apply NoDup_cons in Hn as [? _]).
    split; [|split; [left; by exists a|by rewrite Ei]]. destruct Hfr as [F1 F2 F3 F4 F5 F6].
    split_and!; [done| | |done| |done|done].
    - constructor; try done. intros x Hx Hnx. cbn. rewrite lookup_insert_ne; [by apply F6|].
      intros ->. destruct (Hg x) as [?|(n & ? & ?)]; [set_solver|done|]. by apply (Hnx n).
    - intros n Hn. cbn. rewrite lookup_insert_ne; [by apply Hf1|]. intros ->. cbn in Hn. rewrite (Hf1 n) in Hb by done. done.
    - done. }
  destruct (dins d) as [a|] eqn:Ei; [|exact Hnb].
  destruct l as [|[a0 es] l]; [destruct Hd as (_ & _ & _ & _ & _ & ?); congruence|].
  pose proof Hd as (H1 & H2 & H3 & Hs & Hin). destruct (Hin a Ei) as (-> & b & Hb & Ho). wps.
  apply (blkat_spec _ b); [done|]. destruct (Z.ltb_spec (Logspc - logsz b) Logslop) as [Hlt|Hge]; [exact Hnb|].
  apply dlwp_ret. eapply dlput_spec; [exact Hd|done|exact Hb| |done|].
  { change Logslop with 40 in Hge. lia. }
  intros b' Hd'. exists d, ((a0, es ++ [addr p]) :: l). split; [|split; [right; by exists a0, es, l|by rewrite Ei]].
  split_and!; try done.
  - symmetry. by apply list_insert_id.
  - constructor; try done. intros x Hx _. cbn. apply lookup_insert_ne. set_solver.
  - intros n Hn. cbn. rewrite lookup_insert_ne; [by apply Hf|]. intros ->. rewrite Hf in Hb by done. done.
  - intros x Hx. by left.
Qed.

Lemma framed_trans s1 s2 s3 l1 l2 :
  framed s1 s2 l1.*1 -> grown s1 s2 l1 l2 -> framed s2 s3 l2.*1 -> framed s1 s3 l1.*1.
Proof.
  intros [A1 A2 A3 A4 A5 A6] Hg [B1 B2 B3 B4 B5 B6]. constructor; [congruence..|lia|].
  intros a Ha Hn. rewrite B6; [apply A6; [done|]| |].
  - intros n ?. apply Hn. lia.
  - intros [?|(n & ? & ?)]%Hg; [done|]. apply (Hn n); [lia|done].
  - intros n ?. apply Hn. lia.
Qed.

Lemma grown_trans s1 s2 s3 l1 l2 l3 :
  grown s1 s2 l1 l2 -> grown s2 s3 l2 l3 -> (made s1 <= made s2 <= made s3)%nat -> grown s1 s3 l1 l3.
Proof.
  intros H1 H2 Hm a Ha%H2. destruct Ha as [Ha%H1|(n & ? & ->)]; [|right; exists n; split; [lia|done]].
  destruct Ha as [?|(n & ? & ->)]; [by left|right; exists n; split; [lia|done]].
Qed.

Lemma killed_refl i d l (s : state) :
  dls s !! i = Some d -> dl_is (blks s) d l -> fresh s -> killed i d l d l s s.
Proof.
  intros. split_and!; try done.
  - by rewrite list_insert_id.
  - intros a Ha. by left.
Qed.

Lemma killed_trans i d1 l1 d2 l2 d3 l3 (s1 s2 s3 : state) :
  killed i d1 l1 d2 l2 s1 s2 -> killed i d2 l2 d3 l3 s2 s3 -> killed i d1 l1 d3 l3 s1 s3.
Proof.
  intros (A1 & A2 & A3 & A4 & A5 & A6 & A7) (B1 & B2 & B3 & B4 & B5 & B6 & B7).
  split_and!; [|by eapply framed_trans|done| |done|congruence..].
  - by rewrite B1, A1, list_insert_insert_eq.
  - eapply grown_trans; [done..|]. split; [apply A2|apply B2].
Qed.

Lemma dlkills_spec i ks : forall d l (s : state),
  dls s !! i = Some d -> dl_is (blks s) d l -> fresh s -> Forall (fun p => is_s64 (addr p)) ks ->
  wp (dlkills newblk i ks) (fun _ s' => exists d' l', killed i d l d' l' s s' /\ ents l' ≡ₚ (addr <$> ks) ++ ents l) s.
Proof.
  induction ks as [|p ks IH]; intros d l s Hi Hd Hf Hks; cbn [dlkills].
  - apply dlwp_ret. exists d, l. split; [by apply killed_refl|done].
  - apply Forall_cons in Hks as [Hp Hks]. apply dlwp_bind.
    eapply dlwp_mono; [by apply (dlkill_spec i d l)|]. intros _ s1 (d1 & l1 & Hk1 & Hpu & _).
    pose proof Hk1 as (E & _ & Hf1 & _ & Hd1 & _). pose proof (lookup_lt_Some _ _ _ Hi) as Hlt.
    eapply dlwp_mono; [apply (IH d1 l1); try done; by rewrite E, list_lookup_insert_eq|].
    intros _ s2 (d2 & l2 & Hk2 & He). exists d2, l2. split; [by eapply killed_trans|].
    rewrite He, (pushed_ents _ _ _ Hpu). cbn. by rewrite Permutation_middle.
Qed.

(** btupsert on the snapshot tree: the tree changes by the messages, and
    fs->snapdl has the tree's own blocks [ks] that were replaced. *)
Definition upserted `{TreeMeans T} (ms : list Msg) (d : Dl) (l : list (Z * list Z)) (s s' : state) : Prop :=
  exists t ks d' l', killed 0 d l d' l' (setsnap t s) s' /\ ents l' ≡ₚ ks ++ ents l /\
    forall key, mrun (kv_at (snap s) key) (for_key key ms) = Ok (kv_at t key).

Lemma snapupsert_spec `{TM : TreeMeans T, !SnapLaws T} ms d l (s : state) :
  dls s !! 0%nat = Some d -> dl_is (blks s) d l -> fresh s -> Forall msg_good ms ->
  (forall key, is_Ok (mrun (kv_at (snap s) key) (for_key key ms))) ->
  wp (snapupsert newblk ms) (fun _ s' => upserted ms d l s s') s.
Proof.
  intros Hi Hd Hf Hg Hr. unfold snapupsert. wps.
  apply wp_lift_full. pose proof (st_upsert_ok (snap s) ms Hg Hr) as Hu.
  destruct (st_upsert (snap s) ms) as [[t ks]|e]; [|done]. destruct Hu as [Hks Ht]. wps. cbn [fst snd].
  eapply dlwp_mono; [apply (dlkills_spec 0 ks d l (setsnap t s)); try done|].
  intros _ s' (d' & l' & Hk & He). exists t, (addr <$> ks), d', l'. done.
Qed.
End Kill.
Arguments fresh {T} A s.
Arguments framed {T} A s s' X.
Arguments grown {T} A s s' l l'.
Arguments killed {T} A i d l d' l' s s'.
Arguments upserted {T} A {TM} ms d l s s' : rename.
