(* ===== verification/Dlist.v ===== *)
(** sys/src/9/gefs/snap.c, the deadlists of a file system: getdl, putdl,
    dlflush, dlsync, killblk, splicedl and freedl are proved against a map from the two
    generations of a deadlist to its blocks ([dinv]), whether it is in the
    cache or in the snapshot tree only. *)

From S2P Require Import Prelude Layout Hash Pack Node Msgs Blk Alloc Dead.

(** * Records of deadlists in the snapshot tree *)

Lemma pack8_inj x y : is_s64 x -> is_s64 y -> pack 8 x = pack 8 y -> x = y.
Proof.
  intros Hx Hy E. pose proof (UNPACK_pack_end 8 x) as Ex. rewrite E, UNPACK_pack_end in Ex.
  apply Ok_inj, (f_equal s64) in Ex. change (8 * Z.of_nat 8) with 64 in Ex. by rewrite !pack64_s64 in Ex.
Qed.

Lemma dlkey_inj g b g' b' : is_s64 g -> is_s64 b -> is_s64 g' -> is_s64 b' ->
  dlkey g b = dlkey g' b' -> (g, b) = (g', b').
Proof.
  intros ? ? ? ? E%(f_equal (drop 1)). change (pack 8 g ++ pack 8 b = pack 8 g' ++ pack 8 b') in E.
  assert (pack 8 g = pack 8 g') as Eg.
  { apply (f_equal (take 8)) in E. by rewrite !take_app_length' in E by (by rewrite length_pack). }
  apply pack8_inj in Eg as ->; [|done..]. apply app_inv_head, pack8_inj in E as ->; done.
Qed.

(** A message that inserts a small value does so whatever there was. *)
Lemma mstep_insert cur m : op m = Oinsert -> kv_small (msg_kvp m) -> mstep cur m = Ok (Some (msg_kvp m)).
Proof.
  intros Ho Hs. destruct cur as [kv|]; cbn [mstep]; [unfold apply|]; rewrite Ho; [|done].
  cbn [Z.eqb Oinsert Odelete Oclearb Oclobber orb]. change (Oinsert =? Odelete) with false.
  change ((Oinsert =? Oclearb) || (Oinsert =? Oclobber)) with false. change (Oinsert =? Oinsert) with true.
  by rewrite cpkvp_small.
Qed.

Lemma mstep_delete kv m : op m = Odelete -> k kv = mk m -> mstep (Some kv) m = Ok None.
Proof.
  intros Ho Hk. cbn [mstep]. unfold apply. rewrite Ho, Hk. change (Odelete =? Odelete) with true.
  cbn match. rewrite keycmp_refl. done.
Qed.

(** The messages that snap.c sends are small. *)
Lemma dlist2kv_Ok d n : Dlkvpsz <= n -> exists v, dlist2kv d n = Ok (mkKvp (dlkey (dgen d) (bgen d)) v) /\ zlen v = 48.
Proof.
  intros Hn. unfold dlist2kv. rewrite check_leb by done. rewrite bind_ok. change Dlkvpsz with 65 in Hn. unfold packbp.
  assert (zlen ([Kdlist] ++ pack 8 (dgen d) ++ pack 8 (bgen d)) = 17) as -> by (by autorewrite with gefs).
  change Ptrsz with 24. rewrite check_leb by lia. rewrite !bind_ok.
  set (h := pack 8 (addr (hd d)) ++ _). assert (zlen h = 24) as Eh by (unfold h; by autorewrite with gefs). rewrite Eh.
  rewrite check_leb by lia. rewrite !bind_ok. eexists. split; [done|]. rewrite zlen_app, Eh. by autorewrite with gefs.
Qed.

Lemma dlmsg_good o g b v : 0 <= o < 128 -> zlen v <= 48 -> msg_good (mkMsg o (dlkey g b) v) /\ kv_small (mkKvp (dlkey g b) v).
Proof.
  intros Ho Hv. assert (zlen (dlkey g b) = 17) as Hk by (unfold dlkey; by autorewrite with gefs).
  assert (kv_small (mkKvp (dlkey g b) v)) as Hs.
  { split; unfold nk, nv; cbn [Layout.k Layout.v]; rewrite ?Hk; change Keymax with 256; change Inlmax with 512; lia. }
  split; [|done]. split; [exact Hs|]. split; [done|]. intros _. split; [exact Hs|]. split; [by intros|]. intros E%bool_decide_eq_true. done.
Qed.

(** * The deadlists of a state *)

(** fs->snapdl and fs->dropdl, or the deadlist of two generations. *)
Abbreviation owner := (nat + Z * Z)%type.
Abbreviation dlmap := (gmap owner (list (Z * list Z))).

Section Lists.
  Context {T : Type} `{SnapTree T} `{TM : TreeMeans T, !SnapLaws T}.
  Context {newblk : nat -> res Mblk} {dlcmax : Z} {A : nat -> Z} `{!Supply newblk A}.
  #[local] Abbreviation state := (dstate (T:=T)).

Definition cached (s : state) (g b : Z) : option nat := find (isdl s g b) (dlbucket s (dlslot dlcmax g b)).

(** The struct Dlist of an owner, if it has one. *)
Definition obj_of (s : state) (o : owner) : option nat :=
  match o with inl n => Some n | inr (g, b) => cached s g b end.

(** The cache: every struct is in the bucket of its generations, once; it is
    on the list of the least recently used unless it is [held]. *)
Record cinv (s : state) (held : list nat) : Prop := {
  ci_bucket h i : i ∈ dlbucket s h -> (2 <= i)%nat /\ exists d, dls s !! i = Some d /\
    h = dlslot dlcmax (dgen (dd d)) (bgen (dd d)) /\ dgen (dd d) <> -1;
  ci_uniq h i j g b : i ∈ dlbucket s h -> j ∈ dlbucket s h -> isdl s g b i = true -> isdl s g b j = true -> i = j;
  ci_nodup h : NoDup (dlbucket s h);
  ci_lru : NoDup (dllru s);
  ci_lru_in i : i ∈ dllru s -> exists h, i ∈ dlbucket s h;
  ci_held h i : i ∈ dlbucket s h -> i ∈ dllru s \/ i ∈ held;
  ci_held_not i : i ∈ held -> i ∉ dllru s
}.

(** The records of deadlists have the keys of deadlists. *)
Definition dlkeys (t : T) : Prop := forall key v, mean t key = Some v -> [Kdlist] `prefix_of` key ->
  exists g b, is_s64 g /\ is_s64 b /\ key = dlkey g b.

(** What the snapshot tree says of a deadlist. *)
Definition saved (t : T) (g b : Z) (e : Dlist) : Prop :=
  exists v, mean t (dlkey g b) = Some v /\ kv2dlist (mkKvp (dlkey g b) v) = Ok e /\ bptr_ok (hd e) /\ bptr_ok (tl e).

Definition same_ends (d e : Dlist) : Prop := addr (hd e) = addr (hd d) /\ addr (tl e) = addr (tl d).

(** A deadlist in the cache; its record is right unless it has a block in
    memory.  A deadlist that is not in the cache is what its record says. *)
Definition in_place (s : state) (g b : Z) (l : list (Z * list Z)) (e : Dlist) : Prop :=
  match cached s g b with
  | Some i => exists d, dls s !! i = Some d /\ dl_is (blks s) d l /\ (dins d = None -> same_ends (dd d) e)
  | None => dl_is (blks s) (mkDl e None) l
  end.

(** A deadlist in the cache whose record has to be written. *)
Definition in_cache (s : state) (g b : Z) (l : list (Z * list Z)) : Prop :=
  exists i d, cached s g b = Some i /\ dls s !! i = Some d /\ dl_is (blks s) d l.

(** The deadlists are [D], and have no block in common: those of structs that
    stand for themselves, as fs->snapdl, and those of two generations.  The
    records of [X] have to be written.  The deadlists of [G] are gone and are
    never asked for again: the cache may still have them. *)
Record dinv (s : state) (D : dlmap) (G X : gset (Z * Z)) : Prop := {
  di_fresh : fresh A s;
  di_snap : exists d, dls s !! 0%nat = Some d /\ dgen (dd d) = -1 /\ is_Some (D !! inl 0%nat);
  di_drop : is_Some (D !! inl 1%nat);
  di_obj n l : D !! inl n = Some l -> exists d, dls s !! n = Some d /\ dl_is (blks s) d l;
  di_two n g b : cached s g b = Some n -> (2 <= n)%nat;
  di_loose n l g b : D !! inl n = Some l -> cached s g b = Some n -> D !! inr (g, b) = None;
  di_key g b l : D !! inr (g, b) = Some l -> is_s64 g /\ is_s64 b /\ g <> -1 /\
    ((g, b) ∈ X /\ in_cache s g b l \/ exists e, saved (snap s) g b e /\ in_place s g b l e);
  di_none g b : is_s64 g -> is_s64 b -> D !! inr (g, b) = None -> (g, b) ∈ X \/ mean (snap s) (dlkey g b) = None;
  di_disj o1 o2 l1 l2 a : D !! o1 = Some l1 -> D !! o2 = Some l2 -> a ∈ l1.*1 -> a ∈ l2.*1 -> o1 = o2;
  di_dead g b : (g, b) ∈ G -> D !! inr (g, b) = None;
  di_lost g b i d : cached s g b = Some i -> D !! inr (g, b) = None -> dls s !! i = Some d ->
    (g, b) ∈ X \/ (g, b) ∈ G /\ dins d = None;
  di_form : dlkeys (snap s)
}.

(** ** Looking things up *)

Lemma isdl_spec (s : state) g b i : isdl s g b i = true <-> exists d, dls s !! i = Some d /\ dgen (dd d) = g /\ Layout.bgen (dd d) = b.
Proof.
  unfold isdl. destruct (dls s !! i) as [d|]; [|naive_solver].
  rewrite andb_true_iff, !Z.eqb_eq. naive_solver.
Qed.

Lemma cached_Some (s : state) g b i : cached s g b = Some i -> i ∈ dlbucket s (dlslot dlcmax g b) /\ isdl s g b i = true.
Proof. intros [Hin Hd]%find_some. split; [by apply list_elem_of_In|done]. Qed.

Lemma cached_in (s : state) held h i g b : cinv s held -> i ∈ dlbucket s h -> isdl s g b i = true -> cached s g b = Some i.
Proof.
  intros Hc Hi Hd. pose proof (ci_bucket _ _ Hc h i Hi) as (_ & d & Ed & -> & _).
  pose proof Hd as (d' & Ed' & <- & <-)%isdl_spec. simplify_eq.
  unfold cached. destruct (find _ _) as [j|] eqn:E.
  - apply find_some in E as [Hj Hd']. f_equal. eapply (ci_uniq _ _ Hc); [by apply list_elem_of_In|done..].
  - apply list_elem_of_In in Hi. pose proof (find_none _ _ E i Hi). congruence.
Qed.

Lemma cached_inj (s : state) g1 b1 g2 b2 i : cached s g1 b1 = Some i -> cached s g2 b2 = Some i -> (g1, b1) = (g2, b2).
Proof.
  intros [_ (d & Ed & <- & <-)%isdl_spec]%cached_Some [_ (d2 & Ed2 & <- & <-)%isdl_spec]%cached_Some. by simplify_eq.
Qed.

(** Two lists are in two structs. *)
Lemma obj_inj (s : state) D G X o1 o2 l1 l2 i : dinv s D G X -> D !! o1 = Some l1 -> D !! o2 = Some l2 ->
  obj_of s o1 = Some i -> obj_of s o2 = Some i -> o1 = o2.
Proof.
  intros Hd L1 L2 H1 H2. destruct o1 as [n1|[g1 b1]], o2 as [n2|[g2 b2]]; cbn in *.
  - congruence.
  - injection H1 as ->. pose proof (di_loose _ _ _ _ Hd _ _ _ _ L1 H2). congruence.
  - injection H2 as ->. pose proof (di_loose _ _ _ _ Hd _ _ _ _ L2 H1). congruence.
  - f_equal. by eapply cached_inj.
Qed.

Lemma obj_list (s : state) D G X o l i : dinv s D G X -> D !! o = Some l -> obj_of s o = Some i ->
  exists d, dls s !! i = Some d /\ dl_is (blks s) d l.
Proof.
  intros Hd Hl Ho. destruct o as [n|[g b]]; cbn in Ho.
  - injection Ho as ->. by eapply di_obj.
  - destruct (di_key _ _ _ _ Hd g b l Hl) as (_ & _ & _ & [[_ (i' & d & E & Hp)]|(e & _ & Hp)]).
    + rewrite Ho in E. injection E as <-. eauto.
    + unfold in_place in Hp. rewrite Ho in Hp. naive_solver.
Qed.

(** Every block of a list is there. *)
Lemma dl_is_blk m d l a : dl_is m d l -> a ∈ l.*1 -> is_Some (m !! a).
Proof.
  intros (_ & _ & _ & Hl) Ha. destruct l as [|x l]; [set_solver|]. destruct x as [a0 es]. destruct Hl as [Hs _].
  revert Hs Ha. generalize (addr (hd (dd d))). revert a0 es. induction l as [|[y e] l IH]; intros a0 es h.
  - intros (_ & b & Hb & _) [->|Hin]%elem_of_cons; [eauto|set_solver].
  - intros (_ & b & Hb & _ & Hs) [->|Hin]%elem_of_cons; [eauto|]. by eapply IH.
Qed.

(** Every list is somewhere. *)
Lemma owner_list (s : state) D G X o l : dinv s D G X -> D !! o = Some l -> exists d, dl_is (blks s) d l.
Proof.
  intros Hd Hl. destruct o as [n|[g b]].
  - destruct (obj_list _ _ _ _ _ _ n Hd Hl) as (d & _ & ?); eauto.
  - destruct (di_key _ _ _ _ Hd g b l Hl) as (_ & _ & _ & [[_ (i & d & _ & _ & Hp)]|(e & _ & Hp)]); [eauto|].
    unfold in_place in Hp. case_match; naive_solver.
Qed.

Lemma new_not_in (s : state) D G X o l n : dinv s D G X -> D !! o = Some l -> (made s <= n)%nat -> A n ∉ l.*1.
Proof.
  intros Hd Hl Hn Hin. destruct (owner_list _ _ _ _ _ _ Hd Hl) as (d & Hdl).
  destruct (dl_is_blk _ _ _ _ Hdl Hin) as [b Hb]. by rewrite (di_fresh _ _ _ _ Hd n Hn) in Hb.
Qed.

Lemma obj_same (s s' : state) i d d' :
  dls s !! i = Some d -> dls s' = <[i := d']> (dls s) -> dgen (dd d') = dgen (dd d) -> Layout.bgen (dd d') = Layout.bgen (dd d) ->
  dlhash s' = dlhash s -> (forall g b j, isdl s' g b j = isdl s g b j) /\ forall g b, cached s' g b = cached s g b.
Proof.
  intros Hi Es Hg Hb Hh. assert (forall g b j, isdl s' g b j = isdl s g b j) as E.
  { intros g b j. unfold isdl. rewrite Es. destruct (decide (j = i)) as [->|Hne].
    - rewrite list_lookup_insert_eq by (by eapply lookup_lt_Some). by rewrite Hi, Hg, Hb.
    - by rewrite list_lookup_insert_ne. }
  split; [done|]. intros g b. unfold cached, dlbucket. rewrite Hh. induction (default [] _) as [|j l IH]; [done|].
  cbn. by rewrite E, IH.
Qed.

(** ** One list grows *)

Lemma killed_cinv (s s' : state) held i d l d' l' :
  cinv s held -> dls s !! i = Some d -> killed A i d l d' l' s s' -> cinv s' held.
Proof.
  intros [C1 C2 C3 C4 C5 C6 C7] Hi (Es & [_ Hh Hl _ _ _] & _ & _ & _ & Hg & Hb).
  destruct (obj_same s s' i d d' Hi Es Hg Hb Hh) as [Eis _].
  assert (forall h, dlbucket s' h = dlbucket s h) as Eb by (intros h; unfold dlbucket; by rewrite Hh).
  constructor; intros *; rewrite ?Eb, ?Hl, ?Eis; eauto.
  - intros (H2 & d0 & Ed & Hx)%C1. split; [done|]. rewrite Es. destruct (decide (i0 = i)) as [->|Hne].
    + simplify_eq. exists d'. rewrite list_lookup_insert_eq by (by eapply lookup_lt_Some). by rewrite Hg, Hb.
    + exists d0. by rewrite list_lookup_insert_ne.
  - intros Hx. destruct (C5 _ Hx) as [h ?]. exists h. by rewrite Eb.
Qed.

Lemma framed_list (s s' : state) X (d : Dl) l :
  framed A s s' X -> dl_is (blks s) d l -> fresh A s -> (forall a, a ∈ l.*1 -> a ∉ X) -> dl_is (blks s') d l.
Proof.
  intros Hf Hd Hfr Hx. eapply dl_is_frame; [done|]. intros a Ha. apply (fr_blks _ _ _ Hf); [by apply Hx|].
  intros n [Hn _] ->. destruct (dl_is_blk _ _ _ _ Hd Ha) as [b Hb]. by rewrite (Hfr n Hn) in Hb.
Qed.

(** What becomes of the struct of another list, and of another list. *)
Lemma killed_other (s s' : state) D G X o i l l' d d' o2 l2 :
  dinv s D G X -> D !! o = Some l -> obj_of s o = Some i -> killed A i d l d' l' s s' ->
  D !! o2 = Some l2 -> o2 <> o ->
  (forall d2, dl_is (blks s) d2 l2 -> dl_is (blks s') d2 l2) /\
  (forall j, obj_of s o2 = Some j -> dls s' !! j = dls s !! j) /\
  (forall a, a ∈ l2.*1 -> a ∉ l'.*1).
Proof.
  intros Hd Hl Ho (Es & Hf & Hfr & Hgr & Hd' & Hg & Hb) Hl2 Hne. split_and!.
  - intros d2 H2. eapply framed_list; [done..|apply Hd|]. intros a Ha Hx. apply Hne. by eapply (di_disj _ _ _ _ Hd).
  - intros j Hj. rewrite Es. apply list_lookup_insert_ne. intros ->. apply Hne. by eapply obj_inj.
  - intros a Ha [Ha'|(n & Hn & ->)]%Hgr; [apply Hne; by eapply (di_disj _ _ _ _ Hd)|].
    eapply (new_not_in s D G X o2 l2 n); [done..|lia|done].
Qed.

(** The list of [o], in the struct [i], goes from [l] to [l']. *)
Lemma killed_dinv (s s' : state) D G X o i l l' d d' :
  dinv s D G X -> D !! o = Some l -> obj_of s o = Some i -> dls s !! i = Some d ->
  killed A i d l d' l' s s' ->
  match o with
  | inl n => forall g b, cached s g b = Some n -> (g, b) ∈ X
  | inr x => is_Some (dins d') \/ x ∈ X
  end -> dinv s' (<[o := l']> D) G X.
Proof.
  intros Hd Hl Ho Hi Hk Hins. pose proof Hk as (Es & Hf & Hfr & Hgr & Hd' & Hg & Hb).
  pose proof (fr_hash _ _ _ Hf) as Hh. pose proof (fr_snap _ _ _ Hf) as Hs.
  destruct (obj_same s s' i d d' Hi Es Hg Hb Hh) as [Eis Eca].
  assert (Hii : dls s' !! i = Some d') by (rewrite Es; apply list_lookup_insert_eq; by eapply lookup_lt_Some).
  pose proof (fun o2 l2 => killed_other s s' D G X o i l l' d d' o2 l2 Hd Hl Ho Hk) as Hoth.
  constructor.
  - done.
  - destruct (di_snap _ _ _ _ Hd) as (d0 & E0 & G0 & [l0 L0]). destruct (decide (o = inl 0%nat)) as [->|Hne].
    + injection Ho as <-. exists d'. rewrite lookup_insert_eq. split_and!; [done|congruence|done].
    + exists d0. rewrite lookup_insert_ne by done. destruct (Hoth _ _ L0) as (_ & Hj & _); [done|]. by rewrite (Hj 0%nat).
  - destruct (di_drop _ _ _ _ Hd) as [l0 L0]. destruct (decide (o = inl 1%nat)) as [->|Hne];
      [by rewrite lookup_insert_eq|by rewrite lookup_insert_ne, L0].
  - intros n l0 [[-> <-]|[Hne H0]]%lookup_insert_Some.
    + injection Ho as <-. eauto.
    + destruct (di_obj _ _ _ _ Hd n l0 H0) as (d0 & E0 & D0). destruct (Hoth _ _ H0) as (Hl0 & Hj & _); [done|].
      exists d0. rewrite (Hj n) by done. auto.
  - intros n g b. rewrite Eca. apply (di_two _ _ _ _ Hd).
  - intros n l0 g b H0. rewrite Eca. intros Hc.
    assert (exists l1, D !! inl n = Some l1) as [l1 L1] by (apply lookup_insert_Some in H0 as [[-> _]|[_ ?]]; eauto).
    pose proof (di_loose _ _ _ _ Hd n l1 g b L1 Hc). apply lookup_insert_None. split; [done|]. intros ->. congruence.
  - intros g b l0 [[-> <-]|[Hne H0]]%lookup_insert_Some; unfold in_place, in_cache; rewrite Eca, Hs.
    + destruct (di_key _ _ _ _ Hd g b l Hl) as (K1 & K2 & K3 & K4). split_and!; try done.
      cbn in Ho. rewrite Ho. destruct K4 as [[K4 K5]|(e & K4 & K5)]; [left; eauto 10|].
      destruct Hins as [[x Hx]|Hx]; [right|left; eauto 10]. exists e. split; [done|]. exists d'. split_and!; congruence || done.
    + destruct (di_key _ _ _ _ Hd g b l0 H0) as (K1 & K2 & K3 & K4). split_and!; try done.
      destruct (Hoth _ _ H0) as (Hl0 & Hj & _); [done|]. cbn in Hj. destruct K4 as [[K4 (j & d0 & K5 & K6 & K7)]|(e & K4 & K5)].
      * left. split; [done|]. exists j, d0. rewrite (Hj j) by done. auto.
      * right. exists e. split; [done|]. unfold in_place in K5. destruct (cached s g b) as [j|]; [|auto].
        destruct K5 as (d0 & E0 & E1 & E2). exists d0. rewrite (Hj j) by done. auto.
  - intros g b Hg0 Hb0 [H0 _]%lookup_insert_None. rewrite Hs. by apply (di_none _ _ _ _ Hd).
  - intros o1 o2 l1 l2 a H1 H2 Ha1 Ha2.
    apply lookup_insert_Some in H1 as [[<- <-]|[N1 H1]]; apply lookup_insert_Some in H2 as [[<- <-]|[N2 H2]]; try done.
    + exfalso. destruct (Hoth _ _ H2) as (_ & _ & Hx); [done|]. by apply (Hx a).
    + exfalso. destruct (Hoth _ _ H1) as (_ & _ & Hx); [done|]. by apply (Hx a).
    + by eapply (di_disj _ _ _ _ Hd).
  - intros g b Hin. pose proof (di_dead _ _ _ _ Hd g b Hin) as E. rewrite lookup_insert_ne; [done|]. intros ->. congruence.
  - intros g b j d0. rewrite Eca. intros Ej [HD Hne]%lookup_insert_None E0.
    destruct (decide (j = i)) as [->|Hji].
    + left. destruct o as [n|[g2 b2]]; cbn in Ho; [injection Ho as ->; auto|].
      exfalso. apply Hne. f_equal. by eapply cached_inj.
    + apply (di_lost _ _ _ _ Hd g b j d0 Ej HD). by rewrite Es, list_lookup_insert_ne in E0.
  - rewrite Hs. apply Hd.
Qed.

(** ** The snapshot tree changes *)

(** Only fs->snapdl and the blocks are different. *)
Record quiet (s s' : state) : Prop := {
  qu_hash : dlhash s' = dlhash s;
  qu_lru : dllru s' = dllru s;
  qu_dls j : j <> 0%nat -> dls s' !! j = dls s !! j;
  qu_len : length (dls s') = length (dls s);
  qu_isdl g b j : isdl s' g b j = isdl s g b j
}.

Lemma quiet_trans s1 s2 s3 : quiet s1 s2 -> quiet s2 s3 -> quiet s1 s3.
Proof. intros [] []. constructor; [congruence|congruence| |congruence|congruence]. intros j Hj. rewrite qu_dls1, qu_dls0; done. Qed.

Lemma quiet_cached s s' g b : quiet s s' -> cached s' g b = cached s g b.
Proof.
  intros Hq. unfold cached, dlbucket. rewrite (qu_hash _ _ Hq). induction (default [] _) as [|j l IH]; [done|].
  cbn. by rewrite (qu_isdl _ _ Hq), IH.
Qed.

Lemma quiet_cinv s s' held : quiet s s' -> cinv s held -> cinv s' held.
Proof.
  intros [Q1 Q2 Q3 Q4 Q5] [C1 C2 C3 C4 C5 C6 C7].
  assert (forall h, dlbucket s' h = dlbucket s h) as Eb by (intros h; unfold dlbucket; by rewrite Q1).
  constructor; intros *; rewrite ?Eb, ?Q2, ?Q5; eauto.
  - intros Hi. destruct (C1 h i Hi) as [? ?]. split; [done|]. by rewrite Q3 by lia.
  - intros (h & ?)%C5. exists h. by rewrite Eb.
Qed.

Lemma killed_quiet (s s' : state) d l d' l' :
  dls s !! 0%nat = Some d -> killed A 0 d l d' l' s s' -> quiet s s'.
Proof.
  intros Hi (Es & Hf & _ & _ & _ & Hg & Hb).
  destruct (obj_same s s' 0 d d' Hi Es Hg Hb (fr_hash _ _ _ Hf)) as [Eis _].
  constructor; [apply Hf|apply Hf| |by rewrite Es, length_insert|done].
  intros j Hj. rewrite Es. by apply list_lookup_insert_ne.
Qed.

(** fs->snapdl has grown. *)
Definition snapgrew (D D' : dlmap) : Prop :=
  exists l l' ks, D !! inl 0%nat = Some l /\ D' = <[inl 0%nat := l']> D /\ ents l' ≡ₚ ks ++ ents l.

Lemma snapgrew_refl D l : D !! inl 0%nat = Some l -> snapgrew D D.
Proof. intros Hl. exists l, l, []. by rewrite insert_id. Qed.

Lemma snapgrew_trans D1 D2 D3 : snapgrew D1 D2 -> snapgrew D2 D3 -> snapgrew D1 D3.
Proof.
  intros (l1 & l2 & k1 & E1 & -> & P1) (l2' & l3 & k2 & E2 & -> & P2). rewrite lookup_insert_eq in E2. simplify_eq.
  exists l1, l3, (k2 ++ k1). rewrite insert_insert_eq. split_and!; try done. by rewrite P2, P1, app_assoc.
Qed.

Lemma snapgrew_ne D D' o : snapgrew D D' -> o <> inl 0%nat -> D' !! o = D !! o.
Proof. intros (l & l' & ks & _ & -> & _) Hne. by apply lookup_insert_ne. Qed.

(** The records of a new snapshot tree. *)
Definition recorded (s : state) (t : T) (D : dlmap) (G X : gset (Z * Z)) : Prop :=
  (forall g b l, D !! inr (g, b) = Some l -> (g, b) ∈ X /\ in_cache s g b l \/ exists e, saved t g b e /\ in_place s g b l e) /\
  (forall g b, is_s64 g -> is_s64 b -> D !! inr (g, b) = None -> (g, b) ∈ X \/ mean t (dlkey g b) = None) /\
  (forall g b i d, cached s g b = Some i -> D !! inr (g, b) = None -> dls s !! i = Some d -> (g, b) ∈ X \/ (g, b) ∈ G /\ dins d = None) /\
  dlkeys t.

Lemma recorded_dinv (s : state) t D G X X' : dinv s D G X -> recorded s t D G X' -> dinv (setsnap t s) D G X'.
Proof.
  intros [I1 I2 I2' I3 I4 I4' I5 I6 I7 I8 I9 I10] (R1 & R2 & R3 & R4). constructor; try done.
  intros g b l Hl. destruct (I5 g b l Hl) as (? & ? & ? & _). split_and!; try done. by apply R1.
Qed.

(** The run of messages that makes the records right. *)
Definition records (s : state) (D : dlmap) (G X : gset (Z * Z)) (ms : list Msg) : Prop :=
  Forall msg_good ms /\ (forall key, is_Ok (mrun (kv_at (snap s) key) (for_key key ms))) /\
  forall t, (forall key, mrun (kv_at (snap s) key) (for_key key ms) = Ok (kv_at t key)) -> recorded s t D G X.

Lemma snapupsert_dinv ms D G X X' (s : state) :
  dinv s D G X -> records s D G X' ms ->
  wp (snapupsert newblk ms) (fun _ s' => (exists D', snapgrew D D' /\ dinv s' D' G X') /\ quiet s s' /\
    forall key, mrun (kv_at (snap s) key) (for_key key ms) = Ok (kv_at (snap s') key)) s.
Proof.
  intros Hd (Hg & Hr & Ht). destruct (di_snap _ _ _ _ Hd) as (d & Ed & _ & [l Hl]).
  destruct (di_obj _ _ _ _ Hd _ _ Hl) as (d1 & Ed1 & Hdl). assert (d1 = d) as -> by congruence.
  eapply dlwp_mono; [apply (snapupsert_spec ms d l s); try done; apply Hd|].
  intros _ s' (t & ks & d' & l' & Hk & He & Hm).
  pose proof (recorded_dinv s t D G X X' Hd (Ht t Hm)) as Hd2. split_and!.
  - exists (<[inl 0%nat := l']> D). split; [by exists l, l', ks|]. eapply (killed_dinv (setsnap t s) s' D G X' (inl 0%nat) 0 l l' d d'); try done.
    intros g b Hc%(di_two _ _ _ _ Hd2). lia.
  - pose proof (killed_quiet (setsnap t s) s' d l d' l' Ed Hk) as [Q1 Q2 Q3 Q4 Q5]. by constructor.
  - destruct Hk as (_ & Hf & _). by rewrite (fr_snap _ _ _ Hf).
Qed.

(** A state that differs in the cache's list and counts only. *)
Lemma dinv_ext (s s' : state) D G X :
  snap s' = snap s -> blks s' = blks s -> made s' = made s -> dls s' = dls s -> dlhash s' = dlhash s ->
  dinv s D G X -> dinv s' D G X.
Proof.
  destruct s, s'. cbn. intros -> -> -> -> -> [I1 I2 I2' I3 I4 I4' I5 I6 I7 I8 I9 I10]. by constructor.
Qed.

(** The messages that write records: for one deadlist, the insert of its
    record; for one that is gone, its delete. *)
Lemma mrun_one cur key m o : mk m = key -> mstep cur m = Ok o -> mrun cur (for_key key [m]) = Ok o.
Proof. intros Hk Hm. unfold for_key. rewrite filter_cons_True, filter_nil by done. cbn. by rewrite Hm. Qed.

Lemma mrun_none cur key m : mk m <> key -> mrun cur (for_key key [m]) = Ok cur.
Proof. intros Hk. unfold for_key. by rewrite filter_cons_False, filter_nil by done. Qed.

Lemma dlist2kv_saved d n kv : is_s64 (dgen d) -> is_s64 (Layout.bgen d) -> bptr_ok (hd d) -> bptr_ok (tl d) ->
  Dlkvpsz <= n -> dlist2kv d n = Ok kv ->
  k kv = dlkey (dgen d) (Layout.bgen d) /\ msg_good (mkMsg Oinsert (k kv) (v kv)) /\ msg_good (mkMsg Odelete (k kv) (v kv)) /\
  (forall cur, mstep cur (mkMsg Oinsert (k kv) (v kv)) = Ok (Some kv)) /\
  forall t, kv_at t (k kv) = Some kv -> saved t (dgen d) (Layout.bgen d) d.
Proof.
  intros H1 H2 H3 H4 Hn E. destruct (dlist2kv_Ok d n Hn) as (v & E' & Hv). rewrite E in E'. injection E' as ->.
  assert (forall o, 0 <= o < 128 -> msg_good (mkMsg o (dlkey (dgen d) (Layout.bgen d)) v)) as Hm by (intros o Ho; apply dlmsg_good; [done|by rewrite Hv]).
  cbn [k Layout.v]. split_and!; [done|apply Hm; unfold Oinsert; lia|apply Hm; unfold Odelete; lia| |].
  - intros cur. apply mstep_insert; [done|]. exact (proj1 (Hm 1 ltac:(lia))).
  - intros t Ht. exists v. split_and!; try done.
    + unfold kv_at in Ht. destruct (mean t _); [by simplify_option_eq|done].
    + by eapply kv2dlist_dlist2kv.
Qed.

Lemma saved_ext (t t' : T) g b e : mean t' (dlkey g b) = mean t (dlkey g b) -> saved t g b e -> saved t' g b e.
Proof. intros E (v & Ev & ?). exists v. by rewrite E. Qed.

Lemma kv_at_mean (t t' : T) key : kv_at t' key = kv_at t key -> mean t' key = mean t key.
Proof. unfold kv_at. destruct (mean t' key), (mean t key); cbn; congruence. Qed.

(** ** getdl *)

(** No list of the cache has a block in memory. *)
Definition flushed (s : state) : Prop := forall h i d, i ∈ dlbucket s h -> dls s !! i = Some d -> dins d = None.

Lemma quiet_flushed s s' held : quiet s s' -> cinv s held -> flushed s -> flushed s'.
Proof.
  intros Hq Hc Hf h i d Hi Hd. unfold dlbucket in Hi. rewrite (qu_hash _ _ Hq) in Hi.
  destruct (ci_bucket _ _ Hc h i Hi) as [H2 _]. rewrite (qu_dls _ _ Hq) in Hd by lia. by eapply Hf.
Qed.

(** A struct for a list, in front of its bucket. *)
Definition added (s : state) (g b : Z) (d : Dl) : state :=
  let h := dlslot dlcmax g b in
  setcache (<[h := length (dls s) :: dlbucket s h]> (dlhash s)) (dllru s) (dlcount s) (setdls (dls s ++ [d]) s).

Lemma added_bucket s g b d h :
  dlbucket (added s g b d) h = if decide (h = dlslot dlcmax g b) then length (dls s) :: dlbucket s h else dlbucket s h.
Proof.
  unfold added, dlbucket. cbn. destruct (decide _) as [->|Hne]; [by rewrite lookup_insert_eq|by rewrite lookup_insert_ne].
Qed.

Lemma added_isdl s g b d g' b' i x : dls s !! i = Some x -> isdl (added s g b d) g' b' i = isdl s g' b' i.
Proof. intros Hx. unfold isdl, added. cbn. by rewrite (lookup_app_l_Some _ _ _ _ Hx), Hx. Qed.

Lemma added_isdl_new s g b d g' b' :
  isdl (added s g b d) g' b' (length (dls s)) = true <-> dgen (dd d) = g' /\ Layout.bgen (dd d) = b'.
Proof.
  rewrite isdl_spec. unfold added. cbn. rewrite list_lookup_middle by done. naive_solver.
Qed.

Lemma added_cached s held g b d : cinv s held -> dgen (dd d) = g -> Layout.bgen (dd d) = b ->
  cached (added s g b d) g b = Some (length (dls s)) /\
  forall g' b', (g', b') <> (g, b) -> cached (added s g b d) g' b' = cached s g' b'.
Proof.
  intros Hc Hg Hb. split; [|intros g' b' Hne]; unfold cached; rewrite added_bucket.
  - rewrite decide_True by done. cbn [find]. by rewrite (proj2 (added_isdl_new s g b d g b)).
  - assert (forall l, (forall i, i ∈ l -> exists h, i ∈ dlbucket s h) ->
      find (isdl (added s g b d) g' b') l = find (isdl s g' b') l) as Hf.
    { induction l as [|i l IH]; intros Hl; [done|]. cbn [find]. destruct (Hl i) as [h Hi]; [set_solver|].
      destruct (ci_bucket _ _ Hc h i Hi) as (_ & x & Hx & _). rewrite (added_isdl _ _ _ _ _ _ _ _ Hx), IH; [done|set_solver]. }
    case_decide; [|apply Hf; eauto]. cbn [find].
    destruct (isdl (added s g b d) g' b' (length (dls s))) eqn:E; [|apply Hf; eauto].
    apply added_isdl_new in E as [<- <-]. congruence.
Qed.

Lemma added_cinv s held g b d : cinv s held -> dgen (dd d) = g -> Layout.bgen (dd d) = b -> g <> -1 ->
  cached s g b = None -> (2 <= length (dls s))%nat -> cinv (added s g b d) (length (dls s) :: held).
Proof.
  intros Hc Hg Hb Hg1 Hn H2. pose proof Hc as [C1 C2 C3 C4 C5 C6 C7].
  assert (Hlt : forall h i, i ∈ dlbucket s h -> (i < length (dls s))%nat).
  { intros h i (_ & x & Hx & _)%C1. by eapply lookup_lt_Some. }
  assert (Hin : forall h i, i ∈ dlbucket (added s g b d) h -> i = length (dls s) /\ h = dlslot dlcmax g b \/ i ∈ dlbucket s h).
  { intros h i. rewrite added_bucket. case_decide; [|by right]. intros [->|?]%elem_of_cons; [by left|by right]. }
  assert (Hnew' : forall h i g' b', i ∈ dlbucket s h -> isdl s g' b' i = true ->
     isdl (added s g b d) g' b' (length (dls s)) = true -> False).
  { intros h i g' b' Hi Hd [E1 E2]%added_isdl_new. pose proof (cached_in s held h i g' b' Hc Hi Hd). congruence. }
  constructor.
  - intros h i [[-> ->]|Hi]%Hin.
    + split; [done|]. exists d. unfold added. cbn. rewrite list_lookup_middle by done. by rewrite Hg, Hb.
    + destruct (C1 h i Hi) as (? & x & Hx & ?). split; [done|]. exists x. unfold added. cbn. by rewrite (lookup_app_l_Some _ _ _ _ Hx).
  - intros h i j g' b' [[-> Eh]|Hi]%Hin [[-> Eh']|Hj]%Hin Di Dj; [done| | |].
    + destruct (C1 h j Hj) as (_ & x & Hx & _). rewrite (added_isdl _ _ _ _ _ _ _ _ Hx) in Dj. by destruct (Hnew' h j g' b').
    + destruct (C1 h i Hi) as (_ & x & Hx & _). rewrite (added_isdl _ _ _ _ _ _ _ _ Hx) in Di. by destruct (Hnew' h i g' b').
    + destruct (C1 h i Hi) as (_ & x & Hx & _), (C1 h j Hj) as (_ & y & Hy & _).
      rewrite (added_isdl _ _ _ _ _ _ _ _ Hx) in Di. rewrite (added_isdl _ _ _ _ _ _ _ _ Hy) in Dj. by eapply C2.
  - intros h. rewrite added_bucket. case_decide; [|done]. apply NoDup_cons. split; [|done]. intros Hi%Hlt. lia.
  - done.
  - intros i (h & Hi)%C5. exists h. rewrite added_bucket. case_decide; [by right|done].
  - intros h i [[-> _]|Hi]%Hin; [right; by left|]. destruct (C6 h i Hi); [by left|right; by right].
  - intros i [->|Hi]%elem_of_cons; [|by apply C7]. cbn. intros (h & Hi%Hlt)%C5. lia.
Qed.

Lemma added_dinv s held D G X g b d l : cinv s held -> dinv s D G X -> dgen (dd d) = g -> Layout.bgen (dd d) = b ->
  (2 <= length (dls s))%nat -> D !! inr (g, b) = Some l -> cached s g b = None ->
  dl_is (blks s) d l -> (forall e, saved (snap s) g b e -> same_ends (dd d) e) -> dinv (added s g b d) D G X.
Proof.
  intros Hc Hd Hg Hb H2 Hl Hn Hdl He. destruct (added_cached s held g b d Hc Hg Hb) as [Ec Eo].
  assert (Hlk : forall i x, dls s !! i = Some x -> dls (added s g b d) !! i = Some x) by (intros; by apply lookup_app_l_Some).
  assert (Hdl' : dls (added s g b d) !! length (dls s) = Some d) by (cbn; by apply list_lookup_middle).
  destruct Hd as [I1 I2 I2' I3 I4 I4' I5 I6 I7 I8 I9 I10]. constructor.
  - done.
  - destruct I2 as (d0 & E0 & ?). exists d0. auto.
  - done.
  - intros n l0 (d0 & E0 & ?)%I3. exists d0. auto.
  - intros n g' b'. destruct (decide ((g', b') = (g, b))) as [[= -> ->]|Hne]; [rewrite Ec; by intros [= <-]|rewrite Eo by done; apply I4].
  - intros n l0 g' b' Hn0. destruct (decide ((g', b') = (g, b))) as [[= -> ->]|Hne].
    + rewrite Ec. intros [= <-]. destruct (I3 _ _ Hn0) as (x & Hx%lookup_lt_Some & _). lia.
    + rewrite Eo by done. by eapply I4'.
  - intros g' b' l0 H0. destruct (I5 g' b' l0 H0) as (K1 & K2 & K3 & K4). split_and!; try done.
    unfold in_cache, in_place in *. destruct (decide ((g', b') = (g, b))) as [[= -> ->]|Hne].
    + rewrite Ec. rewrite Hl in H0. injection H0 as <-. destruct K4 as [[_ (i & x & ? & _)]|(e & Hs & _)]; [congruence|].
      right. exists e. split; [done|]. exists d. split_and!; try done. auto.
    + rewrite Eo by done. destruct K4 as [[HX (i & x & ? & Hx & ?)]|(e & Hs & Hp)]; [left; split; [done|]; exists i, x; auto|].
      right. exists e. split; [done|]. destruct (cached s g' b'); [|done]. destruct Hp as (x & Hx & ?). exists x. auto.
  - done.
  - done.
  - done.
  - intros g' b' i x. destruct (decide ((g', b') = (g, b))) as [[= -> ->]|Hne]; [congruence|]. rewrite Eo by done.
    intros Hc' HD Hx. apply (I9 g' b' i x Hc' HD). pose proof (cached_Some _ _ _ _ Hc') as [Hi _].
    destruct (ci_bucket _ _ Hc _ _ Hi) as (_ & y & Hy & _). specialize (Hlk _ _ Hy). congruence.
  - done.
Qed.

Lemma unlru_cinv s held i h n : cinv s held -> i ∈ dlbucket s h ->
  cinv (setcache (dlhash s) (filter (fun j => j <> i) (dllru s)) n s) (i :: held).
Proof.
  intros [C1 C2 C3 C4 C5 C6 C7] Hi. constructor; try done.
  - cbn. by apply NoDup_filter.
  - cbn. intros j [_ Hj]%list_elem_of_filter. by apply C5.
  - cbn. intros h' j Hj. destruct (decide (j = i)) as [->|Hne]; [right; by left|].
    destruct (C6 h' j Hj); [left; by apply list_elem_of_filter|right; by right].
  - cbn. intros j [->|Hj]%elem_of_cons [? Hin]%list_elem_of_filter; [done|]. by apply (C7 j).
Qed.

(** The new list has a record, and no blocks. *)
Lemma dinv_newkey s D G g b e : dinv s D G {[(g, b)]} -> is_s64 g -> is_s64 b -> g <> -1 -> (g, b) ∉ G ->
  D !! inr (g, b) = None -> cached s g b = None -> saved (snap s) g b e -> addr (hd e) = -1 -> addr (tl e) = -1 ->
  dinv s (<[inr (g, b) := []]> D) G ∅.
Proof.
  intros [I1 I2 I2' I3 I4 I4' I5 I6 I7 I8 I9 I10] Hg Hb Hg1 HG Hn Hc He Hh Ht.
  assert (Hempty : forall m, dl_is m (mkDl e None) []).
  { intros m. destruct He as (? & ? & ? & ? & ?). split_and!; try done. constructor. }
  constructor; try done.
  - destruct I2 as (d & ? & ? & ?). exists d. by rewrite lookup_insert_ne.
  - by rewrite lookup_insert_ne.
  - intros n l. rewrite lookup_insert_ne by done. apply I3.
  - intros n l g' b'. rewrite lookup_insert_ne by done. intros Hl Hc'. rewrite lookup_insert_ne; [by eapply I4'|congruence].
  - intros g' b' l [[[= <- <-] <-]|[Hne Hl]]%lookup_insert_Some.
    + split_and!; try done. right. exists e. split; [done|]. unfold in_place. rewrite Hc. apply Hempty.
    + destruct (I5 g' b' l Hl) as (? & ? & ? & [[HX _]|?]); [set_solver|]. auto.
  - intros g' b' ? ? [Hl Hne]%lookup_insert_None. destruct (I6 g' b') as [HX|?]; try done; [set_solver|auto].
  - intros o1 o2 l1 l2 a [[<- <-]|[_ H1]]%lookup_insert_Some [[<- <-]|[_ H2]]%lookup_insert_Some; try done; [set_solver..|by eapply I7].
  - intros g' b' Hin. rewrite lookup_insert_ne; [by apply I8|]. intros [= -> ->]. done.
  - intros g' b' i d Hc' [Hl Hne]%lookup_insert_None Hd. destruct (I9 g' b' i d Hc' Hl Hd) as [HX|?]; [set_solver|auto].
Qed.

(** A list may have no record yet. *)
Definition ensure (D : dlmap) (g b : Z) : dlmap :=
  match D !! inr (g, b) with Some _ => D | None => <[inr (g, b) := []]> D end.

Lemma ensure_inl D g b n : ensure D g b !! inl n = D !! inl n.
Proof. unfold ensure. case_match; [done|]. by rewrite lookup_insert_ne. Qed.

Lemma snapgrew_ensure D D' g b : snapgrew D D' -> snapgrew (ensure D g b) (ensure D' g b).
Proof.
  intros (l & l' & ks & Hl & -> & He). exists l, l', ks. rewrite ensure_inl. split_and!; try done.
  unfold ensure. rewrite lookup_insert_ne by done. case_match; [done|]. by rewrite insert_insert_ne.
Qed.

Lemma newdl_Ok g b : exists v, dlist2kv (dd (newdl g b)) Dlkvpsz = Ok (mkKvp (dlkey g b) v) /\ zlen v = 48.
Proof. by apply dlist2kv_Ok. Qed.

Lemma kv2dlist_gens g b v e : is_s64 g -> is_s64 b -> kv2dlist (mkKvp (dlkey g b) v) = Ok e -> dgen e = g /\ Layout.bgen e = b.
Proof.
  intros Hg Hb. unfold kv2dlist, dlkey. cbn [k].
  change (drop 1 ([Kdlist] ++ pack 8 g ++ pack 8 b)) with (pack 8 g ++ pack 8 b). rewrite UNPACK_pack, bind_ok, drop_pack, UNPACK_pack_end, bind_ok.
  change (8 * Z.of_nat 8) with 64. rewrite !pack64_s64 by done. intros H0. inv_ok. by subst.
Qed.

(** What asking for a list does: it is in the cache, held; it may be new. *)
Definition gotdl (s : state) (D : dlmap) (G : gset (Z * Z)) (held : list nat) (g b : Z) (i : nat) (s' : state) : Prop :=
  (exists D', snapgrew (ensure D g b) D' /\ dinv s' D' G ∅) /\ cinv s' (i :: held) /\ cached s' g b = Some i /\
  (forall g' b', (g', b') <> (g, b) -> cached s' g' b' = cached s g' b') /\ (flushed s -> flushed s').

Lemma dlcachedel_false i d (Q : unit -> state -> Prop) (s : state) : dls s !! i = Some d ->
  Q tt (setcache (dlhash s) (filter (fun j => j <> i) (dllru s)) (dlcount s) s) -> wp (dlcachedel dlcmax i false) Q s.
Proof. intros Hd HQ. unfold dlcachedel. wps. apply (dlget_spec i d); [done|]. wps. exact HQ. Qed.

Lemma saved_inj t g b e e' : saved t g b e -> saved t g b e' -> e = e'.
Proof. intros (v & E & E1 & _) (v' & E' & E1' & _). simplify_eq. congruence. Qed.

Lemma dinv_two s D G X : dinv s D G X -> (2 <= length (dls s))%nat.
Proof.
  intros Hd. destruct (di_drop _ _ _ _ Hd) as [l Hl]. destruct (di_obj _ _ _ _ Hd _ _ Hl) as (d & E%lookup_lt_Some & _). lia.
Qed.

(** The list gets its struct. *)
Lemma added_got s s0 D D' G held g b d l :
  cinv s held -> dinv s D' G ∅ -> snapgrew (ensure D g b) D' -> D' !! inr (g, b) = Some l ->
  dgen (dd d) = g -> Layout.bgen (dd d) = b -> g <> -1 -> dins d = None -> cached s g b = None ->
  (forall g b, cached s g b = cached s0 g b) -> (flushed s0 -> flushed s) ->
  (forall e, saved (snap s) g b e -> dl_is (blks s) (mkDl e None) l -> dl_is (blks s) d l /\ same_ends (dd d) e) ->
  gotdl s0 D G held g b (length (dls s)) (added s g b d).
Proof.
  intros Hc Hd Hgr Hl Hg Hb Hg1 Hi Hn Hca Hfl He. pose proof (dinv_two _ _ _ _ Hd) as H2.
  destruct (di_key _ _ _ _ Hd g b l Hl) as (_ & _ & _ & [[[]%not_elem_of_empty _]|(e & Hs & Hp)]).
  unfold in_place in Hp. rewrite Hn in Hp. destruct (He e Hs Hp) as [Hdl He'].
  destruct (added_cached s held g b d Hc Hg Hb) as [Ec Eo].
  split_and!; [|by apply added_cinv|done| |].
  - exists D'. split; [done|]. eapply added_dinv; [done..|]. intros e' Hs'. by rewrite (saved_inj _ _ _ _ _ Hs' Hs).
  - intros g' b' Hne. by rewrite Eo.
  - intros Hf%Hfl h j x. rewrite added_bucket. unfold added. cbn [setcache setdls dls]. intros Hj Hx.
    assert (j = length (dls s) \/ j ∈ dlbucket s h) as [->|Hj'] by (case_decide; [apply elem_of_cons in Hj|]; auto).
    + rewrite list_lookup_middle in Hx by done. by injection Hx as <-.
    + destruct (ci_bucket _ _ Hc h j Hj') as (_ & y & Hy & _). rewrite (lookup_app_l_Some _ _ _ _ Hy) in Hx. simplify_eq. by eapply Hf.
Qed.

(** A record is written. *)
Lemma records_insert s D G X X' d n kv :
  dinv s D G X -> is_s64 (dgen d) -> is_s64 (Layout.bgen d) -> bptr_ok (hd d) -> bptr_ok (tl d) ->
  Dlkvpsz <= n -> dlist2kv d n = Ok kv -> (forall x, x ∈ X -> x = (dgen d, Layout.bgen d) \/ x ∈ X') ->
  (forall l, D !! inr (dgen d, Layout.bgen d) = Some l -> in_place s (dgen d) (Layout.bgen d) l d) ->
  (D !! inr (dgen d, Layout.bgen d) = None -> (dgen d, Layout.bgen d) ∈ X') ->
  records s D G X' [mkMsg Oinsert (k kv) (v kv)].
Proof.
  intros Hd H1 H2 H3 H4 Hn E HX Hp Hx. destruct (dlist2kv_saved d n kv H1 H2 H3 H4 Hn E) as (Hk & Hg & _ & Hm & Hs).
  set (m := mkMsg _ _ _) in *. assert (Hrun : forall key, mrun (kv_at (snap s) key) (for_key key [m]) = Ok (if decide (k kv = key) then Some kv else kv_at (snap s) key)).
  { intros key. case_decide as Hkey; [by apply mrun_one|by apply mrun_none]. }
  split; [by apply Forall_singleton|]. split; [intros key; rewrite Hrun; by eexists|]. intros t Ht.
  assert (Hsame : forall g b, is_s64 g -> is_s64 b -> (g, b) <> (dgen d, Layout.bgen d) -> mean t (dlkey g b) = mean (snap s) (dlkey g b)).
  { intros g b ? ? Hne. specialize (Ht (dlkey g b)). rewrite Hrun in Ht. apply Ok_inj in Ht. rewrite decide_False in Ht.
    - symmetry. by apply kv_at_mean.
    - rewrite Hk. intros E'%dlkey_inj; done. }
  assert (Hthis : saved t (dgen d) (Layout.bgen d) d).
  { apply Hs. specialize (Ht (k kv)). rewrite Hrun, decide_True in Ht by done. congruence. }
  split_and!.
  - intros g b l Hl. destruct (di_key _ _ _ _ Hd g b l Hl) as (K1 & K2 & K3 & K4).
    destruct (decide ((g, b) = (dgen d, Layout.bgen d))) as [[= -> ->]|Hne]; [right; eauto|].
    destruct K4 as [[KX ?]|(e & ? & ?)]; [left; split; [|done]; by destruct (HX _ KX)|].
    right. exists e. split; [|done]. eapply saved_ext; [|done]. by apply Hsame.
  - intros g b ? ? Hl. destruct (decide ((g, b) = (dgen d, Layout.bgen d))) as [[= -> ->]|Hne]; [auto|].
    rewrite Hsame by done. destruct (di_none _ _ _ _ Hd g b) as [KX|?]; try done; [|auto]. left. by destruct (HX _ KX).
  - intros g b i x Hc Hl Hxx. destruct (di_lost _ _ _ _ Hd g b i x Hc Hl Hxx) as [KX|?]; [|auto].
    left. destruct (HX _ KX) as [[= -> ->]|?]; auto.
  - intros key w Hw Hpre. destruct (decide (k kv = key)) as [<-|Hne]; [rewrite Hk; eauto|].
    eapply (di_form _ _ _ _ Hd key w); [|done]. specialize (Ht key). rewrite Hrun, decide_False in Ht by done.
    by rewrite (kv_at_mean t (snap s)) by congruence.
Qed.

Lemma getdl_spec s D G held g b :
  cinv s held -> dinv s D G ∅ -> is_s64 g -> is_s64 b -> g <> -1 -> (g, b) ∉ G ->
  wp (getdl newblk dlcmax g b) (fun i s' => gotdl s D G held g b i s') s.
Proof.
  intros Hc Hd Hg Hb Hg1 HG. destruct (di_snap _ _ _ _ Hd) as (_ & _ & _ & [l0 Hl0]). unfold getdl, dlcacheget. wps.
  change (find _ _) with (cached s g b). destruct (cached s g b) as [i|] eqn:Eg.
  { (* in the cache *)
    pose proof (cached_Some _ _ _ _ Eg) as [Hi _]. destruct (ci_bucket _ _ Hc _ _ Hi) as (_ & d & Ed & _).
    wps. apply (dlcachedel_false i d); [done|]. wps. split_and!; try done.
    - exists D. split; [|eapply dinv_ext; [..|exact Hd]; done]. unfold ensure.
      destruct (D !! inr (g, b)) eqn:El; [by eapply snapgrew_refl|]. destruct (di_lost _ _ _ _ Hd g b i d Eg El Ed) as [[]%not_elem_of_empty|[? _]]. done.
    - by eapply unlru_cinv. }
  wps. unfold addcount. wps. set (s1 := setcache (dlhash s) (dllru s) (dlcount s + 1) s).
  assert (Hd1 : dinv s1 D G ∅) by (eapply dinv_ext; [..|exact Hd]; done).
  assert (Hc1 : cinv s1 held) by (by destruct Hc; constructor).
  apply (wp_lift _ (kv_at (snap s) (dlkey g b))); [by apply st_lookup_ok|]. cbn beta.
  destruct (D !! inr (g, b)) as [l|] eqn:El.
  - (* in the snapshot tree *)
    destruct (di_key _ _ _ _ Hd g b l El) as (_ & _ & _ & [[[]%not_elem_of_empty _]|(e & (v & Ev & Ee & He) & Hp)]).
    unfold kv_at. rewrite Ev. cbn [fmap option_fmap option_map]. wps. apply (wp_lift _ e); [done|]. wps.
    destruct (kv2dlist_gens g b v e Hg Hb Ee) as [G1 G2].
    change (gotdl s D G held g b (length (dls s1)) (added s1 g b (mkDl e None))).
    eapply (added_got s1 s D D G held g b (mkDl e None) l); try done.
    + unfold ensure. rewrite El. by eapply snapgrew_refl.
    + intros e' (v' & Ev' & Ee' & _) Hp'. change (snap s1) with (snap s) in Ev'. assert (e' = e) as -> by congruence. done.
  - (* a new list *)
    destruct (di_none _ _ _ _ Hd g b Hg Hb El) as [[]%not_elem_of_empty|Hm]. unfold kv_at. rewrite Hm. cbn [fmap option_fmap option_map].
    destruct (newdl_Ok g b) as (v & Ekv & Hv). wps. apply (wp_lift _ _ _ _ Ekv). wps. cbn [k Layout.v].
    eapply dlwp_mono.
    { apply (snapupsert_dinv _ D G ∅ {[(g, b)]} s1 Hd1).
      apply (records_insert s1 D G ∅ {[(g, b)]} (dd (newdl g b)) Dlkvpsz (mkKvp (dlkey g b) v)); cbn; try done; set_solver. }
    intros _ s2 ((D' & Hgr & Hd2) & Hq & Hrun). wps.
    assert (Hs2 : saved (snap s2) g b (dd (newdl g b))).
    { destruct (dlist2kv_saved (dd (newdl g b)) Dlkvpsz (mkKvp (dlkey g b) v)) as (_ & _ & _ & Hms & Hsv); cbn; try done.
      apply Hsv. specialize (Hrun (dlkey g b)). erewrite mrun_one in Hrun; [|done|apply Hms]. cbn [k] in *. congruence. }
    assert (Hn2 : cached s2 g b = None) by (by rewrite (quiet_cached _ _ _ _ Hq)).
    assert (El' : D' !! inr (g, b) = None) by (by rewrite (snapgrew_ne _ _ _ Hgr)).
    change (gotdl s D G held g b (length (dls s2)) (added s2 g b (newdl g b))).
    eapply (added_got s2 s D (<[inr (g, b) := []]> D') G held g b (newdl g b) []); try done.
    + by eapply quiet_cinv.
    + by eapply dinv_newkey.
    + pose proof (snapgrew_ensure D D' g b Hgr) as He. unfold ensure at 2 in He. by rewrite El' in He.
    + by rewrite lookup_insert_eq.
    + intros g' b'. by rewrite (quiet_cached _ _ _ _ Hq).
    + intros Hf. eapply (quiet_flushed s1); [done..|]. exact Hf.
    + intros e Hs. by rewrite (saved_inj _ _ _ _ _ Hs Hs2).
Qed.

(** ** Killing a block *)

Lemma killed_cached (s s' : state) i d l d' l' g b :
  dls s !! i = Some d -> killed A i d l d' l' s s' -> cached s' g b = cached s g b.
Proof. intros Hi (Es & Hf & _ & _ & _ & Hg & Hb). by destruct (obj_same s s' i d d' Hi Es Hg Hb (fr_hash _ _ _ Hf)). Qed.

Lemma dlkill_dinv s D G X held o l i p :
  cinv s held -> dinv s D G X -> D !! o = Some l -> obj_of s o = Some i ->
  (forall n g b, o = inl n -> cached s g b = Some n -> (g, b) ∈ X) -> is_s64 (addr p) ->
  wp (dlkill newblk i p) (fun _ s' => exists l', ents l' ≡ₚ addr p :: ents l /\ dinv s' (<[o := l']> D) G X /\
    cinv s' held /\ forall g b, cached s' g b = cached s g b) s.
Proof.
  intros Hc Hd Hl Ho Hx Hp. destruct (obj_list _ _ _ _ _ _ _ Hd Hl Ho) as (d & Ed & Hdl).
  eapply dlwp_mono; [apply (dlkill_spec i d l p s); try done; apply Hd|].
  intros _ s' (d' & l' & Hk & Hpu & Hi). exists l'. split_and!; [by apply pushed_ents| |by eapply killed_cinv|].
  - eapply killed_dinv; [done..|]. destruct o as [n|x]; [|by left]. intros g b. by apply Hx.
  - intros g b. by eapply killed_cached.
Qed.

(** ** Writing a list out *)

Lemma dinv_weaken s D G X X' : dinv s D G X -> X ⊆ X' -> dinv s D G X'.
Proof.
  intros [I1 I2 I2' I3 I4 I4' I5 I6 I7 I8 I9 I10] HX. constructor; try done.
  - intros g b l Hl. destruct (I5 g b l Hl) as (? & ? & ? & [[? ?]|?]); split_and!; auto.
  - intros g b ? ? Hl. destruct (I6 g b); auto.
  - intros g b i d Hc Hl Hi. destruct (I9 g b i d Hc Hl Hi); auto.
Qed.

(** The block in memory is queued. *)
Lemma dlflush_killed i d l (Q : unit -> state -> Prop) (s : state) :
  dls s !! i = Some d -> dl_is (blks s) d l -> fresh A s -> is_Some (dins d) ->
  (forall s1 d', killed A i d l d' l s s1 -> dins d' = None ->
     wp (if dgen (dd d') =? -1 then mret tt else kv ← lift (dlist2kv (dd d') 512); snapupsert newblk [mkMsg Oinsert (k kv) (v kv)]) Q s1) ->
  wp (dlflush newblk i) Q s.
Proof.
  intros Hi Hd Hf [a Ea] HQ. unfold dlflush. wps. apply (dlget_spec i d); [done|]. rewrite Ea.
  pose proof Hd as (H1 & H2 & H3 & Hl). destruct l as [|[a0 es] l]; [naive_solver|]. destruct Hl as [Hs Hin].
  destruct (Hin a Ea) as (-> & b & Hb & Ho). pose proof Hs as (Eh & b1 & Hb1 & Hdb & _). assert (b1 = b) as -> by congruence.
  wps. apply (blkat_spec _ b); [done|]. wps. eapply denqueue_spec; [exact Hb|exact Hdb|done|].
  intros b' Hdb' Hlp. unfold dlset. wps. rewrite (db_addr _ _ _ Hdb).
  set (d' := with_ends d (bp (mb b)) (if addr (tl (dd d)) =? a0 then bp (mb b) else tl (dd d)) None).
  apply (HQ _ d'); [|done].
  cbn [fmap list_fmap fst] in H3. apply NoDup_cons in H3 as [Hn H3].
  assert (Hends : addr (hd (dd d')) = a0 /\ addr (tl (dd d')) = addr (tl (dd d))).
  { unfold d'. cbn. rewrite (db_addr _ _ _ Hdb). split; [done|]. destruct (Z.eqb_spec (addr (tl (dd d))) a0) as [->|]; [by eapply db_addr|done]. }
  split_and!; cbn [setdls addio setblks blks made io dls snap dlhash dllru dlcount]; try done.
  - constructor; try done. intros x Hx _. cbn. apply lookup_insert_ne. set_solver.
  - intros n Hn'. cbn in *. rewrite lookup_insert_ne; [by apply Hf|]. intros ->. by rewrite Hf in Hb.
  - intros x Hx. by left.
  - destruct Hends as [E1 E2]. refine (conj _ (conj _ (conj _ (conj _ _)))).
    + apply Hdb.
    + unfold d'. cbn. destruct (_ =? _); [apply Hdb|done].
    + cbn. by constructor.
    + rewrite E1, E2. rewrite Eh in Hs. eapply dlseg_head; [done..|by rewrite Hlp|done].
    + done.
Qed.

Lemma dlflush_none i d (Q : unit -> state -> Prop) (s : state) :
  dls s !! i = Some d -> dins d = None -> Q tt s -> wp (dlflush newblk i) Q s.
Proof. intros Hi Hd HQ. unfold dlflush. wps. apply (dlget_spec i d); [done|]. rewrite Hd. by wps. Qed.

(** What a flush of the struct [i] leaves. *)
Definition flushes (s : state) (D : dlmap) (G : gset (Z * Z)) (held : list nat) (i : nat) (s' : state) : Prop :=
  (exists D', snapgrew D D' /\ dinv s' D' G ∅) /\ cinv s' held /\ dllru s' = dllru s /\ dlhash s' = dlhash s /\
  (forall g b, cached s' g b = cached s g b) /\
  (exists d', dls s' !! i = Some d' /\ dins d' = None) /\ forall j, j <> i -> j <> 0%nat -> dls s' !! j = dls s !! j.

Lemma killed_ends (s s' : state) i d l d' l' : killed A i d l d' l' s s' -> dls s !! i = Some d ->
  dls s' !! i = Some d' /\ dl_is (blks s') d' l' /\ bptr_ok (hd (dd d')) /\ bptr_ok (tl (dd d')) /\
  dgen (dd d') = dgen (dd d) /\ Layout.bgen (dd d') = Layout.bgen (dd d).
Proof.
  intros (Es & _ & _ & _ & Hd & ? & ?) Hi. split; [rewrite Es; apply list_lookup_insert_eq; by eapply lookup_lt_Some|].
  split_and!; try done; apply Hd.
Qed.

Lemma dlflush_spec s D G held g b i :
  cinv s held -> dinv s D G ∅ -> cached s g b = Some i ->
  wp (dlflush newblk i) (fun _ s' => flushes s D G held i s') s.
Proof.
  intros Hc Hd Hi. destruct (di_snap _ _ _ _ Hd) as (_ & _ & _ & [l0 Hl0]).
  pose proof (cached_Some _ _ _ _ Hi) as [_ (d & Ed & <- & <-)%isdl_spec].
  destruct (dins d) as [a|] eqn:Ea.
  2: { apply (dlflush_none i d); [done..|]. split_and!; eauto. exists D. split; [by eapply snapgrew_refl|done]. }
  destruct (D !! inr (dgen (dd d), Layout.bgen (dd d))) as [l|] eqn:El.
  2: { destruct (di_lost _ _ _ _ Hd _ _ i d Hi El Ed) as [[]%not_elem_of_empty|[_ ?]]. congruence. }
  destruct (obj_list s D G ∅ (inr _) l i Hd El Hi) as (d1 & Ed1 & Hdl). assert (d1 = d) as -> by congruence.
  destruct (di_key _ _ _ _ Hd _ _ l El) as (K1 & K2 & K3 & _).
  apply (dlflush_killed i d l); [done|done|apply Hd|by rewrite Ea|].
  intros s1 d' Hk Hn. destruct (killed_ends _ _ _ _ _ _ _ Hk Ed) as (Ed' & Hdl' & Hh & Ht & G1 & G2).
  rewrite G1, (proj2 (Z.eqb_neq _ _)) by done.
  set (x := (dgen (dd d), Layout.bgen (dd d))) in *.
  assert (Hd1 : dinv s1 D G {[x]}).
  { pose proof (killed_dinv s s1 D G {[x]} (inr x) i l l d d') as Hkd. rewrite (insert_id D (inr x) l El) in Hkd.
    apply Hkd; try done; [eapply dinv_weaken; [exact Hd|set_solver]|right; set_solver]. }
  destruct (dlist2kv_Ok (dd d') 512) as (v & Ekv & Hv); [done|]. rewrite G1, G2 in Ekv. wps. apply (wp_lift _ _ _ _ Ekv).
  eapply dlwp_mono.
  { apply (snapupsert_dinv _ D G {[x]} ∅ s1 Hd1). eapply (records_insert s1 D G {[x]} ∅ (dd d') 512 _ Hd1); rewrite ?G1, ?G2; try done.
    - intros y ->%elem_of_singleton. by left.
    - intros l' El'. change (D !! inr x = Some l') in El'. assert (l' = l) as -> by congruence. unfold in_place. rewrite (killed_cached _ _ _ _ _ _ _ _ _ Ed Hk), Hi. by exists d'.
    - intros El'. change (D !! inr x = None) in El'. congruence. }
  intros _ s' ((D' & Hgr & Hd') & Hq & _). pose proof Hk as (Es & Hf & _). split_and!.
  - eauto.
  - eapply quiet_cinv; [done|]. by eapply killed_cinv.
  - rewrite (qu_lru _ _ Hq). apply Hf.
  - rewrite (qu_hash _ _ Hq). apply Hf.
  - intros g b. rewrite (quiet_cached _ _ _ _ Hq). by eapply killed_cached.
  - exists d'. split; [|done]. rewrite (qu_dls _ _ Hq); [done|]. pose proof (di_two _ _ _ _ Hd _ _ _ Hi). lia.
  - intros j Hj H0. rewrite (qu_dls _ _ Hq), Es by done. by apply list_lookup_insert_ne.
Qed.

(** ** Leaving the cache *)

Lemma unchain_filter f (l : list nat) i : NoDup l -> i ∈ l -> f i = true -> (forall j, j ∈ l -> f j = true -> j = i) ->
  unchain f l = filter (fun j => j <> i) l.
Proof.
  intros Hn Hi Hf Hu. induction Hn as [|j l Hj Hn IH]; [set_solver|]. cbn [unchain].
  destruct (f j) eqn:E.
  - pose proof (Hu j (list_elem_of_here _ _) E) as ->. rewrite filter_cons_False by auto.
    symmetry. apply filter_all, Forall_forall. intros x Hx ->. done.
  - assert (j <> i) by congruence. rewrite filter_cons_True by done. f_equal. apply IH; [set_solver|].
    intros x Hx. apply Hu. set_solver.
Qed.

Definition removed (s : state) (g b : Z) (i : nat) : state :=
  let h := dlslot dlcmax g b in
  setcache (<[h := filter (fun j => j <> i) (dlbucket s h)]> (dlhash s)) (filter (fun j => j <> i) (dllru s)) (dlcount s) s.

Lemma dlcachedel_true held g b i (Q : unit -> state -> Prop) (s : state) :
  cinv s held -> cached s g b = Some i -> Q tt (removed s g b i) -> wp (dlcachedel dlcmax i true) Q s.
Proof.
  intros Hc Hi HQ. pose proof (cached_Some _ _ _ _ Hi) as [Hb Hd]. pose proof Hd as (d & Ed & <- & <-)%isdl_spec.
  unfold dlcachedel. wps. apply (dlget_spec i d); [done|]. wps.
  change (Q tt (setcache (<[dlslot dlcmax (dgen (dd d)) (Layout.bgen (dd d)) := unchain (isdl s (dgen (dd d)) (Layout.bgen (dd d))) (dlbucket s (dlslot dlcmax (dgen (dd d)) (Layout.bgen (dd d))))]> (dlhash s))
     (filter (fun j => j <> i) (dllru s)) (dlcount s) s)).
  rewrite (unchain_filter _ _ i); [exact HQ|by eapply ci_nodup|done|done|].
  intros j Hj Dj. by eapply (ci_uniq _ _ Hc).
Qed.

Lemma removed_in s held g b i h j : cinv s held -> cached s g b = Some i ->
  j ∈ dlbucket (removed s g b i) h <-> j ∈ dlbucket s h /\ j <> i.
Proof.
  intros Hc Hi. unfold removed, dlbucket at 1. cbn. destruct (decide (h = dlslot dlcmax g b)) as [->|Hne].
  - rewrite lookup_insert_eq. cbn. rewrite list_elem_of_filter. naive_solver.
  - rewrite lookup_insert_ne by done. fold (dlbucket s h). split; [|naive_solver]. intros Hj. split; [done|]. intros ->.
    apply cached_Some in Hi as [_ (d & Ed & <- & <-)%isdl_spec]. destruct (ci_bucket _ _ Hc h i Hj) as (_ & x & Ex & -> & _).
    congruence.
Qed.

Lemma find_filter f (l : list nat) i : f i = false -> find f (filter (fun j => j <> i) l) = find f l.
Proof.
  intros Hf. induction l as [|j l IH]; [done|]. destruct (decide (j = i)) as [->|Hne].
  - rewrite filter_cons_False by auto. cbn. by rewrite Hf.
  - rewrite filter_cons_True by done. cbn. by rewrite IH.
Qed.

Lemma removed_cached s held g b i : cinv s held -> cached s g b = Some i ->
  cached (removed s g b i) g b = None /\
  (forall g' b', (g', b') <> (g, b) -> cached (removed s g b i) g' b' = cached s g' b').
Proof.
  intros Hc Hi. pose proof (cached_Some _ _ _ _ Hi) as [Hb Hd]. split.
  - destruct (cached (removed s g b i) g b) as [j|] eqn:Ej; [|done]. exfalso. apply cached_Some in Ej as [Hj Dj].
    apply (removed_in _ held) in Hj as [Hj Hne]; [|done..]. apply Hne. by eapply (ci_uniq _ _ Hc).
  - intros g' b' Hne. unfold cached. assert (isdl s g' b' i = false) as Hf.
    { destruct (isdl s g' b' i) eqn:E; [|done]. apply isdl_spec in E as (d & Ed & <- & <-), Hd as (d' & Ed' & <- & <-). by simplify_eq. }
    unfold removed, dlbucket. cbn. change (isdl (setcache _ _ _ _) g' b') with (isdl s g' b').
    destruct (decide (dlslot dlcmax g' b' = dlslot dlcmax g b)) as [E|E].
    + rewrite E, lookup_insert_eq. cbn. by apply find_filter.
    + by rewrite lookup_insert_ne.
Qed.

Lemma removed_cinv s held g b i : cinv s held -> cached s g b = Some i -> cinv (removed s g b i) held.
Proof.
  intros Hc Hi. pose proof Hc as [C1 C2 C3 C4 C5 C6 C7].
  pose proof (fun h j => removed_in s held g b i h j Hc Hi) as Hin. constructor.
  - intros h j [Hj _]%Hin. by apply C1.
  - intros h j1 j2 g' b' [H1 _]%Hin [H2 _]%Hin. by eapply C2.
  - intros h. unfold removed, dlbucket. cbn. destruct (decide (h = dlslot dlcmax g b)) as [->|Hne].
    + rewrite lookup_insert_eq. by apply NoDup_filter, C3.
    + rewrite lookup_insert_ne by done. apply C3.
  - by apply NoDup_filter.
  - cbn. intros j [Hne (h & Hj)%C5]%list_elem_of_filter. exists h. by apply Hin.
  - cbn. intros h j [Hj Hne]%Hin. destruct (C6 h j Hj); [left; by apply list_elem_of_filter|by right].
  - cbn. intros j Hj [_ ?]%list_elem_of_filter. by apply (C7 j).
Qed.

(** A list whose record is right leaves the cache. *)
Lemma removed_dinv s held D G g b i d : cinv s held -> dinv s D G ∅ -> cached s g b = Some i -> dls s !! i = Some d ->
  dins d = None -> dinv (removed s g b i) D G ∅.
Proof.
  intros Hc Hd Hi Ed Hn. destruct (removed_cached s held g b i Hc Hi) as [Ec Eo].
  destruct Hd as [I1 I2 I2' I3 I4 I4' I5 I6 I7 I8 I9 I10].
  assert (Hca : forall g' b' j, cached (removed s g b i) g' b' = Some j -> cached s g' b' = Some j).
  { intros g' b' j. destruct (decide ((g', b') = (g, b))) as [[= -> ->]|Hne]; [by rewrite Ec|by rewrite Eo]. }
  constructor; try done.
  - intros n g' b' ?%Hca. by eapply I4.
  - intros n l g' b' ? ?%Hca. by eapply I4'.
  - intros g' b' l Hl. destruct (I5 g' b' l Hl) as (? & ? & ? & [[[]%not_elem_of_empty _]|(e & He & Hp)]).
    split_and!; try done. right. exists e. split; [done|]. unfold in_place in *.
    destruct (decide ((g', b') = (g, b))) as [[= -> ->]|Hne]; [|by rewrite Eo].
    rewrite Ec. rewrite Hi in Hp. destruct Hp as (d' & Ed' & (P1 & P2 & P3 & P4) & Hse). assert (d' = d) as -> by congruence.
    destruct (Hse Hn) as [Ea Eb]. destruct He as (? & _ & _ & ? & ?). split_and!; try done.
    cbn [dd hd tl dins]. rewrite Ea, Eb. destruct l as [|[a es] l]; [naive_solver|]. split; [apply P4|done].
  - intros g' b' j x ?%Hca. by apply I9.
Qed.

(** A list leaves the cache: its struct stands for itself. *)
Lemma unbind_dinv s held D G X g b i l : cinv s held -> dinv s D G X -> cached s g b = Some i -> D !! inr (g, b) = Some l ->
  dinv (removed s g b i) (<[inl i := l]> (delete (inr (g, b)) D)) G ({[(g, b)]} ∪ X).
Proof.
  intros Hc Hd Hi Hl. destruct (removed_cached s held g b i Hc Hi) as [Ec Eo].
  destruct (obj_list s D G X (inr _) l i Hd Hl Hi) as (d & Ed & Hdl).
  destruct Hd as [I1 I2 I2' I3 I4 I4' I5 I6 I7 I8 I9 I10].
  assert (Hca : forall g' b' j, cached (removed s g b i) g' b' = Some j -> cached s g' b' = Some j /\ j <> i).
  { intros g' b' j. destruct (decide ((g', b') = (g, b))) as [[= -> ->]|Hne]; [by rewrite Ec|rewrite Eo by done].
    intros Hj. split; [done|]. intros ->. apply Hne. by eapply cached_inj. }
  assert (H2 : (2 <= i)%nat) by (by eapply I4).
  assert (Hlk : forall o l', <[inl i := l]> (delete (inr (g, b)) D) !! o = Some l' ->
    o = inl i /\ l' = l \/ o <> inl i /\ o <> inr (g, b) /\ D !! o = Some l').
  { intros o l' [[<- <-]|[Hne [Hne' ?]%lookup_delete_Some]]%lookup_insert_Some; auto. }
  assert (Hno : forall g' b', <[inl i := l]> (delete (inr (g, b)) D) !! inr (g', b') = None -> (g', b') = (g, b) \/ D !! inr (g', b') = None).
  { intros g' b'. rewrite lookup_insert_ne by done. intros [[= <- <-]|?]%lookup_delete_None; auto. }
  constructor; try done.
  - destruct I2 as (d0 & ? & ? & ?). exists d0. split_and!; try done. rewrite lookup_insert_ne, lookup_delete_ne; done || (intros [= ->]; lia).
  - rewrite lookup_insert_ne, lookup_delete_ne; done || (intros [= ->]; lia).
  - intros n l' [[[= ->] ->]|(_ & _ & ?)]%Hlk; [by exists d|by apply I3].
  - intros n g' b' [? _]%Hca. by eapply I4.
  - intros n l' g' b' [[[= ->] ->]|(_ & _ & Hn)]%Hlk [Hca1 Hne]%Hca; [done|]. rewrite lookup_insert_ne by done.
    apply lookup_delete_None. right. by eapply I4'.
  - intros g' b' l' [[? _]|(_ & Hne & Hl')]%Hlk; [done|]. destruct (I5 g' b' l' Hl') as (? & ? & ? & K). split_and!; try done.
    assert (Hne' : (g', b') <> (g, b)) by congruence. unfold in_cache, in_place in *. rewrite Eo by done. destruct K as [[? ?]|?]; [left; set_solver|by right].
  - intros g' b' ? ? [[= -> ->]|?]%Hno; [left; set_solver|]. destruct (I6 g' b'); try done; [left; set_solver|by right].
  - intros o1 o2 l1 l2 a [[-> ->]|(N1 & M1 & L1)]%Hlk [[-> ->]|(N2 & M2 & L2)]%Hlk Ha1 Ha2; [done| | |by eapply I7].
    + exfalso. apply M2. symmetry. by eapply I7.
    + exfalso. apply M1. by eapply I7.
  - intros g' b' Hin. rewrite lookup_insert_ne by done. apply lookup_delete_None. right. by apply I8.
  - intros g' b' j x [Hj Hne]%Hca [[= -> ->]|HD]%Hno Hx; [left; set_solver|]. destruct (I9 g' b' j x); try done; [left; set_solver|by right].
Qed.

(** A struct's list is what the record says. *)
Lemma rebind_dinv s D G g b i l d : dinv s D G {[(g, b)]} -> D !! inl i = Some l -> (2 <= i)%nat -> dls s !! i = Some d ->
  dins d = None -> cached s g b = None -> saved (snap s) g b (dd d) -> is_s64 g -> is_s64 b -> g <> -1 ->
  D !! inr (g, b) = None -> (g, b) ∉ G -> dinv s (<[inr (g, b) := l]> (delete (inl i) D)) G ∅.
Proof.
  intros [I1 I2 I2' I3 I4 I4' I5 I6 I7 I8 I9 I10] Hl H2 Hi Hn Hc Hs Hg Hb Hg1 Hno HG.
  destruct (I3 i l Hl) as (d' & Ed' & Hdl). assert (d' = d) as -> by congruence.
  assert (Hlk : forall o l', <[inr (g, b) := l]> (delete (inl i) D) !! o = Some l' ->
    o = inr (g, b) /\ l' = l \/ o <> inr (g, b) /\ o <> inl i /\ D !! o = Some l').
  { intros o l' [[<- <-]|[Hne [Hne' ?]%lookup_delete_Some]]%lookup_insert_Some; auto. }
  constructor; try done.
  - destruct I2 as (d0 & ? & ? & ?). exists d0. split_and!; try done. rewrite lookup_insert_ne, lookup_delete_ne; done || (intros [= ->]; lia).
  - rewrite lookup_insert_ne, lookup_delete_ne; done || (intros [= ->]; lia).
  - intros n l' [[? _]|(_ & _ & ?)]%Hlk; [done|]. by apply I3.
  - intros n l' g' b' [[? _]|(_ & Hne & Hn')]%Hlk Hc'; [done|]. rewrite lookup_insert_ne by congruence.
    rewrite lookup_delete_ne by done. by eapply I4'.
  - intros g' b' l' [[[= -> ->] ->]|(Hne & _ & Hl')]%Hlk.
    + split_and!; try done. right. exists (dd d). split; [done|]. unfold in_place. rewrite Hc. by destruct d; cbn in *; subst.
    + destruct (I5 g' b' l' Hl') as (? & ? & ? & [[? _]|?]); [set_solver|]. auto.
  - intros g' b' ? ? [Hd Hne]%lookup_insert_None. rewrite lookup_delete_ne in Hd by done. destruct (I6 g' b'); try done; [set_solver|by right].
  - intros o1 o2 l1 l2 a [[-> ->]|(N1 & M1 & L1)]%Hlk [[-> ->]|(N2 & M2 & L2)]%Hlk Ha1 Ha2; [done| | |by eapply I7].
    + exfalso. apply M2. symmetry. by eapply I7.
    + exfalso. apply M1. by eapply I7.
  - intros g' b' Hin. rewrite lookup_insert_ne by congruence. rewrite lookup_delete_ne by done. by apply I8.
  - intros g' b' j x Hj [Hd Hne]%lookup_insert_None Hx. rewrite lookup_delete_ne in Hd by done.
    destruct (I9 g' b' j x); try done; [set_solver|by right].
Qed.

(** What an eviction leaves. *)
Record evicted (s : state) (D : dlmap) (G : gset (Z * Z)) (held : list nat) (s' : state) : Prop := {
  ev_dinv : exists D', snapgrew D D' /\ dinv s' D' G ∅;
  ev_cinv : cinv s' held;
  ev_held g b j : j ∈ held -> cached s g b = Some j -> cached s' g b = Some j;
  ev_flushed : flushed s -> flushed s'
}.

Lemma removed_flushed s held g b i : cinv s held -> cached s g b = Some i -> flushed s -> flushed (removed s g b i).
Proof. intros Hc Hi Hf h j d [Hj _]%(removed_in _ held) Hd; [|done..]. by eapply Hf. Qed.

Lemma evict1 s D G held dt (Q : unit -> state -> Prop) (k : M unit) :
  cinv s held -> dinv s D G ∅ -> dt ∈ dllru s ->
  (forall s', evicted s D G held s' -> dllru s' = filter (fun j => j <> dt) (dllru s) ->
     (exists d, dls s' !! dt = Some d /\ dins d = None) -> wp k Q s') ->
  wp (dlcachedel dlcmax dt true;; dlflush newblk dt;; k) Q s.
Proof.
  intros Hc Hd Hin HQ. destruct (di_snap _ _ _ _ Hd) as (_ & _ & _ & [l0 Hl0]).
  destruct (ci_lru_in _ _ Hc _ Hin) as [h Hb]. destruct (ci_bucket _ _ Hc _ _ Hb) as (H2 & d & Ed & _).
  set (g := dgen (dd d)). set (b := Layout.bgen (dd d)).
  assert (Hi : cached s g b = Some dt) by (eapply cached_in; [done..|]; apply isdl_spec; by exists d).
  assert (Hh : dt ∉ held) by (intros ?; by eapply (ci_held_not _ _ Hc)).
  assert (Hheld : forall g' b' j, j ∈ held -> cached s g' b' = Some j -> cached (removed s g b dt) g' b' = Some j).
  { intros g' b' j Hj Hc'. destruct (removed_cached s held g b dt Hc Hi) as [_ Eo]. rewrite Eo; [done|].
    intros [= -> ->]. congruence. }
  pose proof (removed_cinv s held g b dt Hc Hi) as Hc1. wps. eapply dlcachedel_true; [done..|]. wps.
  destruct (dins d) as [a|] eqn:Ea.
  2: { apply (dlflush_none dt d); [done..|]. wps. apply HQ; [|done|by exists d].
       constructor; try done; [exists D; split; [by eapply snapgrew_refl|by eapply removed_dinv]|by eapply removed_flushed]. }
  destruct (D !! inr (g, b)) as [l|] eqn:El.
  2: { destruct (di_lost _ _ _ _ Hd _ _ dt d Hi El Ed) as [[]%not_elem_of_empty|[_ ?]]. congruence. }
  destruct (obj_list s D G ∅ (inr _) l dt Hd El Hi) as (d1 & Ed1 & Hdl). assert (d1 = d) as -> by congruence.
  destruct (di_key _ _ _ _ Hd _ _ l El) as (K1 & K2 & K3 & _).
  assert (HG : (g, b) ∉ G) by (intros ?%(di_dead _ _ _ _ Hd); congruence).
  pose proof (unbind_dinv s held D G ∅ g b dt l Hc Hd Hi El) as Hu. rewrite (right_id_L ∅ (∪)) in Hu.
  set (D1 := <[inl dt := l]> (delete (inr (g, b)) D)) in *. set (s0 := removed s g b dt) in *.
  assert (L1 : D1 !! inl dt = Some l) by (unfold D1; by rewrite lookup_insert_eq).
  apply (dlflush_killed dt d l); [done|done|apply Hu|by rewrite Ea|].
  intros s1 d' Hk Hn. destruct (killed_ends _ _ _ _ _ _ _ Hk Ed) as (Ed' & Hdl' & Hh' & Ht & G1 & G2).
  rewrite G1. fold g. rewrite (proj2 (Z.eqb_neq _ _)) by done. fold g b in G1, G2.
  assert (Hca : forall g' b', cached s1 g' b' = cached s0 g' b') by (intros; eapply (killed_cached s0); done).
  destruct (removed_cached s held g b dt Hc Hi) as [Ec Eo].
  assert (Hd1 : dinv s1 D1 G {[(g, b)]}).
  { pose proof (killed_dinv s0 s1 D1 G {[(g, b)]} (inl dt) dt l l d d') as Hkd. rewrite (insert_id D1 _ l L1) in Hkd.
    apply Hkd; try done. intros g' b' Hx. pose proof (cached_Some _ _ _ _ Hx) as [Hx1 _]. by apply (removed_in s held) in Hx1 as [_ ?]. }
  destruct (dlist2kv_Ok (dd d') 512) as (v & Ekv & Hv); [done|]. rewrite G1, G2 in Ekv. wps. apply (wp_lift _ _ _ _ Ekv).
  assert (D1n : D1 !! inr (g, b) = None) by (unfold D1; by rewrite lookup_insert_ne, lookup_delete_eq).
  eapply dlwp_mono.
  { apply (snapupsert_dinv _ D1 G {[(g, b)]} {[(g, b)]} s1 Hd1). eapply (records_insert s1 D1 G _ _ (dd d') 512 _ Hd1); rewrite ?G1, ?G2; try done; [auto|congruence|set_solver]. }
  intros _ s' ((D' & Hgr & Hd') & Hq & Hrun). wps.
  assert (Hca' : forall g' b', cached s' g' b' = cached s0 g' b') by (intros; by rewrite (quiet_cached _ _ _ _ Hq)).
  apply HQ.
  - constructor.
    + destruct Hgr as (la & lb & ks & E1 & -> & E2). exists (<[inl 0%nat := lb]> D). split.
      { exists la, lb, ks. split_and!; try done. rewrite <- E1. unfold D1. by rewrite lookup_insert_ne, lookup_delete_ne by (intros [= ->]; lia). }
      assert (<[inl 0%nat := lb]> D = <[inr (g, b) := l]> (delete (inl dt) (<[inl 0%nat := lb]> D1))) as ->.
      { apply map_eq. intros o. unfold D1. destruct (decide (o = inr (g, b))) as [->|N1].
        - by rewrite lookup_insert_eq, lookup_insert_ne.
        - rewrite (lookup_insert_ne _ (inr (g, b))) by done. destruct (decide (o = inl dt)) as [->|N2].
          + rewrite lookup_delete_eq, lookup_insert_ne by (intros [= E]; lia).
            destruct (D !! inl dt) eqn:E; [|done]. pose proof (di_loose _ _ _ _ Hd _ _ _ _ E Hi). congruence.
          + rewrite lookup_delete_ne by done. destruct (decide (o = inl 0%nat)) as [->|N3]; [by rewrite !lookup_insert_eq|].
            by rewrite !lookup_insert_ne, lookup_delete_ne. }
      eapply rebind_dinv; try done.
      * rewrite lookup_insert_ne by (intros [= E]; lia). exact L1.
      * rewrite (qu_dls _ _ Hq) by lia. exact Ed'.
      * rewrite Hca'. exact Ec.
      * destruct (dlist2kv_saved (dd d') 512 (mkKvp (dlkey g b) v)) as (_ & _ & _ & Hms & Hsv); rewrite ?G1, ?G2; try done.
        rewrite G1, G2 in Hsv. apply Hsv. specialize (Hrun (dlkey g b)). erewrite mrun_one in Hrun; [|done|apply Hms]. cbn [Layout.k] in *. congruence.
      * by rewrite lookup_insert_ne.
    + eapply quiet_cinv; [done|]. eapply killed_cinv; [exact Hc1|..]; done.
    + intros g' b' j Hj Hx. rewrite Hca'. by apply Hheld.
    + intros Hf. specialize (Hf h dt d Hb Ed). congruence.
  - rewrite (qu_lru _ _ Hq). destruct Hk as (_ & Hf & _). rewrite (fr_lru _ _ _ Hf). done.
  - exists d'. split; [|done]. by rewrite (qu_dls _ _ Hq) by lia.
Qed.

(** ** putdl *)

Lemma evicted_trans s1 s2 s3 D1 D2 G held :
  evicted s1 D1 G held s2 -> snapgrew D1 D2 -> evicted s2 D2 G held s3 -> evicted s1 D1 G held s3.
Proof.
  intros [A1 A2 A3 A4] Hg [(D3 & G3 & A5) B2 B3 B4]. constructor; auto. exists D3. split; [by eapply snapgrew_trans|done].
Qed.

Lemma evicted_refl s D G held : cinv s held -> dinv s D G ∅ -> evicted s D G held s.
Proof.
  intros Hc Hd. destruct (di_snap _ _ _ _ Hd) as (_ & _ & _ & [l0 Hl0]). constructor; auto. exists D. split; [by eapply snapgrew_refl|done].
Qed.

Lemma length_filter_ne (l : list nat) i : NoDup l -> i ∈ l -> S (length (filter (fun j => j <> i) l)) = length l.
Proof.
  induction 1 as [|j l Hj Hn IH]; intros Hi; [set_solver|]. destruct (decide (j = i)) as [->|Hne].
  - rewrite filter_cons_False by auto. rewrite filter_all; [done|]. apply Forall_forall. by intros x Hx ->.
  - rewrite filter_cons_True by done. cbn. rewrite IH; [done|set_solver].
Qed.

Lemma dlevict_spec fuel : forall s D G held, cinv s held -> dinv s D G ∅ -> (length (dllru s) <= fuel)%nat ->
  wp (dlevict newblk dlcmax fuel) (fun _ s' => evicted s D G held s') s.
Proof.
  induction fuel as [|fuel IH]; intros s D G held Hc Hd Hf; cbn [dlevict]; wps.
  - destruct (dllru s) eqn:E; [|cbn in Hf; lia]. cbn. wps. by apply evicted_refl.
  - destruct (last (dllru s)) as [dt|] eqn:El; [|wps; by apply evicted_refl].
    destruct (dlcmax <=? dlcount s); [|wps; by apply evicted_refl].
    assert (Hin : dt ∈ dllru s) by (by apply last_Some_elem_of).
    unfold addcount. do 2 wp_step. set (s1 := setcache (dlhash s) (dllru s) (dlcount s + -1) s).
    assert (Hd1 : dinv s1 D G ∅) by (eapply dinv_ext; [..|exact Hd]; done).
    assert (Hc1 : cinv s1 held) by (by destruct Hc; constructor).
    eapply dlwp_mono.
    + eapply (evict1 s1 D G held dt (fun _ s' => evicted s1 D G held s')); try done.
      intros s2 He Hl (d & Ed & Hn). wps. apply (dlget_spec dt d); [done|]. wps. apply wp_check; [by rewrite bool_decide_true|].
      pose proof He as [(D2 & Hg & Hd2) Hc2 _ _]. eapply dlwp_mono; [apply (IH s2 D2 G held Hc2 Hd2)|].
      * rewrite Hl. pose proof (length_filter_ne (dllru s1) dt (ci_lru _ _ Hc1) Hin) as E. cbn in E. cbn. lia.
      * intros ? s3 ?. by eapply evicted_trans.
    + intros _ s' [A1 A2 A3 A4]. constructor; auto.
Qed.

Lemma putdl_spec s D G held g b i : cinv s (i :: held) -> dinv s D G ∅ -> cached s g b = Some i -> i ∉ held ->
  wp (putdl newblk dlcmax i) (fun _ s' => evicted s D G held s') s.
Proof.
  intros Hc Hd Hi Hn. pose proof (cached_Some _ _ _ _ Hi) as [Hb _]. destruct (ci_bucket _ _ Hc _ _ Hb) as (_ & d & Ed & _ & Hg1).
  unfold putdl. wps. apply (dlget_spec i d); [done|]. rewrite (proj2 (Z.eqb_neq _ _)) by done. wps.
  apply (dlcachedel_false i d); [done|].
  assert (setcache (dlhash s) (filter (λ j, j ≠ i) (dllru s)) (dlcount s) s = s) as ->.
  { rewrite filter_all; [by destruct s|]. apply Forall_forall. intros x Hx ->. eapply (ci_held_not _ _ Hc); [by left|done]. }
  wps. eapply dlwp_mono; [by apply (dlevict_spec _ s D G (i :: held))|].
  intros _ s' [(D' & Hg & Hd') Hc' Hh Hf]. wps. pose proof (Hh g b i ltac:(by left) Hi) as Hi'.
  pose proof (cached_Some _ _ _ _ Hi') as [Hb' _]. constructor.
  - exists D'. split; [done|]. eapply dinv_ext; [..|exact Hd']; done.
  - destruct Hc' as [C1 C2 C3 C4 C5 C6 C7]. constructor; try done; cbn.
    + apply NoDup_cons. split; [apply C7; by left|done].
    + intros j [->|Hj]%elem_of_cons; [by eexists|by apply C5].
    + intros h j Hj. destruct (C6 h j Hj) as [?|[->|?]%elem_of_cons]; [left; by right|left; by left|by right].
    + intros j Hj [->|Hj']%elem_of_cons; [done|]. eapply C7; [by right|done].
  - intros g' b' j Hj Hx. apply (Hh g' b' j); [by right|done].
  - exact Hf.
Qed.

(** ** killblk *)

(** The deadlists after a kill: the address is in the list of its generations;
    fs->snapdl has what the snapshot tree's writes replaced. *)
Definition killed_in (D : dlmap) (o : owner) (a : Z) (D' : dlmap) : Prop :=
  exists D0 l l', snapgrew (match o with inr (g, b) => ensure D g b | inl _ => D end) D0 /\
    D0 !! o = Some l /\ ents l' ≡ₚ a :: ents l /\ snapgrew (<[o := l']> D0) D'.

Lemma killblk_dinv s D G memgen base p : cinv s [] -> dinv s D G ∅ -> is_s64 (addr p) -> is_s64 memgen -> is_s64 (gen p) ->
  memgen <> -1 -> (memgen, gen p) ∉ G -> base < gen p ->
  wp (killblk newblk dlcmax (Some (memgen, base)) p) (fun _ s' => cinv s' [] /\
    exists D', killed_in D (inr (memgen, gen p)) (addr p) D' /\ dinv s' D' G ∅) s.
Proof.
  intros Hc Hd Hp Hm Hg Hm1 HG Hb. unfold killblk. rewrite (proj2 (Z.ltb_lt _ _)) by done. wps.
  eapply dlwp_mono; [by apply (getdl_spec s D G [] memgen (gen p))|].
  intros i s1 ((D1 & Hg1 & Hd1) & Hc1 & Hi & _ & _). wps.
  assert (exists l, D1 !! inr (memgen, gen p) = Some l) as [l Hl].
  { rewrite (snapgrew_ne _ _ _ Hg1) by done. unfold ensure. case_match; [eauto|]. rewrite lookup_insert_eq. eauto. }
  eapply dlwp_mono; [by apply (dlkill_dinv s1 D1 G ∅ [i] (inr (memgen, gen p)) l i p)|].
  intros _ s2 (l' & He & Hd2 & Hc2 & Hca). eapply dlwp_mono; [apply (putdl_spec s2 _ G [] memgen (gen p) i Hc2 Hd2)|].
  - by rewrite Hca.
  - set_solver.
  - intros _ s3 [(D3 & Hg3 & Hd3) Hc3 _ _]. split; [done|]. exists D3. split; [|done]. by exists D1, l, l'.
Qed.

(** ** splicedl *)

(** The struct [i] takes over the blocks of [j]. *)
Record joined (s s' : state) (i j : nat) (l1 l2 : list (Z * list Z)) : Prop := {
  jo_snap : snap s' = snap s;
  jo_hash : dlhash s' = dlhash s;
  jo_lru : dllru s' = dllru s;
  jo_made : made s' = made s;
  jo_gens n d : dls s !! n = Some d -> exists d', dls s' !! n = Some d' /\ dgen (dd d') = dgen (dd d) /\
    Layout.bgen (dd d') = Layout.bgen (dd d) /\ (n <> i -> n <> j -> d' = d) /\
    (n = i -> dl_is (blks s') d' (l1 ++ l2)) /\ (dins d = None -> n <> i -> dins d' = None);
  jo_len : length (dls s') = length (dls s);
  jo_flush d m : dls s !! i = Some d -> dls s !! j = Some m -> dins d = None -> dins m = None ->
    exists d', dls s' !! i = Some d' /\ dins d' = None;
  jo_blks a : a ∉ l1.*1 -> a ∉ l2.*1 -> blks s' !! a = blks s !! a;
  jo_none a : blks s !! a = None -> blks s' !! a = None
}.

Lemma joined_isdl s s' i j l1 l2 g b n : joined s s' i j l1 l2 -> isdl s' g b n = isdl s g b n.
Proof.
  intros Hj. unfold isdl. destruct (dls s !! n) as [d|] eqn:E.
  - destruct (jo_gens _ _ _ _ _ _ Hj n d E) as (d' & -> & -> & -> & _). done.
  - apply lookup_ge_None in E. rewrite <- (jo_len _ _ _ _ _ _ Hj) in E. by apply lookup_ge_None in E as ->.
Qed.

Lemma joined_cached s s' i j l1 l2 g b : joined s s' i j l1 l2 -> cached s' g b = cached s g b.
Proof.
  intros Hj. unfold cached, dlbucket. rewrite (jo_hash _ _ _ _ _ _ Hj). induction (default [] _) as [|n l IH]; [done|].
  cbn. by rewrite (joined_isdl _ _ _ _ _ _ _ _ _ Hj), IH.
Qed.

Lemma joined_cinv s s' i j l1 l2 held : joined s s' i j l1 l2 -> cinv s held -> cinv s' held.
Proof.
  intros Hj [C1 C2 C3 C4 C5 C6 C7].
  assert (forall h, dlbucket s' h = dlbucket s h) as Eb by (intros h; unfold dlbucket; by rewrite (jo_hash _ _ _ _ _ _ Hj)).
  constructor; intros *; rewrite ?Eb, ?(jo_lru _ _ _ _ _ _ Hj), ?(joined_isdl _ _ _ _ _ _ _ _ _ Hj); eauto.
  - intros Hi. destruct (C1 _ _ Hi) as (? & d & Ed & -> & ?). split; [done|].
    destruct (jo_gens _ _ _ _ _ _ Hj _ d Ed) as (d' & ? & Eg & Ebg & _). exists d'. by rewrite Eg, Ebg.
  - intros (h & ?)%C5. exists h. by rewrite Eb.
Qed.

Lemma joined_flushed s s' i j l1 l2 held d : joined s s' i j l1 l2 -> cinv s held -> flushed s ->
  dls s !! i = Some d -> dins d = None -> (exists m, dls s !! j = Some m /\ dins m = None) -> flushed s'.
Proof.
  intros Hj Hc Hf Hi Hn (m & Em & Hm) h n x Hin Hx. unfold dlbucket in Hin. rewrite (jo_hash _ _ _ _ _ _ Hj) in Hin.
  destruct (ci_bucket _ _ Hc h n Hin) as (_ & y & Ey & _). destruct (jo_gens _ _ _ _ _ _ Hj n y Ey) as (y' & Ey' & _ & _ & _ & _ & Hni).
  assert (x = y') as -> by congruence. destruct (decide (n = i)) as [->|Hne]; [|apply Hni; [by eapply Hf|done]].
  destruct (jo_flush _ _ _ _ _ _ Hj d m) as (d' & ? & ?); try done. congruence.
Qed.

Lemma joined_dinv s s' D G X o1 o2 i j l1 l2 :
  dinv s D G X -> D !! o1 = Some l1 -> D !! o2 = Some l2 -> obj_of s o1 = Some i -> obj_of s o2 = Some j -> o1 <> o2 ->
  (forall n, o2 = inl n -> (2 <= n)%nat) -> (forall x, o1 = inr x \/ o2 = inr x -> x ∈ X) ->
  (forall n g b, o1 = inl n \/ o2 = inl n -> cached s g b = Some n -> (g, b) ∈ X) ->
  joined s s' i j l1 l2 -> dinv s' (<[o1 := (l1 ++ l2)]> (delete o2 D)) G X.
Proof.
  intros Hd L1 L2 Ho1 Ho2 Hne H2 HX Hlo Hj.
  pose proof (fun g b => joined_cached _ _ _ _ _ _ g b Hj) as Eca. pose proof (jo_snap _ _ _ _ _ _ Hj) as Es.
  assert (Hlk : forall o l', <[o1 := (l1 ++ l2)]> (delete o2 D) !! o = Some l' ->
    o = o1 /\ l' = l1 ++ l2 \/ o <> o1 /\ o <> o2 /\ D !! o = Some l').
  { intros o l' [[<- <-]|[? [? ?]%lookup_delete_Some]]%lookup_insert_Some; auto. }
  assert (Hoth : forall o l', o <> o1 -> o <> o2 -> D !! o = Some l' ->
    (forall d, dl_is (blks s) d l' -> dl_is (blks s') d l') /\ (forall n d, obj_of s o = Some n -> dls s !! n = Some d -> dls s' !! n = Some d) /\
    (forall a, a ∈ l'.*1 -> a ∉ (l1 ++ l2).*1)).
  { intros o l' N1 N2 Hl. assert (forall a, a ∈ l'.*1 -> (a ∉ l1.*1) /\ (a ∉ l2.*1)) as Ha.
    { intros a Ha. split; intros Hx; [apply N1|apply N2]; by eapply (di_disj _ _ _ _ Hd). }
    split_and!.
    - intros d Hdl. eapply dl_is_frame; [done|]. intros a [? ?]%Ha. by apply (jo_blks _ _ _ _ _ _ Hj).
    - intros n d Hn Ed. destruct (jo_gens _ _ _ _ _ _ Hj n d Ed) as (d' & Ed' & _ & _ & Hsame & _).
      rewrite Ed', Hsame; [done| |]; intros ->; [apply N1|apply N2]; by eapply obj_inj.
    - intros a [? ?]%Ha. rewrite fmap_app, elem_of_app. naive_solver. }
  assert (Hkeep : forall n, (n < 2)%nat -> is_Some (D !! inl n) -> is_Some (<[o1 := (l1 ++ l2)]> (delete o2 D) !! inl n)).
  { intros n Hn [l' Hl']. destruct (decide (o1 = inl n)) as [->|N1]; [by rewrite lookup_insert_eq|].
    rewrite lookup_insert_ne, lookup_delete_ne; [done| |done]. intros ->. specialize (H2 n eq_refl). lia. }
  assert (Hno : forall g b, <[o1 := (l1 ++ l2)]> (delete o2 D) !! inr (g, b) = None -> (g, b) ∈ X \/ D !! inr (g, b) = None).
  { intros g b [Hn _]%lookup_insert_None. apply lookup_delete_None in Hn as [->|?]; [left; apply HX|]; auto. }
  constructor.
  - intros n Hn. rewrite (jo_made _ _ _ _ _ _ Hj) in Hn. by apply (jo_none _ _ _ _ _ _ Hj), (di_fresh _ _ _ _ Hd).
  - destruct (di_snap _ _ _ _ Hd) as (d & Ed & Hg & Hs). destruct (jo_gens _ _ _ _ _ _ Hj 0%nat d Ed) as (d' & ? & ? & _).
    exists d'. split_and!; [done|congruence|]. apply Hkeep; [lia|done].
  - apply Hkeep; [lia|apply Hd].
  - intros n l' [[<- ->]|(N1 & N2 & Hl)]%Hlk.
    + injection Ho1 as <-. destruct (di_obj _ _ _ _ Hd n l1 L1) as (d & Ed & _).
      destruct (jo_gens _ _ _ _ _ _ Hj n d Ed) as (d' & ? & _ & _ & _ & Hx & _). eauto.
    + destruct (di_obj _ _ _ _ Hd n l' Hl) as (d & Ed & Hdl). destruct (Hoth _ _ N1 N2 Hl) as (X1 & X2 & _). exists d. auto.
  - intros n g b. rewrite Eca. apply Hd.
  - intros n l' g b Hl Hc. rewrite Eca in Hc.
    assert (D !! inr (g, b) = None) as HD.
    { apply Hlk in Hl as [[<- _]|(_ & _ & Hl)]; by eapply di_loose. }
    apply lookup_insert_None. split; [apply lookup_delete_None; by right|]. intros ->. congruence.
  - intros g b l' [[<- ->]|(N1 & N2 & Hl)]%Hlk.
    + destruct (di_key _ _ _ _ Hd g b l1 L1) as (K1 & K2 & K3 & _). split_and!; try done. left. split; [apply HX; by left|].
      destruct (obj_list _ _ _ _ _ _ _ Hd L1 Ho1) as (d & Ed & _).
      destruct (jo_gens _ _ _ _ _ _ Hj i d Ed) as (d' & ? & _ & _ & _ & Hx & _). exists i, d'. rewrite Eca. auto.
    + destruct (Hoth _ _ N1 N2 Hl) as (X1 & X2 & _). destruct (di_key _ _ _ _ Hd g b l' Hl) as (K1 & K2 & K3 & K4). split_and!; try done.
      unfold in_place, in_cache in *. rewrite Eca, Es. destruct K4 as [[KX (n & d & ? & ? & ?)]|(e & ? & Hp)]; [left; split; [done|]; exists n, d; auto|].
      right. exists e. split; [done|]. cbn in X2. destruct (cached s g b) as [n|]; [|auto]. destruct Hp as (d & ? & ? & ?). exists d. auto.
  - intros g b ? ? [?|?]%Hno; [by left|]. rewrite Es. by apply (di_none _ _ _ _ Hd).
  - intros p1 p2 q1 q2 a [[-> ->]|(N1 & M1 & P1)]%Hlk [[-> ->]|(N2 & M2 & P2)]%Hlk Ha1 Ha2; [done| | |by eapply (di_disj _ _ _ _ Hd)].
    + exfalso. destruct (Hoth _ _ N2 M2 P2) as (_ & _ & Hx). by apply (Hx a).
    + exfalso. destruct (Hoth _ _ N1 M1 P1) as (_ & _ & Hx). by apply (Hx a).
  - intros g b Hin. pose proof (di_dead _ _ _ _ Hd g b Hin). rewrite lookup_insert_ne by congruence. apply lookup_delete_None. by right.
  - intros g b n d. rewrite Eca. intros Hc [?|HD]%Hno Ed; [by left|].
    assert (exists d0, dls s !! n = Some d0) as [d0 Ed0].
    { apply lookup_lt_is_Some_2. rewrite <- (jo_len _ _ _ _ _ _ Hj). by eapply lookup_lt_Some. }
    destruct (di_lost _ _ _ _ Hd g b n d0 Hc HD Ed0) as [?|[HG Hn]]; [by left|].
    destruct (jo_gens _ _ _ _ _ _ Hj n d0 Ed0) as (d' & Ed' & _ & _ & _ & _ & Hni). assert (d' = d) as -> by congruence.
    destruct (decide (n = i)) as [->|Hni']; [left|right; auto].
    destruct o1 as [n1|[g1 b1]]; cbn in Ho1; [injection Ho1 as ->; apply (Hlo i); auto|].
    pose proof (cached_inj _ _ _ _ _ _ Hc Ho1) as [= -> ->]. congruence.
  - rewrite Es. apply Hd.
Qed.

Lemma dlseg_cons m h t a es l : dlseg m h t ((a, es) :: l) <-> h = a /\ exists b, m !! a = Some b /\ dlblk a b es /\
  match l with [] => t = a | _ => dlseg m (addr (logp b)) t l end.
Proof. done. Qed.

Lemma dlseg_tail m h t l : dlseg m h t l -> t ∈ l.*1 /\ exists es b, m !! t = Some b /\ dlblk t b es.
Proof.
  revert h. induction l as [|[a es] l IH]; intros h; [done|]. intros (-> & b & Hb & Hd & Hl). destruct l as [|x l].
  - subst t. split; [by left|eauto].
  - destruct (IH _ Hl) as [? ?]. split; [by right|done].
Qed.

Lemma dlseg_head_in m h t l : dlseg m h t l -> h ∈ l.*1.
Proof. destruct l as [|[a es] l]; [done|]. intros (-> & _). by left. Qed.

(** The last block points to the first of another list. *)
Lemma dlseg_app m h t l1 h2 t2 l2 b es b' :
  dlseg m h t l1 -> dlseg m h2 t2 l2 -> NoDup l1.*1 -> t ∉ l2.*1 -> m !! t = Some b -> dlblk t b es ->
  (forall es, dlblk t b es -> dlblk t b' es) -> addr (logp b') = h2 -> dlseg (<[t := b']> m) h t2 (l1 ++ l2).
Proof.
  intros H1 H2 Hn Ht Hb Hd Hd' Hp. revert h H1. induction l1 as [|[a es1] l1 IH]; intros h; [done|].
  intros (-> & b1 & Hb1 & Hd1 & Hl). cbn [app fmap list_fmap fst] in *. apply NoDup_cons in Hn as [Ha Hn]. apply dlseg_cons.
  split; [done|]. destruct l1 as [|x l1].
  - subst t. assert (b1 = b) as -> by congruence. exists b'. rewrite lookup_insert_eq. split; [done|]. split; [by apply Hd'|].
    destruct l2 as [|y l2]; [done|]. cbn [app]. rewrite Hp. eapply dlseg_frame; [exact H2|]. intros z Hz. apply lookup_insert_ne. congruence.
  - exists b1. destruct (dlseg_tail _ _ _ _ Hl) as [Hin _]. rewrite lookup_insert_ne by congruence. split; [done|]. split; [done|].
    change (dlseg (<[t:=b']> m) (addr (logp b1)) t2 ((x :: l1) ++ l2)). by apply IH.
Qed.

Lemma dlblk_same a b es b' : btyp (mb b') = btyp (mb b) -> addr (bp (mb b')) = addr (bp (mb b)) -> bptr_ok (bp (mb b')) ->
  data (mb b') = data (mb b) -> logsz b' = logsz b -> dlblk a b es -> dlblk a b' es.
Proof. intros E1 E2 E3 E4 E5 []. constructor; rewrite ?E1, ?E2, ?E4, ?E5; done. Qed.

Lemma finalize_dlblk a b es : dlblk a b es ->
  exists b', finalize b = Ok b' /\ logp b' = logp b /\ forall a' es', dlblk a' b es' -> dlblk a' b' es'.
Proof.
  intros Hd. destruct (dlblk_finalize a b es Hd) as (b' & E & Hd' & Hp). exists b'. split_and!; [done|done|].
  intros a' es' H'. pose proof (db_addr _ _ _ Hd). pose proof (db_addr _ _ _ H'). assert (a' = a) as -> by congruence.
  destruct (dlblk_finalize a b es' H') as (b2 & E2 & ? & _). congruence.
Qed.

Lemma splicedl_spec s i j d m l1 l2 :
  dls s !! i = Some d -> dls s !! j = Some m -> dl_is (blks s) d l1 -> dl_is (blks s) m l2 -> i <> j ->
  (forall a, a ∈ l1.*1 -> a ∉ l2.*1) -> wp (splicedl i j) (fun _ s' => joined s s' i j l1 l2) s.
Proof.
  intros Hi Hj Hd Hm Hne Hdis. unfold splicedl. wps. apply wp_check; [by rewrite (proj2 (Nat.eqb_neq _ _))|]. wps.
  apply (dlget_spec i d); [done|]. wps. apply (dlget_spec j m); [done|].
  pose proof (lookup_lt_Some _ _ _ Hi) as Li. pose proof (lookup_lt_Some _ _ _ Hj) as Lj.
  destruct l2 as [|[a2 es2] l2].
  { (* nothing to move *)
    destruct Hm as (_ & _ & _ & -> & _). cbn. wps. constructor; try done.
    - intros n x Ex. exists x. rewrite app_nil_r. split_and!; try done. intros ->. congruence.
    - intros x y ? ? ? ?. exists x. done. }
  pose proof Hm as (M1 & M2 & M3 & M4 & M5). pose proof M4 as (Ea2 & b2 & Hb2 & Hdb2 & _). pose proof (db_pos _ _ _ Hdb2).
  rewrite (proj2 (Z.eqb_neq _ _)) by lia.
  destruct l1 as [|[a1 es1] l1].
  { (* the list is moved *)
    destruct Hd as (D1 & D2 & D3 & D4 & D5 & D6). rewrite D4. change (-1 =? -1) with true. cbv iota. wps. apply wp_check; [by rewrite bool_decide_true|].
    unfold dlset. wps. cbn [setdls dls]. constructor; try done; cbn.
    - intros n x Ex. destruct (decide (n = j)) as [->|Nj]; [|destruct (decide (n = i)) as [->|Ni]].
      + rewrite list_lookup_insert_eq by (by rewrite length_insert). eexists. split; [done|].
        assert (x = m) as -> by congruence. split_and!; done || congruence.
      + rewrite list_lookup_insert_ne, list_lookup_insert_eq by done. eexists. split; [done|].
        assert (x = d) as -> by congruence. split_and!; done || congruence.
      + rewrite !list_lookup_insert_ne by done. exists x. done.
    - by rewrite !length_insert.
    - intros x y Ex Ey Nx Ny. rewrite list_lookup_insert_ne, list_lookup_insert_eq by done. eexists. split; [done|].
      cbn. congruence. }
  (* the lists are joined *)
  pose proof Hd as (D1 & D2 & D3 & D4 & D5). pose proof D4 as (Ea1 & b1 & Hb1 & Hdb1 & _). pose proof (db_pos _ _ _ Hdb1).
  rewrite (proj2 (Z.eqb_neq (addr (hd (dd d))) _)) by lia. wps.
  apply (enqueue_ins_spec m ((a2, es2) :: l2)); [done|]. intros mm q Hmm Hmf Hmn. unfold dlset. wps.
  destruct (dlseg_tail _ _ _ _ D4) as (Htin & es & b & Hb & Hdb).
  set (t := addr (tl (dd d))) in *. assert (Hbm : mm !! t = Some b) by (rewrite Hmf; [done|by apply Hdis]).
  eapply blkat_spec; [exact Hbm|]. unfold store. wps.
  set (b' := setlogp b (hd (dd m))). unfold dlset. wps.
  set (d' := with_ends d (hd (dd d)) (tl (dd m)) (dins d)). set (m' := with_ends m (hd (dd m)) (tl (dd m)) None) in *.
  cbn [setdls setblks dls blks made io snap dlhash dllru dlcount].
  assert (Ha12 : a1 <> a2) by (intros ->; apply (Hdis a2); by left).
  apply wp_check; [rewrite Ea1, Ea2; by apply negb_true_iff, Z.eqb_neq|].
  (* any block that has the content of b' will do *)
  assert (Hfin : forall bf q', logp bf = logp b' -> (forall a es, dlblk a b' es -> dlblk a bf es) -> (dins d = Some t -> bflag bf = bflag b) ->
    joined s (mkDs (snap s) (<[t := bf]> mm) (made s) q' (<[i := d']> (<[j := m']> (dls s))) (dlhash s) (dllru s) (dlcount s)) i j ((a1, es1) :: l1) ((a2, es2) :: l2)).
  { intros bf q' Hpf Hdf Hff.
    assert (Hall : dl_is (<[t := bf]> mm) d' (((a1, es1) :: l1) ++ (a2, es2) :: l2)).
    { refine (conj D1 (conj M2 (conj _ (conj _ _)))).
      - rewrite fmap_app. apply NoDup_app. split_and!; try done.
      - eapply dlseg_app; [|by apply Hmm|done|by apply Hdis|exact Hbm|exact Hdb| |by rewrite Hpf].
        + eapply dlseg_frame; [exact D4|]. intros a Ha. apply Hmf. by apply Hdis.
        + intros es' Hes. apply Hdf. by apply dlblk_logp.
      - intros x Hx. destruct (D5 x Hx) as (-> & b0 & Hb0 & Ho). split; [done|]. destruct (decide (t = a1)) as [E|N].
        + exists bf. rewrite E, lookup_insert_eq. split; [done|]. unfold opened. rewrite Hff by (by rewrite E). rewrite E in Hb. by assert (b = b0) as -> by congruence.
        + exists b0. rewrite lookup_insert_ne by done. split; [|done]. rewrite Hmf; [done|]. apply Hdis. by left. }
    constructor; try done; cbn.
    - intros n x Ex. destruct (decide (n = j)) as [->|Nj]; [|destruct (decide (n = i)) as [->|Ni]].
      + rewrite list_lookup_insert_ne, list_lookup_insert_eq by done. eexists. split; [done|].
        assert (x = m) as -> by congruence. split_and!; done || congruence.
      + rewrite list_lookup_insert_eq by (by rewrite length_insert). eexists. split; [done|].
        assert (x = d) as -> by congruence. split_and!; done || congruence.
      + rewrite !list_lookup_insert_ne by done. exists x. done.
    - by rewrite !length_insert.
    - intros x y Ex Ey Nx Ny. rewrite list_lookup_insert_eq by (by rewrite length_insert). exists d'. split; [done|]. cbn. congruence.
    - intros a Ha1 Ha2. rewrite lookup_insert_ne; [by apply Hmf|]. intros <-. done.
    - intros a Ha. rewrite lookup_insert_ne; [by apply Hmn|]. intros <-. congruence. }
  assert (Hb' : addr (bp (mb b')) = t) by apply Hdb. rewrite Hb'.
  destruct (bool_decide_reflect (dins d = Some t)) as [Eq|Nq].
  - wps. by apply (Hfin b' q).
  - wps. destruct (finalize_dlblk t b' es) as (bf & Ef & Hpf & Hdf); [by apply dlblk_logp|].
    apply (wp_lift _ bf); [done|]. wps. cbn [addio setblks setdls dls blks made io snap dlhash dllru dlcount].
    rewrite (db_addr t bf es) by (apply Hdf; by apply dlblk_logp). rewrite insert_insert_eq. by apply Hfin.
Qed.

(** ** freedl *)

(** What is given back to the allocator: the addresses of each block, if
    [dofree], and the block. *)
Definition frees (dofree : bool) (l : list (Z * list Z)) : list ioreq :=
  concat ((fun '(a, es) => (if dofree then Qfree <$> es else []) ++ [Qfree a]) <$> l).

Definition withio (q : list ioreq) (s : state) : state :=
  mkDs (snap s) (blks s) (made s) (io s ++ q) (dls s) (dlhash s) (dllru s) (dlcount s).

Lemma dlbind_run {A0 B} (m : M A0) (f : A0 -> M B) (s s1 : state) a : m s = Ok (a, s1) -> (m ≫= f) s = f a s1.
Proof. unfold mbind, M_bind. by intros ->. Qed.

Lemma qfrees_run es : forall s : state, qfrees es s = Ok (tt, withio (Qfree <$> es) s).
Proof.
  induction es as [|e es IH]; intros s; cbn [qfrees].
  - unfold withio. cbn. rewrite app_nil_r. by destruct s.
  - erewrite dlbind_run by reflexivity. rewrite IH. unfold withio, addio. cbn. by rewrite <- app_assoc.
Qed.

Lemma withio_nil (s : state) : withio [] s = s.
Proof. unfold withio. rewrite app_nil_r. by destruct s. Qed.

Lemma withio_app q1 q2 (s : state) : withio q2 (withio q1 s) = withio (q1 ++ q2) s.
Proof. unfold withio. cbn. by rewrite <- app_assoc. Qed.

(** The addresses of a block are given back. *)
Lemma dlents_run a b es dofree (s : state) : dlblk a b es ->
  (if dofree : bool then l ← lift (dlents (length (data (mb b))) (data (mb b)) (logsz b)); qfrees l else mret tt) s =
  Ok (tt, withio (if dofree then Qfree <$> es else []) s).
Proof.
  intros Hd. destruct dofree; [|by rewrite withio_nil]. erewrite dlbind_run; [apply qfrees_run|]. unfold lift.
  rewrite (db_logsz _ _ _ Hd), (dlents_spec es); [done|apply Hd|apply Hd|].
  pose proof (db_data _ _ _ Hd). pose proof (db_logsz _ _ _ Hd). pose proof (db_room _ _ _ Hd). unfold zlen in *. lia.
Qed.

Lemma freedl_loop_run dofree l : forall fuel p t (s : state),
  dlseg (blks s) (addr p) (addr t) l -> NoDup l.*1 -> (length l <= fuel)%nat ->
  freedl_loop fuel t p dofree s = Ok (tt, withio (frees dofree l) s).
Proof.
  induction l as [|[a es] l IH]; intros fuel p t s Hs Hn Hf; [done|].
  destruct fuel as [|fuel]; [cbn in Hf; lia|]. cbn [freedl_loop]. pose proof Hs as (Ea & b & Hb & Hd & Hl).
  pose proof (db_pos _ _ _ Hd). rewrite (proj2 (Z.eqb_neq _ _)) by lia.
  erewrite dlbind_run by (unfold blkat; erewrite dlbind_run by reflexivity; rewrite Ea, Hb; reflexivity).
  erewrite dlbind_run by (by eapply dlents_run). erewrite dlbind_run by reflexivity.
  rewrite (db_addr _ _ _ Hd), Ea. change (addio (Qfree a) ?s) with (withio [Qfree a] s). rewrite withio_app.
  cbn [fmap list_fmap fst] in Hn. apply NoDup_cons in Hn as [Hna Hn]. destruct l as [|x l].
  - rewrite Hl, Z.eqb_refl. unfold frees. cbn [fmap list_fmap concat]. by rewrite app_nil_r.
  - destruct (dlseg_tail _ _ _ _ Hl) as [Hin _]. rewrite (proj2 (Z.eqb_neq _ _)) by congruence.
    rewrite IH; [|exact Hl|done|cbn in *; lia]. rewrite withio_app. done.
Qed.

Lemma dl_is_length m d l : dl_is m d l -> (length l <= size m)%nat.
Proof.
  intros Hd. pose proof Hd as (_ & _ & Hn & _). rewrite <- (length_fmap fst l).
  rewrite <- (size_list_to_set (C:=gset Z)) by done. rewrite <- size_dom. apply subseteq_size.
  intros a Ha%elem_of_list_to_set. destruct (dl_is_blk m d l a Hd Ha) as [b Hb]. by apply elem_of_dom_2 in Hb.
Qed.

Lemma freedl_run d l dofree (s : state) : dl_is (blks s) d l -> freedl (dd d) dofree s = Ok (tt, withio (frees dofree l) s).
Proof.
  intros Hd. pose proof (dl_is_length _ _ _ Hd) as Hlen. destruct Hd as (_ & _ & Hn & Hl).
  unfold freedl. erewrite dlbind_run by reflexivity. destruct l as [|[a es] l]; [|eapply freedl_loop_run; [apply Hl|done|done]].
  destruct Hl as (E & _). change (frees dofree []) with (@nil ioreq). rewrite withio_nil.
  destruct (size (blks s)); cbn [freedl_loop]; by rewrite E.
Qed.

(** ** dlsync *)

Lemma flushes_other s D G held i j s' : flushes s D G held i s' -> forall d, dls s !! j = Some d -> j <> 0%nat ->
  dins d = None -> exists d', dls s' !! j = Some d' /\ dins d' = None.
Proof.
  intros (_ & _ & _ & _ & _ & Hi & Ho) d Hd H0 Hn. destruct (decide (j = i)) as [->|Hne]; [done|].
  exists d. by rewrite Ho.
Qed.

(** fs->snapdl is written: it has no record. *)
Lemma dlflush_snap s D G held : cinv s held -> dinv s D G ∅ ->
  wp (dlflush newblk 0) (fun _ s' => dinv s' D G ∅ /\ cinv s' held /\ dllru s' = dllru s /\
    (exists d, dls s' !! 0%nat = Some d /\ dins d = None) /\ (forall j, j <> 0%nat -> dls s' !! j = dls s !! j) /\ dlhash s' = dlhash s) s.
Proof.
  intros Hc Hd. destruct (di_snap _ _ _ _ Hd) as (d & Ed & Hg & [l Hl]).
  destruct (di_obj _ _ _ _ Hd _ _ Hl) as (d0 & Ed0 & Hdl). assert (d0 = d) as -> by congruence.
  destruct (dins d) as [a|] eqn:Ea.
  2: { apply (dlflush_none 0 d); [done..|]. split_and!; eauto. }
  apply (dlflush_killed 0 d l); [done|done|apply Hd|by rewrite Ea|].
  intros s1 d' Hk Hn. destruct (killed_ends _ _ _ _ _ _ _ Hk Ed) as (Ed' & _ & _ & _ & G1 & _).
  rewrite G1, Hg. change (-1 =? -1) with true. cbv iota. wps. pose proof Hk as (Es & Hf & _). split_and!.
  - pose proof (killed_dinv s s1 D G ∅ (inl 0%nat) 0 l l d d') as Hkd. rewrite (insert_id D (inl 0%nat) l Hl) in Hkd.
    apply Hkd; try done. intros g b Hx%(di_two _ _ _ _ Hd). lia.
  - by eapply killed_cinv.
  - apply Hf.
  - eauto.
  - intros j Hj. rewrite Es. by apply list_lookup_insert_ne.
  - apply Hf.
Qed.

Lemma dlflushes_spec l : forall s D G, cinv s [] -> dinv s D G ∅ -> (forall i, i ∈ l -> i ∈ dllru s) ->
  wp (dlflushes newblk l) (fun _ s' => cinv s' [] /\ (exists D', snapgrew D D' /\ dinv s' D' G ∅) /\ dlhash s' = dlhash s /\
    (forall i, i ∈ l -> exists d, dls s' !! i = Some d /\ dins d = None) /\
    forall i d, i <> 0%nat -> dls s !! i = Some d -> dins d = None -> exists d', dls s' !! i = Some d' /\ dins d' = None) s.
Proof.
  induction l as [|i l IH]; intros s D G Hc Hd Hl; cbn [dlflushes].
  - wps. destruct (di_snap _ _ _ _ Hd) as (_ & _ & _ & [l0 Hl0]). split_and!; try done; [|set_solver|eauto].
    exists D. split; [by eapply snapgrew_refl|done].
  - destruct (ci_lru_in _ _ Hc i) as [h Hb]; [apply Hl; by left|]. destruct (ci_bucket _ _ Hc _ _ Hb) as (H2 & d & Ed & _).
    assert (Hi : cached s (dgen (dd d)) (Layout.bgen (dd d)) = Some i) by (eapply cached_in; [done..|]; apply isdl_spec; by exists d).
    wps. eapply dlwp_mono; [by apply (dlflush_spec s D G [] _ _ i Hc Hd Hi)|].
    intros ? s1 Hfl. pose proof Hfl as ((D1 & Hg1 & Hd1) & Hc1 & El & Eh & _ & Hi1 & _).
    eapply dlwp_mono; [apply (IH s1 D1 G Hc1 Hd1)|].
    + intros j Hj. rewrite El. apply Hl. by right.
    + intros _ s2 (Hc2 & (D2 & Hg2 & Hd2) & Eh2 & Hl2 & Hk2). split_and!; [done| |congruence| |].
      * exists D2. split; [by eapply snapgrew_trans|done].
      * intros j [->|Hj]%elem_of_cons; [|by apply Hl2]. destruct Hi1 as (d1 & E1 & N1). eapply Hk2; [lia|done..].
      * intros j x H0 Ex Nx. destruct (flushes_other _ _ _ _ _ j _ Hfl x Ex H0 Nx) as (y & Ey & Ny). by eapply Hk2.
Qed.

Lemma dlsync_spec s D G : cinv s [] -> dinv s D G ∅ ->
  wp (dlsync newblk) (fun _ s' => cinv s' [] /\ (exists D', snapgrew D D' /\ dinv s' D' G ∅) /\ flushed s') s.
Proof.
  intros Hc Hd. unfold dlsync. wps. eapply dlwp_mono; [by apply (dlflush_snap s D G [])|].
  intros _ s1 (Hd1 & Hc1 & El & _). wps. eapply dlwp_mono; [by apply (dlflushes_spec (dllru s1) s1 D G)|].
  intros _ s2 (Hc2 & Hd2 & Eh & Hl & _). split_and!; [done..|]. intros h i d Hi Ed.
  unfold dlbucket in Hi. rewrite Eh in Hi. destruct (ci_held _ _ Hc1 h i Hi) as [Hin|?]; [|set_solver].
  destruct (Hl i Hin) as (d' & ? & ?). congruence.
Qed.
End Lists.
Arguments cached {T} dlcmax s g b.
Arguments obj_of {T} dlcmax s o.
Arguments cinv {T} dlcmax s held.
Arguments in_place {T} dlcmax s g b l e.
Arguments in_cache {T} dlcmax s g b l.
Arguments dinv {T TM} dlcmax A s D G X.
Arguments recorded {T TM} dlcmax s t D G X.
Arguments records {T TM} dlcmax s D G X ms.
Arguments added {T} dlcmax s g b d.
Arguments removed {T} dlcmax s g b i.
Arguments gotdl {T TM} dlcmax A s D G held g b i s'.
Arguments flushes {T TM} dlcmax A s D G held i s'.
Arguments evicted {T TM} dlcmax A s D G held s'.
