(* ===== verification/Reclaim.v ===== *)
(** sys/src/9/gefs/snap.c, what becomes of the deadlists of a snapshot that is
    deleted: mergedl, dropdl and reclaimblocks on the map of deadlists of
    Dlist.v, and which blocks that frees. *)

From S2P Require Import Prelude Layout Hash Pack Node Msgs Blk Alloc Dead Dlist.

(** * On the map *)

(** mergedl: the list of [gen] becomes part of the list of [merge]. *)
Definition merged (D : dlmap) (merge gen b : Z) : dlmap :=
  let D := ensure D merge b in
  match D !! inr (merge, b), D !! inr (gen, b) with
  | Some ld, Some lm => <[inr (merge, b) := (ld ++ lm)]> (delete (inr (gen, b)) D)
  | _, _ => D
  end.

(** dropdl: the list becomes part of fs->snapdl or of fs->dropdl. *)
Definition dropped (D : dlmap) (gen b : Z) (t : nat) : dlmap :=
  match D !! inl t, D !! inr (gen, b) with
  | Some lt, Some l => <[inl t := (lt ++ l)]> (delete (inr (gen, b)) D)
  | _, _ => D
  end.

Lemma ents_app l1 l2 : ents (l1 ++ l2) = ents l1 ++ ents l2.
Proof. unfold ents. by rewrite fmap_app, concat_app. Qed.

Lemma snapgrew_alt D D' : snapgrew D D' <->
  (forall o, o <> inl 0%nat -> D' !! o = D !! o) /\ exists l l' ks, D !! inl 0%nat = Some l /\ D' !! inl 0%nat = Some l' /\ ents l' ≡ₚ ks ++ ents l.
Proof.
  split.
  - intros Hg. split; [intros o; by apply snapgrew_ne|]. destruct Hg as (l & l' & ks & Hl & -> & He).
    exists l, l', ks. by rewrite lookup_insert_eq.
  - intros (Ho & l & l' & ks & Hl & Hl' & He). exists l, l', ks. split_and!; try done. apply map_eq. intros o.
    destruct (decide (o = inl 0%nat)) as [->|Hne]; [by rewrite lookup_insert_eq|rewrite lookup_insert_ne by done; auto].
Qed.

Lemma snapgrew_merged D D' merge gen b : snapgrew D D' -> snapgrew (merged D merge gen b) (merged D' merge gen b).
Proof.
  intros Hg. pose proof (snapgrew_ensure D D' merge b Hg) as He. unfold merged. revert He.
  generalize (ensure D merge b) (ensure D' merge b). clear. intros D D' He.
  rewrite !(snapgrew_ne _ _ _ He) by done. destruct (D !! inr (merge, b)); [|done]. destruct (D !! inr (gen, b)); [|done].
  apply snapgrew_alt in He as (Ho & l1 & l2 & ks & E1 & E2 & Hp). apply snapgrew_alt. split.
  - intros o Hne. destruct (decide (o = inr (merge, b))) as [->|N]; [by rewrite !lookup_insert_eq|].
    rewrite !(lookup_insert_ne _ (inr (merge, b))) by done.
    destruct (decide (o = inr (gen, b))) as [->|N2]; [by rewrite !lookup_delete_eq|]. rewrite !lookup_delete_ne by done. auto.
  - exists l1, l2, ks. by rewrite !lookup_insert_ne, !lookup_delete_ne.
Qed.

Lemma snapgrew_dropped D D' gen b t : snapgrew D D' -> snapgrew (dropped D gen b t) (dropped D' gen b t).
Proof.
  intros He. unfold dropped. rewrite (snapgrew_ne _ _ (inr (gen, b)) He) by done.
  pose proof He as He'. apply snapgrew_alt in He' as (Ho & l1 & l2 & ks & E1 & E2 & Hp).
  destruct (D !! inr (gen, b)) as [l|]; [|by destruct (D !! inl t), (D' !! inl t)].
  destruct (decide (t = 0%nat)) as [->|N].
  - rewrite E1, E2. apply snapgrew_alt. split.
    + intros o Hne. rewrite !(lookup_insert_ne _ (inl 0%nat)) by done.
      destruct (decide (o = inr (gen, b))) as [->|N2]; [by rewrite !lookup_delete_eq|]. rewrite !lookup_delete_ne by done. auto.
    + exists (l1 ++ l), (l2 ++ l), ks. rewrite !lookup_insert_eq. split_and!; [done..|]. by rewrite !ents_app, Hp, app_assoc.
  - rewrite (Ho (inl t)) by congruence. destruct (D !! inl t) as [lt|]; [|done]. apply snapgrew_alt. split.
    + intros o Hne. destruct (decide (o = inl t)) as [->|N1]; [by rewrite !lookup_insert_eq|]. rewrite !(lookup_insert_ne _ (inl t)) by done.
      destruct (decide (o = inr (gen, b))) as [->|N2]; [by rewrite !lookup_delete_eq|]. rewrite !lookup_delete_ne by done. auto.
    + exists l1, l2, ks. rewrite !(lookup_insert_ne _ (inl t)) by congruence. by rewrite !lookup_delete_ne.
Qed.

(** * The operations *)

Section Reclaim.
  Context {T : Type} `{SnapTree T} `{TM : TreeMeans T, !SnapLaws T}.
  Context {newblk : nat -> res Mblk} {dlcmax : Z} {A : nat -> Z} `{!Supply newblk A}.
  #[local] Abbreviation state := (dstate (T:=T)).
  #[local] Abbreviation dinv := (dinv dlcmax A).
  #[local] Abbreviation cinv := (cinv dlcmax).
  #[local] Abbreviation cached := (cached dlcmax).

(** A list that is gone is never asked for again. *)
Lemma dinv_dead (s : state) D G X g b : dinv s D G X -> D !! inr (g, b) = None -> dinv s D ({[(g, b)]} ∪ G) X.
Proof.
  intros [I1 I2 I2' I3 I4 I4' I5 I6 I7 I8 I9 I10] Hn. constructor; try done.
  - intros g' b' [[= -> ->]%elem_of_singleton|?]%elem_of_union; auto.
  - intros g' b' i d Hc Hl Hd. destruct (I9 g' b' i d Hc Hl Hd) as [?|[? ?]]; [by left|right; split; [set_solver|done]].
Qed.

(** The record of a list that is gone is gone too. *)
Lemma dinv_clear (s : state) D G g b : dinv s D G {[(g, b)]} -> D !! inr (g, b) = None -> mean (snap s) (dlkey g b) = None ->
  cached s g b = None -> dinv s D G ∅.
Proof.
  intros [I1 I2 I2' I3 I4 I4' I5 I6 I7 I8 I9 I10] Hn Hm Hc. constructor; try done.
  - intros g' b' l Hl. destruct (I5 g' b' l Hl) as (? & ? & ? & [[[= -> ->]%elem_of_singleton _]|?]); [congruence|auto].
  - intros g' b' ? ? Hl. destruct (I6 g' b') as [[= -> ->]%elem_of_singleton|?]; auto.
  - intros g' b' i d Hc' Hl Hd. destruct (I9 g' b' i d Hc' Hl Hd) as [[= -> ->]%elem_of_singleton|?]; [congruence|auto].
Qed.

Lemma kv_at_some (t : T) g b e : saved t g b e -> exists kv, kv_at t (dlkey g b) = Some kv /\ k kv = dlkey g b.
Proof. intros (v & E & _). unfold kv_at. rewrite E. by eexists. Qed.

(** What the other messages for deadlists leave alone. *)
Lemma other_mean (t t' : T) ms key : (forall m, m ∈ ms -> mk m <> key) ->
  mrun (kv_at t key) (for_key key ms) = Ok (kv_at t' key) -> mean t' key = mean t key.
Proof.
  intros Hne Hm. unfold for_key in Hm. rewrite filter_none in Hm by (by apply Forall_forall). cbn in Hm.
  apply kv_at_mean. congruence.
Qed.

(** The delete of a record. *)
Lemma records_delete (s : state) D G g b v :
  dinv s D G ∅ -> is_Some (D !! inr (g, b)) -> (exists i, cached s g b = Some i) -> zlen v <= 48 ->
  records dlcmax s D G {[(g, b)]} [mkMsg Odelete (dlkey g b) v].
Proof.
  intros Hd [l Hl] [i Hi] Hv. set (m := mkMsg _ _ _).
  destruct (di_key _ _ _ _ Hd g b l Hl) as (K1 & K2 & K3 & [[[]%not_elem_of_empty _]|(e & Hs & Hp)]).
  destruct (kv_at_some _ _ _ _ Hs) as (kv & Ekv & Hk).
  assert (Hrun : forall key, mrun (kv_at (snap s) key) (for_key key [m]) = Ok (if decide (dlkey g b = key) then None else kv_at (snap s) key)).
  { intros key. case_decide as Hkey; [|by apply mrun_none]. subst key. apply mrun_one; [done|]. rewrite Ekv. by apply mstep_delete. }
  split; [apply Forall_singleton, dlmsg_good; [unfold Odelete; lia|done]|]. split; [intros key; rewrite Hrun; by eexists|]. intros t Ht.
  assert (Hsame : forall key, key <> dlkey g b -> mean t key = mean (snap s) key).
  { intros key Hne. eapply (other_mean _ _ [m]); [|apply Ht]. intros x ->%list_elem_of_singleton. done. }
  split_and!.
  - intros g' b' l' Hl'. destruct (decide ((g', b') = (g, b))) as [[= -> ->]|Hne].
    + left. split; [set_solver|]. unfold in_place in Hp. rewrite Hi in Hp. destruct Hp as (d & ? & ? & _).
      exists i, d. assert (l' = l) as -> by congruence. done.
    + destruct (di_key _ _ _ _ Hd g' b' l' Hl') as (? & ? & ? & [[[]%not_elem_of_empty _]|(e' & Hs' & ?)]).
      right. exists e'. split; [|done]. eapply saved_ext; [|done]. apply Hsame. intros E%dlkey_inj; done.
  - intros g' b' ? ? Hn. right. rewrite Hsame; [by destruct (di_none _ _ _ _ Hd g' b')|]. intros E%dlkey_inj; try done. congruence.
  - intros g' b' j d Hc Hn Hd'. destruct (di_lost _ _ _ _ Hd g' b' j d Hc Hn Hd') as [[]%not_elem_of_empty|?]; [by right].
  - intros key w Hw Hpre. destruct (decide (key = dlkey g b)) as [->|Hne]; [eauto|].
    rewrite Hsame in Hw by done. by apply (di_form _ _ _ _ Hd key w).
Qed.

Lemma dlmsg_spec o i d n (Q : Msg -> state -> Prop) (s : state) : dls s !! i = Some d -> Dlkvpsz <= n ->
  (forall v, dlist2kv (dd d) n = Ok (mkKvp (dlkey (dgen (dd d)) (bgen (dd d))) v) -> zlen v = 48 ->
     Q (mkMsg o (dlkey (dgen (dd d)) (bgen (dd d))) v) s) -> wp (dlmsg o i n) Q s.
Proof.
  intros Hi Hn HQ. unfold dlmsg. wps. apply (dlget_spec i d); [done|]. wps.
  destruct (dlist2kv_Ok (dd d) n Hn) as (v & E & Hv). apply (wp_lift _ _ _ _ E). wps. by apply HQ.
Qed.

(** A struct that is in no bucket is not held. *)
Lemma cinv_unheld (s : state) held i : cinv s (i :: held) -> (forall h, i ∉ dlbucket s h) -> cinv s held.
Proof.
  intros [C1 C2 C3 C4 C5 C6 C7] Hi. constructor; try done.
  - intros h j Hj. destruct (C6 h j Hj) as [?|[->|?]%elem_of_cons]; [by left|by destruct (Hi h)|by right].
  - intros j Hj. apply C7. by right.
Qed.

Lemma cached_struct (s : state) g b i : cached s g b = Some i -> exists d, dls s !! i = Some d /\ dgen (dd d) = g /\ bgen (dd d) = b.
Proof. intros [_ H0]%cached_Some. by apply isdl_spec. Qed.

Lemma dropdl_spec (s : state) D G g b succ l : cinv s [] -> dinv s D G ∅ -> flushed s -> D !! inr (g, b) = Some l ->
  wp (dropdl newblk dlcmax g b succ) (fun _ s' => cinv s' [] /\ flushed s' /\
    exists D', snapgrew (dropped D g b (if succ =? -1 then 1 else 0)) D' /\ dinv s' D' ({[(g, b)]} ∪ G) ∅) s.
Proof.
  intros Hc Hd Hf Hl. destruct (di_key _ _ _ _ Hd g b l Hl) as (K1 & K2 & K3 & _).
  assert (HG : (g, b) ∉ G) by (intros ?%(di_dead _ _ _ _ Hd); congruence).
  unfold dropdl. wps. eapply dlwp_mono; [by apply (getdl_spec s D G [] g b)|].
  intros i s1 ((D1 & Hg1 & Hd1) & Hc1 & Hi & _ & Hf1). unfold ensure in Hg1. rewrite Hl in Hg1. specialize (Hf1 Hf).
  assert (Hl1 : D1 !! inr (g, b) = Some l) by (by rewrite (snapgrew_ne _ _ _ Hg1)).
  destruct (cached_struct _ _ _ _ Hi) as (d & Ed & <- & <-). set (x := dgen (dd d)) in *. set (y := bgen (dd d)) in *.
  pose proof (cached_Some _ _ _ _ Hi) as [Hb _].
  wps. apply (dlmsg_spec _ i d); [done|done|]. intros v _ Hv. wps.
  eapply dlwp_mono.
  { apply (snapupsert_dinv _ D1 G ∅ {[(x, y)]} s1 Hd1). apply (records_delete s1 D1 G x y v); [done|by rewrite Hl1|by exists i|by rewrite Hv]. }
  intros _ s2 ((D2 & Hg2 & Hd2) & Hq & Hrun). wps.
  pose proof (quiet_cinv _ _ _ Hq Hc1) as Hc2. pose proof (quiet_flushed _ _ _ Hq Hc1 Hf1) as Hf2.
  assert (Hi2 : cached s2 x y = Some i) by (by rewrite (quiet_cached _ _ _ _ Hq)).
  assert (H2 : (2 <= i)%nat) by (by eapply di_two).
  assert (Ed2 : dls s2 !! i = Some d) by (rewrite (qu_dls _ _ Hq); [done|lia]).
  pose proof (cached_Some _ _ _ _ Hi2) as [Hb2 _]. assert (Hn : dins d = None) by (by eapply Hf2).
  assert (Hl2 : D2 !! inr (x, y) = Some l) by (by rewrite (snapgrew_ne _ _ _ Hg2)).
  apply (dlget_spec i d); [done|]. wps. apply wp_check; [by rewrite bool_decide_true|]. wps.
  eapply (dlcachedel_true [i]); [exact Hc2|exact Hi2|]. unfold addcount. wps.
  pose proof (unbind_dinv s2 [i] D2 G {[(x, y)]} x y i l Hc2 Hd2 Hi2 Hl2) as Hu. rewrite (idemp_L (∪)) in Hu.
  pose proof (removed_cinv s2 [i] x y i Hc2 Hi2) as Hc3.
  assert (Hnb : forall h, i ∉ dlbucket (removed dlcmax s2 x y i) h) by (by intros h [_ ?]%(removed_in s2 [i] x y i h i Hc2 Hi2)).
  apply cinv_unheld in Hc3; [|done]. pose proof (removed_flushed s2 [i] x y i Hc2 Hi2 Hf2) as Hf3.
  set (s3 := removed dlcmax s2 x y i) in *. set (D3 := <[inl i := l]> (delete (inr (x, y)) D2)) in *.
  assert (Hd3 : dinv s3 D3 ({[(x, y)]} ∪ G) ∅).
  { assert (D3 !! inr (x, y) = None) as En by (unfold D3; by rewrite lookup_insert_ne, lookup_delete_eq).
    apply dinv_dead; [|done]. apply (dinv_clear _ _ _ x y); [done|done| |].
    - specialize (Hrun (dlkey x y)). destruct (di_key _ _ _ _ Hd1 x y l Hl1) as (_ & _ & _ & [[[]%not_elem_of_empty _]|(e & Hs & _)]).
      destruct (kv_at_some _ _ _ _ Hs) as (kv & Ekv & Hk). rewrite Ekv in Hrun.
      rewrite (mrun_one _ _ _ None) in Hrun; [|done|by apply mstep_delete]. injection Hrun as Hrun. unfold kv_at in Hrun.
      change (snap s3) with (snap s2). destruct (mean (snap s2) (dlkey x y)); done.
    - by destruct (removed_cached s2 [i] x y i Hc2 Hi2). }
  set (s4 := setcache (dlhash s3) (dllru s3) (dlcount s3 + -1) s3).
  assert (Hd4 : dinv s4 D3 ({[(x, y)]} ∪ G) ∅) by (eapply dinv_ext; [..|exact Hd3]; done).
  assert (Hc4 : cinv s4 []) by (by destruct Hc3; constructor).
  (* splicing *)
  set (t := if succ =? -1 then 1%nat else 0%nat).
  assert (Ht : (t < 2)%nat) by (unfold t; case_match; lia).
  assert (exists lt, D2 !! inl t = Some lt) as [lt Elt].
  { unfold t. case_match; [apply (di_drop _ _ _ _ Hd2)|by destruct (di_snap _ _ _ _ Hd2) as (? & _ & _ & ?)]. }
  assert (Elt3 : D3 !! inl t = Some lt) by (unfold D3; by rewrite lookup_insert_ne, lookup_delete_ne by (intros [= E]; lia)).
  assert (El3 : D3 !! inl i = Some l) by (unfold D3; by rewrite lookup_insert_eq).
  destruct (di_obj _ _ _ _ Hd4 t lt Elt3) as (dt & Edt & Hdt). destruct (di_obj _ _ _ _ Hd4 i l El3) as (d1 & Ed1 & Hd1l).
  eapply dlwp_mono.
  { apply (splicedl_spec s4 t i dt d1 lt l); try done; [lia|].
    intros a Ha Ha'. pose proof (di_disj _ _ _ _ Hd4 _ _ _ _ a Elt3 El3 Ha Ha') as [= E]. lia. }
  intros ? s5 Hj; cbv beta in Hj. split_and!.
  - by eapply joined_cinv.
  - intros h j z Hj' Ez. unfold dlbucket in Hj'. rewrite (jo_hash _ _ _ _ _ _ Hj) in Hj'.
    destruct (ci_bucket _ _ Hc4 h j Hj') as (H2' & z0 & Ez0 & _). destruct (jo_gens _ _ _ _ _ _ Hj j z0 Ez0) as (z' & Ez' & _ & _ & _ & _ & Hz).
    assert (z = z') as -> by congruence. apply Hz; [|lia]. by eapply Hf3.
  - exists (<[inl t := (lt ++ l)]> (delete (inl i) D3)). split.
    + assert (<[inl t := (lt ++ l)]> (delete (inl i) D3) = dropped D2 x y t) as ->.
      { unfold dropped. rewrite Elt, Hl2. unfold D3. rewrite delete_insert_eq. apply map_eq. intros o.
        destruct (decide (o = inl t)) as [->|N]; [by rewrite !lookup_insert_eq|]. rewrite !(lookup_insert_ne _ (inl t)) by done.
        destruct (decide (o = inl i)) as [->|N2]; [|by rewrite lookup_delete_ne by done].
        rewrite lookup_delete_eq, lookup_delete_ne by done. destruct (D2 !! inl i) eqn:E; [|done].
        pose proof (di_loose _ _ _ _ Hd2 i _ x y E Hi2). congruence. }
      apply snapgrew_dropped. by eapply snapgrew_trans.
    + eapply joined_dinv; try done.
      * intros [= E]. lia.
      * intros n [= <-]. done.
      * intros z [?|?]; done.
      * intros n g' b' [[= <-]|[= <-]] Hx; [pose proof (di_two _ _ _ _ Hd4 _ _ _ Hx); lia|].
        pose proof (cached_Some _ _ _ _ Hx) as [Hx' _]. by destruct (Hnb _ Hx').
Qed.

(** The messages of mergedl: the record of one list goes, that of the other is
    written. *)
Lemma records_merge (s : state) D G mg g b l i d v kv kv0 n :
  dinv s D G {[(mg, b); (g, b)]} -> flushed s -> D !! inr (mg, b) = Some l -> D !! inr (g, b) = None -> (g, b) ∈ G ->
  cached s mg b = Some i -> dls s !! i = Some d -> dl_is (blks s) d l -> is_s64 g -> mg <> g -> zlen v <= 48 ->
  kv_at (snap s) (dlkey g b) = Some kv0 -> Dlkvpsz <= n -> dlist2kv (dd d) n = Ok kv ->
  records dlcmax s D G ∅ [mkMsg Odelete (dlkey g b) v; mkMsg Oinsert (k kv) (Layout.v kv)].
Proof.
  intros Hd Hf Hl Hn HG Hi Ed Hdl Hg Hne Hv Hkv Hn2 E. set (m0 := mkMsg Odelete _ _). set (m1 := mkMsg Oinsert _ _).
  destruct (di_key _ _ _ _ Hd mg b l Hl) as (K1 & K2 & K3 & _).
  destruct (cached_struct _ _ _ _ Hi) as (d0 & Ed0 & Eg & Eb). assert (d0 = d) as -> by congruence.
  destruct (dlist2kv_saved (dd d) n kv) as (Hk & Hgm & _ & Hms & Hsv); rewrite ?Eg, ?Eb; try done; try apply Hdl. rewrite Eg, Eb in *.
  assert (Hkk : dlkey g b <> dlkey mg b) by (intros E'%dlkey_inj; congruence || done).
  assert (Hm0 : mk m0 = dlkey g b) by done. assert (Hm1 : mk m1 = dlkey mg b) by done.
  assert (Hrun : forall key, mrun (kv_at (snap s) key) (for_key key [m0; m1]) =
      Ok (if decide (dlkey g b = key) then None else if decide (dlkey mg b = key) then Some kv else kv_at (snap s) key)).
  { intros key. change [m0; m1] with ([m0] ++ [m1]). rewrite for_key_app, mrun_app. case_decide as H1.
    - subst key. rewrite (mrun_one _ _ m0 None); [|done|rewrite Hkv; apply mstep_delete; [done|]]; [rewrite bind_ok; apply mrun_none; congruence|].
      unfold kv_at in Hkv. destruct (mean (snap s) (dlkey g b)); [|done]. by injection Hkv as <-.
    - rewrite mrun_none by done. rewrite bind_ok. case_decide as H2; [subst key; by apply mrun_one|apply mrun_none; congruence]. }
  split; [apply Forall_cons; split; [apply dlmsg_good; [unfold Odelete; lia|done]|by apply Forall_singleton]|].
  split; [intros key; rewrite Hrun; by eexists|]. intros t Ht.
  assert (Hsame : forall key, key <> dlkey g b -> key <> dlkey mg b -> mean t key = mean (snap s) key).
  { intros key N1 N2. eapply (other_mean _ _ [m0; m1]); [|apply Ht].
    intros x [->|Hx]%elem_of_cons; [congruence|]. apply list_elem_of_singleton in Hx as ->. congruence. }
  assert (Hgone : mean t (dlkey g b) = None).
  { specialize (Ht (dlkey g b)). rewrite Hrun, decide_True in Ht by done. apply Ok_inj in Ht. unfold kv_at in Ht. by destruct (mean t (dlkey g b)). }
  assert (Hnew : saved t mg b (dd d)).
  { apply Hsv. rewrite Hk. specialize (Ht (dlkey mg b)). rewrite Hrun, decide_False, decide_True in Ht by done. congruence. }
  split_and!.
  - intros g' b' l' Hl'. destruct (decide ((g', b') = (mg, b))) as [[= -> ->]|N1].
    + right. exists (dd d). split; [done|]. unfold in_place. rewrite Hi. exists d. assert (l' = l) as -> by congruence. done.
    + destruct (di_key _ _ _ _ Hd g' b' l' Hl') as (? & ? & ? & [[Hx _]|(e & Hs & Hp)]).
      * exfalso. apply elem_of_union in Hx as [Hx|Hx]; apply elem_of_singleton in Hx; congruence.
      * right. exists e. split; [|done]. eapply saved_ext; [|done]. apply Hsame; intros E'%dlkey_inj; congruence || done.
  - intros g' b' ? ? Hn'. right. destruct (decide ((g', b') = (g, b))) as [[= -> ->]|N1]; [done|].
    destruct (decide ((g', b') = (mg, b))) as [[= -> ->]|N2]; [congruence|].
    rewrite Hsame by (intros E'%dlkey_inj; congruence || done). destruct (di_none _ _ _ _ Hd g' b') as [Hx|?]; try done.
    exfalso. apply elem_of_union in Hx as [Hx|Hx]; apply elem_of_singleton in Hx; congruence.
  - intros g' b' j x Hc Hn' Ex. right. pose proof (cached_Some _ _ _ _ Hc) as [Hb _]. split; [|by eapply Hf].
    destruct (di_lost _ _ _ _ Hd g' b' j x Hc Hn' Ex) as [Hx|[? _]]; [|done].
    apply elem_of_union in Hx as [Hx|Hx]; apply elem_of_singleton in Hx as [= -> ->]; [congruence|done].
  - intros key w Hw Hpre. destruct (decide (key = dlkey g b)) as [->|N1]; [eauto|]. destruct (decide (key = dlkey mg b)) as [->|N2]; [eauto|].
    rewrite Hsame in Hw by done. by apply (di_form _ _ _ _ Hd key w).
Qed.

Lemma mergedl_spec (s : state) D G mg g b lm : cinv s [] -> dinv s D G ∅ -> flushed s -> D !! inr (g, b) = Some lm ->
  is_s64 mg -> mg <> -1 -> mg <> g -> (mg, b) ∉ G ->
  wp (mergedl newblk dlcmax mg g b) (fun _ s' => cinv s' [] /\ flushed s' /\
    exists D', snapgrew (merged D mg g b) D' /\ dinv s' D' ({[(g, b)]} ∪ G) ∅) s.
Proof.
  intros Hc Hd Hf Hlm Hmg Hmg1 Hne HGm. destruct (di_key _ _ _ _ Hd g b lm Hlm) as (K1 & K2 & K3 & _).
  assert (HG : (g, b) ∉ G) by (intros ?%(di_dead _ _ _ _ Hd); congruence).
  unfold mergedl. wps. eapply dlwp_mono; [by apply (getdl_spec s D G [] mg b)|].
  intros i s1 ((D1 & Hg1 & Hd1) & Hc1 & Hi1 & _ & Hf1). specialize (Hf1 Hf).
  assert (Hlm1 : D1 !! inr (g, b) = Some lm).
  { rewrite (snapgrew_ne _ _ _ Hg1) by done. unfold ensure. destruct (D !! inr (mg, b)); [done|]. by rewrite lookup_insert_ne by congruence. }
  assert (exists ld, D1 !! inr (mg, b) = Some ld) as [ld Hld1].
  { rewrite (snapgrew_ne _ _ _ Hg1) by done. unfold ensure. destruct (D !! inr (mg, b)) eqn:E; [eauto|]. rewrite lookup_insert_eq. eauto. }
  wps. eapply dlwp_mono; [by apply (getdl_spec s1 D1 G [i] g b)|].
  intros j s2 ((D2 & Hg2 & Hd2) & Hc2 & Hj2 & Ho2 & Hf2). specialize (Hf2 Hf1). unfold ensure in Hg2. rewrite Hlm1 in Hg2.
  assert (Hi2 : cached s2 mg b = Some i) by (rewrite Ho2; [done|congruence]).
  assert (Hlm2 : D2 !! inr (g, b) = Some lm) by (by rewrite (snapgrew_ne _ _ _ Hg2)).
  assert (Hld2 : D2 !! inr (mg, b) = Some ld) by (by rewrite (snapgrew_ne _ _ _ Hg2)).
  assert (Hij : i <> j) by (intros ->; pose proof (cached_inj _ _ _ _ _ _ Hi2 Hj2); congruence).
  destruct (obj_list s2 D2 G ∅ (inr (mg, b)) ld i Hd2 Hld2 Hi2) as (d & Ed & Hdl).
  destruct (obj_list s2 D2 G ∅ (inr (g, b)) lm j Hd2 Hlm2 Hj2) as (m & Em & Hml).
  pose proof (cached_Some _ _ _ _ Hi2) as [Hib _]. pose proof (cached_Some _ _ _ _ Hj2) as [Hjb _].
  pose proof (Hf2 _ _ _ Hib Ed) as Hdn. pose proof (Hf2 _ _ _ Hjb Em) as Hmn.
  (* the lists are joined *)
  wps. eapply dlwp_mono.
  { apply (splicedl_spec s2 i j d m ld lm); try done. intros a Ha Ha'.
    pose proof (di_disj _ _ _ _ Hd2 _ _ _ _ a Hld2 Hlm2 Ha Ha'). congruence. }
  intros ? s3 Hj; cbv beta in Hj. set (D3 := <[inr (mg, b) := (ld ++ lm)]> (delete (inr (g, b)) D2)).
  pose proof (joined_cinv _ _ _ _ _ _ _ Hj Hc2) as Hc3.
  assert (Hf3 : flushed s3) by (eapply joined_flushed; eauto).
  assert (Hi3 : cached s3 mg b = Some i) by (by rewrite (joined_cached _ _ _ _ _ _ _ _ Hj)).
  assert (Hj3 : cached s3 g b = Some j) by (by rewrite (joined_cached _ _ _ _ _ _ _ _ Hj)).
  assert (Hn3 : D3 !! inr (g, b) = None) by (unfold D3; by rewrite lookup_insert_ne, lookup_delete_eq by congruence).
  assert (Hl3 : D3 !! inr (mg, b) = Some (ld ++ lm)) by (unfold D3; by rewrite lookup_insert_eq).
  assert (Hd3 : dinv s3 D3 ({[(g, b)]} ∪ G) {[(mg, b); (g, b)]}).
  { apply dinv_dead; [|done]. eapply (joined_dinv s2 s3 D2 G _ (inr (mg, b)) (inr (g, b)) i j ld lm); try done.
    - eapply dinv_weaken; [exact Hd2|set_solver].
    - congruence.
    - intros [x y] [[= <- <-]|[= <- <-]]; set_solver.
    - intros n ? ? [?|?]; done. }
  (* the records are written *)
  destruct (jo_gens _ _ _ _ _ _ Hj i d Ed) as (d3 & Ed3 & Eg3 & Eb3 & _ & Hdl3 & _). specialize (Hdl3 eq_refl).
  destruct (jo_gens _ _ _ _ _ _ Hj j m Em) as (m3 & Em3 & Egm & Ebm & _ & _ & _).
  destruct (cached_struct _ _ _ _ Hj3) as (m3' & Em3' & Gm & Bm). assert (m3' = m3) as -> by congruence.
  wps. apply (dlmsg_spec _ j m3); [done|done|]. intros v _ Hv. rewrite Gm, Bm.
  wps. apply (dlmsg_spec _ i d3); [done|done|]. intros w Ew Hw. wps.
  destruct (di_key _ _ _ _ Hd2 g b lm Hlm2) as (_ & _ & _ & [[[]%not_elem_of_empty _]|(e & Hs & _)]).
  destruct (kv_at_some _ _ _ _ Hs) as (kv0 & Ekv0 & _). rewrite <- (jo_snap _ _ _ _ _ _ Hj) in Ekv0.
  eapply dlwp_mono.
  { apply (snapupsert_dinv _ D3 ({[(g, b)]} ∪ G) _ ∅ s3 Hd3).
    apply (records_merge s3 D3 ({[(g, b)]} ∪ G) mg g b (ld ++ lm) i d3 v (mkKvp (dlkey (dgen (dd d3)) (bgen (dd d3))) w) kv0 Kvmax); try done.
    - set_solver.
    - by rewrite Hv. }
  intros _ s4 ((D4 & Hg4 & Hd4) & Hq & _).
  pose proof (quiet_cinv _ _ _ Hq Hc3) as Hc4. pose proof (quiet_flushed _ _ _ Hq Hc3 Hf3) as Hf4.
  (* both go back to the cache *)
  wps. eapply dlwp_mono; [apply (putdl_spec s4 D4 _ [i] g b j Hc4 Hd4)|].
  { by rewrite (quiet_cached _ _ _ _ Hq). }
  { intros ->%list_elem_of_singleton. done. }
  intros _ s5 [(D5 & Hg5 & Hd5) Hc5 Hh5 Hf5].
  eapply dlwp_mono; [apply (putdl_spec s5 D5 _ [] mg b i Hc5 Hd5)|].
  { apply Hh5; [by left|]. by rewrite (quiet_cached _ _ _ _ Hq). }
  { apply not_elem_of_nil. }
  intros _ s6 [(D6 & Hg6 & Hd6) Hc6 _ Hf6]. split_and!; [done|auto|]. exists D6. split; [|done].
  eapply snapgrew_trans; [|exact Hg6]. eapply snapgrew_trans; [|exact Hg5]. eapply snapgrew_trans; [|exact Hg4].
  assert (D3 = merged D2 mg g b) as ->.
  { unfold merged, ensure. rewrite Hld2. by rewrite Hld2, Hlm2. }
  eapply snapgrew_trans; [|apply snapgrew_merged; exact Hg2].
  assert (merged D mg g b = merged (ensure D mg b) mg g b) as ->.
  { unfold merged. do 2 f_equal. all: unfold ensure; destruct (D !! inr (mg, b)) eqn:E; rewrite ?E, ?lookup_insert_eq; done. }
  by apply snapgrew_merged.
Qed.
End Reclaim.

(** * reclaimblocks *)

(** The addresses of a list. *)
Definition entsof (D : dlmap) (o : owner) : list Z := ents (default [] (D !! o)).

(** Where the blocks to free go: the sweeper frees those of a snapshot without
    successor, fs->dropdl only keeps the blocks of the lists. *)
Definition target (succ : Z) : nat := if succ =? -1 then 1%nat else 0%nat.

(** One list of the snapshot that is deleted, and one of its successor. *)
Definition rstep (gen succ prev : Z) (D : dlmap) (b : Z) : dlmap :=
  if negb (succ =? -1) && (b <=? prev) then merged D succ gen b else dropped D gen b (target succ).
Definition rgen (gen succ prev : Z) : list Z -> dlmap -> dlmap := fun bs D => fold_left (rstep gen succ prev) bs D.

Definition sstep (succ prev : Z) (D : dlmap) (b : Z) : dlmap := if b <=? prev then D else dropped D succ b 0.
Definition rsucc (succ prev : Z) : list Z -> dlmap -> dlmap := fun bs D => fold_left (sstep succ prev) bs D.

Lemma merged_lookup D m g b o : is_Some (D !! inr (g, b)) -> m <> g ->
  (o <> inr (m, b) -> o <> inr (g, b) -> merged D m g b !! o = D !! o) /\ merged D m g b !! inr (g, b) = None /\
  exists l, merged D m g b !! inr (m, b) = Some l /\ ents l = entsof D (inr (m, b)) ++ entsof D (inr (g, b)).
Proof.
  intros [l Hl] Hne. unfold merged, ensure, entsof. rewrite Hl. destruct (D !! inr (m, b)) as [lm|] eqn:Em.
  - rewrite Em, Hl. split_and!.
    + intros. by rewrite lookup_insert_ne, lookup_delete_ne.
    + by rewrite lookup_insert_ne, lookup_delete_eq by congruence.
    + exists (lm ++ l). by rewrite lookup_insert_eq, ents_app.
  - rewrite lookup_insert_eq, lookup_insert_ne, Hl by congruence. split_and!.
    + intros. by rewrite lookup_insert_ne, lookup_delete_ne, lookup_insert_ne.
    + by rewrite lookup_insert_ne, lookup_delete_eq by congruence.
    + exists ([] ++ l). by rewrite lookup_insert_eq, ents_app.
Qed.

Lemma dropped_lookup D g b t o : is_Some (D !! inr (g, b)) -> is_Some (D !! inl t) ->
  (o <> inl t -> o <> inr (g, b) -> dropped D g b t !! o = D !! o) /\ dropped D g b t !! inr (g, b) = None /\
  exists l, dropped D g b t !! inl t = Some l /\ ents l = entsof D (inl t) ++ entsof D (inr (g, b)).
Proof.
  intros [l Hl] [lt Ht]. unfold dropped, entsof. rewrite Hl, Ht. split_and!.
  - intros. by rewrite lookup_insert_ne, lookup_delete_ne.
  - by rewrite lookup_insert_ne, lookup_delete_eq by congruence.
  - exists (lt ++ l). by rewrite lookup_insert_eq, ents_app.
Qed.

Lemma rstep_lookup gen succ prev D b : is_Some (D !! inr (gen, b)) -> is_Some (D !! inl (target succ)) -> succ <> gen ->
  let D' := rstep gen succ prev D b in
  D' !! inr (gen, b) = None /\
  (forall o, o <> inl (target succ) -> o <> inr (gen, b) -> (succ = -1 \/ prev < b \/ o <> inr (succ, b)) -> D' !! o = D !! o) /\
  (succ <> -1 -> b <= prev -> exists l, D' !! inr (succ, b) = Some l /\ ents l = entsof D (inr (succ, b)) ++ entsof D (inr (gen, b))) /\
  exists l, D' !! inl (target succ) = Some l /\
    ents l = entsof D (inl (target succ)) ++ if decide (succ = -1 \/ prev < b) then entsof D (inr (gen, b)) else [].
Proof.
  intros Hg Ht Hne D'. unfold D', rstep. pose proof Ht as [lt Elt].
  destruct (Z.eqb_spec succ (-1)) as [E|E]; cbn [negb andb]; [|destruct (Z.leb_spec b prev) as [Hb|Hb]].
  - destruct (dropped_lookup D gen b (target succ) (inl 0%nat) Hg Ht) as (_ & H2 & l & Hl & El). split_and!; [done| |lia|].
    + intros o ? ? _. by apply (dropped_lookup D gen b (target succ) o Hg Ht).
    + exists l. by rewrite decide_True by auto.
  - destruct (merged_lookup D succ gen b (inl 0%nat) Hg Hne) as (_ & H2 & l & Hl & El). split_and!; [done| |by exists l|].
    + intros o ? ? [?|[?|?]]; [done|lia|by apply (merged_lookup D succ gen b o Hg Hne)].
    + exists lt. rewrite decide_False by lia. destruct (merged_lookup D succ gen b (inl (target succ)) Hg Hne) as (-> & _); [|done..].
      split; [done|]. unfold entsof. by rewrite Elt, app_nil_r.
  - destruct (dropped_lookup D gen b (target succ) (inl 0%nat) Hg Ht) as (_ & H2 & l & Hl & El). split_and!; [done| |lia|].
    + intros o ? ? _. by apply (dropped_lookup D gen b (target succ) o Hg Ht).
    + exists l. by rewrite decide_True by auto.
Qed.

Lemma entsof_ext D D' o : D' !! o = D !! o -> entsof D' o = entsof D o.
Proof. unfold entsof. by intros ->. Qed.

(** The blocks that are freed among the lists [bs] of [g]. *)
Definition freedof (D : dlmap) (g : Z) (P : Z -> Prop) `{forall b, Decision (P b)} (bs : list Z) : list Z :=
  concat ((fun b => entsof D (inr (g, b))) <$> filter P bs).

Lemma freedof_ext D D' g P `{forall b, Decision (P b)} bs :
  (forall b, b ∈ bs -> D' !! inr (g, b) = D !! inr (g, b)) -> freedof D' g P bs = freedof D g P bs.
Proof.
  intros He. unfold freedof. f_equal. apply list_fmap_ext. intros i b Hb%list_elem_of_lookup_2.
  apply list_elem_of_filter in Hb as [_ Hb]. by apply entsof_ext, He.
Qed.

Lemma freedof_cons D g P `{forall b, Decision (P b)} b bs :
  freedof D g P (b :: bs) = (if decide (P b) then entsof D (inr (g, b)) else []) ++ freedof D g P bs.
Proof. unfold freedof. rewrite filter_cons. by case_decide. Qed.

Lemma rgen_lookup gen succ prev bs : forall D, NoDup bs -> (forall b, b ∈ bs -> is_Some (D !! inr (gen, b))) ->
  is_Some (D !! inl (target succ)) -> succ <> gen ->
  let D' := rgen gen succ prev bs D in
  (forall b, b ∈ bs -> D' !! inr (gen, b) = None) /\
  (forall o, o <> inl (target succ) -> (forall b, b ∈ bs -> o <> inr (gen, b) /\ (succ = -1 \/ prev < b \/ o <> inr (succ, b))) -> D' !! o = D !! o) /\
  (forall b, b ∈ bs -> succ <> -1 -> b <= prev -> exists l, D' !! inr (succ, b) = Some l /\ ents l = entsof D (inr (succ, b)) ++ entsof D (inr (gen, b))) /\
  exists l, D' !! inl (target succ) = Some l /\
    ents l = entsof D (inl (target succ)) ++ freedof D gen (fun b => succ = -1 \/ prev < b) bs.
Proof.
  induction bs as [|b bs IH]; intros D Hn Hs Ht Hne D'; unfold D'; cbn [rgen fold_left].
  - destruct Ht as [l Hl]. split_and!; [set_solver|done|set_solver|]. exists l. split; [done|].
    unfold entsof. rewrite Hl. unfold freedof. rewrite filter_nil. cbn. by rewrite app_nil_r.
  - apply NoDup_cons in Hn as [Hb Hn].
    destruct (rstep_lookup gen succ prev D b) as (R1 & R2 & R3 & l & Rl & Re); [apply Hs; by left|done..|].
    set (D1 := rstep gen succ prev D b) in *.
    assert (Hoth : forall b', b' ∈ bs -> D1 !! inr (gen, b') = D !! inr (gen, b')).
    { intros b' Hb'. apply R2; [done| |]; [intros [= ->]; done|]. right. right. congruence. }
    assert (Hoths : forall b', b' ∈ bs -> D1 !! inr (succ, b') = D !! inr (succ, b')).
    { intros b' Hb'. apply R2; [done|congruence|]. right. right. intros [= ->]. done. }
    destruct (IH D1 Hn) as (I1 & I2 & I3 & l' & Il & Ie); [intros b' Hb'; rewrite Hoth by done; apply Hs; by right|by rewrite Rl|done|].
    fold (rgen gen succ prev bs D1) in *. split_and!.
    + intros b' [->|Hb']%elem_of_cons; [|by apply I1]. rewrite I2; [done|done|]. intros b' Hb'. split; [intros [= ->]; done|]. right. right. congruence.
    + intros o Ho Hx. rewrite I2; [|done|intros b' Hb'; apply Hx; by right]. destruct (Hx b) as [? ?]; [by left|]. by apply R2.
    + intros b' [->|Hb']%elem_of_cons Hs1 Hp.
      * destruct (R3 Hs1 Hp) as (l0 & E0 & Ee). exists l0. rewrite I2; [done|done|]. intros b' Hb'. split; [congruence|]. right. right. intros [= ->]. done.
      * destruct (I3 b' Hb' Hs1 Hp) as (l0 & E0 & Ee). exists l0. split; [done|]. rewrite Ee. f_equal; apply entsof_ext; auto.
    + exists l'. split; [done|]. rewrite Ie, freedof_cons. unfold entsof at 1. rewrite Rl. change (default [] (Some l)) with l. rewrite Re, <- app_assoc. f_equal.
      f_equal. by apply freedof_ext.
Qed.

Lemma rsucc_lookup succ prev bs : forall D, NoDup bs -> (forall b, b ∈ bs -> is_Some (D !! inr (succ, b))) -> is_Some (D !! inl 0%nat) ->
  let D' := rsucc succ prev bs D in
  (forall b, b ∈ bs -> prev < b -> D' !! inr (succ, b) = None) /\
  (forall o, o <> inl 0%nat -> (forall b, b ∈ bs -> prev < b -> o <> inr (succ, b)) -> D' !! o = D !! o) /\
  exists l, D' !! inl 0%nat = Some l /\ ents l = entsof D (inl 0%nat) ++ freedof D succ (fun b => prev < b) bs.
Proof.
  induction bs as [|b bs IH]; intros D Hn Hs Ht D'; unfold D'; cbn [rsucc fold_left].
  - destruct Ht as [l Hl]. split_and!; [set_solver|done|]. exists l. split; [done|].
    unfold entsof. rewrite Hl. unfold freedof. rewrite filter_nil. cbn. by rewrite app_nil_r.
  - apply NoDup_cons in Hn as [Hb Hn]. fold (rsucc succ prev bs (sstep succ prev D b)). rewrite freedof_cons. unfold sstep at 1 2 3.
    destruct (Z.leb_spec b prev) as [Hle|Hgt].
    + destruct (IH D Hn) as (I1 & I2 & l' & Il & Ie); [intros b' Hb'; apply Hs; by right|done|]. rewrite decide_False by lia. split_and!.
      * intros b' [->|Hb']%elem_of_cons; [lia|by apply I1].
      * intros o Ho Hx. apply I2; [done|]. intros b' Hb'. apply Hx. by right.
      * exists l'. done.
    + destruct (dropped_lookup D succ b 0%nat (inl 0%nat) (Hs b ltac:(by left)) Ht) as (_ & R1 & l & Rl & Re). rewrite decide_True by lia.
      set (D1 := dropped D succ b 0) in *.
      assert (Hoth : forall b', b' ∈ bs -> D1 !! inr (succ, b') = D !! inr (succ, b')).
      { intros b' Hb'. apply (dropped_lookup D succ b 0%nat); [apply Hs; by left|done|done|]. intros [= ->]. done. }
      destruct (IH D1 Hn) as (I1 & I2 & l' & Il & Ie); [intros b' Hb'; rewrite Hoth by done; apply Hs; by right|by rewrite Rl|]. split_and!.
      * intros b' [->|Hb']%elem_of_cons Hp; [|by apply I1]. rewrite I2; [done|done|]. intros b' Hb' _ [= ->]. done.
      * intros o Ho Hx. rewrite I2; [|done|intros b' Hb'; apply Hx; by right].
        apply (dropped_lookup D succ b 0%nat o); [apply Hs; by left|done|done|]. apply Hx; [by left|done].
      * exists l'. split; [done|]. rewrite Ie. unfold entsof at 1. rewrite Rl. change (default [] (Some l)) with l. rewrite Re, <- app_assoc. f_equal. f_equal. by apply freedof_ext.
Qed.

Lemma snapgrew_rgen gen succ prev bs : forall D D', snapgrew D D' -> snapgrew (rgen gen succ prev bs D) (rgen gen succ prev bs D').
Proof.
  induction bs as [|b bs IH]; intros D D' Hg; [done|]. apply IH. unfold rstep. case_match; [by apply snapgrew_merged|by apply snapgrew_dropped].
Qed.

Lemma snapgrew_rsucc succ prev bs : forall D D', snapgrew D D' -> snapgrew (rsucc succ prev bs D) (rsucc succ prev bs D').
Proof.
  induction bs as [|b bs IH]; intros D D' Hg; [done|]. apply IH. unfold sstep. case_match; [done|by apply snapgrew_dropped].
Qed.

(** Scanned records, and the generations in which their blocks were made. *)
Definition scanned (gen : Z) (l : list Kvp) (bs : list Z) : Prop :=
  Forall2 (fun kv b => exists e, kv2dlist kv = Ok e /\ dgen e = gen /\ bgen e = b) l bs.

Definition gens (g : Z) (bs : list Z) : gset (Z * Z) := list_to_set ((fun b => (g, b)) <$> bs).

Lemma elem_gens g bs g' b : (g', b) ∈ gens g bs <-> g' = g /\ b ∈ bs.
Proof.
  unfold gens. rewrite elem_of_list_to_set, list_elem_of_fmap. split; [intros (b' & [= -> ->] & ?); done|intros [-> ?]; eauto].
Qed.

Section Blocks.
  Context {T : Type} `{SnapTree T} `{TM : TreeMeans T, !SnapLaws T}.
  Context {newblk : nat -> res Mblk} {dlcmax : Z} {A : nat -> Z} `{!Supply newblk A}.
  #[local] Abbreviation state := (dstate (T:=T)).
  #[local] Abbreviation dinv := (dinv dlcmax A).
  #[local] Abbreviation cinv := (cinv dlcmax).

(** The state between operations: the deadlists are [D], none is held, and
    none has a block in memory. *)
Definition quiescent (s : state) (D : dlmap) (G : gset (Z * Z)) : Prop := cinv s [] /\ flushed s /\ dinv s D G ∅.

Lemma target_some (s : state) D G X succ : dinv s D G X -> is_Some (D !! inl (target succ)).
Proof.
  intros Hd. unfold target. destruct (succ =? -1); [apply (di_drop _ _ _ _ Hd)|by destruct (di_snap _ _ _ _ Hd) as (? & _ & _ & ?)].
Qed.

Lemma reclaim_gen_spec gen succ prev l : forall bs (s : state) D G, scanned gen l bs -> NoDup bs ->
  (forall b, b ∈ bs -> is_Some (D !! inr (gen, b))) -> quiescent s D G -> succ <> gen ->
  succ = -1 \/ is_s64 succ /\ (forall b, b <= prev -> (succ, b) ∉ G) ->
  wp (reclaim_gen newblk dlcmax l succ prev) (fun _ s' => exists D' G', quiescent s' D' G' /\
    snapgrew (rgen gen succ prev bs D) D' /\ G' = gens gen bs ∪ G) s.
Proof.
  induction l as [|kv l IH]; intros bs s D G Hl Hn Hs Hq Hne Hsucc; cbn [reclaim_gen].
  - apply Forall2_nil_inv_l in Hl as ->. wps. exists D, G. destruct Hq as (? & ? & Hd). split_and!; [done| |set_solver].
    destruct (di_snap _ _ _ _ Hd) as (_ & _ & _ & [l0 Hl0]). by eapply snapgrew_refl.
  - apply Forall2_cons_inv_l in Hl as (b & bs' & (e & Ee & Eg & Eb) & Hl & ->). apply NoDup_cons in Hn as [Hb Hn].
    destruct Hq as (Hc & Hf & Hd). destruct (Hs b) as [lb Hlb]; [by left|].
    wps. apply (wp_lift _ e); [done|]. rewrite Eg, Eb.
    assert (Hstep : wp (if negb (succ =? -1) && (b <=? prev) then mergedl newblk dlcmax succ gen b else dropdl newblk dlcmax gen b succ)
      (fun _ s' => cinv s' [] /\ flushed s' /\ exists D', snapgrew (rstep gen succ prev D b) D' /\ dinv s' D' ({[(gen, b)]} ∪ G) ∅) s).
    { unfold rstep. destruct (negb (succ =? -1) && (b <=? prev)) eqn:E; [|by eapply dropdl_spec].
      apply andb_true_iff in E as [E Hbp%Z.leb_le]. apply negb_true_iff, Z.eqb_neq in E. destruct Hsucc as [?|[Hs64 HG]]; [done|].
      specialize (HG b Hbp).
      by eapply mergedl_spec. }
    wps. eapply dlwp_mono; [exact Hstep|]. intros _ s1 (Hc1 & Hf1 & D1 & Hg1 & Hd1).
    assert (Hone : forall b', b' ∈ bs' -> D1 !! inr (gen, b') = D !! inr (gen, b')).
    { intros b' Hb'. rewrite (snapgrew_ne _ _ _ Hg1) by done.
      apply (rstep_lookup gen succ prev D b); [by eexists|by eapply target_some|done|done|intros [= ->]; done|]. right. right. congruence. }
    eapply dlwp_mono; [apply (IH bs' s1 D1 ({[(gen, b)]} ∪ G))|].
    + done.
    + done.
    + intros b' Hb'. rewrite Hone by done. apply Hs. by right.
    + done.
    + done.
    + destruct Hsucc as [?|[? HG]]; [by left|right; split; [done|]]. intros b' Hb' [[= ? ?]%elem_of_singleton|?]%elem_of_union; [done|by eapply HG].
    + intros _ s2 (D2 & G2 & Hq2 & Hg2 & ->). exists D2, (gens gen bs' ∪ ({[(gen, b)]} ∪ G)). split_and!; [done| |].
      * eapply snapgrew_trans; [|exact Hg2]. by apply (snapgrew_rgen gen succ prev bs').
      * apply set_eq. intros [g' b']. rewrite !elem_of_union, !elem_gens, elem_of_singleton, elem_of_cons. naive_solver.
Qed.

Lemma reclaim_succ_spec succ prev l : forall bs (s : state) D G, scanned succ l bs -> NoDup bs ->
  (forall b, b ∈ bs -> is_Some (D !! inr (succ, b))) -> quiescent s D G -> succ <> -1 ->
  wp (reclaim_succ newblk dlcmax l succ prev) (fun _ s' => exists D' G', quiescent s' D' G' /\
    snapgrew (rsucc succ prev bs D) D' /\ G' = gens succ (filter (fun b => prev < b) bs) ∪ G) s.
Proof.
  induction l as [|kv l IH]; intros bs s D G Hl Hn Hs Hq Hne; cbn [reclaim_succ].
  - apply Forall2_nil_inv_l in Hl as ->. wps. exists D, G. destruct Hq as (? & ? & Hd). split_and!; [done| |set_solver].
    destruct (di_snap _ _ _ _ Hd) as (_ & _ & _ & [l0 Hl0]). by eapply snapgrew_refl.
  - apply Forall2_cons_inv_l in Hl as (b & bs' & (e & Ee & Eg & Eb) & Hl & ->). apply NoDup_cons in Hn as [Hb Hn].
    destruct Hq as (Hc & Hf & Hd). destruct (Hs b) as [lb Hlb]; [by left|].
    wps. apply (wp_lift _ e); [done|]. rewrite Eg, Eb. cbn [rsucc fold_left]. fold (rsucc succ prev bs' (sstep succ prev D b)).
    unfold sstep at 1. rewrite filter_cons. destruct (Z.leb_spec b prev) as [Hle|Hgt].
    + wps. rewrite decide_False by lia. eapply dlwp_mono; [apply (IH bs' s D G)|]; try done. intros b' Hb'. apply Hs. by right.
    + rewrite decide_True by lia. wps. eapply dlwp_mono; [by eapply (dropdl_spec s D G succ b succ)|].
      intros _ s1 (Hc1 & Hf1 & D1 & Hg1 & Hd1). rewrite (proj2 (Z.eqb_neq _ _)) in Hg1 by done.
      eapply dlwp_mono; [apply (IH bs' s1 D1 ({[(succ, b)]} ∪ G))|]; try done.
      * intros b' Hb'. rewrite (snapgrew_ne _ _ _ Hg1) by done.
        destruct (di_snap _ _ _ _ Hd) as (? & _ & _ & Ht).
        destruct (dropped_lookup D succ b 0%nat (inr (succ, b')) ltac:(by eexists) Ht) as (-> & _); [apply Hs; by right|done|]. intros [= ->]. done.
      * intros _ s2 (D2 & G2 & Hq2 & Hg2 & ->). eexists D2, _. split; [exact Hq2|]. split.
        -- eapply snapgrew_trans; [|exact Hg2]. by apply (snapgrew_rsucc succ prev bs').
        -- apply set_eq. intros [g' b']. rewrite !elem_of_union, !elem_gens, elem_of_singleton, elem_of_cons. naive_solver.
Qed.

(** A scan of the records of a generation gives its deadlists. *)
Lemma scan_spec (s : state) D G g (Q : list Kvp -> state -> Prop) : quiescent s D G -> is_s64 g ->
  (forall l bs, scanned g l bs -> NoDup bs -> (forall b, b ∈ bs <-> is_Some (D !! inr (g, b))) -> Q l s) ->
  wp (t ← get snap; lift (st_scan t (Kdlist :: pack 8 g))) Q s.
Proof.
  intros (Hc & Hf & Hd) Hg HQ. wps. destruct (st_scan_ok (snap s) (Kdlist :: pack 8 g)) as (l & E & Hn & Hl).
  apply (wp_lift _ l); [done|].
  assert (Hkv : forall kv, kv ∈ l -> exists b e, is_s64 b /\ k kv = dlkey g b /\ kv2dlist kv = Ok e /\ dgen e = g /\ bgen e = b /\ is_Some (D !! inr (g, b))).
  { intros kv [Hp Hk]%Hl. assert (exists w, mean (snap s) (k kv) = Some w /\ kv = mkKvp (k kv) w) as (w & Ew & Ekv).
    { unfold kv_at in Hk. destruct (mean (snap s) (k kv)) as [w|]; [|done]. exists w. split; [done|]. cbn in Hk. congruence. }
    destruct (di_form _ _ _ _ Hd (k kv) w Ew) as (g' & b & Hg' & Hb & Ek).
    { destruct Hp as [q ->]. by exists (pack 8 g ++ q). }
    assert (g' = g) as ->.
    { rewrite Ek in Hp. destruct Hp as [q Eq]. apply (f_equal (drop 1)) in Eq.
      change (pack 8 g' ++ pack 8 b = pack 8 g ++ q) in Eq. apply (f_equal (take 8)) in Eq. rewrite !take_app_length' in Eq by (by rewrite length_pack). by apply pack8_inj in Eq. }
    exists b. destruct (D !! inr (g, b)) as [lb|] eqn:El.
    - destruct (di_key _ _ _ _ Hd g b lb El) as (_ & _ & _ & [[[]%not_elem_of_empty _]|(e & (w' & Ew' & Ee & _) & _)]).
      rewrite <- Ek in Ew'. assert (w' = w) as -> by congruence. rewrite <- Ek, <- Ekv in Ee. exists e.
      rewrite Ekv, Ek in Ee. destruct (kv2dlist_gens g b w e Hg Hb Ee). rewrite <- Ek, <- Ekv in Ee. split_and!; try done.
    - destruct (di_none _ _ _ _ Hd g b Hg Hb El) as [[]%not_elem_of_empty|Hm]. congruence. }
  set (bs := (fun kv => match kv2dlist kv with Ok e => bgen e | Fail _ => 0 end) <$> l).
  apply (HQ l bs).
  - unfold scanned, bs. apply Forall2_fmap_r, Forall_Forall2_diag, Forall_forall. intros kv (b & e & _ & _ & Ee & Eg & Eb & _)%Hkv.
    exists e. by rewrite Ee.
  - unfold bs. apply NoDup_fmap_2_strong; [|done]. intros kv kv' Hin Hin'.
    destruct (Hkv kv Hin) as (b & e & _ & Ek & -> & _ & Eb & _). destruct (Hkv kv' Hin') as (b' & e' & _ & Ek' & -> & _ & Eb' & _).
    intros Ee. apply Hl in Hin as [_ H1]. apply Hl in Hin' as [_ H2]. rewrite Ek in H1. rewrite Ek' in H2. congruence.
  - intros b. unfold bs. rewrite list_elem_of_fmap. split.
    + intros (kv & -> & Hin). destruct (Hkv kv Hin) as (b' & e & _ & _ & -> & _ & <- & ?). done.
    + intros [lb El]. destruct (di_key _ _ _ _ Hd g b lb El) as (_ & Hb & _ & [[[]%not_elem_of_empty _]|(e & (w & Ew & Ee & _) & _)]).
      exists (mkKvp (dlkey g b) w). destruct (kv2dlist_gens g b w e Hg Hb Ee) as [_ Ebg]. rewrite Ee. split; [done|]. apply Hl. split.
      * exists (pack 8 b). done.
      * cbn [k]. unfold kv_at. by rewrite Ew.
Qed.

(** What reclaimblocks comes to: the lists of [gen] are gone; those of [succ]
    have taken over what [prev] still has, and lost the rest; all that nobody
    has is in [fs], which fs->snapdl gets with the snapshot tree's own blocks,
    or fs->dropdl if there is no successor. *)
Record reclaimed (D : dlmap) (gen succ prev : Z) (D' : dlmap) (fs : list Z) : Prop := {
  rc_gen b : D' !! inr (gen, b) = None;
  rc_lost b : succ <> -1 -> prev < b -> D' !! inr (succ, b) = None;
  rc_kept b : succ <> -1 -> b <= prev -> entsof D' (inr (succ, b)) = entsof D (inr (succ, b)) ++ entsof D (inr (gen, b));
  rc_other g b : g <> gen -> g <> succ -> D' !! inr (g, b) = D !! inr (g, b);
  rc_snap : exists ks, entsof D' (inl 0%nat) ≡ₚ ks ++ entsof D (inl 0%nat) ++ if succ =? -1 then [] else fs;
  rc_drop : entsof D' (inl 1%nat) ≡ₚ entsof D (inl 1%nat) ++ if succ =? -1 then fs else [];
  rc_freed : exists bs bs', (forall b, b ∈ bs <-> is_Some (D !! inr (gen, b))) /\ NoDup bs /\ NoDup bs' /\
    (forall b, succ <> -1 -> prev < b -> b ∈ bs' <-> is_Some (D !! inr (succ, b))) /\
    fs = freedof D gen (fun b => succ = -1 \/ prev < b) bs ++ if succ =? -1 then [] else freedof D succ (fun b => prev < b) bs'
}.

Lemma snapgrew_entsof D D' : snapgrew D D' -> exists ks, entsof D' (inl 0%nat) ≡ₚ ks ++ entsof D (inl 0%nat).
Proof. intros (l & l' & ks & Hl & -> & He). exists ks. unfold entsof. by rewrite lookup_insert_eq, Hl. Qed.

(** The key of a deadlist is not -1. *)
Lemma no_minus1 (s : state) D G X b : dinv s D G X -> D !! inr (-1, b) = None.
Proof. intros Hd. destruct (D !! inr (-1, b)) as [l|] eqn:E; [|done]. by destruct (di_key _ _ _ _ Hd _ _ _ E) as (_ & _ & ? & _). Qed.

Lemma reclaimblocks_spec (s : state) D G gen succ prev : quiescent s D G -> is_s64 gen -> succ <> gen ->
  succ = -1 \/ is_s64 succ /\ (forall b, b <= prev -> (succ, b) ∉ G) ->
  wp (reclaimblocks newblk dlcmax gen succ prev) (fun _ s' => exists D' G' fs, quiescent s' D' G' /\
    reclaimed D gen succ prev D' fs /\ forall g b, (g, b) ∈ G' -> (g, b) ∈ G \/ g = gen \/ g = succ /\ prev < b) s.
Proof.
  intros Hq Hgen Hne Hsucc. pose proof Hq as (_ & _ & Hd). unfold reclaimblocks.
  pose proof (target_some _ _ _ _ succ Hd) as Ht.
  assert (Hscan : forall g (f : list Kvp -> M unit) (R : unit -> state -> Prop) (s : state) D G, quiescent s D G -> is_s64 g ->
     (forall l bs, scanned g l bs -> NoDup bs -> (forall b, b ∈ bs <-> is_Some (D !! inr (g, b))) -> wp (f l) R s) ->
     wp (t ← get snap; l ← lift (st_scan t (Kdlist :: pack 8 g)); f l) R s).
  { intros g f R s0 D0 G0 Hq0 Hg0 HR. pose proof (scan_spec s0 D0 G0 g (fun l s' => wp (f l) R s') Hq0 Hg0 HR) as HR1.
    apply wp_bind_inv in HR1. wps. exact HR1. }
  apply Hscan with D G; [done|done|]. intros l bs Hl Hn Hbs. wps.
  eapply dlwp_mono; [apply (reclaim_gen_spec gen succ prev l bs s D G); [done|done|by intros b ?%Hbs|done|done|done]|].
  intros _ s1 (D1 & G1 & Hq1 & Hg1 & ->).
  destruct (rgen_lookup gen succ prev bs D Hn) as (R1 & R2 & R3 & lt & Rl & Re); [by intros b ?%Hbs|done|done|].
  assert (R1' : forall b, D1 !! inr (gen, b) = None).
  { intros b. rewrite (snapgrew_ne _ _ _ Hg1) by done. destruct (decide (b ∈ bs)) as [?|Hb]; [by apply R1|].
    rewrite R2; [apply eq_None_not_Some; by rewrite <- Hbs|done|]. intros b' Hb'. split; [intros [= ->]; done|right; right; congruence]. }
  assert (R2' : forall b, prev < b -> D1 !! inr (succ, b) = D !! inr (succ, b)).
  { intros b Hb. rewrite (snapgrew_ne _ _ _ Hg1) by done. apply R2; [done|]. intros b' Hb'. split; [congruence|].
    destruct (decide (b' = b)) as [->|]; [by right; left|right; right; congruence]. }
  destruct (snapgrew_entsof _ _ Hg1) as (ks1 & Hks1).
  destruct (Z.eqb_spec succ (-1)) as [E|E].
  - (* no successor *)
    wps. exists D1, (gens gen bs ∪ G), (freedof D gen (fun b => succ = -1 \/ prev < b) bs). split; [done|].
    assert (Etg : target succ = 1%nat) by (unfold target; by rewrite E). rewrite Etg in *. split.
    + constructor; rewrite ?E; try done.
      * intros g b Hg Hgs. rewrite (snapgrew_ne _ _ _ Hg1) by done. apply R2; [done|]. intros b' _. split; [congruence|by left].
      * exists ks1. change (-1 =? -1) with true. cbn match. rewrite app_nil_r, Hks1. rewrite (entsof_ext D); [done|]. apply R2; [done|].
        intros b' _. split; [done|by left].
      * change (-1 =? -1) with true. cbn match. unfold entsof at 1. rewrite (snapgrew_ne _ _ _ Hg1), Rl by done.
        change (default [] (Some lt)) with lt. rewrite Re, E. done.
      * exists bs, []. change (-1 =? -1) with true. cbn match. rewrite app_nil_r. split_and!; try done. constructor.
    + intros g b [[-> _]%elem_gens|?]%elem_of_union; auto.
  - (* a successor *)
    destruct Hsucc as [?|[Hs64 HG]]; [done|]. apply Hscan with D1 (gens gen bs ∪ G); [done|done|].
    intros l2 bs2 Hl2 Hn2 Hbs2. eapply dlwp_mono; [apply (reclaim_succ_spec succ prev l2 bs2 s1 D1 (gens gen bs ∪ G)); [done|done|by intros b ?%Hbs2|done|done]|].
    intros _ s2 (D2 & G2 & Hq2 & Hg2 & ->). pose proof Hq1 as (_ & _ & Hd1).
    destruct (rsucc_lookup succ prev bs2 D1 Hn2) as (S1 & S2 & lt2 & Sl & Se); [by intros b ?%Hbs2|by destruct (di_snap _ _ _ _ Hd1) as (? & _ & _ & ?)|].
    assert (Etg : target succ = 0%nat) by (unfold target; by rewrite (proj2 (Z.eqb_neq _ _) E)). rewrite Etg in *.
    destruct (snapgrew_entsof _ _ Hg2) as (ks2 & Hks2).
    assert (Efs : freedof D1 succ (fun b => prev < b) bs2 = freedof D succ (fun b => prev < b) bs2).
    { unfold freedof. f_equal. apply list_fmap_ext. intros i b Hb%list_elem_of_lookup_2. apply list_elem_of_filter in Hb as [Hb _].
      by apply entsof_ext, R2'. }
    exists D2, (gens succ (filter (fun b => prev < b) bs2) ∪ (gens gen bs ∪ G)), (freedof D gen (fun b => succ = -1 \/ prev < b) bs ++ freedof D succ (fun b => prev < b) bs2).
    split; [done|]. split.
    + constructor; rewrite ?(proj2 (Z.eqb_neq _ _) E).
      * intros b. rewrite (snapgrew_ne _ _ _ Hg2), S2; [done|done| |done]. congruence.
      * intros b _ Hb. rewrite (snapgrew_ne _ _ _ Hg2) by done. destruct (decide (b ∈ bs2)) as [?|Hnb]; [by apply S1|].
        rewrite S2; [apply eq_None_not_Some; by rewrite <- Hbs2|done|]. intros b' Hb' _ [= ->]. done.
      * intros b _ Hb. unfold entsof at 1. rewrite (snapgrew_ne _ _ _ Hg2), S2; [|done|intros b' _ ? [= ->]; lia|done].
        rewrite (snapgrew_ne _ _ _ Hg1) by done. destruct (decide (b ∈ bs)) as [Hin|Hnb].
        -- destruct (R3 b Hin E Hb) as (lx & -> & Elx). exact Elx.
        -- rewrite R2; [|done|intros b' Hb'; split; [congruence|right; right; intros [= ->]; done]].
           unfold entsof at 2. rewrite (proj2 (eq_None_not_Some (D !! inr (gen, b)))) by (by rewrite <- Hbs). cbn. by rewrite app_nil_r.
      * intros g b Hg Hgs. rewrite (snapgrew_ne _ _ _ Hg2), S2 by (done || congruence). rewrite (snapgrew_ne _ _ _ Hg1) by done.
        apply R2; [done|]. intros b' _. split; [congruence|right; right; congruence].
      * exists (ks2 ++ ks1). rewrite Hks2. unfold entsof at 1. rewrite Sl. change (default [] (Some lt2)) with lt2. rewrite Se, Hks1, Efs.
        unfold entsof at 1. rewrite Rl. change (default [] (Some lt)) with lt. rewrite Re. by rewrite <- !app_assoc.
      * rewrite app_nil_r. rewrite (entsof_ext D); [done|]. rewrite (snapgrew_ne _ _ _ Hg2), S2, (snapgrew_ne _ _ _ Hg1) by done. apply R2; [done|].
        intros b' _. split; [done|right; by right].
      * exists bs, bs2. split_and!; try done. intros b _ Hb. by rewrite Hbs2, R2'.
    + intros g b [[-> Hb]%elem_gens|[[-> _]%elem_gens|?]%elem_of_union]%elem_of_union; auto.
      apply list_elem_of_filter in Hb as [? _]. auto.
Qed.
End Blocks.
Arguments quiescent {T TM} dlcmax A s D G.
