(* ===== verification/Maptree.v ===== *)
(** A snapshot tree that is a map: it has the interface of Dead.v, and the laws
    that the deadlists rely on.  It stands for the tree where a state of the
    file system is written down. *)

From S2P Require Import Prelude Layout Hash Pack Node Msgs Blk Alloc Dead.

Abbreviation maptree := (gmap (list Z) (list Z)).

#[global] Instance maptree_means : TreeMeans maptree := fun t key => t !! key.

Definition mapset (t : maptree) (key : list Z) (r : option Kvp) : maptree :=
  match r with Some kv => <[key := v kv]> t | None => delete key t end.

Fixpoint mapputs (t : maptree) (ms : list Msg) : res maptree :=
  match ms with
  | [] => Ok t
  | m :: ms => r ← mstep (kv_at t (mk m)) m; mapputs (mapset t (mk m) r) ms
  end.

(** Every update replaces a root at [root]. *)
Definition maproot : Bptr := mkBptr 16384 0 0.

#[global] Instance maptree_snap : SnapTree maptree := {
  st_lookup t key := Ok (kv_at t key);
  st_upsert t ms := t ← mapputs t ms; Ok (t, [maproot]);
  st_scan t pfx := Ok ((fun x => mkKvp x.1 x.2) <$> map_to_list (filter (fun x => pfx `prefix_of` x.1) t))
}.

Lemma mstep_key cur m kv : mstep cur m = Ok (Some kv) -> (forall kv0, cur = Some kv0 -> k kv0 = mk m) -> k kv = mk m.
Proof.
  intros Hm Hc. destruct cur as [kv0|]; cbn [mstep] in Hm.
  - apply bind_Ok in Hm as ([ok kv1] & Ha & Hm). destruct ok; [|done]. apply Ok_inj in Hm. simplify_eq.
    specialize (Hc kv0 eq_refl). apply apply_shape in Ha as [[? _]|[(_ & _ & ->)|(_ & Hk & _)]]; [done|done|congruence].
  - destruct (_ || _); [done|]. destruct (_ =? _); [|done]. apply Ok_inj in Hm. by simplify_eq.
Qed.

Lemma kv_at_mapset (t : maptree) m r key : mstep (kv_at t (mk m)) m = Ok r ->
  kv_at (mapset t (mk m) r) key = if decide (key = mk m) then r else kv_at t key.
Proof.
  intros Hm. unfold kv_at, mean, maptree_means, mapset. case_decide as Hk.
  - subst key. destruct r as [kv|].
    + rewrite lookup_insert_eq. cbn. f_equal. apply mstep_key in Hm; [destruct kv; cbn in *; congruence|].
      intros kv0. unfold kv_at, mean, maptree_means. destruct (t !! mk m); [|done]. cbn. by intros [= <-].
    + by rewrite lookup_delete_eq.
  - destruct r as [kv|]; [by rewrite lookup_insert_ne|by rewrite lookup_delete_ne].
Qed.

Lemma mapputs_run ms : forall t : maptree, (forall key, is_Ok (mrun (kv_at t key) (for_key key ms))) ->
  exists t', mapputs t ms = Ok t' /\ forall key, mrun (kv_at t key) (for_key key ms) = Ok (kv_at t' key).
Proof.
  induction ms as [|m ms IH]; intros t Hr; [by exists t|]. cbn [mapputs].
  assert (is_Ok (mstep (kv_at t (mk m)) m)) as [r Er].
  { destruct (Hr (mk m)) as [x Ex]. unfold for_key in Ex. rewrite filter_cons_True in Ex by done. cbn [mrun] in Ex.
    apply bind_Ok in Ex as (r & Er & _). by exists r. }
  rewrite Er, bind_ok.
  assert (Hstep : forall key, mrun (kv_at t key) (for_key key (m :: ms)) = mrun (kv_at (mapset t (mk m) r) key) (for_key key ms)).
  { intros key. rewrite (kv_at_mapset t m r key Er). unfold for_key. rewrite filter_cons. case_decide as Hk; case_decide as Hk2; try congruence.
    cbn [mrun]. rewrite Hk2, Er. done. }
  destruct (IH (mapset t (mk m) r)) as (t' & E & Hx); [intros key; rewrite <- Hstep; apply Hr|].
  exists t'. split; [done|]. intros key. by rewrite Hstep.
Qed.

#[global] Instance maptree_laws : SnapLaws maptree.
Proof.
  constructor.
  - done.
  - intros t ms _ Hr. destruct (mapputs_run ms t Hr) as (t' & E & Hx). cbn. rewrite E. split; [|done].
    repeat constructor; cbn; lia.
  - intros t pfx. eexists. split; [done|]. split.
    + apply NoDup_fmap_2; [|apply NoDup_map_to_list]. intros [k1 v1] [k2 v2]. cbn. by intros [= -> ->].
    + intros kv. rewrite list_elem_of_fmap. unfold kv_at, mean, maptree_means. split.
      * intros ([key val] & -> & [Hl Hp]%elem_of_map_to_list%map_lookup_filter_Some). cbn in *. by rewrite Hl.
      * intros [Hp Hk]. destruct (t !! k kv) as [w|] eqn:E; [|done]. cbn in Hk. injection Hk as Hk. exists (k kv, w). split; [done|].
        apply elem_of_map_to_list, map_lookup_filter_Some. done.
Qed.

(** * New blocks for deadlists *)

Section New.
  (** blkalloc's i-th address, and the block that cachepluck has then. *)
  Context (alloc : nat -> res Z) (pluck : nat -> Mblk) (memgen : Z).

(** newblk(&fs->snap, Tdlist); no block has the address in the cache. *)
Definition newdlblk (i : nat) : res Mblk := a ← alloc i; initblk (pluck i) a memgen Tdlist false.

(** The addresses are different, and the blocks are whole and not queued. *)
Hypothesis alloc_ok : forall i, match alloc i with Ok a => 0 <= a < 2 ^ 63 | Fail e => e = Error Efull end.
Hypothesis pluck_whole : forall i, zlen (buf (pluck i)) = Blksz.
Hypothesis pluck_free : forall i, Z.land (bflag (pluck i)) (Z.lor Bqueued Bstatic) = 0.
Hypothesis memgen_ok : is_s64 memgen.

Lemma newdlblk_supply A : (forall i a, alloc i = Ok a -> a = A i) -> (forall i j, A i = A j -> i = j) -> Supply newdlblk A.
Proof.
  intros HA Hinj. constructor; [|done]. intros i. pose proof (alloc_ok i) as Ha. unfold newdlblk.
  destruct (alloc i) as [a|e] eqn:E; [|done]. apply HA in E as ->. rewrite bind_ok.
  unfold initblk. cbn [negb check]. rewrite bind_ok. split.
  - constructor; cbn [mb btyp bp addr data logsz]; try done.
    + apply Ha.
    + split_and!; cbn; [unfold is_s64; lia|done|done].
    + pose proof (pluck_whole i) as Hw. rewrite decide_False by done. unfold zlen in *. rewrite length_drop. change Blksz with 16384 in Hw.
      change (hdsz Tdlist) with 36. change Logspc with 16348. lia.
  - unfold opened, checkflag, setflag. cbn [bflag]. rewrite Z.ldiff_0_r. apply Z.eqb_eq.
    pose proof (pluck_free i) as Hp. apply Z.bits_inj'. intros n Hn. apply (f_equal (fun x => Z.testbit x n)) in Hp.
    rewrite Z.land_spec, Z.bits_0 in Hp. rewrite Z.land_spec, !(Z.lor_spec (bflag _)), (Z.lor_spec Bdirty).
    destruct (Z.testbit (bflag (pluck i)) n), (Z.testbit (Z.lor Bqueued Bstatic) n), (Z.testbit Bdirty n); done.
Qed.
End New.

(** A device with room for [n] blocks, and blank blocks. *)
Definition nextaddr (i : nat) : Z := 65536 + Blksz * Z.of_nat i.
Definition device (n i : nat) : res Z := if (i <? n)%nat then Ok (nextaddr i) else Fail (Error Efull).
Definition blank (i : nat) : Mblk :=
  mkMblk (mkBlk Tdlist 0 0 0 0 (replicate (Z.to_nat Blksz) 0) (mkBptr (-1) 0 0)) 0 0 (mkBptr (-1) 0 0) [] 0.

#[global] Instance device_supply : Supply (newdlblk (device 100) blank 0) nextaddr.
Proof.
  apply newdlblk_supply.
  - intros i. unfold device, nextaddr. change Blksz with 16384. destruct (Nat.ltb_spec i 100) as [E|E]; [|done]. lia.
  - intros i. unfold zlen, buf, blank. cbn [hdr mb data app]. rewrite length_replicate. done.
  - done.
  - done.
  - intros i a. unfold device. case_match; [|done]. by intros [= <-].
  - intros i j. unfold nextaddr. change Blksz with 16384. lia.
Qed.

(** No snapshots, no deadlists but fs->snapdl and fs->dropdl. *)
Definition freshfs : dstate := mkDs (∅ : maptree) ∅ 0 [] [newdl (-1) (-1); newdl (-1) (-1)] ∅ [] 0.
