(* ===== verification/History.v ===== *)
(** sys/src/9/gefs/snap.c, what the deadlists of a line of snapshots are for.

    The snapshots of a line are generations, each the predecessor of the next;
    the last may be the one that is written.  A block is seen by the snapshots
    from the generation it was made in up to the one it was killed in.  The
    history of a line is a list of events: a block is killed, the written
    generation becomes a snapshot and the next one begins, a snapshot is
    deleted.  [play] is what has to happen, without any deadlist: a block is
    freed when the last snapshot that sees it is deleted.  [run] is what
    snap.c does. *)

From S2P Require Import Prelude Layout Hash Pack Node Msgs Blk Alloc Dead Dlist Reclaim Maptree.

(** * The specification *)

Record hist := mkHist { line : list Z; killedat : gmap Z (Z * Z); nextg : Z; freed : list Z }.

(** A block made in [x.1] and killed in [x.2]. *)
Definition sees (g : Z) (x : Z * Z) : bool := (x.1 <=? g) && (g <? x.2).
Definition seen (l : list Z) (x : Z * Z) : bool := existsb (fun g => sees g x) l.

Inductive event := Kill (memgen base : Z) (p : Bptr) | Advance (m : Z) | Delete (gen succ prev : Z).

(** The generations before and after [gen]; -1 where there is none. *)
Fixpoint around (p : Z) (l : list Z) (gen : Z) : option (Z * Z) :=
  match l with
  | [] => None
  | g :: l => if g =? gen then Some (p, default (-1) (head l)) else around g l gen
  end.

Definition s64b (x : Z) : bool := (- 2 ^ 63 <=? x) && (x <? 2 ^ 63).

Definition kill_ok (h : hist) (memgen base : Z) (p : Bptr) : bool :=
  s64b (addr p) && s64b (gen p) && (-1 <=? base) && (base <? gen p) &&
  bool_decide (last (line h) = Some memgen) && bool_decide (killedat h !! addr p = None) &&
  existsb (fun q => (gen p <=? q) && (q <? memgen)) (line h).

Definition play1 (e : event) (h : hist) : option hist :=
  match e with
  | Kill memgen base p =>
      if kill_ok h memgen base p then Some (mkHist (line h) (<[addr p := (gen p, memgen)]> (killedat h)) (nextg h) (freed h))
      else None
  | Advance m =>
      if (nextg h <=? m) && s64b (m + 1) then Some (mkHist (line h ++ [m]) (killedat h) (m + 1) (freed h)) else None
  | Delete gen succ prev =>
      if bool_decide (around (-1) (line h) gen = Some (prev, succ)) then
        let l := filter (fun g => g <> gen) (line h) in
        if succ =? -1 then Some (mkHist l (filter (fun x => x.2.2 <= prev) (killedat h)) (nextg h) (freed h))
        else Some (mkHist l (filter (fun x => seen l x.2 = true) (killedat h)) (nextg h)
               (freed h ++ (map_to_list (filter (fun x => seen l x.2 = false) (killedat h))).*1))
      else None
  end.

Fixpoint play (es : list event) (h : hist) : option hist :=
  match es with [] => Some h | e :: es => h ← play1 e h; play es h end.

(** * Lines *)

Definition adj (l : list Z) (p g : Z) : Prop := p ∈ l /\ g ∈ l /\ p < g /\ forall x, x ∈ l -> x <= p \/ g <= x.

Lemma seenP l x : seen l x = true <-> exists g, g ∈ l /\ x.1 <= g < x.2.
Proof.
  unfold seen, sees. rewrite existsb_exists. setoid_rewrite andb_true_iff. setoid_rewrite Z.leb_le. setoid_rewrite Z.ltb_lt.
  setoid_rewrite list_elem_of_In. done.
Qed.

Lemma s64bP x : s64b x = true -> is_s64 x.
Proof. unfold s64b, is_s64. intros [?%Z.leb_le ?%Z.ltb_lt]%andb_true_iff. lia. Qed.

Lemma around_spec gen l : forall p prev succ, StronglySorted Z.lt (p :: l) -> -1 <= p -> around p l gen = Some (prev, succ) ->
  adj (p :: l) prev gen /\ (if succ =? -1 then forall x, x ∈ l -> x <= gen else adj (p :: l) gen succ).
Proof.
  induction l as [|g l IH]; intros p prev succ Hs Hp; [done|]. cbn [around].
  apply StronglySorted_inv in Hs as [Hs Hpl]. assert (p < g) by (by apply Forall_cons in Hpl as [? _]).
  destruct (Z.eqb_spec g gen) as [->|Hne].
  - intros [= <- <-]. split.
    + split_and!; [by left|by right; left|done|]. intros x [->|[->|Hx]%elem_of_cons]%elem_of_cons; [lia|lia|].
      right. apply StronglySorted_inv in Hs as [_ Hs]. rewrite Forall_forall in Hs. pose proof (Hs x Hx). lia.
    + destruct l as [|s l]; cbn.
      * intros x [->|[]%not_elem_of_nil]%elem_of_cons. lia.
      * apply StronglySorted_inv in Hs as [Hs Hg]. apply Forall_cons in Hg as [Hgs Hg]. rewrite (proj2 (Z.eqb_neq s (-1))) by lia.
        split_and!; [by right; left|by right; right; left|done|].
        intros x [->|[->|[->|Hx]%elem_of_cons]%elem_of_cons]%elem_of_cons; [lia..|].
        apply StronglySorted_inv in Hs as [_ Hs]. rewrite Forall_forall in Hs. pose proof (Hs x Hx). lia.
  - intros E. destruct (IH g prev succ Hs ltac:(lia) E) as [(A1 & A2 & A3 & A4) A5].
    assert (g <= gen) by (apply StronglySorted_inv in Hs as [_ Hs]; rewrite Forall_forall in Hs;
      apply elem_of_cons in A2 as [->|A2]; [lia|pose proof (Hs gen A2); lia]). split.
    + split_and!; [by right|by right|done|]. intros x [->|Hx]%elem_of_cons; [|by apply A4].
      apply elem_of_cons in A1 as [->|A1]; [lia|]. rewrite Forall_forall in Hpl. pose proof (Hpl prev ltac:(by right)). lia.
    + destruct (succ =? -1).
      * intros x [->|Hx]%elem_of_cons; [lia|by apply A5].
      * destruct A5 as (B1 & B2 & B3 & B4). split_and!; [by right|by right|done|]. intros x [->|Hx]%elem_of_cons; [|by apply B4].
        destruct (B4 g ltac:(by left)) as [|]; lia.
Qed.

(** A member of a line is -1, or has a predecessor. *)
Lemma adj_pred l : forall p g, StronglySorted Z.lt (p :: l) -> g ∈ l -> exists q, adj (p :: l) q g.
Proof.
  induction l as [|x l IH]; intros p g Hs Hg; [by apply not_elem_of_nil in Hg|].
  apply StronglySorted_inv in Hs as [Hs Hp]. apply Forall_cons in Hp as [Hpx Hp].
  apply elem_of_cons in Hg as [->|Hg].
  - exists p. split_and!; [by left|by right; left|done|]. intros y [->|Hy]%elem_of_cons; [lia|right].
    apply StronglySorted_inv in Hs as [_ Hs]. rewrite Forall_forall in Hs. apply elem_of_cons in Hy as [->|Hy]; [lia|]. pose proof (Hs y Hy). lia.
  - destruct (IH x g Hs Hg) as (q & Q1 & Q2 & Q3 & Q4). exists q. split_and!; [by right|by right; right|done|].
    intros y [->|Hy]%elem_of_cons; [left|by apply Q4]. rewrite Forall_forall in Hp. apply elem_of_cons in Q1 as [->|Q1]; [lia|]. pose proof (Hp q Q1). lia.
Qed.

(** Without [gen]. *)
Lemma adj_delete l gen prev succ p g : adj l prev gen -> adj l gen succ -> adj (filter (fun g => g <> gen) l) p g ->
  (p = prev /\ g = succ) \/ adj l p g /\ g <> gen /\ g <> succ.
Proof.
  intros (A1 & A2 & A3 & A4) (B1 & B2 & B3 & B4) (C1 & C2 & C3 & C4).
  apply list_elem_of_filter in C1 as [Np Hp], C2 as [Ng Hg].
  destruct (decide (g = succ)) as [->|Hgs].
  - left. split; [|done]. destruct (A4 p Hp), (B4 p Hp); try lia.
    destruct (C4 prev) as [|]; [apply list_elem_of_filter; split; [lia|done]|lia|lia].
  - right. split; [|done]. split_and!; [done..|]. intros x Hx. destruct (decide (x = gen)) as [->|]; [|by apply C4, list_elem_of_filter].
    destruct (A4 p Hp), (B4 g Hg), (B4 p Hp), (A4 g Hg); try lia.
    destruct (C4 succ) as [|]; [apply list_elem_of_filter; split; [lia|done]|lia|lia].
Qed.

Lemma adj_delete_last l gen p g : (forall x, x ∈ l -> x <= gen) -> gen ∈ l -> adj (filter (fun g => g <> gen) l) p g -> adj l p g /\ g <> gen.
Proof.
  intros Hx Hin (C1 & C2 & C3 & C4). apply list_elem_of_filter in C1 as [Np Hp], C2 as [Ng Hg].
  split; [|done]. split_and!; [done..|]. intros x Hx'. destruct (decide (x = gen)) as [->|]; [|by apply C4, list_elem_of_filter].
  pose proof (Hx g Hg). lia.
Qed.

Lemma adj_fun l p q g : adj l p g -> adj l q g -> p = q.
Proof. intros (A1 & A2 & A3 & A4) (B1 & B2 & B3 & B4). destruct (A4 q B1), (B4 p A1); lia. Qed.

Lemma StronglySorted_filter (P : Z -> Prop) `{forall x, Decision (P x)} l : StronglySorted Z.lt l -> StronglySorted Z.lt (filter P l).
Proof.
  induction 1 as [|x l Hs IH Hx]; [constructor|]. rewrite filter_cons. case_decide; [|done]. constructor; [done|].
  apply Forall_forall. intros y [_ Hy]%list_elem_of_filter. rewrite Forall_forall in Hx. auto.
Qed.

Lemma StronglySorted_snoc l m : StronglySorted Z.lt l -> (forall x, x ∈ l -> x < m) -> StronglySorted Z.lt (l ++ [m]).
Proof.
  induction 1 as [|x l Hs IH Hx]; intros Hm; [by repeat constructor|]. cbn. constructor.
  - apply IH. intros y Hy. apply Hm. by right.
  - apply Forall_app. split; [done|]. apply Forall_singleton, Hm. by left.
Qed.

Lemma sorted_last l m x : StronglySorted Z.lt l -> last l = Some m -> x ∈ l -> x <= m.
Proof.
  intros Hs [l' ->]%last_Some [Hx|E%list_elem_of_singleton]%elem_of_app; [|lia].
  induction l' as [|y l' IH]; [by apply not_elem_of_nil in Hx|]. apply StronglySorted_inv in Hs as [Hs Hy].
  apply elem_of_cons in Hx as [->|Hx]; [|auto]. rewrite Forall_forall in Hy. pose proof (Hy m ltac:(apply elem_of_app; right; by left)). lia.
Qed.

(** * The deadlists of a line *)

(** The deadlist of [g] and [b] has the blocks made in [b] that the predecessor
    of [g] sees, and [g] does not.  The lists of [G] are gone: the line has no
    use for them. *)
Record tracks (h : hist) (D : dlmap) (G : gset (Z * Z)) : Prop := {
  tk_sorted : StronglySorted Z.lt (-1 :: line h);
  tk_next : 0 <= nextg h /\ is_s64 (nextg h) /\ forall g, g ∈ line h -> g < nextg h;
  tk_killed a x : killedat h !! a = Some x -> seen (line h) x = true /\ -1 < x.1 /\ exists g, g ∈ line h /\ x.2 <= g;
  tk_lists p g b a : adj (-1 :: line h) p g ->
    a ∈ entsof D (inr (g, b)) <-> exists d, killedat h !! a = Some (b, d) /\ b <= p < d /\ d <= g;
  tk_nodup g b : g ∈ line h -> NoDup (entsof D (inr (g, b)));
  tk_gone g b : (g, b) ∈ G -> g < nextg h /\ forall p, adj (-1 :: line h) p g -> p < b;
  tk_later g b : nextg h <= g -> D !! inr (g, b) = None;
  tk_freed : exists ks, entsof D (inl 0%nat) ≡ₚ ks ++ freed h
}.

Lemma tk_pos h D G g : tracks h D G -> g ∈ line h -> -1 < g /\ is_s64 g.
Proof.
  intros Ht Hg. pose proof (tk_sorted _ _ _ Ht) as Hs. apply StronglySorted_inv in Hs as [_ Hs]. rewrite Forall_forall in Hs.
  destruct (tk_next _ _ _ Ht) as (_ & Hn & Hl). pose proof (Hs g Hg). pose proof (Hl g Hg). unfold is_s64 in *. split; lia.
Qed.

Lemma entsof_None D o : D !! o = None -> entsof D o = [].
Proof. unfold entsof. by intros ->. Qed.

Lemma elem_entsof D o a : a ∈ entsof D o -> is_Some (D !! o).
Proof. unfold entsof. destruct (D !! o); [done|]. by intros ?%not_elem_of_nil. Qed.

Lemma killed_in_entsof D g b a D' : killed_in D (inr (g, b)) a D' ->
  entsof D' (inr (g, b)) ≡ₚ a :: entsof D (inr (g, b)) /\
  (forall o, o <> inr (g, b) -> o <> inl 0%nat -> D' !! o = D !! o) /\
  exists ks, entsof D' (inl 0%nat) ≡ₚ ks ++ entsof D (inl 0%nat).
Proof.
  intros (D0 & l & l' & Hg & Hl & He & Hg'). split_and!.
  - unfold entsof at 1. rewrite (snapgrew_ne _ _ _ Hg'), lookup_insert_eq by done. cbn. rewrite He.
    rewrite (snapgrew_ne _ _ _ Hg) in Hl by done. unfold ensure in Hl. destruct (D !! inr (g, b)) as [l0|] eqn:E.
    + unfold entsof. rewrite E. rewrite E in Hl. by injection Hl as ->.
    + rewrite lookup_insert_eq in Hl. injection Hl as <-. by rewrite entsof_None.
  - intros o Ho Hn. rewrite (snapgrew_ne _ _ _ Hg') by done. rewrite lookup_insert_ne by done. rewrite (snapgrew_ne _ _ _ Hg) by done.
    unfold ensure. case_match; [done|]. by rewrite lookup_insert_ne.
  - destruct (snapgrew_entsof _ _ Hg) as [k1 E1]. destruct (snapgrew_entsof _ _ Hg') as [k2 E2]. exists (k2 ++ k1).
    rewrite E2, (entsof_ext D0 (<[_:=_]> D0)), E1 by (by rewrite lookup_insert_ne). rewrite (entsof_ext D (ensure D g b)); [by rewrite app_assoc|].
    unfold ensure. case_match; [done|]. by rewrite lookup_insert_ne.
Qed.

Lemma kill_tracks h h' D G D' memgen base p : tracks h D G -> play1 (Kill memgen base p) h = Some h' ->
  killed_in D (inr (memgen, gen p)) (addr p) D' -> tracks h' D' G.
Proof.
  intros Ht Hp (He & Ho & Hks)%killed_in_entsof. cbn [play1] in Hp. destruct (kill_ok h memgen base p) eqn:Hok; [|done]. injection Hp as <-.
  unfold kill_ok in Hok. apply andb_true_iff in Hok as [[[[[[_ Hg%s64bP]%andb_true_iff Hb1%Z.leb_le]%andb_true_iff Hb%Z.ltb_lt]%andb_true_iff
    Hl%bool_decide_eq_true]%andb_true_iff Hn%bool_decide_eq_true]%andb_true_iff (q & Hq & [Hq1%Z.leb_le Hq2%Z.ltb_lt]%andb_true_iff)%existsb_exists].
  apply list_elem_of_In in Hq. pose proof (tk_sorted _ _ _ Ht) as Hs.
  assert (Hmem : memgen ∈ line h) by (apply last_Some in Hl as [l' ->]; apply elem_of_app; right; by left).
  assert (Hmax : forall g, g ∈ line h -> g <= memgen) by (intros g Hgl; apply StronglySorted_inv in Hs as [Hs _]; by eapply sorted_last).
  constructor; cbn [line killedat nextg freed]; try apply Ht.
  - intros a x [[<- <-]|[_ Hx]]%lookup_insert_Some; [|by apply (tk_killed _ _ _ Ht a)]. cbn [fst snd]. split_and!; [|lia|by exists memgen].
    apply seenP. exists q. cbn. split; [done|lia].
  - intros p0 g b a Hadj. destruct (decide ((g, b) = (memgen, gen p))) as [[= -> ->]|Hne].
    + rewrite He, elem_of_cons, (tk_lists _ _ _ Ht p0) by done. split.
      * intros [->|(d & Hd & ?)]; [|exists d; rewrite lookup_insert_ne; [done|congruence]]. exists memgen. rewrite lookup_insert_eq.
        destruct Hadj as (A1 & A2 & A3 & A4). destruct (A4 q ltac:(by right)); [|lia]. split; [done|lia].
      * intros (d & [[<- [= <-]]|[? Hd]]%lookup_insert_Some & ?); [by left|right; eauto].
    + rewrite (entsof_ext D D') by (apply Ho; congruence). rewrite (tk_lists _ _ _ Ht p0) by done. split.
      * intros (d & Hd & ?). exists d. rewrite lookup_insert_ne; [done|congruence].
      * intros (d & [[<- [= <- <-]]|[? Hd]]%lookup_insert_Some & Hbd & Hdg); [|eauto]. exfalso. apply Hne. f_equal.
        destruct Hadj as (_ & [->|Hgl]%elem_of_cons & _); [lia|]. pose proof (Hmax g Hgl). lia.
  - intros g b Hgl. destruct (decide ((g, b) = (memgen, gen p))) as [[= -> ->]|Hne]; [|rewrite (entsof_ext D D') by (apply Ho; congruence); by apply Ht].
    rewrite He. apply NoDup_cons. split; [|by apply Ht]. destruct (adj_pred (line h) (-1) memgen Hs Hmem) as [p0 Hadj].
    rewrite (tk_lists _ _ _ Ht p0) by done. intros (d & Hd & _). congruence.
  - intros g b Hgn. rewrite Ho; [by apply Ht| |done]. intros [= -> ->]. destruct (tk_next _ _ _ Ht) as (_ & _ & Hx). pose proof (Hx _ Hmem). lia.
  - destruct Hks as [k1 E1], (tk_freed _ _ _ Ht) as [k2 E2]. exists (k1 ++ k2). by rewrite E1, E2, app_assoc.
Qed.

Lemma advance_tracks h h' D G m : tracks h D G -> play1 (Advance m) h = Some h' -> tracks h' D G.
Proof.
  intros Ht Hp. cbn [play1] in Hp. destruct ((nextg h <=? m) && s64b (m + 1)) eqn:E; [|done]. injection Hp as <-.
  apply andb_true_iff in E as [Hm%Z.leb_le H64%s64bP]. destruct (tk_next _ _ _ Ht) as (N1 & N2 & N3).
  assert (Hadj : forall p g, adj (-1 :: line h ++ [m]) p g -> adj (-1 :: line h) p g \/ g = m /\ forall x, x ∈ line h -> x <= p).
  { intros p g (A1 & A2 & A3 & A4). destruct (decide (g = m)) as [->|Hne].
    - right. split; [done|]. intros x Hx. destruct (A4 x) as [|Hge]; [right; apply elem_of_app; by left|done|]. pose proof (N3 x Hx). lia.
    - left. assert (g < m).
      { apply elem_of_cons in A2 as [->|[Hg|Hg%list_elem_of_singleton]%elem_of_app]; [lia|pose proof (N3 g Hg); lia|done]. }
      split_and!; [..|done|].
      + apply elem_of_cons in A1 as [->|[?|Hp%list_elem_of_singleton]%elem_of_app]; [by left|by right|lia].
      + apply elem_of_cons in A2 as [->|[?|Hg%list_elem_of_singleton]%elem_of_app]; [by left|by right|lia].
      + intros x [->|Hx]%elem_of_cons; apply A4; [by left|]. right. apply elem_of_app. by left. }
  constructor; cbn [line killedat nextg freed].
  - apply (StronglySorted_snoc (-1 :: line h)); [apply Ht|]. intros x [->|Hx]%elem_of_cons; [lia|]. pose proof (N3 x Hx). lia.
  - split_and!; [lia|done|]. intros g [Hg|Hg%list_elem_of_singleton]%elem_of_app; [pose proof (N3 g Hg); lia|lia].
  - intros a x Hx. destruct (tk_killed _ _ _ Ht a x Hx) as ((g & Hg & Hgx)%seenP & ? & g2 & Hg2 & ?). split_and!; [|done|].
    + apply seenP. exists g. split; [apply elem_of_app; by left|done].
    + exists g2. split; [apply elem_of_app; by left|done].
  - intros p g b a [Hadj0|[-> Hp]]%Hadj; [by apply Ht|]. rewrite entsof_None by (apply (tk_later _ _ _ Ht); lia). split.
    + by intros ?%not_elem_of_nil.
    + intros (d & Hd & Hb & _). destruct (tk_killed _ _ _ Ht a _ Hd) as (_ & _ & g & Hg & Hgd). pose proof (Hp g Hg). cbn in Hgd. lia.
  - intros g b [Hg|Hg%list_elem_of_singleton]%elem_of_app; [by apply Ht|]. rewrite entsof_None by (apply (tk_later _ _ _ Ht); lia). constructor.
  - intros g b Hgb. destruct (tk_gone _ _ _ Ht g b Hgb) as [Hn Ha]. split; [lia|]. intros p [Hadj0|[-> _]]%Hadj; [by apply Ha|lia].
  - intros g b Hg. apply (tk_later _ _ _ Ht). lia.
  - apply Ht.
Qed.

(** ** A snapshot is deleted *)

Lemma elem_freedof D g P `{forall b, Decision (P b)} bs a :
  a ∈ freedof D g P bs <-> exists b, b ∈ bs /\ P b /\ a ∈ entsof D (inr (g, b)).
Proof.
  induction bs as [|b bs IH].
  - split; [by intros ?%not_elem_of_nil|intros (b & Hb%not_elem_of_nil & _); done].
  - rewrite freedof_cons, elem_of_app, IH. setoid_rewrite elem_of_cons. case_decide; [naive_solver|].
    rewrite elem_of_nil. naive_solver.
Qed.

Lemma NoDup_freedof D g P `{forall b, Decision (P b)} bs :
  NoDup bs -> (forall b, NoDup (entsof D (inr (g, b)))) ->
  (forall b b' a, a ∈ entsof D (inr (g, b)) -> a ∈ entsof D (inr (g, b')) -> b = b') -> NoDup (freedof D g P bs).
Proof.
  intros Hn He Hx. induction Hn as [|b bs Hb Hn IH]; [constructor|]. rewrite freedof_cons. case_decide; [|done].
  apply NoDup_app. split_and!; [done| |done]. intros a Ha (b' & Hb' & _ & Ha')%elem_freedof. rewrite (Hx b b' a) in Hb by done. done.
Qed.

(** The generations that lose a list are never asked for it again. *)
Definition retired (G G' : gset (Z * Z)) (gen succ prev : Z) : Prop :=
  forall g b, (g, b) ∈ G' -> (g, b) ∈ G \/ g = gen \/ g = succ /\ prev < b.

Lemma delete_parts h D G gen prev succ : tracks h D G -> around (-1) (line h) gen = Some (prev, succ) ->
  adj (-1 :: line h) prev gen /\ gen ∈ line h /\ -1 < gen /\
  (if succ =? -1 then forall x, x ∈ line h -> x <= gen else adj (-1 :: line h) gen succ /\ succ ∈ line h /\ -1 < succ) /\
  -1 :: filter (fun g => g <> gen) (line h) = filter (fun g => g <> gen) (-1 :: line h).
Proof.
  intros Ht Ha. pose proof (tk_sorted _ _ _ Ht) as Hs. destruct (around_spec gen (line h) (-1) prev succ Hs ltac:(lia) Ha) as [H1 H2].
  assert (Hpos : forall x y, adj (-1 :: line h) x y -> y ∈ line h /\ -1 < y).
  { intros x y (A1 & A2 & A3 & _). apply elem_of_cons in A2 as [->|A2]; [|split; [done|by eapply tk_pos]].
    apply elem_of_cons in A1 as [->|A1]; [lia|]. destruct (tk_pos _ _ _ _ Ht A1). lia. }
  destruct (Hpos _ _ H1) as [Hin Hgt]. split_and!; try done.
  - destruct (succ =? -1); [done|]. split; [done|by apply (Hpos gen)].
  - rewrite (filter_cons _ (-1)). rewrite decide_True by lia. done.
Qed.

(** What a line without [gen] sees. *)
Lemma seen_delete h gen x : seen (filter (fun g => g <> gen) (line h)) x = true <->
  exists g, g ∈ line h /\ g <> gen /\ x.1 <= g < x.2.
Proof. rewrite seenP. setoid_rewrite list_elem_of_filter. naive_solver. Qed.

Lemma seen_only h D G gen prev succ a x : tracks h D G -> adj (-1 :: line h) prev gen -> adj (-1 :: line h) gen succ ->
  killedat h !! a = Some x ->
  seen (filter (fun g => g <> gen) (line h)) x = false <-> prev < x.1 <= gen /\ gen < x.2 <= succ.
Proof.
  intros Ht (A1 & A2 & A3 & A4) (B1 & B2 & B3 & B4) Hx.
  destruct (tk_killed _ _ _ Ht a x Hx) as ((g & Hg & Hgx)%seenP & Hpos & _). rewrite <- not_true_iff_false, seen_delete. split.
  - intros Hno. assert (g = gen) as -> by (destruct (decide (g = gen)); [done|destruct Hno; eauto]).
    assert (Hn : forall y, y ∈ -1 :: line h -> y <> gen -> ~ (x.1 <= y < x.2)).
    { intros y [->|Hy]%elem_of_cons Hne Hyx; [lia|]. apply Hno. eauto. }
    pose proof (Hn prev A1 ltac:(lia)). pose proof (Hn succ B2 ltac:(lia)). lia.
  - intros Hd (y & Hy & Hne & Hyx). destruct (A4 y ltac:(by right)), (B4 y ltac:(by right)); lia.
Qed.

(** The lists of the successor. *)
Lemma delete_lists h D G D' gen prev succ fs : tracks h D G -> succ <> -1 -> adj (-1 :: line h) prev gen -> adj (-1 :: line h) gen succ ->
  reclaimed D gen succ prev D' fs ->
  forall b a, a ∈ entsof D' (inr (succ, b)) <-> exists d, killedat h !! a = Some (b, d) /\ b <= prev < d /\ d <= succ.
Proof.
  intros Ht Hne Hpg Hgs Hr b a. pose proof Hpg as (_ & _ & Hlt & _). pose proof Hgs as (_ & _ & Hlt2 & _).
  destruct (decide (b <= prev)) as [Hb|Hb].
  - rewrite (rc_kept _ _ _ _ _ _ Hr b Hne Hb), elem_of_app, (tk_lists _ _ _ Ht gen), (tk_lists _ _ _ Ht prev) by done. split.
    + intros [(d & ? & ?)|(d & ? & ?)]; exists d; (split; [done|lia]).
    + intros (d & Hd & ?). destruct (decide (d <= gen)); [right|left]; exists d; (split; [done|lia]).
  - rewrite entsof_None by (apply (rc_lost _ _ _ _ _ _ Hr); [done|lia]). rewrite elem_of_nil. split; [done|]. intros (d & _ & ?). lia.
Qed.

(** What is given up: the blocks that only [gen] saw. *)
Lemma delete_freed h D G D' gen prev succ fs : tracks h D G -> succ <> -1 -> gen ∈ line h -> succ ∈ line h ->
  adj (-1 :: line h) prev gen -> adj (-1 :: line h) gen succ -> reclaimed D gen succ prev D' fs ->
  fs ≡ₚ (map_to_list (filter (fun x => seen (filter (fun g => g <> gen) (line h)) x.2 = false) (killedat h))).*1.
Proof.
  intros Ht Hne Hgen Hsucc Hpg Hgs Hr.
  destruct (rc_freed _ _ _ _ _ _ Hr) as (bs & bs' & Hbs & Hn1 & Hn2 & Hbs' & ->). rewrite (proj2 (Z.eqb_neq _ _) Hne).
  assert (freedof D gen (fun b => succ = -1 \/ prev < b) bs = []) as ->.
  { apply elem_of_nil_inv. intros a (b & _ & Hb & (d & _ & ?)%(tk_lists _ _ _ Ht prev))%elem_freedof; [lia|done]. }
  cbn [app]. apply NoDup_Permutation.
  + apply NoDup_freedof; [done|by intros b; apply Ht|]. intros b b' a (d & Hd & _)%(tk_lists _ _ _ Ht gen) (d' & Hd' & _)%(tk_lists _ _ _ Ht gen); [|done..]. congruence.
  + apply NoDup_fst_map_to_list.
  + intros a. rewrite elem_freedof, list_elem_of_fmap. split.
    * intros (b & _ & Hb & Hin). pose proof Hin as (d & Hd & Hbd)%(tk_lists _ _ _ Ht gen); [|done]. exists (a, (b, d)). split; [done|].
      apply elem_of_map_to_list, map_lookup_filter_Some. split; [done|]. cbn. eapply seen_only; [done|exact Hpg|exact Hgs|done|]. cbn. lia.
    * intros ([a' [b d]] & -> & [Hd Hs]%elem_of_map_to_list%map_lookup_filter_Some). cbn in Hs |- *.
      eapply (seen_only h D G gen prev succ a' (b, d)) in Hs; [|done..]. cbn in Hs.
      assert (a' ∈ entsof D (inr (succ, b))) as Hin by (apply (tk_lists _ _ _ Ht gen); [done|]; exists d; split; [done|lia]).
      exists b. split_and!; [|lia|done]. apply Hbs'; [done|lia|]. by eapply elem_entsof.
Qed.

Lemma delete_tracks h h' D G D' G' gen prev succ fs : tracks h D G -> succ <> -1 -> play1 (Delete gen succ prev) h = Some h' ->
  reclaimed D gen succ prev D' fs -> retired G G' gen succ prev -> tracks h' D' G'.
Proof.
  intros Ht Hne Hp Hr HG. cbn [play1] in Hp. case_bool_decide as Ha; [|done]. rewrite (proj2 (Z.eqb_neq _ _) Hne) in Hp. injection Hp as <-.
  destruct (delete_parts _ _ _ _ _ _ Ht Ha) as (Hpg & Hgen & Hgpos & Hsu & El). rewrite (proj2 (Z.eqb_neq _ _) Hne) in Hsu.
  destruct Hsu as (Hgs & Hsucc & Hspos). pose proof Hpg as (_ & _ & Hlt & _). pose proof Hgs as (_ & _ & Hlt2 & _).
  pose proof (delete_lists _ _ _ _ _ _ _ _ Ht Hne Hpg Hgs Hr) as Hls.
  assert (Hoth : forall g b, g <> gen -> g <> succ -> entsof D' (inr (g, b)) = entsof D (inr (g, b))).
  { intros g b ? ?. by apply entsof_ext, (rc_other _ _ _ _ _ _ Hr). }
  constructor; cbn [line killedat nextg freed].
  - rewrite El. by apply StronglySorted_filter, Ht.
  - destruct (tk_next _ _ _ Ht) as (? & ? & Hl). split_and!; [done..|]. intros g [_ Hg]%list_elem_of_filter. by apply Hl.
  - intros a x [Hx Hs]%map_lookup_filter_Some. cbn in Hs. destruct (tk_killed _ _ _ Ht a x Hx) as (_ & ? & g & Hg & Hge).
    split_and!; [done..|]. destruct (decide (g = gen)) as [->|Hng].
    + exists succ. split; [apply list_elem_of_filter; split; [lia|done]|lia].
    + exists g. split; [by apply list_elem_of_filter|done].
  - intros p g b a Hadj. rewrite El in Hadj.
    assert (Hk : forall d, killedat h !! a = Some (b, d) -> (exists y, y ∈ line h /\ y <> gen /\ b <= y < d) ->
      filter (fun x => seen (filter (fun g => g <> gen) (line h)) x.2 = true) (killedat h) !! a = Some (b, d)).
    { intros d Hd Hy. apply map_lookup_filter_Some. split; [done|]. by apply seen_delete. }
    assert (Hpin : forall d, killedat h !! a = Some (b, d) -> b <= p < d -> p ∈ -1 :: line h -> p <> gen -> exists y, y ∈ line h /\ y <> gen /\ b <= y < d).
    { intros d Hd Hbd [->|Hp]%elem_of_cons Hpn; [|eauto]. destruct (tk_killed _ _ _ Ht a _ Hd) as (_ & Hbp & _). cbn in Hbp. lia. }
    assert (p ∈ -1 :: line h /\ p <> gen) as [Hp Hpn] by (destruct Hadj as ([? ?]%list_elem_of_filter & _); done).
    destruct (adj_delete _ _ _ _ _ _ Hpg Hgs Hadj) as [[-> ->]|(Hadj0 & Hg1 & Hg2)].
    + rewrite Hls. split; intros (d & Hd & Hbd); exists d; (split; [|done]).
      * apply Hk; [done|]. apply Hpin; [done|lia|done|done].
      * by apply map_lookup_filter_Some in Hd as [? _].
    + rewrite Hoth, (tk_lists _ _ _ Ht p) by done. split; intros (d & Hd & Hbd); exists d; (split; [|done]).
      * apply Hk; [done|]. apply Hpin; [done|lia|done|done].
      * by apply map_lookup_filter_Some in Hd as [? _].
  - intros g b [Hng Hg]%list_elem_of_filter. destruct (decide (g = succ)) as [->|Hgsu]; [|rewrite Hoth by done; by apply Ht].
    destruct (decide (b <= prev)) as [Hb|Hb].
    + rewrite (rc_kept _ _ _ _ _ _ Hr b Hne Hb). apply NoDup_app. split_and!; [by apply Ht| |by apply Ht].
      intros a (d & Hd & ?)%(tk_lists _ _ _ Ht gen) (d' & Hd' & ?)%(tk_lists _ _ _ Ht prev); [|done..]. assert (d = d') by congruence. lia.
    + rewrite entsof_None by (apply (rc_lost _ _ _ _ _ _ Hr); [done|lia]). constructor.
  - intros g b Hgb. destruct (tk_next _ _ _ Ht) as (_ & _ & Hl). rewrite El. destruct (HG g b Hgb) as [H0|[->|[-> Hb]]].
    + destruct (tk_gone _ _ _ Ht g b H0) as [? Hx]. split; [done|]. intros p Hadj.
      destruct (adj_delete _ _ _ _ _ _ Hpg Hgs Hadj) as [[-> ->]|(Hadj0 & _)]; [|by apply Hx]. pose proof (Hx gen Hgs). lia.
    + split; [by apply Hl|]. intros p (_ & [? _]%list_elem_of_filter & _). done.
    + split; [by apply Hl|]. intros p Hadj. destruct (adj_delete _ _ _ _ _ _ Hpg Hgs Hadj) as [[-> _]|(_ & _ & ?)]; done.
  - intros g b Hg. destruct (tk_next _ _ _ Ht) as (_ & _ & Hl). pose proof (Hl gen Hgen). pose proof (Hl succ Hsucc).
    rewrite (rc_other _ _ _ _ _ _ Hr) by lia. by apply Ht.
  - destruct (rc_snap _ _ _ _ _ _ Hr) as [ks Hks]. rewrite (proj2 (Z.eqb_neq _ _) Hne) in Hks. destruct (tk_freed _ _ _ Ht) as [k0 E0].
    exists (ks ++ k0). rewrite Hks, E0, <- !app_assoc. do 3 f_equiv.
    by eapply delete_freed.
Qed.

Lemma delete_last_tracks h h' D G D' G' gen prev fs : tracks h D G -> play1 (Delete gen (-1) prev) h = Some h' ->
  reclaimed D gen (-1) prev D' fs -> retired G G' gen (-1) prev -> tracks h' D' G'.
Proof.
  intros Ht Hp Hr HG. cbn [play1] in Hp. case_bool_decide as Ha; [|done]. change (-1 =? -1) with true in Hp. injection Hp as <-.
  destruct (delete_parts _ _ _ _ _ _ Ht Ha) as (Hpg & Hgen & Hgpos & Hlast & El). cbn [Z.eqb] in Hlast. change (-1 =? -1) with true in Hlast.
  pose proof Hpg as (Hprev & _ & Hlt & Hno).
  assert (Hle : forall p g, adj (-1 :: filter (fun g => g <> gen) (line h)) p g -> adj (-1 :: line h) p g /\ g <> gen).
  { intros p g. rewrite El. apply adj_delete_last; [|by right]. intros x [->|Hx]%elem_of_cons; [lia|by apply Hlast]. }
  assert (Hprevs : forall g, g ∈ line h -> g <> gen -> g <= prev).
  { intros g Hg Hne. destruct (Hno g ltac:(by right)); [done|]. pose proof (Hlast g Hg). lia. }
  assert (Hoth : forall g b, g <> gen -> g <> -1 -> D' !! inr (g, b) = D !! inr (g, b)).
  { intros g b ? ?. by apply (rc_other _ _ _ _ _ _ Hr). }
  constructor; cbn [line killedat nextg freed].
  - rewrite El. by apply StronglySorted_filter, Ht.
  - destruct (tk_next _ _ _ Ht) as (? & ? & Hl). split_and!; [done..|]. intros g [_ Hg]%list_elem_of_filter. by apply Hl.
  - intros a x [Hx Hs]%map_lookup_filter_Some. cbn in Hs. destruct (tk_killed _ _ _ Ht a x Hx) as ((g & Hg & Hgx)%seenP & Hpos & _).
    assert (prev ∈ line h) as Hpl.
    { apply elem_of_cons in Hprev as [->|?]; [|done]. destruct (decide (g = gen)) as [->|Hng]; [lia|]. pose proof (Hprevs g Hg Hng). lia. }
    split_and!; [|done|].
    + apply seenP. destruct (decide (g = gen)) as [->|Hng]; [lia|]. exists g. split; [by apply list_elem_of_filter|done].
    + exists prev. split; [apply list_elem_of_filter; split; [lia|done]|done].
  - intros p g b a [Hadj Hgn]%Hle. unfold entsof. pose proof Hadj as (Hp & Hg & Hpg2 & _).
    assert (g <> -1 /\ g <= prev) as [Hg1 Hgp].
    { apply elem_of_cons in Hg as [->|Hg].
      - apply elem_of_cons in Hp as [->|Hp]; [lia|]. destruct (tk_pos _ _ _ _ Ht Hp). lia.
      - destruct (tk_pos _ _ _ _ Ht Hg). split; [lia|by apply Hprevs]. }
    rewrite Hoth by done. fold (entsof D (inr (g, b))). rewrite (tk_lists _ _ _ Ht p) by done. split; intros (d & Hd & Hbd); exists d.
    + split; [|done]. apply map_lookup_filter_Some. split; [done|]. cbn. lia.
    + by apply map_lookup_filter_Some in Hd as [? _].
  - intros g b [Hng Hg]%list_elem_of_filter. destruct (tk_pos _ _ _ _ Ht Hg). unfold entsof. rewrite Hoth by lia. by apply Ht.
  - intros g b Hgb. destruct (tk_next _ _ _ Ht) as (? & _ & Hl). destruct (HG g b Hgb) as [H0|[->|[-> Hb]]].
    + destruct (tk_gone _ _ _ Ht g b H0) as [? Hx]. split; [done|]. intros p [Hadj _]%Hle. by apply Hx.
    + split; [by apply Hl|]. intros p [_ ?]%Hle. done.
    + split; [lia|]. intros p [(Hp & _ & Hp1 & _) _]%Hle. apply elem_of_cons in Hp as [->|Hp]; [lia|]. destruct (tk_pos _ _ _ _ Ht Hp). lia.
  - intros g b Hg. destruct (tk_next _ _ _ Ht) as (? & _ & Hl). pose proof (Hl gen Hgen). rewrite Hoth by lia. by apply Ht.
  - destruct (rc_snap _ _ _ _ _ _ Hr) as [ks Hks]. change (-1 =? -1) with true in Hks. cbn match in Hks. rewrite app_nil_r in Hks.
    destruct (tk_freed _ _ _ Ht) as [k0 E0]. exists (ks ++ k0). by rewrite Hks, E0, app_assoc.
Qed.

(** * The code *)

Section Run.
  Context {T : Type} `{SnapTree T} `{TM : TreeMeans T, !SnapLaws T}.
  Context {newblk : nat -> res Mblk} {dlcmax : Z} {A : nat -> Z} `{!Supply newblk A}.
  #[local] Abbreviation state := (dstate (T:=T)).

(** delsnap writes the deadlists out before it reclaims the blocks. *)
Definition run1 (e : event) : M unit :=
  match e with
  | Kill memgen base p => killblk newblk dlcmax (Some (memgen, base)) p
  | Advance _ => mret tt
  | Delete gen succ prev => dlsync newblk;; reclaimblocks newblk dlcmax gen succ prev
  end.

Fixpoint run (es : list event) : M unit :=
  match es with [] => mret tt | e :: es => run1 e;; run es end.

(** The state has the deadlists that the history asks for. *)
Definition keeps (h : hist) (s : state) : Prop :=
  exists D G, cinv dlcmax s [] /\ dinv dlcmax A s D G ∅ /\ tracks h D G.

Lemma snapgrew_tracks h D D' G : snapgrew D D' -> tracks h D G -> tracks h D' G.
Proof.
  intros Hg Ht. assert (He : forall x, entsof D' (inr x) = entsof D (inr x)) by (intros x; apply entsof_ext; by eapply snapgrew_ne).
  constructor; try apply Ht.
  - intros p g b a. rewrite He. apply Ht.
  - intros g b. rewrite He. apply Ht.
  - intros g b. rewrite (snapgrew_ne _ _ _ Hg) by done. apply Ht.
  - destruct (snapgrew_entsof _ _ Hg) as [k1 E1], (tk_freed _ _ _ Ht) as [k2 E2]. exists (k1 ++ k2). by rewrite E1, E2, app_assoc.
Qed.

Lemma run1_keeps e h h' (s : state) : play1 e h = Some h' -> keeps h s -> wp (run1 e) (fun _ s' => keeps h' s') s.
Proof.
  intros Hp (D & G & Hc & Hd & Ht). destruct e as [memgen base p|m|gen succ prev]; cbn [run1].
  - pose proof Hp as Hok. cbn [play1] in Hok. destruct (kill_ok h memgen base p) eqn:E; [clear Hok|done]. unfold kill_ok in E.
    apply andb_true_iff in E as [[[[[[Ha%s64bP Hg%s64bP]%andb_true_iff Hb1%Z.leb_le]%andb_true_iff Hb%Z.ltb_lt]%andb_true_iff
      Hl%bool_decide_eq_true]%andb_true_iff _]%andb_true_iff (q & Hq & [Hq1%Z.leb_le Hq2%Z.ltb_lt]%andb_true_iff)%existsb_exists].
    apply list_elem_of_In in Hq.
    assert (Hmem : memgen ∈ line h) by (apply last_Some in Hl as [l' ->]; apply elem_of_app; right; by left).
    destruct (tk_pos _ _ _ _ Ht Hmem) as [? ?]. eapply dlwp_mono; [apply (killblk_dinv s D G memgen base p); try done; [lia|]|].
    + intros Hin. destruct (tk_gone _ _ _ Ht _ _ Hin) as [_ Hx]. destruct (adj_pred _ _ _ (tk_sorted _ _ _ Ht) Hmem) as [p0 Hadj].
      pose proof (Hx p0 Hadj). destruct Hadj as (_ & _ & _ & Hmid). destruct (Hmid q ltac:(by right)); lia.
    + intros _ s' (Hc' & D' & Hk & Hd'). exists D', G. split_and!; [done..|]. by eapply kill_tracks.
  - wps. exists D, G. split_and!; [done..|]. by eapply advance_tracks.
  - wps. eapply dlwp_mono; [by eapply (dlsync_spec (dlcmax:=dlcmax))|]. intros _ s1 (Hc1 & (D1 & Hg1 & Hd1) & Hf1).
    pose proof (snapgrew_tracks _ _ _ _ Hg1 Ht) as Ht1. pose proof Hp as Ha. cbn [play1] in Ha. case_bool_decide as Har; [clear Ha|done].
    destruct (delete_parts _ _ _ _ _ _ Ht1 Har) as ((_ & _ & Hlt & _) & Hgen & Hgpos & Hs & _). destruct (tk_pos _ _ _ _ Ht1 Hgen) as [_ Hg64].
    eapply dlwp_mono; [apply (reclaimblocks_spec s1 D1 G gen succ prev)|].
    + done.
    + done.
    + destruct (Z.eqb_spec succ (-1)) as [->|]; [lia|]. destruct Hs as ((_ & _ & ? & _) & _). lia.
    + destruct (Z.eqb_spec succ (-1)) as [->|]; [by left|right]. destruct Hs as (Hadj & Hsin & _).
      split; [by apply (tk_pos _ _ _ _ Ht1 Hsin)|]. intros b Hb Hin. destruct (tk_gone _ _ _ Ht1 _ _ Hin) as [_ Hx]. pose proof (Hx gen Hadj). lia.
    + intros _ s2 (D2 & G2 & fs & (Hc2 & _ & Hd2) & Hr & HG). exists D2, G2. split_and!; [done..|].
      destruct (decide (succ = -1)) as [->|Hne]; [by eapply delete_last_tracks|by eapply delete_tracks].
Qed.

Lemma run_keeps es : forall h h' (s : state), play es h = Some h' -> keeps h s -> wp (run es) (fun _ s' => keeps h' s') s.
Proof.
  induction es as [|e es IH]; intros h h' s Hp Hk; cbn [play run] in *.
  - injection Hp as <-. wps. done.
  - apply bind_Some in Hp as (h1 & H1 & Hp). wps. eapply dlwp_mono; [by apply (run1_keeps e h h1 s)|].
    intros u s1 Hk1. by apply (IH h1).
Qed.

(** * What the deadlists promise *)

(** C5: a history of kills, snapshots and deletions keeps the deadlists right:
    killblk, dlsync and reclaimblocks run to the end, unless the device is
    full, and then the deadlist of each generation and birth has exactly the
    blocks that the snapshot before it sees and it does not; a block has been
    given up when the last snapshot that saw it was deleted, and no earlier. *)
Theorem deadlists_correct es h h' (s : state) :
  play es h = Some h' -> keeps h s ->
  match run es s with
  | Ok (_, s') => keeps h' s'
  | Fail e => e = Error Efull
  end.
Proof. intros Hp Hk. exact (run_keeps es h h' s Hp Hk). Qed.

(** C14: killblk on each of its branches: the snapshot tree's own block goes to
    fs->snapdl; a block made after the tree's base goes to the deadlist of the
    tree's generation and its own, in memory, on the disk or new; one that was
    there when the line forked is left to the other line, and nothing changes.
    The other deadlists and the cache stay in order. *)
Theorem killblk_correct t p (s : state) D G : cinv dlcmax s [] -> dinv dlcmax A s D G ∅ ->
  is_s64 (addr p) -> is_s64 (gen p) ->
  match t with Some (memgen, base) => is_s64 memgen /\ memgen <> -1 /\ (memgen, gen p) ∉ G | None => True end ->
  match killblk newblk dlcmax t p s with
  | Ok (_, s') =>
      match t with
      | Some (memgen, base) =>
          if base <? gen p then cinv dlcmax s' [] /\
            exists D', killed_in D (inr (memgen, gen p)) (addr p) D' /\ dinv dlcmax A s' D' G ∅
          else s' = s
      | None => cinv dlcmax s' [] /\ exists D', killed_in D (inl 0%nat) (addr p) D' /\ dinv dlcmax A s' D' G ∅
      end
  | Fail e => e = Error Efull
  end.
Proof.
  intros Hc Hd Hp Hg Ht. change (wp (killblk newblk dlcmax t p) (fun _ s' => match t with
      | Some (memgen, base) => if base <? gen p then cinv dlcmax s' [] /\
            exists D', killed_in D (inr (memgen, gen p)) (addr p) D' /\ dinv dlcmax A s' D' G ∅ else s' = s
      | None => cinv dlcmax s' [] /\ exists D', killed_in D (inl 0%nat) (addr p) D' /\ dinv dlcmax A s' D' G ∅ end) s).
  destruct t as [[memgen base]|].
  - destruct (Z.ltb_spec base (gen p)) as [Hb|Hb].
    + destruct Ht as (? & ? & ?). by apply killblk_dinv.
    + unfold killblk. rewrite (proj2 (Z.ltb_ge _ _)) by done. wps. done.
  - cbn [killblk]. destruct (di_snap _ _ _ _ Hd) as (d & _ & _ & [l Hl]).
    eapply dlwp_mono; [apply (dlkill_dinv (dlcmax:=dlcmax) s D G ∅ [] (inl 0%nat) l 0 p); try done|].
    { intros n g b [= <-] Hca. pose proof (di_two _ _ _ _ Hd _ _ _ Hca). lia. }
    intros u s' (l' & He & Hd' & Hc' & _). split; [done|]. exists (<[inl 0%nat := l']> D). split; [|done].
    exists D, l, l'. split_and!; [by eapply snapgrew_refl|done|done|]. eapply snapgrew_refl. by rewrite lookup_insert_eq.
Qed.

(** C15: after dlsync the snapshot tree and the blocks are all that a deadlist
    needs: no deadlist has a block in memory, each has a record in the snapshot
    tree, and freedl from the record gives back every address in the list once,
    and every block of the list once. *)
Theorem dlsync_saves (s : state) D G : cinv dlcmax s [] -> dinv dlcmax A s D G ∅ ->
  match dlsync newblk s with
  | Ok (_, s') => cinv dlcmax s' [] /\ flushed s' /\ exists D', snapgrew D D' /\ dinv dlcmax A s' D' G ∅ /\
      forall g b l, D' !! inr (g, b) = Some l -> exists e, saved (snap s') g b e /\ dgen e = g /\ Layout.bgen e = b /\
        forall dofree, freedl e dofree s' = Ok (tt, withio (frees dofree l) s')
  | Fail e => e = Error Efull
  end.
Proof.
  intros Hc Hd. pose proof (dlsync_spec (dlcmax:=dlcmax) s D G Hc Hd) as Hw. unfold wp in Hw.
  destruct (dlsync newblk s) as [[[] s']|]; [|done]. destruct Hw as (Hc' & (D' & Hg & Hd') & Hf). split_and!; [done..|].
  exists D'. split_and!; [done..|]. intros g b l Hl.
  destruct (di_key _ _ _ _ Hd' g b l Hl) as (Hg64 & Hb64 & _ & [[[]%not_elem_of_empty _]|(e & Hs & Hp)]).
  exists e. pose proof Hs as (w & _ & Ee & Hh & Ht). destruct (kv2dlist_gens g b w e Hg64 Hb64 Ee). split_and!; [done..|]. intros dofree.
  assert (dl_is (blks s') (mkDl e None) l) as Hdl; [|].
  { unfold in_place in Hp. destruct (cached dlcmax s' g b) as [i|] eqn:Ei; [|done]. destruct Hp as (d & Ed & Hdl & Hsame).
    destruct (cached_Some _ _ _ _ Ei) as [Hin _]. pose proof (Hf _ _ _ Hin Ed) as Hno. destruct (Hsame Hno) as [E1 E2].
    destruct Hdl as (_ & _ & Hn & Hl'). split_and!; [done..|]. cbn [dd dins]. rewrite E1, E2. destruct l as [|[a es] l]; [naive_solver|].
    split; [apply Hl'|done]. }
  exact (freedl_run (mkDl e None) l dofree s' Hdl).
Qed.
End Run.

(** ** A file system with nothing in it *)

#[local] Abbreviation ex_newblk := (newdlblk (device 100) blank 0).
Definition nodeadlists : dlmap := {[inl 0%nat := []; inl 1%nat := []]}.
Definition nohist : hist := mkHist [] ∅ 0 [].

Lemma nodeadlists_inr x : nodeadlists !! inr x = None.
Proof. unfold nodeadlists. by rewrite lookup_insert_ne, lookup_singleton_ne by done. Qed.

Lemma fresh_cinv : cinv 1 freshfs [].
Proof.
  constructor; intros *; unfold dlbucket, freshfs; cbn [dlhash dllru dls]; rewrite ?lookup_empty; cbn [default].
  all: try by intros ?%not_elem_of_nil. all: try constructor.
Qed.

Lemma fresh_dinv : dinv 1 nextaddr freshfs nodeadlists ∅ ∅.
Proof.
  assert (Hc : forall g b, cached 1 freshfs g b = None) by (intros; unfold cached, dlbucket, freshfs; cbn; by rewrite lookup_empty).
  assert (Hd : forall n l, nodeadlists !! inl n = Some l -> l = [] /\ (n < 2)%nat).
  { intros n l. unfold nodeadlists. intros [[[= <-] <-]|[_ [[= <-] <-]%lookup_singleton_Some]]%lookup_insert_Some; (split; [done|lia]). }
  constructor; try (intros *; rewrite ?Hc, ?nodeadlists_inr; done).
  - exists (newdl (-1) (-1)). split_and!; [done|done|]. by exists [].
  - intros n l [-> Hn]%Hd. exists (newdl (-1) (-1)). split; [destruct n as [|[|]]; [done|done|lia]|].
    split_and!; try done; repeat constructor.
  - intros g b _ _ _. by right.
  - intros [n1|x1] [n2|x2] l1 l2 a; rewrite ?nodeadlists_inr; try done. intros [-> _]%Hd _. by intros ?%not_elem_of_nil.
Qed.

Lemma fresh_keeps : keeps (dlcmax:=1) (A:=nextaddr) nohist freshfs.
Proof.
  exists nodeadlists, ∅. split_and!; [apply fresh_cinv|apply fresh_dinv|].
  constructor; cbn [nohist line killedat nextg freed].
  - repeat constructor.
  - split_and!; [done|done|by intros g ?%not_elem_of_nil].
  - by intros a x ?%lookup_empty_Some.
  - intros p g b a (->%list_elem_of_singleton & ->%list_elem_of_singleton & ? & _). lia.
  - by intros g b ?%not_elem_of_nil.
  - by intros g b ?.
  - intros g b _. apply nodeadlists_inr.
  - exists []. unfold entsof, nodeadlists. by rewrite lookup_insert_eq.
Qed.

(** Two snapshots, 0 and 2, and a third in between that is deleted: of three
    blocks that were killed, it alone saw the one at 9216. *)
Definition ex_events : list event :=
  [Advance 0; Advance 1; Kill 1 (-1) (mkBptr 8192 0 0); Advance 2; Kill 2 (-1) (mkBptr 9216 0 1);
   Kill 2 (-1) (mkBptr 10240 0 0); Advance 3; Delete 1 2 0].

Lemma ex_events_play : exists h, play ex_events nohist = Some h /\ line h = [0; 2; 3] /\ freed h = [9216].
Proof. eexists. split; [vm_compute; reflexivity|]. split; vm_compute; reflexivity. Qed.

Lemma deadlists_correct_witness : exists h, play ex_events nohist = Some h /\ freed h = [9216] /\
  match run (newblk:=ex_newblk) (dlcmax:=1) ex_events freshfs with
  | Ok (_, s') => keeps (dlcmax:=1) (A:=nextaddr) h s'
  | Fail e => e = Error Efull
  end.
Proof.
  destruct ex_events_play as (h & Hp & _ & Hf). exists h. split; [exact Hp|]. split; [exact Hf|].
  pose proof (deadlists_correct (newblk:=ex_newblk) (dlcmax:=1) (A:=nextaddr) ex_events nohist h freshfs Hp fresh_keeps) as Hw.
  exact Hw.
Defined.

(** The run does not find the device full; dlcmax makes room in the cache. *)
Example ex_events_run :
  match run (newblk:=ex_newblk) (dlcmax:=1) ex_events freshfs with Ok (_, s) => made s = 5%nat | Fail _ => False end.
Proof. vm_compute. reflexivity. Qed.

Lemma killblk_correct_witness :
  match killblk ex_newblk 1 (Some (5, 2)) (mkBptr 8192 0 3) freshfs with
  | Ok (_, s') => cinv 1 s' [] /\ exists D', killed_in nodeadlists (inr (5, 3)) 8192 D' /\ dinv 1 nextaddr s' D' ∅ ∅
  | Fail e => e = Error Efull
  end.
Proof.
  apply (killblk_correct (newblk:=ex_newblk) (dlcmax:=1) (A:=nextaddr) (Some (5, 2)) (mkBptr 8192 0 3) freshfs nodeadlists ∅ fresh_cinv fresh_dinv).
  - unfold is_s64. cbn. lia.
  - unfold is_s64. cbn. lia.
  - split_and!; [unfold is_s64; lia|done|]. apply not_elem_of_empty.
Defined.

(** Two deadlists of generation 2, of which one was written out when it left
    the cache and the other is in memory. *)
Definition ex_kills : list event :=
  [Advance 0; Advance 1; Advance 2; Kill 2 (-1) (mkBptr 8192 0 0); Kill 2 (-1) (mkBptr 9216 0 1)].

(** The lists with a block in memory, by birth; the snapshot tree's own is -1. *)
Definition dirty {T} (s : dstate (T:=T)) : list Z :=
  omap (fun d => if dins d is Some _ then Some (Layout.bgen (dd d)) else None) (dls s).

Lemma ex_kills_play : exists h, play ex_kills nohist = Some h /\ line h = [0; 1; 2] /\
  killedat h !! 8192 = Some (0, 2) /\ killedat h !! 9216 = Some (1, 2).
Proof. eexists. split; [vm_compute; reflexivity|]. split_and!; vm_compute; reflexivity. Qed.

Lemma ex_kills_run : exists s, run (newblk:=ex_newblk) (dlcmax:=1) ex_kills freshfs = Ok (tt, s) /\ dirty s = [-1; 1] /\
  exists s', dlsync ex_newblk s = Ok (tt, s').
Proof.
  assert (match run (newblk:=ex_newblk) (dlcmax:=1) ex_kills freshfs with
          | Ok (_, s) => dirty s = [-1; 1] /\ match dlsync ex_newblk s with Ok _ => True | Fail _ => False end
          | Fail _ => False
          end) as Hr by (vm_compute; split; done).
  destruct (run _ _) as [[[] s]|]; [|done]. destruct Hr as [Hd Ho]. exists s. split_and!; [done..|].
  destruct (dlsync ex_newblk s) as [[[] s']|]; [by exists s'|done].
Qed.

Lemma ex_kills_keeps s h : play ex_kills nohist = Some h -> run (newblk:=ex_newblk) (dlcmax:=1) ex_kills freshfs = Ok (tt, s) ->
  keeps (dlcmax:=1) (A:=nextaddr) h s.
Proof.
  intros Hp E. pose proof (run_keeps (newblk:=ex_newblk) (dlcmax:=1) (A:=nextaddr) ex_kills nohist h freshfs Hp fresh_keeps) as Hw.
  unfold wp in Hw. by rewrite E in Hw.
Qed.

Lemma entsof_Some D o a : a ∈ entsof D o -> exists l, D !! o = Some l /\ a ∈ ents l.
Proof. unfold entsof. destruct (D !! o) as [l|]; [by exists l|]. by intros ?%not_elem_of_nil. Qed.

(** dlsync writes out the list that is in memory, and then both are found from
    the snapshot tree, each with its block. *)
Lemma dlsync_saves_witness :
  exists s s', run (newblk:=ex_newblk) (dlcmax:=1) ex_kills freshfs = Ok (tt, s) /\ dirty s = [-1; 1] /\
    dlsync ex_newblk s = Ok (tt, s') /\ flushed s' /\
    forall b a, (b = 0 /\ a = 8192) \/ (b = 1 /\ a = 9216) ->
      exists e l, a ∈ ents l /\ saved (snap s') 2 b e /\ dgen e = 2 /\ Layout.bgen e = b /\
        forall dofree, freedl e dofree s' = Ok (tt, withio (frees dofree l) s').
Proof.
  destruct ex_kills_run as (s & E & Hdirty & s' & Es). destruct ex_kills_play as (h & Hp & Hl & H0 & H1).
  destruct (ex_kills_keeps s h Hp E) as (D & G & Hc & Hd & Ht). exists s, s'.
  pose proof (dlsync_saves (newblk:=ex_newblk) (dlcmax:=1) (A:=nextaddr) s D G Hc Hd) as Hs.
  rewrite Es in Hs. destruct Hs as (_ & Hf & D' & Hg & _ & Hsv).
  split; [exact E|]. split; [exact Hdirty|]. split; [exact Es|]. split; [exact Hf|]. intros b a Hba.
  pose proof (snapgrew_tracks h D D' G Hg Ht) as Ht'.
  assert (adj (-1 :: line h) 1 2) as Hadj.
  { rewrite Hl. repeat split; rewrite ?elem_of_cons, ?elem_of_nil; try intros x Hx; rewrite ?elem_of_cons, ?elem_of_nil in *; lia. }
  destruct (entsof_Some D' (inr (2, b)) a) as (l & El & Hal).
  { apply (tk_lists _ _ _ Ht' 1 2 b a Hadj). exists 2. destruct Hba as [[-> ->]|[-> ->]]; (split; [assumption|lia]). }
  destruct (Hsv 2 b l El) as (e & Hsave & Hgen & Hbgen & Hfree). exists e, l.
  split; [exact Hal|]. split; [exact Hsave|]. split; [exact Hgen|]. split; [exact Hbgen|exact Hfree].
Defined.
